(* ===== verification/_CoqProject ===== *)
-Q . S2P
Prelude.v
GoString.v
Float64.v
RateLimit.v
Http.v
Sha256.v
Duration.v
DurationText.v
Cache.v
Balancer.v
Router.v
Labels.v
LabelOverlay.v
Json.v
Url.v
Sso.v
Net.v
AuthGate.v
Login.v
OAuth.v
Passkey.v
Totp.v
Users.v
AuthStore.v
DashApi.v
DashPasskey.v
Docker.v
Clone.v
Services.v
Rolling.v
Promote.v
PeerMerge.v
AbConfig.v
AbLabels.v
AbRun.v
AbAssign.v
Assemble.v
Serve.v
AbServe.v
Pipeline.v
