(* ===== verification/Prelude.v ===== *)
(** * proxy-manager: a verification library for its request path, its accounts
      and its replicas

    proxy-manager is a reverse proxy for containers. [cmd/proxy] watches Docker,
    builds a routing table from container labels and a routes.json file, overlays
    labels kept in Redis and routes learned from peer proxies, and serves HTTP:
    it matches a request to a route, charges a rate limit, asks an authorization
    gate, decides an A/B variant, answers from a micro-cache or proxies to a
    backend chosen by weighted round robin, and retries on another. [cmd/auth] is
    the login portal and OAuth server that signs the cookies and tokens the gate
    verifies; it asks [cmd/dashboard], which keeps the accounts, about passwords,
    codes and API tokens, and which talks to Docker to scale, replace and promote
    the replicas of a service. The rest of [cmd/dashboard] and the other programs
    ([cmd/monitor], [cmd/edge], [cmd/statusbot]) manage, display and forward; they
    are not modelled.

    ** Parts and files

    Go's libraries, as far as the program uses them (definitions, not axioms):
    - [GoString]: strings, strconv; [Duration], [DurationText]:
      time.ParseDuration and its printer; [Float64]: binary64 arithmetic;
      [Sha256]: SHA-256, HMAC, hex, base64; [Json]: encoding/json; [Http]:
      header maps, requests, cookies; [Net]: addresses and networks; [Url]:
      url.Parse as far as redirects and audiences need it, query values.

    The program:
    - [RateLimit]: cmd/proxy/ratelimit.go (token bucket on float64, its gc) and
      redisrl.go (circuit breaker and local fallback). The class [Limiter] is the
      limiter interface of router.go; [LimiterLaws] is what the router relies on.
    - [Cache]: cmd/proxy/cache.go, the micro-cache: store, eviction, coalesced
      fills, keys, eligibility, the recorder of responses.
    - [Balancer]: Backend and RouteGroup of router.go and health.go. Backends are
      shared by pointer between groups, so they live in a store of locations.
    - [Router]: Router.Set and what it reconciles (limiters, caches, A/B runs,
      transports, tombstones, draining, health). [memory] holds the objects that
      groups point to. [step] is the relation of refreshes, Docker signals,
      health checks and time; theorems about executions are by induction on it.
      The class [ABRuntime] is what the table needs of an A/B run; [AbRun]
      implements it.
    - [Labels]: internal/labels, which labels may be set and to what.
      [LabelOverlay]: cmd/proxy/labeloverlay.go, labels in Redis, with the states
      a failing or wiped Redis goes through.
    - [Sso]: internal/sso, the signed cookie, actor header and OAuth blobs.
    - [AuthGate]: cmd/proxy/auth.go and oauth.go, authorize in its two modes, the
      bearer cache, the client's address, the OAuth metadata.
    - [Login]: cmd/auth/login.go, tokenlogin.go and ratelimit.go, the portal:
      password and recovery login, logout, CSRF, redirects. [OAuth]:
      cmd/auth/oauth.go, registration, consent, codes and refresh tokens.
      [Passkey]: cmd/auth/passkey.go, passkey_store.go and internal/webauthn,
      ceremonies and the credential store. The class [WebAuthn] is what they use
      of the go-webauthn library.
    - [Totp]: the one-time codes, base32 and PBKDF2 of cmd/dashboard/auth.go;
      [Users]: the stored records and their JSON; [AuthStore]: auth.go and
      authredis.go, the accounts of the dashboard, in its file or shared through a
      Redis key, with sessions, tokens and the guards; [DashApi]: the
      authentication endpoints of cmd/dashboard/api.go, and the portal and the
      proxy asking them; [DashPasskey]: cmd/dashboard/passkey.go, the ceremonies
      and credentials served beside them.
    - [Docker]: cmd/dashboard/docker.go and rollout.go as far as they talk to the
      daemon: creating, starting, draining, health gates. A program is a tree of
      requests ([prog]); what anybody answers may depend on all that was asked
      before ([world], [run]); [wp] is its program logic, over histories, and
      [always] that it ends. [Clone]: what a recreate carries over, edits or
      refuses; [Services]: scaling, replacing, canaries, deletion; [Rolling],
      [Promote]: what a replace, a promotion and a scaling guarantee, and a daemon
      that does what it is asked, on which they are run.
    - [PeerMerge]: cmd/proxy/peermerge.go, peersync.go and the overlay of
      abmesh.go, what is learned from peers, overlaid and advertised.
    - [AbConfig], [AbLabels], [AbRun], [AbAssign], [AbServe]: cmd/proxy/abtest.go
      and abmesh.go: an experiment's configuration and labels, its counters,
      windows and judge, a request's variant and pin, and the backend loop of a
      request under test.
    - [Assemble]: assembleGroupsWithOverlay of router.go, from labels and
      routes.json to groups.
    - [Serve]: proxyToGroup, tryProxy, the response writers, body replay, the
      Directors, and what httputil.ReverseProxy does with headers. The class
      [ResponseWriter] is http.ResponseWriter; every wrapper of the code is an
      instance over an arbitrary writer underneath.
    - [Pipeline]: ServeHTTP, dispatch and serveWithCache, which compose the above.

    A handler of the code is one definition, with the mutable objects it touches
    passed in and out. A run-time panic (nil dereference, index out of range,
    close of a closed channel, http.ErrAbortHandler) is the value [Panic] of [go],
    or the ending [Aborted]; an error result is [None] or a constructor. Integers
    whose width matters are wrapped ([uint], [sint]); times are nanoseconds in [Z].

    ** What the theorems show

    - A request ([Pipeline], [Serve], [AbServe]): it always ends; nothing reaches
      a backend or comes from the cache unless the route was matched and, if
      protected, the gate granted it; headers of trust never come from a client;
      at most three backends are tried, each once, each with the whole body; the
      client gets one answer; a session reaches its variant and is counted once.
    - The table ([Router], [Assemble], [PeerMerge]): the longest prefix wins;
      a drained backend is not picked; a vanished route is unavailable, not unknown; replicas protect
      their route; local configuration wins over peers, what was learned is not
      advertised again, and what is pushed is served.
    - Balancing ([Balancer]): picks are eligible, local before peer; full cycles
      give each backend its weight; health flips as documented.
    - Limits ([RateLimit]): a client's burst is bounded over any history; gc
      changes no answer; the breaker opens and the outage behaves as the local
      limiter.
    - Cache ([Cache]): its books balance and its bounds hold; put ends; one fill
      per key.
    - Tokens and gate ([Sso], [AuthGate]): what is signed verifies until it
      expires, and only that; a client cannot choose its address; without a secret
      the gate is closed; a path's token opens that path only.
    - The portal ([Login], [OAuth], [Passkey]): a session or code is given only
      for credentials the dashboard or a passkey vouches for; redirects stay on
      routed hosts; a code or refresh token is used once; codes need consent under
      the CSRF pair; domains do not see each other's passkeys.
    - The accounts ([Totp], [Users], [AuthStore], [DashApi]): an account comes from
      a confirmed enrolment; accounts change for the elevated only, except that a
      session enrols its own passkeys and a passkey's login counts its use; a
      change of the
      shared users is one atomic step whatever the other instances write; a code of
      the enrolled secret opens the API for the session's life; a portal session is
      of a user of the store, with its second factor; service tokens sign nobody in.
    - The replicas ([Rolling], [Promote]): whatever Docker, the network and the
      scheduler answer, a rolling replace keeps as many containers as served, each
      old or proven healthy, and leaves the others alone; a promotion retires no
      live member before its canaries passed the gate and each has its successor;
      scaling down spares canaries and what the dashboard did not create; all end.
    - Labels and experiments ([LabelOverlay], [AbConfig], [AbLabels], [AbRun],
      [AbAssign]): what is in force passed the validation; a failing Redis changes
      nothing; parsed configurations are well formed; counters add up, an abort
      has a cause and is final; what a run advertises a peer accepts; a session
      keeps its variant.

    ** Bounds and fuel

    Loops of the code are structural recursions, except the cache's eviction
    (fuel: the number of entries, shown enough by [put_total]), the text
    parsers, whose fuel is the length of the text, the polling of health gates
    (fuel: one more than the polls that fit the timeout, enough when the clock
    does not go back and a timer's wait takes its time) and the interleaving of
    parallel drains (fuel: five steps each); a program that ran out would be
    [Stuck], and the theorems show it is not. The round-robin theorems ask
    that the 64-bit cursor does not pass 2^63 - 1 during the picks considered
    ([cursor_ok]), since the code's signed index would panic there. The run's
    counters are stated for fewer than 2^63 steps.

    ** Arguments, and what is not modelled

    Arguments of the definitions: readings of the clock, one per call of the code;
    random draws and bytes; the network (a backend's exchange, a probe, Redis's
    reply, the dashboard's and /routes replies to the portal, the file system's
    answers; [DashApi] puts the dashboard's handlers in their place); what other
    instances write to the shared users, and when ([attempt]); the go-webauthn
    library, with its laws; the text of encoding/json's errors and the picture of
    a QR code; url.Parse of a backend's URL as
    the predicate [parses] of the theorems that use it; the iteration order of Go
    maps ([MapRange]); whether the compiler fuses x*y+z ([FloatUnit]); strconv's
    shortest decimal text of a float ([FloatText]); the fingerprint of a peer's
    experiment in [PeerMerge], which [AbRun] defines; the answers of Docker, of
    probes, of the central environments and the secrets' files, the clock and the
    scheduler of goroutines to the programs of [Docker], constrained by [lawful]
    (new containers get new ids, listings name each once, the clock is monotone).
    What other requests do to
    shared objects during one is an argument too ([world], [weather]), constrained
    where a theorem says so ([polite], [fair]).

    Left out: text beyond ASCII in case folding and in Quote; trailers, HTTP/2
    pushes and flushes of a response; how a transport joins a backend's base URL
    with the path; logging and metrics; the HTTP sync loops between peers; the
    parsing of docker's JSON; the bytes of the dashboard's account file, its audit
    log and the principal it puts into a request's context; encoding/json's depth
    limit; the HTML of the pages (they stand by name with the texts printed into
    them); of the replicas, createService, the label setters, the propagation of
    central environments and the rollouts over time; the deadlines of contexts,
    beyond a wait that the context ends; the rest of the dashboard, the monitor, the edge and the status bot. *)
From Stdlib Require Export ZArith Lia Ascii.
From stdpp Require Export base tactics option list list_numbers gmap strings fin_maps sets sorting numbers.
From stdpp Require Export list.

(** Go strings are byte sequences; here they are [String.string]. *)
Declare Scope go_scope.
Delimit Scope go_scope with go.
Global Open Scope Z_scope.
Global Open Scope go_scope.

Create HintDb pm.

(** ** Panics

    A Go operation that can index out of range or dereference nil returns
    [go A]: a value, or the run-time panic. *)

Inductive go (A : Type) : Type :=
| Ret (a : A)
| Panic.
Arguments Ret {A} _.
Arguments Panic {A}.

#[export] Instance go_ret : MRet go := fun A a => Ret a.
#[export] Instance go_bind : MBind go := fun A B f m =>
  match m with Ret a => f a | Panic => Panic end.
#[export] Instance go_fmap : FMap go := fun A B f m =>
  match m with Ret a => Ret (f a) | Panic => Panic end.

Lemma go_bind_Ret {A B} (f : A -> go B) (m : go A) b :
  m ≫= f = Ret b <-> exists a, m = Ret a /\ f a = Ret b.
Proof. destruct m; cbn; naive_solver. Qed.

(** A slice index expression [xs[i]] with a Go [int] index. *)
Definition slice_at {A} (xs : list A) (i : Z) : go A :=
  if decide (i < 0) then Panic
  else match xs !! Z.to_nat i with Some x => Ret x | None => Panic end.

Lemma slice_at_Ret {A} (xs : list A) i x :
  slice_at xs i = Ret x <-> 0 <= i /\ xs !! Z.to_nat i = Some x.
Proof.
  unfold slice_at. case_decide; [naive_solver lia|].
  destruct (xs !! Z.to_nat i); naive_solver lia.
Qed.

(** ** Machine integers *)

(** [uint w z] and [sint w z] are the value of [z] truncated to an unsigned,
    respectively two's complement signed, [w]-bit integer. *)
Definition uint (w z : Z) : Z := z mod 2 ^ w.
Definition sint (w z : Z) : Z := (z + 2 ^ (w - 1)) mod 2 ^ w - 2 ^ (w - 1).

Lemma uint_id w z : 0 <= z < 2 ^ w -> uint w z = z.
Proof. intros. unfold uint. by apply Z.mod_small. Qed.

Lemma uint_range w z : 0 <= w -> 0 <= uint w z < 2 ^ w.
Proof. intros. apply Z.mod_pos_bound. lia. Qed.

Lemma sint_id w z : 0 < w -> - 2 ^ (w - 1) <= z < 2 ^ (w - 1) -> sint w z = z.
Proof.
  intros Hw Hz. unfold sint. rewrite Z.mod_small; [lia|].
  replace (2 ^ w) with (2 * 2 ^ (w - 1)); [lia|].
  rewrite <- Z.pow_succ_r by lia. f_equal. lia.
Qed.

Lemma sint_range w z : 0 < w -> - 2 ^ (w - 1) <= sint w z < 2 ^ (w - 1).
Proof.
  intros Hw. unfold sint.
  assert (Hp : 2 ^ w = 2 * 2 ^ (w - 1)).
  { rewrite <- Z.pow_succ_r by lia. f_equal. lia. }
  pose proof (Z.mod_pos_bound (z + 2 ^ (w - 1)) (2 ^ w)) as Hb.
  assert (0 < 2 ^ (w - 1)) by lia. lia.
Qed.

Definition maxInt64 : Z := 2 ^ 63 - 1.
Definition minInt64 : Z := - 2 ^ 63.

(** ** Time

    [time.Time] is a count of nanoseconds on one clock; [time.Duration] is an
    int64 of nanoseconds. *)

Definition Nanosecond : Z := 1.
Definition Second : Z := 1000000000.
Definition Minute : Z := 60 * Second.
Definition Hour : Z := 60 * Minute.

(** [t.Sub(u)] saturates at the ends of the Duration range. *)
Definition time_sub (t u : Z) : Z := Z.max minInt64 (Z.min maxInt64 (t - u)).
(** [t.Before(u)] and [t.After(u)]. *)
Definition time_before (t u : Z) : bool := bool_decide (t < u).
Definition time_after (t u : Z) : bool := bool_decide (u < t).

Lemma time_sub_gt t u d : 0 <= d < maxInt64 -> (time_sub t u > d <-> t - u > d).
Proof. unfold time_sub, maxInt64, minInt64. lia. Qed.

(** ** Map iteration

    Go visits the entries of a map in an unspecified order. Code whose result
    depends on that order is modelled against this interface, so its theorems
    hold for every order the runtime may choose. *)
Class MapRange := {
  range_list : forall {A}, gmap string A -> list (string * A);
  range_perm : forall {A} (m : gmap string A), range_list m ≡ₚ map_to_list m;
}.

(** One order the runtime may choose, used to run the definitions. *)
#[export] Instance canonical_range : MapRange :=
  {| range_list A m := map_to_list m; range_perm A m := reflexivity _ |}.

Section range.
Context `{MapRange}.
Context {A : Type}.
Implicit Types m : gmap string A.

Lemma elem_of_range m k x : (k, x) ∈ range_list m <-> m !! k = Some x.
Proof. rewrite range_perm. apply elem_of_map_to_list. Qed.

Lemma range_NoDup m : NoDup ((range_list m).*1).
Proof. rewrite range_perm. apply NoDup_fst_map_to_list. Qed.
End range.

(** ** Tactics *)

(** Turns boolean tests on decidable propositions into propositions. *)
Ltac reflect_bools :=
  repeat match goal with
  | H : bool_decide _ = true |- _ => apply bool_decide_eq_true in H
  | H : bool_decide _ = false |- _ => apply bool_decide_eq_false in H
  | H : _ && _ = true |- _ => apply andb_true_iff in H; destruct H
  | H : _ || _ = false |- _ => apply orb_false_iff in H; destruct H
  | H : negb _ = true |- _ => apply negb_true_iff in H
  | H : negb _ = false |- _ => apply negb_false_iff in H
  end.

(** Case analysis on every [decide] and [match] of the goal. *)
Ltac split_cases := repeat (case_decide || case_match); simplify_eq/=.

(** ** Lists *)

Section lists.
Context {A B : Type}.

Lemma elem_of_flat_map (f : A -> list B) l y :
  y ∈ flat_map f l <-> exists x, x ∈ l /\ y ∈ f x.
Proof.
  induction l as [|a l IH]; cbn.
  - set_solver.
  - rewrite elem_of_app, IH. set_solver.
Qed.

(** The first element of [l] satisfying [p] (Go's search loop with break). *)
Fixpoint find_first (p : A -> bool) (l : list A) : option A :=
  match l with
  | [] => None
  | x :: l => if p x then Some x else find_first p l
  end.

Lemma find_first_Some p l x :
  find_first p l = Some x <->
  exists l1 l2, l = l1 ++ x :: l2 /\ p x = true /\ Forall (fun y => p y = false) l1.
Proof.
  split.
  - induction l as [|a l IH]; cbn; [done|]. destruct (p a) eqn:Ha; intros Hf.
    + simplify_eq. exists [], l. auto.
    + destruct (IH Hf) as (l1 & l2 & -> & ? & ?). exists (a :: l1), l2. auto.
  - intros (l1 & l2 & -> & Hx & Hl). induction Hl as [|a l1 Ha Hl IH]; cbn.
    + by rewrite Hx.
    + by rewrite Ha.
Qed.

Lemma find_first_None p l : find_first p l = None <-> Forall (fun y => p y = false) l.
Proof.
  induction l as [|a l IH]; cbn; [by split|]. rewrite Forall_cons.
  destruct (p a); naive_solver.
Qed.

Lemma find_first_elem p l x : find_first p l = Some x -> x ∈ l /\ p x = true.
Proof. intros (l1 & l2 & -> & ? & ?)%find_first_Some. set_solver. Qed.

End lists.

Lemma fst_eq_pair {A B} (p : A * B) a : p.1 = a -> p = (a, p.2).
Proof. by destruct p; intros <-. Qed.

(** Rotating a list permutes it: the round-robin argument. *)
Lemma rotate_perm {A} (n : nat) (l : list A) : drop n l ++ take n l ≡ₚ l.
Proof. transitivity (take n l ++ drop n l); [apply Permutation_app_comm|by rewrite take_drop]. Qed.

(** ** [sort.SliceStable]

    The stable sorted permutation is unique, so insertion sort computes the
    library's result. *)
Section stable_sort.
Context {A : Type} (less : A -> A -> bool).

Fixpoint insert_stable (x : A) (l : list A) : list A :=
  match l with
  | [] => [x]
  | y :: l' => if less y x then y :: insert_stable x l' else x :: l
  end.
Definition SliceStable (l : list A) : list A := foldr insert_stable [] l.

Lemma insert_stable_perm x l : insert_stable x l ≡ₚ x :: l.
Proof. induction l as [|y l IH]; cbn; [done|]. destruct (less y x); [|done]. rewrite IH. apply Permutation_swap. Qed.

Lemma SliceStable_perm l : SliceStable l ≡ₚ l.
Proof. induction l as [|x l IH]; cbn; [done|]. by rewrite insert_stable_perm, IH. Qed.

Lemma elem_of_SliceStable l x : x ∈ SliceStable l <-> x ∈ l.
Proof. by rewrite SliceStable_perm. Qed.

Definition not_before (x y : A) : Prop := less y x = false.

Lemma not_before_trans :
  (forall x y z, less x y = true -> less y z = true -> less x z = true) ->
  (forall x y, less x y = false -> less y x = false -> x = y) -> Transitive not_before.
Proof.
  unfold not_before. intros Htr Htot x y z Hyx Hzy. destruct (less z x) eqn:Hzx; [|done].
  destruct (less x y) eqn:Hxy; [specialize (Htr _ _ _ Hzx Hxy)|specialize (Htot _ _ Hxy Hyx); subst]; congruence.
Qed.

Lemma SliceStable_sorted l :
  (forall x y, less x y = true -> less y x = false) -> Transitive not_before ->
  StronglySorted not_before (SliceStable l).
Proof.
  intros Hasym Htr. induction l as [|x l IH]; cbn; [constructor|].
  revert IH. unfold SliceStable. generalize (foldr insert_stable [] l). clear l.
  induction 1 as [|y l' Hs IH Hy]; cbn; [repeat constructor|].
  destruct (less y x) eqn:Hyx.
  - constructor; [done|]. rewrite insert_stable_perm. constructor; [by apply Hasym|done].
  - constructor; [by constructor|]. constructor; [done|].
    eapply Forall_impl; [exact Hy|]. intros z Hz. by transitivity y.
Qed.

(** The first element of the result is a least one. *)
Lemma SliceStable_head l w :
  (forall x y, less x y = true -> less y x = false) -> Transitive not_before ->
  head (SliceStable l) = Some w -> w ∈ l /\ forall x, x ∈ l -> less x w = false.
Proof.
  intros Hasym Htr Hh. pose proof (SliceStable_sorted l Hasym Htr) as Hs.
  pose proof (SliceStable_perm l) as Hp. destruct (SliceStable l) as [|y l'] eqn:He; [done|]. injection Hh as ->.
  split; [rewrite <- Hp; by left|]. intros x. rewrite <- Hp. intros [->|Hx]%elem_of_cons.
  - destruct (less w w) eqn:Hw; [|done]. specialize (Hasym _ _ Hw). congruence.
  - apply StronglySorted_inv in Hs as [_ Hf]. rewrite Forall_forall in Hf. by apply Hf.
Qed.

(** Elements no comparison tells apart keep their order. *)
Lemma SliceStable_stable (p : A -> Prop) `{!forall x, Decision (p x)} l :
  (forall x y, p x -> p y -> less x y = false) -> filter p (SliceStable l) = filter p l.
Proof.
  intros Hp. induction l as [|x l IH]; [done|].
  change (SliceStable (x :: l)) with (insert_stable x (SliceStable l)).
  enough (forall m, filter p (insert_stable x m) = filter p (x :: m)) as ->.
  { rewrite !filter_cons. by rewrite IH. }
  induction m as [|y m IHm]; cbn [insert_stable]; [done|]. destruct (less y x) eqn:Hyx; [|done].
  rewrite (filter_cons _ y), IHm, !filter_cons.
  destruct (decide (p y)), (decide (p x)); try done.
  by rewrite Hp in Hyx.
Qed.
End stable_sort.

#[export] Hint Resolve uint_range sint_range : pm.
