(* ===== verification/GoString.v ===== *)
(** * The parts of Go's [strings] and [strconv] the program uses

    Strings are byte strings. Case mapping, folding and white space are those
    of ASCII text, which is what host names, header names, labels and the
    program's own identifiers consist of. *)
From S2P Require Import Prelude.
Open Scope string_scope.
#[global] Arguments String.append : simpl nomatch.

Definition ascii_N (c : ascii) : N := N_of_ascii c.
Definition chr (n : N) : ascii := ascii_of_N n.

Definition in_range (c lo hi : ascii) : bool :=
  (N.leb (ascii_N lo) (ascii_N c)) && (N.leb (ascii_N c) (ascii_N hi)).

Fixpoint map_bytes (f : ascii -> ascii) (s : string) : string :=
  match s with
  | EmptyString => EmptyString
  | String c s => String (f c) (map_bytes f s)
  end.

(** [strings.ToLower]. *)
Definition lower_byte (c : ascii) : ascii :=
  if in_range c "A" "Z" then chr (ascii_N c + 32) else c.
Definition ToLower (s : string) : string := map_bytes lower_byte s.

(** [strings.EqualFold]. *)
Definition EqualFold (a b : string) : bool := bool_decide (ToLower a = ToLower b).

(** [strings.HasPrefix], [strings.TrimPrefix], [strings.CutPrefix]. *)
Definition HasPrefix (s p : string) : bool := String.prefix p s.

Fixpoint CutPrefix (s p : string) {struct p} : option string :=
  match p, s with
  | EmptyString, _ => Some s
  | String c p, String d s => if Ascii.eqb c d then CutPrefix s p else None
  | String _ _, EmptyString => None
  end.

Definition TrimPrefix (s p : string) : string := default s (CutPrefix s p).

Fixpoint rev_app (s acc : string) : string :=
  match s with
  | EmptyString => acc
  | String c s => rev_app s (String c acc)
  end.
Definition rev_string (s : string) : string := rev_app s "".

(** [strings.HasSuffix] and [strings.TrimSuffix]. *)
Definition HasSuffix (s q : string) : bool := HasPrefix (rev_string s) (rev_string q).
Definition TrimSuffix (s q : string) : string :=
  match CutPrefix (rev_string s) (rev_string q) with
  | Some r => rev_string r
  | None => s
  end.

(** [strings.TrimSpace]: tab, newline, vertical tab, form feed, carriage
    return and space. *)
Definition is_space (c : ascii) : bool :=
  in_range c (chr 9) (chr 13) || Ascii.eqb c " ".

Fixpoint trim_left (s : string) : string :=
  match s with
  | EmptyString => EmptyString
  | String c s' => if is_space c then trim_left s' else s
  end.

Fixpoint trim_right (s : string) : string :=
  match s with
  | EmptyString => EmptyString
  | String c s =>
      match trim_right s with
      | EmptyString => if is_space c then EmptyString else String c EmptyString
      | t => String c t
      end
  end.

Definition TrimSpace (s : string) : string := trim_right (trim_left s).

(** [strings.Split] with a one-byte separator. *)
Fixpoint Split (s : string) (sep : ascii) : list string :=
  match s with
  | EmptyString => [EmptyString]
  | String c s =>
      if Ascii.eqb c sep then EmptyString :: Split s sep
      else match Split s sep with
           | p :: ps => String c p :: ps
           | [] => [String c EmptyString]
           end
  end.

(** [strings.Join]. *)
Fixpoint Join (l : list string) (sep : string) : string :=
  match l with
  | [] => ""
  | [x] => x
  | x :: l => x +:+ sep +:+ Join l sep
  end.

(** [strings.Cut] at a one-byte separator. *)
Fixpoint Cut (s : string) (sep : ascii) : option (string * string) :=
  match s with
  | EmptyString => None
  | String c s =>
      if Ascii.eqb c sep then Some (EmptyString, s)
      else match Cut s sep with
           | Some (a, b) => Some (String c a, b)
           | None => None
           end
  end.

Fixpoint all_bytes (p : ascii -> bool) (s : string) : bool :=
  match s with
  | EmptyString => true
  | String c s => p c && all_bytes p s
  end.

Definition has_byte (c : ascii) (s : string) : bool :=
  negb (all_bytes (fun d => negb (Ascii.eqb d c)) s).

(** [strings.IndexByte] together with the slice [s[:i]] it is used for. *)
Fixpoint before_byte (s : string) (c : ascii) : string :=
  match s with
  | EmptyString => EmptyString
  | String d s => if Ascii.eqb d c then EmptyString else String d (before_byte s c)
  end.

(** [len(s)]. *)
Definition len (s : string) : Z := Z.of_nat (String.length s).

(** ** Facts *)

Lemma append_nil_r s : s +:+ "" = s.
Proof. induction s as [|c s IH]; cbn; [done|]. by rewrite IH. Qed.

Lemma append_assoc a b c : (a +:+ b) +:+ c = a +:+ (b +:+ c).
Proof. induction a as [|x a IH]; cbn; [done|]. by rewrite IH. Qed.

Lemma CutPrefix_Some s p r : CutPrefix s p = Some r <-> s = p +:+ r.
Proof.
  revert s. induction p as [|c p IH]; intros s; cbn; [split; congruence|].
  destruct s as [|d s]; cbn; [split; congruence|].
  destruct (Ascii.eqb_spec c d) as [->|]; [rewrite IH; split; congruence|].
  split; [done|congruence].
Qed.

Lemma CutPrefix_app p r : CutPrefix (p +:+ r) p = Some r.
Proof. by apply CutPrefix_Some. Qed.

Lemma HasPrefix_Cut s p : HasPrefix s p = true <-> exists r, s = p +:+ r.
Proof.
  unfold HasPrefix. revert s. induction p as [|c p IH]; intros s; cbn.
  - split; [by exists s|by destruct s].
  - destruct s as [|d s]; cbn; [split; [discriminate|by intros [r Hr]]|].
    destruct (ascii_dec c d) as [->|]; [rewrite IH|split; [discriminate|intros [r Hr]; congruence]].
    split; intros [r Hr]; exists r; congruence.
Qed.

Lemma HasPrefix_app p r : HasPrefix (p +:+ r) p = true.
Proof. apply HasPrefix_Cut. eauto. Qed.

Lemma TrimPrefix_app p r : TrimPrefix (p +:+ r) p = r.
Proof. unfold TrimPrefix. by rewrite CutPrefix_app. Qed.

Lemma length_append a b :
  String.length (a +:+ b) = (String.length a + String.length b)%nat.
Proof. induction a; cbn; congruence. Qed.

Lemma HasPrefix_length s p : HasPrefix s p = true -> len p <= len s.
Proof. intros [r ->]%HasPrefix_Cut. unfold len. rewrite length_append. lia. Qed.

(** Two prefixes of one string that have the same length are equal. *)
Lemma HasPrefix_total s p q :
  HasPrefix s p = true -> HasPrefix s q = true -> len p = len q -> p = q.
Proof.
  intros [r ->]%HasPrefix_Cut [r' Hr]%HasPrefix_Cut. unfold len. rewrite Nat2Z.inj_iff.
  revert q r r' Hr. induction p as [|c p IH]; intros [|d q] r r' Hr Hl; cbn in *; try done.
  injection Hr as -> Hr. injection Hl as Hl. f_equal. eauto.
Qed.

Lemma Split_nonempty s sep : Split s sep <> [].
Proof. destruct s as [|c s]; cbn; [done|]. by destruct (Ascii.eqb c sep), (Split s sep). Qed.

Lemma Join_cons x l sep : l <> [] -> Join (x :: l) sep = x +:+ sep +:+ Join l sep.
Proof. by destruct l. Qed.

Lemma Join_Split s sep : Join (Split s sep) (String sep "") = s.
Proof.
  induction s as [|c s IH]; cbn; [done|].
  destruct (Ascii.eqb_spec c sep) as [->|].
  - rewrite Join_cons by apply Split_nonempty. cbn. by rewrite IH.
  - pose proof (Split_nonempty s sep). destruct (Split s sep) as [|p ps]; [done|].
    destruct ps; cbn in *; by rewrite <- IH.
Qed.

Lemma Split_free s sep : has_byte sep s = false -> Split s sep = [s].
Proof.
  unfold has_byte. rewrite negb_false_iff. induction s as [|c s IH]; cbn; [done|].
  intros [Hc Hs]%andb_true_iff. apply negb_true_iff in Hc. by rewrite Hc, IH.
Qed.

Lemma Split_app_sep a b sep :
  has_byte sep a = false -> Split (a +:+ String sep b) sep = a :: Split b sep.
Proof.
  unfold has_byte. rewrite negb_false_iff. induction a as [|c a IH]; cbn.
  - by rewrite Ascii.eqb_refl.
  - intros [Hc Hs]%andb_true_iff. apply negb_true_iff in Hc. by rewrite Hc, (IH Hs).
Qed.

Lemma Split_parts_free s sep : Forall (fun p => has_byte sep p = false) (Split s sep).
Proof.
  induction s as [|c s IH]; cbn; [by repeat constructor|].
  destruct (Ascii.eqb c sep) eqn:Hc; [by constructor|].
  destruct (Split s sep) as [|p ps]; inversion_clear IH; repeat constructor; try done;
    unfold has_byte in *; cbn; by rewrite Hc.
Qed.

(** A string holding [sep] splits into at least two parts. *)
Lemma Split_has s sep : has_byte sep s = true -> (2 <= length (Split s sep))%nat.
Proof.
  induction s as [|c s IH]; cbn; [done|].
  unfold has_byte in *; cbn. destruct (Ascii.eqb c sep); cbn; intros Hs.
  - pose proof (Split_nonempty s sep). destruct (Split s sep); cbn; [done|lia].
  - specialize (IH Hs). destruct (Split s sep); cbn in *; lia.
Qed.

Lemma Split_app a b sep :
  (length (Split (a +:+ String sep b) sep) = length (Split a sep) + length (Split b sep))%nat.
Proof.
  induction a as [|c a IH]; cbn; [by rewrite Ascii.eqb_refl|].
  destruct (Ascii.eqb c sep); cbn; [by rewrite IH|].
  pose proof (Split_nonempty a sep). pose proof (Split_nonempty (a +:+ String sep b) sep).
  destruct (Split a sep), (Split (a +:+ String sep b) sep); cbn in *; done.
Qed.

Lemma Cut_Some s sep a b :
  Cut s sep = Some (a, b) <-> s = a +:+ String sep b /\ has_byte sep a = false.
Proof.
  unfold has_byte. rewrite negb_false_iff. revert a b. induction s as [|c s IH]; intros a b; cbn.
  - split; [done|]. by intros [H _]; destruct a.
  - destruct (Ascii.eqb_spec c sep) as [->|Hne].
    + split; [by intros [= <- <-]|]. intros [H Ha]. destruct a as [|x a]; cbn in *; [congruence|].
      injection H as -> _. by rewrite Ascii.eqb_refl in Ha.
    + destruct (Cut s sep) as [[a' b']|] eqn:E.
      * split.
        -- intros [= <- <-]. destruct (proj1 (IH _ _) eq_refl) as [-> ?]; cbn.
           apply Ascii.eqb_neq in Hne. by rewrite Hne.
        -- intros [H Ha]. destruct a as [|x a]; cbn in *; [congruence|].
           injection H as -> ->. apply andb_true_iff in Ha as [_ Ha].
           assert (Some (a', b') = Some (a, b)) as [= -> ->] by (by apply IH). done.
      * split; [done|]. intros [H Ha]. destruct a as [|x a]; cbn in *; [congruence|].
        injection H as -> ->. apply andb_true_iff in Ha as [_ Ha].
        assert (None = Some (a, b)) by (by apply IH). done.
Qed.

Lemma has_byte_app c a b : has_byte c (a +:+ b) = has_byte c a || has_byte c b.
Proof.
  unfold has_byte. rewrite <- negb_andb. f_equal.
  induction a as [|x a IH]; cbn; [done|]. by rewrite IH, andb_assoc.
Qed.

(** ** Integers in decimal *)

Definition digit (n : Z) : ascii := chr (48 + Z.to_N n).
Definition is_digit (c : ascii) : bool := in_range c "0" "9".
Definition digit_val (c : ascii) : Z := Z.of_N (ascii_N c) - 48.

Fixpoint fmt_digits (fuel : nat) (n : Z) (acc : string) : string :=
  match fuel with
  | O => acc
  | S fuel =>
      let acc := String (digit (n mod 10)) acc in
      if decide (n / 10 = 0) then acc else fmt_digits fuel (n / 10) acc
  end.

(** [strconv.FormatInt(n, 10)] and [strconv.Itoa]; 20 digits hold every
    64-bit integer. *)
Definition FormatInt (n : Z) : string :=
  if decide (n < 0) then String "-" (fmt_digits 20 (- n) "") else fmt_digits 20 n "".

Fixpoint parse_digits (s : string) (acc : Z) : option Z :=
  match s with
  | EmptyString => Some acc
  | String c s => if is_digit c then parse_digits s (10 * acc + digit_val c) else None
  end.

Definition in_int64 (n : Z) : option Z :=
  if decide (minInt64 <= n <= maxInt64) then Some n else None.

(** [strconv.ParseInt(s, 10, 64)] and [strconv.Atoi]: an optional sign, at
    least one digit, and no overflow of int64. *)
Definition ParseInt (s : string) : option Z :=
  match s with
  | EmptyString => None
  | String c r =>
      if Ascii.eqb c "-" then
        if decide (r = "") then None else n ← parse_digits r 0; in_int64 (- n)
      else if Ascii.eqb c "+" then
        if decide (r = "") then None else n ← parse_digits r 0; in_int64 n
      else n ← parse_digits s 0; in_int64 n
  end.
Definition Atoi (s : string) : option Z := ParseInt s.

Example format_0 : FormatInt 0 = "0". Proof. reflexivity. Qed.
Example format_neg : FormatInt (-1205) = "-1205". Proof. reflexivity. Qed.
Example parse_max : ParseInt "9223372036854775807" = Some maxInt64. Proof. reflexivity. Qed.
Example parse_over : ParseInt "9223372036854775808" = None. Proof. reflexivity. Qed.
Example split_ex : Split "a,,b" "," = ["a"; ""; "b"]. Proof. reflexivity. Qed.
Example trim_ex : TrimSpace "  a b	" = "a b". Proof. reflexivity. Qed.

Lemma is_digit_digit n : 0 <= n < 10 -> is_digit (digit n) = true /\ digit_val (digit n) = n.
Proof.
  intros Hn. assert (Hall : Forall (fun k => is_digit (digit k) = true /\ digit_val (digit k) = k) (seqZ 0 10))
    by (repeat constructor).
  rewrite Forall_forall in Hall. apply Hall. apply elem_of_seqZ. lia.
Qed.

Lemma fmt_digits_nonempty fuel n acc : acc <> "" -> fmt_digits fuel n acc <> "".
Proof.
  revert n acc. induction fuel as [|fuel IH]; intros n acc Ha; cbn; [done|].
  case_decide; [done|]. by apply IH.
Qed.

Lemma parse_fmt_digits fuel n acc k :
  0 <= n < 10 ^ Z.of_nat fuel -> 0 <= k ->
  parse_digits (fmt_digits fuel n acc) k =
  parse_digits acc (k * 10 ^ Z.of_nat (String.length (fmt_digits fuel n acc) - String.length acc) + n) /\
  (String.length acc <= String.length (fmt_digits fuel n acc))%nat.
Proof.
  revert n acc k. induction fuel as [|fuel IH]; intros n acc k Hn Hk.
  { cbn in *. replace n with 0 by lia. split; [|lia].
    replace (_ - _)%nat with 0%nat by lia. f_equal. cbn. lia. }
  cbn [fmt_digits]. pose proof (Z.mod_pos_bound n 10 ltac:(lia)) as Hm.
  pose proof (Z.div_mod n 10 ltac:(lia)) as Hdm.
  destruct (is_digit_digit (n mod 10) Hm) as [Hd Hv].
  case_decide as Hz.
  - split; [|cbn; lia]. cbn [String.length]. replace (S _ - _)%nat with 1%nat by lia.
    cbn [parse_digits]. rewrite Hd, Hv. f_equal. rewrite Z.pow_1_r. lia.
  - destruct (IH (n / 10) (String (digit (n mod 10)) acc) k) as [Hp Hl]; [|done|].
    { split; [apply Z.div_pos; lia|]. apply Z.div_lt_upper_bound; [lia|].
      rewrite <- Z.pow_succ_r by lia. replace (Z.succ _) with (Z.of_nat (S fuel)) by lia. lia. }
    set (r := fmt_digits fuel (n / 10) (String (digit (n mod 10)) acc)) in *.
    cbn [String.length] in Hl. split; [|lia]. rewrite Hp. cbn [parse_digits]. rewrite Hd, Hv.
    f_equal. replace (String.length r - String.length acc)%nat
      with (S (String.length r - String.length (String (digit (n mod 10)) acc)))%nat by (cbn; lia).
    rewrite Nat2Z.inj_succ, Z.pow_succ_r by lia. lia.
Qed.

Lemma fmt_digits_first fuel n acc :
  (0 < fuel)%nat -> 0 <= n ->
  exists c r, fmt_digits fuel n acc = String c r /\ is_digit c = true.
Proof.
  revert n acc. induction fuel as [|fuel IH]; intros n acc Hf Hn; [lia|]. cbn.
  destruct (is_digit_digit (n mod 10)) as [Hd _]; [by apply Z.mod_pos_bound|].
  case_decide; [eauto|]. destruct fuel as [|fuel]; [cbn; eauto|].
  apply IH; [lia|]. by apply Z.div_pos.
Qed.

(** Parsing undoes formatting, for every int64. *)
Lemma ParseInt_FormatInt n : minInt64 <= n <= maxInt64 -> ParseInt (FormatInt n) = Some n.
Proof.
  unfold minInt64, maxInt64. intros Hn. unfold FormatInt. case_decide as Hneg.
  - unfold ParseInt. rewrite Ascii.eqb_refl. rewrite decide_False.
    2:{ destruct (fmt_digits_first 20 (- n) "") as (c & r & -> & _); [lia|lia|done]. }
    destruct (parse_fmt_digits 20 (- n) "" 0) as [Hp _]; [cbn; lia|lia|]. rewrite Hp. cbn.
    unfold in_int64, minInt64, maxInt64. rewrite decide_True by lia. f_equal. lia.
  - destruct (parse_fmt_digits 20 n "" 0) as [Hp _]; [cbn; lia|lia|].
    destruct (fmt_digits_first 20 n "") as (c & r & Hf & Hc); [lia|lia|].
    rewrite Hf in *. unfold ParseInt.
    destruct (Ascii.eqb_spec c "-") as [->|_]; [done|].
    destruct (Ascii.eqb_spec c "+") as [->|_]; [done|].
    rewrite Hp. cbn. unfold in_int64, minInt64, maxInt64. by rewrite decide_True by lia.
Qed.

Lemma fmt_digits_free sep fuel n acc :
  is_digit sep = false -> 0 <= n -> has_byte sep acc = false ->
  has_byte sep (fmt_digits fuel n acc) = false.
Proof.
  intros Hs. revert n acc. induction fuel as [|fuel IH]; intros n acc Hn Ha; cbn; [done|].
  destruct (is_digit_digit (n mod 10)) as [Hd _]; [by apply Z.mod_pos_bound|].
  assert (Ha' : has_byte sep (String (digit (n mod 10)) acc) = false).
  { unfold has_byte in *; cbn. rewrite negb_false_iff in *. rewrite Ha, andb_true_r.
    destruct (Ascii.eqb_spec (digit (n mod 10)) sep); [congruence|done]. }
  case_decide; [done|]. apply IH; [by apply Z.div_pos|done].
Qed.

Lemma FormatInt_free sep n :
  is_digit sep = false -> sep <> "-"%char -> has_byte sep (FormatInt n) = false.
Proof.
  intros Hd Hm. unfold FormatInt. case_decide.
  - pose proof (fmt_digits_free sep 20 (- n) "" Hd ltac:(lia) eq_refl) as Hf.
    unfold has_byte in *; cbn [all_bytes]. rewrite negb_false_iff in *. rewrite Hf.
    by destruct (Ascii.eqb_spec "-" sep); [congruence|].
  - apply fmt_digits_free; [done|lia|done].
Qed.

(** ** Letter case *)

Lemma lower_byte_idem c : lower_byte (lower_byte c) = lower_byte c.
Proof. destruct c as [[] [] [] [] [] [] [] []]; reflexivity. Qed.
Lemma ToLower_app a b : ToLower (a +:+ b) = ToLower a +:+ ToLower b.
Proof. unfold ToLower. induction a as [|c a IH]; cbn; [done|]. by rewrite IH. Qed.
Lemma ToLower_idem a : ToLower (ToLower a) = ToLower a.
Proof. unfold ToLower. induction a as [|c a IH]; cbn; [done|]. by rewrite IH, lower_byte_idem. Qed.

(** ** Comma-separated lists *)

Definition trimmed_parts (s : string) : list string :=
  filter (fun p => p <> "") (TrimSpace <$> Split s ",").

(** A property of bytes that is decided by trying all of them. *)
Lemma byte_check (p : ascii -> bool) : forallb (fun n => p (chr (N.of_nat n))) (seq 0 256) = true -> forall c, p c = true.
Proof.
  intros Hall c. rewrite forallb_forall in Hall. specialize (Hall (nat_of_ascii c)). unfold chr in Hall.
  unfold nat_of_ascii in Hall. rewrite N2Nat.id, ascii_N_embedding in Hall. apply Hall, in_seq.
  pose proof (N_ascii_bounded c). lia.
Qed.

(** Text that trimming leaves alone, and lists of it that survive a join. *)
Definition trimmed (s : string) : Prop := TrimSpace s = s.

Lemma trim_right_idem s : trim_right (trim_right s) = trim_right s.
Proof.
  induction s as [|c s IH]; [done|]. cbn [trim_right]. destruct (trim_right s) as [|d t] eqn:Ht.
  - destruct (is_space c) eqn:Hc; [done|]. cbn. by rewrite Hc.
  - cbn [trim_right] in *. destruct (trim_right t) eqn:Hrt; rewrite IH; [|done]. done.
Qed.

Lemma trim_left_head s c t : trim_left s = String c t -> is_space c = false.
Proof. induction s as [|d s IH]; [done|]. cbn. destruct (is_space d) eqn:Hd; [done|]. by intros [= <- _]. Qed.

Lemma trim_right_head s c t : trim_right s = String c t -> exists s', s = String c s'.
Proof.
  destruct s as [|d s]; [done|]. cbn. destruct (trim_right s); [destruct (is_space d); [done|]|]; intros [= -> _]; eauto.
Qed.

Lemma trimmed_TrimSpace s : trimmed (TrimSpace s).
Proof.
  unfold trimmed, TrimSpace. destruct (trim_right (trim_left s)) as [|c t] eqn:Ht; [done|].
  destruct (trim_right_head _ _ _ Ht) as [s' Hs]. pose proof (trim_left_head _ _ _ Hs) as Hc.
  cbn [trim_left]. rewrite Hc, <- Ht. apply trim_right_idem.
Qed.

Lemma trim_left_free c s : has_byte c s = false -> has_byte c (trim_left s) = false.
Proof.
  induction s as [|d s IH]; [done|]. intros Hb. cbn [trim_left]. destruct (is_space d); [|done]. apply IH.
  unfold has_byte in *. cbn in Hb. rewrite negb_false_iff in *. by apply andb_true_iff in Hb as [_ ?].
Qed.
Lemma trim_right_free c s : has_byte c s = false -> has_byte c (trim_right s) = false.
Proof.
  unfold has_byte. rewrite !negb_false_iff. induction s as [|d s IH]; [done|]. cbn. intros [Hd Hs]%andb_true_iff.
  specialize (IH Hs). destruct (trim_right s); [destruct (is_space d); [done|]|]; cbn in *; by rewrite Hd.
Qed.

Lemma Split_Join l sep :
  l <> [] -> Forall (fun p => has_byte sep p = false) l -> Split (Join l (String sep "")) sep = l.
Proof.
  intros Hne. induction 1 as [|p l Hp Hl IH]; [done|]. destruct l as [|q l].
  - by apply Split_free.
  - rewrite Join_cons by done. change (String sep "" +:+ Join (q :: l) (String sep "")) with (String sep (Join (q :: l) (String sep ""))).
    by rewrite Split_app_sep, IH by done.
Qed.

(** What the elements of a comma-separated label look like after parsing. *)
Definition list_item (p : string) : Prop := p <> "" /\ trimmed p /\ has_byte "," p = false.

Lemma trimmed_parts_items s : Forall list_item (trimmed_parts s).
Proof.
  apply Forall_forall. intros p [Hne Hp]%list_elem_of_filter. apply list_elem_of_fmap in Hp as (q & -> & Hq).
  split_and!; [done|apply trimmed_TrimSpace|]. pose proof (Split_parts_free s ",") as Hf. rewrite Forall_forall in Hf.
  by apply trim_right_free, trim_left_free, Hf.
Qed.

Lemma trimmed_parts_Join l : l <> [] -> Forall list_item l -> trimmed_parts (Join l ",") = l.
Proof.
  intros Hne Hl. unfold trimmed_parts. rewrite Split_Join; [|done|by eapply Forall_impl; [exact Hl|intros p (_ & _ & Hp)]].
  clear Hne. induction Hl as [|p l (Hp & Ht & _) Hl IH]; [done|]. rewrite fmap_cons, Ht, filter_cons_True by done. by rewrite IH.
Qed.

Lemma Join_ne l : l <> [] -> Forall list_item l -> Join l "," <> "".
Proof. intros Hne Hl. destruct Hl as [|p l (Hp & _ & _) Hl]; [done|]. destruct l; [done|]. cbn. by destruct p. Qed.

(** [strings.Contains]. *)
Fixpoint StrContains (s p : string) : bool :=
  HasPrefix s p || match s with String _ s => StrContains s p | EmptyString => false end.

(** ** Go's [<] on strings is a strict total order *)

Lemma ltb_cons a b s t : String.ltb (String a s) (String b t) =
  match Ascii.compare a b with Lt => true | Gt => false | Eq => String.ltb s t end.
Proof. unfold String.ltb. cbn [String.compare]. by destruct (Ascii.compare a b). Qed.

Lemma ltb_irrefl s : String.ltb s s = false.
Proof.
  induction s as [|c s IH]; [done|]. rewrite ltb_cons. destruct (Ascii.compare c c) eqn:Hc; [done| |done].
  pose proof (Ascii.compare_antisym c c) as Ha. by rewrite Hc in Ha.
Qed.

Lemma ltb_asym s t : String.ltb s t = true -> String.ltb t s = false.
Proof. unfold String.ltb. rewrite (String.compare_antisym t s). by destruct (String.compare s t). Qed.

Lemma ltb_trans s t u : String.ltb s t = true -> String.ltb t u = true -> String.ltb s u = true.
Proof.
  revert t u. induction s as [|a s IH]; intros [|b t] [|c u]; try done. rewrite !ltb_cons.
  unfold Ascii.compare. destruct (N.compare_spec (N_of_ascii a) (N_of_ascii b)) as [Hab|Hab|Hab],
    (N.compare_spec (N_of_ascii b) (N_of_ascii c)) as [Hbc|Hbc|Hbc]; intros H1 H2; try done.
  - rewrite Hab, Hbc, N.compare_refl. eauto.
  - by rewrite Hab, (proj2 (N.compare_lt_iff _ _)).
  - by rewrite <- Hbc, (proj2 (N.compare_lt_iff _ _)).
  - rewrite (proj2 (N.compare_lt_iff _ _)); [done|by etrans].
Qed.

Lemma ltb_total s t : String.ltb s t = false -> String.ltb t s = false -> s = t.
Proof.
  unfold String.ltb. rewrite (String.compare_antisym t s). destruct (String.compare s t) eqn:Hc; try done.
  intros _ _. by apply String.compare_eq_iff.
Qed.

#[export] Hint Rewrite CutPrefix_app HasPrefix_app TrimPrefix_app append_nil_r append_assoc : gostring.

(** ** Reversal *)

Lemma rev_app_app a acc : rev_app a acc = rev_string a +:+ acc.
Proof.
  unfold rev_string. revert acc. induction a as [|c a IH]; intros acc; [done|]. cbn [rev_app].
  rewrite IH, (IH (String c "")), append_assoc. done.
Qed.
Lemma rev_string_app a b : rev_string (a +:+ b) = rev_string b +:+ rev_string a.
Proof.
  induction a as [|c a IH]; [by rewrite append_nil_r|]. unfold rev_string in *. cbn [String.append rev_app].
  rewrite !(rev_app_app _ (String c "")). unfold rev_string. by rewrite IH, append_assoc.
Qed.
Lemma rev_string_rev a : rev_string (rev_string a) = a.
Proof.
  induction a as [|c a IH]; [done|]. change (String c a) with (String c "" +:+ a) at 1.
  rewrite rev_string_app. change (rev_string (String c "")) with (String c ""). by rewrite rev_string_app, IH.
Qed.

(** ** Strings of one class of bytes *)

Lemma has_byte_cons c d s : has_byte c (String d s) = Ascii.eqb d c || has_byte c s.
Proof. unfold has_byte. cbn. by destruct (Ascii.eqb d c). Qed.

Lemma all_bytes_free p c s : all_bytes p s = true -> p c = false -> has_byte c s = false.
Proof.
  intros Hs Hc. unfold has_byte. rewrite negb_false_iff. induction s as [|a s IH]; [done|]. cbn in *.
  apply andb_true_iff in Hs as [Ha Hs]. rewrite IH by done. destruct (Ascii.eqb_spec a c); [congruence|done].
Qed.

Lemma all_bytes_mono (p q : ascii -> bool) s :
  forallb (fun n => negb (p (chr (N.of_nat n))) || q (chr (N.of_nat n))) (seq 0 256) = true -> all_bytes p s = true -> all_bytes q s = true.
Proof.
  intros Hpq. assert (forall c, negb (p c) || q c = true) as H by (intros c; by apply (byte_check (fun c => negb (p c) || q c))).
  induction s as [|c s IH]; [done|]. cbn. intros [Hc Hs]%andb_true_iff. rewrite IH by done. specialize (H c). by rewrite Hc in H; cbn in H; rewrite H.
Qed.

Lemma all_bytes_app p a b : all_bytes p (a +:+ b) = all_bytes p a && all_bytes p b.
Proof. induction a as [|c a IH]; cbn; [done|]. by rewrite IH, andb_assoc. Qed.

Lemma all_bytes_rev p s : all_bytes p (rev_string s) = all_bytes p s.
Proof.
  induction s as [|c s IH]; [done|]. change (String c s) with (String c "" +:+ s). rewrite rev_string_app, all_bytes_app, IH.
  change (rev_string (String c "")) with (String c ""). cbn. destruct (p c), (all_bytes p s); done.
Qed.
