(* ===== verification/Float64.v ===== *)
(** * IEEE 754 binary64 arithmetic, as Go's [float64]

    A finite double is an integral multiple of 2^-1074, so it is represented
    by that integer: [n] stands for the number n * 2^-1074. Every operation is
    the exact result rounded to nearest, ties to even, on a 53-bit significand
    (subnormals included). Infinities and NaN do not occur for the values the
    program computes with (rates, seconds and token counts) and are left out. *)
From S2P Require Import Prelude.

Notation float64 := Z (only parsing).

(** [a / b] to the nearest integer, ties to even. *)
Definition rne_div (a b : Z) : Z :=
  let q := a / b in
  let r := a mod b in
  if decide (2 * r < b) then q
  else if decide (b < 2 * r) then q + 1
  else if Z.even q then q else q + 1.

(** The exponent of the last place of a double at the magnitude of [p / d]. *)
Definition last_place (p d : Z) : Z := Z.max 0 (Z.log2 (p / d) - 52).

Definition round_pos (p d : Z) : Z :=
  let k := last_place p d in rne_div p (d * 2 ^ k) * 2 ^ k.

(** The double nearest to the rational [p / d]. *)
Definition round (p d : Z) : float64 :=
  if decide (p < 0) then - round_pos (- p) d else round_pos p d.

Definition one : float64 := 2 ^ 1074.
Definition of_int (n : Z) : float64 := round (n * one) 1.
Definition fadd (a b : float64) : float64 := round (a + b) 1.
Definition fsub (a b : float64) : float64 := round (a - b) 1.
Definition fmul (a b : float64) : float64 := round (a * b) one.
Definition fdiv (a b : float64) : float64 := round (a * one) b.
Definition fmin (a b : float64) : float64 := Z.min a b.

(** ** Rounding to nearest *)

Lemma rne_div_mono a b c d :
  0 < b -> 0 < d -> a * d <= c * b -> rne_div a b <= rne_div c d.
Proof.
  intros Hb Hd Hle. unfold rne_div.
  pose proof (Z.div_mod a b ltac:(lia)). pose proof (Z.mod_pos_bound a b Hb).
  pose proof (Z.div_mod c d ltac:(lia)). pose proof (Z.mod_pos_bound c d Hd).
  set (q := a / b) in *. set (r := a mod b) in *. set (q' := c / d) in *. set (r' := c mod d) in *.
  assert (Hq : q <= q').
  { apply Z.div_le_lower_bound; [lia|]. apply (Z.mul_le_mono_pos_r _ _ b); [lia|]. nia. }
  destruct (decide (q = q')) as [<-|Hne].
  - assert (r * d <= r' * b) by nia.
    assert (b < 2 * r -> d < 2 * r') by nia.
    assert (b = 2 * r -> d <= 2 * r') by nia.
    repeat case_decide; destruct (Z.even q); lia.
  - repeat case_decide; destruct (Z.even q), (Z.even q'); lia.
Qed.

Lemma rne_div_exact m b : 0 < b -> rne_div (m * b) b = m.
Proof.
  intros Hb. unfold rne_div. rewrite Z.mod_mul, Z.div_mul by lia.
  by rewrite decide_True by lia.
Qed.

Lemma rne_div_le a b m : 0 < b -> a <= m * b -> rne_div a b <= m.
Proof.
  intros Hb Ha. rewrite <- (rne_div_exact m b Hb). apply rne_div_mono; nia.
Qed.

Lemma rne_div_ge a b m : 0 < b -> m * b <= a -> m <= rne_div a b.
Proof.
  intros Hb Ha. rewrite <- (rne_div_exact m b Hb) at 1. apply rne_div_mono; nia.
Qed.

Lemma last_place_nonneg p d : 0 <= last_place p d.
Proof. unfold last_place. lia. Qed.

(** The binade of [p / d]: a power of two strictly above it whose last place
    is the same, and one below it when the last place is not the smallest. *)
Lemma binade_above p d :
  0 < d -> 0 <= p -> p <= 2 ^ (last_place p d + 53) * d.
Proof.
  intros Hd Hp. unfold last_place.
  pose proof (Z.mul_succ_div_gt p d Hd) as Hq.
  assert (0 <= p / d) by (apply Z.div_pos; lia).
  assert (p / d < 2 ^ (Z.max 0 (Z.log2 (p / d) - 52) + 53)); [|nia].
  destruct (decide (p / d = 0)) as [->|].
  { apply Z.pow_pos_nonneg; lia. }
  apply Z.lt_le_trans with (2 ^ Z.succ (Z.log2 (p / d))).
  - apply Z.log2_spec. lia.
  - apply Z.pow_le_mono_r; lia.
Qed.

Lemma binade_below p d :
  0 < d -> 0 <= p -> 0 < last_place p d -> 2 ^ (last_place p d + 52) * d <= p.
Proof.
  intros Hd Hp. unfold last_place. intros Hk.
  rewrite Z.max_r in * by lia. replace (_ - 52 + 52) with (Z.log2 (p / d)) by lia.
  assert (0 < p / d).
  { destruct (decide (p / d <= 0)); [|lia]. rewrite Z.log2_nonpos in Hk by lia. lia. }
  pose proof (Z.log2_spec (p / d) ltac:(lia)). pose proof (Z.mul_div_le p d Hd). nia.
Qed.

Lemma round_pos_mono p d p' d' :
  0 < d -> 0 < d' -> 0 <= p -> 0 <= p' -> p * d' <= p' * d ->
  round_pos p d <= round_pos p' d'.
Proof.
  intros Hd Hd' Hp Hp' Hle. unfold round_pos.
  set (k := last_place p d). set (k' := last_place p' d').
  assert (0 <= k /\ 0 <= k') as [Hk Hk'] by (split; apply last_place_nonneg).
  assert (p / d <= p' / d').
  { apply Z.div_le_lower_bound; [lia|]. pose proof (Z.mul_div_le p d Hd).
    assert (0 <= p / d) by (apply Z.div_pos; lia). nia. }
  assert (k <= k') as Hkk.
  { unfold k, k', last_place. assert (Z.log2 (p / d) <= Z.log2 (p' / d')) by by apply Z.log2_le_mono.
    lia. }
  assert (Hpk : 0 < 2 ^ k) by (apply Z.pow_pos_nonneg; lia).
  destruct (decide (k = k')) as [Heq|Hne].
  - rewrite <- Heq. apply Z.mul_le_mono_nonneg_r; [lia|]. apply rne_div_mono; nia.
  - assert (Hpk' : 0 < 2 ^ k') by (apply Z.pow_pos_nonneg; lia).
    transitivity (2 ^ (k + 53)).
    + pose proof (binade_above p d Hd Hp) as Hb. fold k in Hb.
      rewrite Z.pow_add_r in * by lia. rewrite Z.mul_comm.
      apply Z.mul_le_mono_nonneg_l; [lia|]. apply rne_div_le; nia.
    + pose proof (binade_below p' d' Hd' Hp') as Hb. fold k' in Hb. specialize (Hb ltac:(lia)).
      transitivity (2 ^ (k' + 52)); [apply Z.pow_le_mono_r; lia|].
      rewrite Z.pow_add_r in * by lia. rewrite (Z.mul_comm (rne_div _ _)).
      apply Z.mul_le_mono_nonneg_l; [lia|]. apply rne_div_ge; nia.
Qed.

Lemma round_pos_nonneg p d : 0 < d -> 0 <= p -> 0 <= round_pos p d.
Proof.
  intros Hd Hp. unfold round_pos. pose proof (last_place_nonneg p d).
  assert (0 < 2 ^ last_place p d) by (apply Z.pow_pos_nonneg; lia).
  assert (0 <= rne_div p (d * 2 ^ last_place p d)) by (apply rne_div_ge; nia). nia.
Qed.

(** Rounding is monotone in the number rounded. *)
Lemma round_mono p d p' d' :
  0 < d -> 0 < d' -> p * d' <= p' * d -> round p d <= round p' d'.
Proof.
  intros Hd Hd' Hle. unfold round. repeat case_decide.
  - assert (round_pos (- p') d' <= round_pos (- p) d); [|lia]. apply round_pos_mono; lia.
  - pose proof (round_pos_nonneg (- p) d). pose proof (round_pos_nonneg p' d'). lia.
  - nia.
  - apply round_pos_mono; lia.
Qed.

(** ** Representable numbers *)

Definition repr (n : float64) : Prop := round n 1 = n.

Lemma round_pos_grid m k :
  0 <= m <= 2 ^ 53 -> 0 <= k -> round_pos (m * 2 ^ k) 1 = m * 2 ^ k.
Proof.
  intros Hm Hk. unfold round_pos.
  set (k' := last_place (m * 2 ^ k) 1).
  assert (0 <= k') by apply last_place_nonneg.
  assert (Hpk : 0 < 2 ^ k) by (apply Z.pow_pos_nonneg; lia).
  assert (0 < 2 ^ k') by (apply Z.pow_pos_nonneg; lia).
  assert (exists c, m * 2 ^ k = c * 2 ^ k') as [c ->].
  { destruct (decide (k' <= k)) as [Hle|Hgt].
    - exists (m * 2 ^ (k - k')). rewrite <- Z.mul_assoc, <- Z.pow_add_r by lia. do 2 f_equal. lia.
    - pose proof (binade_below (m * 2 ^ k) 1 ltac:(lia) ltac:(nia)) as Hb. fold k' in Hb.
      specialize (Hb ltac:(lia)). rewrite Z.mul_1_r in Hb.
      assert (2 ^ (k + 53) <= 2 ^ (k' + 52)) by (apply Z.pow_le_mono_r; lia).
      rewrite (Z.pow_add_r 2 k) in * by lia. assert (m = 2 ^ 53) as -> by nia.
      exists (2 ^ 52).
      assert (k' = k + 1) as ->.
      { destruct (decide (k' = k + 1)); [done|]. exfalso.
        assert (2 ^ (k + 54) <= 2 ^ (k' + 52)) by (apply Z.pow_le_mono_r; lia).
        rewrite (Z.pow_add_r 2 k) in * by lia. change (2 ^ 54) with (2 * 2 ^ 53) in *. nia. }
      rewrite Z.pow_add_r by lia. change (2 ^ 53) with (2 ^ 52 * 2). lia. }
  rewrite Z.mul_1_l, rne_div_exact by lia. done.
Qed.

Lemma repr_grid m k : 0 <= m <= 2 ^ 53 -> 0 <= k -> repr (m * 2 ^ k).
Proof.
  intros Hm Hk. unfold repr, round. rewrite decide_False.
  - by apply round_pos_grid.
  - pose proof (Z.pow_pos_nonneg 2 k). nia.
Qed.

(** Every non-negative rounded number lies on the grid. *)
Lemma round_pos_on_grid p d :
  0 < d -> 0 <= p -> exists m k, round_pos p d = m * 2 ^ k /\ 0 <= m <= 2 ^ 53 /\ 0 <= k.
Proof.
  intros Hd Hp. unfold round_pos. set (k := last_place p d).
  assert (0 <= k) by apply last_place_nonneg.
  assert (0 < 2 ^ k) by (apply Z.pow_pos_nonneg; lia).
  eexists _, k. split; [done|]. split; [|done]. split.
  - apply rne_div_ge; nia.
  - pose proof (binade_above p d Hd Hp) as Hb. fold k in Hb. rewrite Z.pow_add_r in Hb by lia.
    apply rne_div_le; nia.
Qed.

Lemma repr_on_grid x :
  repr x -> 0 <= x -> exists m k, x = m * 2 ^ k /\ 0 <= m <= 2 ^ 53 /\ 0 <= k.
Proof.
  unfold repr, round. intros Hr Hx. rewrite decide_False in Hr by lia.
  rewrite <- Hr. apply round_pos_on_grid; lia.
Qed.

(** Rounding yields a double, which rounding leaves alone. *)
Lemma repr_round p d : 0 < d -> repr (round p d).
Proof.
  intros Hd. unfold round. case_decide.
  - destruct (round_pos_on_grid (- p) d) as (m & k & -> & Hm & Hk); [lia|lia|].
    unfold repr, round. assert (0 < 2 ^ k) by (apply Z.pow_pos_nonneg; lia).
    case_decide.
    + rewrite Z.opp_involutive. f_equal. by apply round_pos_grid.
    + assert (m * 2 ^ k = 0) as -> by nia. reflexivity.
  - destruct (round_pos_on_grid p d) as (m & k & -> & Hm & Hk); [lia|lia|]. by apply repr_grid.
Qed.

Lemma one_pos : 0 < one.
Proof. apply Z.pow_pos_nonneg; lia. Qed.

Lemma one_64 : one = 64 * 2 ^ 1068.
Proof. unfold one. change 64 with (2 ^ 6). rewrite <- Z.pow_add_r by lia. done. Qed.

Lemma one_110 : one = 2 ^ 110 * 2 ^ 964.
Proof. unfold one. rewrite <- Z.pow_add_r by lia. done. Qed.

Lemma repr_0 : repr 0.
Proof. reflexivity. Qed.

Lemma repr_int n : 0 <= n <= 2 ^ 53 -> repr (n * one).
Proof. intros. apply repr_grid; lia. Qed.

Lemma repr_one : repr one.
Proof. rewrite <- (Z.mul_1_l one). apply repr_int. lia. Qed.

(** Integers up to 2^53 are exact. *)
Lemma of_int_exact n : 0 <= n <= 2 ^ 53 -> of_int n = n * one.
Proof. apply repr_int. Qed.

Lemma round_le p d x : 0 < d -> repr x -> p <= x * d -> round p d <= x.
Proof. intros Hd Hx Hp. rewrite <- Hx. apply round_mono; lia. Qed.

Lemma round_ge p d x : 0 < d -> repr x -> x * d <= p -> x <= round p d.
Proof. intros Hd Hx Hp. rewrite <- Hx. apply round_mono; lia. Qed.

Lemma fadd_0_r a : repr a -> fadd a 0 = a.
Proof. intros Ha. unfold fadd. by rewrite Z.add_0_r. Qed.

Lemma fadd_mono a b a' b' : a <= a' -> b <= b' -> fadd a b <= fadd a' b'.
Proof. intros. apply round_mono; lia. Qed.

Lemma fsub_mono a b : a <= b -> fsub a one <= fsub b one.
Proof. intros. apply round_mono; lia. Qed.

Lemma fmul_nonneg a b : 0 <= a -> 0 <= b -> 0 <= fmul a b.
Proof. intros. apply round_ge; [apply one_pos|apply repr_0|nia]. Qed.

Lemma fmul_0_l b : fmul 0 b = 0.
Proof. reflexivity. Qed.

Lemma fmul_mono a b a' b' : 0 <= a <= a' -> 0 <= b <= b' -> fmul a b <= fmul a' b'.
Proof.
  intros. pose proof one_pos. apply round_mono; [done..|].
  apply Z.mul_le_mono_nonneg_r; [lia|]. apply Z.mul_le_mono_nonneg; lia.
Qed.

Lemma fdiv_nonneg a b : 0 <= a -> 0 < b -> 0 <= fdiv a b.
Proof. intros. pose proof one_pos. apply round_ge; [done|apply repr_0|nia]. Qed.

(** Subtracting 1 from a double between 1 and 2^53 is exact. *)
Lemma fsub_one_exact x : repr x -> one <= x <= 2 ^ 53 * one -> fsub x one = x - one.
Proof.
  intros Hx Hr. destruct (repr_on_grid x Hx) as (m & k & -> & Hm & Hk); [pose proof one_pos; lia|].
  unfold one in *. destruct (decide (k <= 1074)) as [Hle|Hgt].
  - assert (Hp : 2 ^ 1074 = 2 ^ (1074 - k) * 2 ^ k).
    { rewrite <- Z.pow_add_r by lia. f_equal. lia. }
    unfold fsub. rewrite Hp, <- Z.mul_sub_distr_r.
    assert (0 < 2 ^ k) by (apply Z.pow_pos_nonneg; lia).
    assert (0 < 2 ^ (1074 - k)) by (apply Z.pow_pos_nonneg; lia).
    apply repr_grid; [|done]. rewrite Hp in Hr. nia.
  - assert (Hp : 2 ^ k = 2 ^ (k - 1074) * 2 ^ 1074).
    { rewrite <- Z.pow_add_r by lia. f_equal. lia. }
    unfold fsub. rewrite Hp in *.
    assert (0 < 2 ^ (k - 1074)) by (apply Z.pow_pos_nonneg; lia).
    replace (m * (2 ^ (k - 1074) * 2 ^ 1074) - 2 ^ 1074) with ((m * 2 ^ (k - 1074) - 1) * 2 ^ 1074) by lia.
    apply repr_grid; [|lia]. assert (0 < 2 ^ 1074) by (apply Z.pow_pos_nonneg; lia). nia.
Qed.

(** [a*b + c] with one rounding. *)
Definition fma (a b c : float64) : float64 := round (a * b + c * one) one.

(** ** Changing the scale

    Away from the subnormal range rounding commutes with multiplication by a
    power of two, so a computation can be run on smaller integers. *)
Lemma rne_div_cancel a b c : 0 < b -> 0 < c -> rne_div (a * c) (b * c) = rne_div a b.
Proof.
  intros Hb Hc. unfold rne_div.
  rewrite Z.div_mul_cancel_r, Z.mul_mod_distr_r by lia.
  repeat case_decide; try done; nia.
Qed.

Lemma round_cancel p d c : 0 < d -> 0 < c -> 0 <= p -> round (p * c) (d * c) = round p d.
Proof.
  intros Hd Hc Hp. unfold round. rewrite !decide_False by nia.
  unfold round_pos, last_place. rewrite Z.div_mul_cancel_r by lia.
  f_equal. rewrite (Z.mul_comm (d * c)), Z.mul_assoc, (Z.mul_comm (2 ^ _) d).
  apply rne_div_cancel; [|done].
  assert (0 < 2 ^ Z.max 0 (Z.log2 (p / d) - 52)) by (apply Z.pow_pos_nonneg; lia). nia.
Qed.

Lemma round_scale p d j :
  0 < d -> 0 <= j -> 2 ^ 52 * d <= p -> round (p * 2 ^ j) d = round p d * 2 ^ j.
Proof.
  intros Hd Hj Hp. assert (0 < 2 ^ j) by (apply Z.pow_pos_nonneg; lia).
  unfold round. rewrite !decide_False by nia. unfold round_pos.
  assert (2 ^ 52 <= p / d) as Hq by (apply Z.div_le_lower_bound; lia).
  assert (52 <= Z.log2 (p / d)) as Hl.
  { rewrite <- (Z.log2_pow2 52) by lia. by apply Z.log2_le_mono. }
  assert (Z.log2 (p * 2 ^ j / d) = Z.log2 (p / d) + j) as Hlog.
  { apply Z.log2_unique; [lia|]. pose proof (Z.log2_spec (p / d) ltac:(lia)) as [Hlo Hhi].
    pose proof (Z.mul_div_le p d Hd). pose proof (Z.mul_succ_div_gt p d Hd).
    rewrite <- Z.add_succ_l, !Z.pow_add_r by lia. split.
    - apply Z.div_le_lower_bound; [lia|]. rewrite Z.mul_assoc.
      apply Z.mul_le_mono_nonneg_r; [lia|]. nia.
    - apply Z.div_lt_upper_bound; [lia|]. rewrite Z.mul_assoc.
      apply Z.mul_lt_mono_pos_r; [lia|]. nia. }
  unfold last_place. rewrite Hlog, !Z.max_r by lia.
  replace (Z.log2 (p / d) + j - 52) with (Z.log2 (p / d) - 52 + j) by lia.
  assert (0 < 2 ^ (Z.log2 (p / d) - 52)) by (apply Z.pow_pos_nonneg; lia).
  rewrite (Z.pow_add_r 2 _ j) by lia. set (a := 2 ^ (Z.log2 (p / d) - 52)) in *.
  replace (d * (a * 2 ^ j)) with (d * a * 2 ^ j) by lia.
  rewrite rne_div_cancel; [lia|nia|done].
Qed.

(** [math.Ceil] of a double, as an integer. *)
Definition fceil (a : float64) : Z := - ((- a) / one).

(** A Go compiler may evaluate [c + a*b] as a product and a sum or as one fused
    operation (it fuses on arm64 and not on amd64). Code that multiplies and
    adds is proved against this interface. *)
Class FloatUnit := {
  mul_add : float64 -> float64 -> float64 -> float64;
  mul_add_spec a b c : mul_add a b c = fadd c (fmul a b) \/ mul_add a b c = fma a b c;
}.
#[export] Instance separate_unit : FloatUnit :=
  {| mul_add a b c := fadd c (fmul a b); mul_add_spec a b c := or_introl eq_refl |}.
Definition fused_unit : FloatUnit :=
  {| mul_add := fma; mul_add_spec a b c := or_intror eq_refl |}.

Section mul_add.
Context `{FloatUnit}.

Lemma repr_mul_add a b c : repr (mul_add a b c).
Proof. destruct (mul_add_spec a b c) as [->| ->]; apply repr_round; auto using one_pos; lia. Qed.

(** The sum is at least any double below the product, when [c >= 0]. *)
Lemma mul_add_ge a b c x : repr x -> 0 <= c -> x <= fmul a b -> x <= mul_add a b c.
Proof.
  intros Hx Hc Hm. pose proof one_pos. destruct (mul_add_spec a b c) as [->| ->].
  - apply round_ge; [lia|done|lia].
  - unfold fma. transitivity (fmul a b); [done|]. apply round_mono; nia.
Qed.

Lemma mul_add_0 b c : repr c -> mul_add 0 b c = c.
Proof.
  intros Hc. pose proof one_pos. destruct (mul_add_spec 0 b c) as [->| ->].
  - rewrite fmul_0_l. by apply fadd_0_r.
  - unfold fma. rewrite Z.mul_0_l, Z.add_0_l. apply Z.le_antisymm.
    + by apply round_le.
    + by apply round_ge.
Qed.
End mul_add.

Example fdiv_tenth : fdiv (of_int 1) (of_int 10) <> 0 /\
  fadd (fdiv (of_int 1) (of_int 10)) (fdiv (of_int 2) (of_int 10)) <> fdiv (of_int 3) (of_int 10).
Proof. split; vm_compute; discriminate. Qed.

#[global] Opaque one.
#[export] Hint Resolve one_pos repr_0 repr_one repr_round fmul_nonneg fdiv_nonneg repr_mul_add : pm.
