(* ===== verification/RateLimit.v ===== *)
(** * Rate limiting: cmd/proxy/ratelimit.go and the breaker of cmd/proxy/redisrl.go

    [RateLimiter] is the in-memory per-client token bucket, [HybridLimiter] the
    limiter that asks Redis first and falls back to a local [RateLimiter] behind
    a circuit breaker. Both implement the [Limiter] interface the router uses.
    Times are nanoseconds; the calls of [time.Now()] are arguments. *)
From S2P Require Import Prelude GoString Float64.

(** The reply of the shared Redis limiter to one call: the decision, or [None]
    for an error (Redis unreachable, timeout). *)
Notation reply := (option bool) (only parsing).

Module RateLimiter.

Record bucket := mkBucket {
  tokens : float64;
  lastRefill : Z;
  lastSeen : Z;
}.

Record rateLimiter := mkRateLimiter {
  buckets : gmap string bucket;
  rate : float64;
  capacity : float64;
  stop : bool; (* the channel has been closed *)
}.

Definition idleEvict : Z := 30 * Minute.
Definition maxBuckets : nat := N.to_nat 50000.

Definition newRateLimiter (rpm : Z) : rateLimiter :=
  {| buckets := ∅; rate := fdiv (of_int rpm) (of_int 60); capacity := of_int rpm; stop := false |}.

(** Closing a closed channel panics. *)
Definition Stop (rl : rateLimiter) : go rateLimiter :=
  if stop rl then Panic
  else Ret {| buckets := buckets rl; rate := rate rl; capacity := capacity rl; stop := true |}.

Definition SetRate (rpm : Z) (rl : rateLimiter) : rateLimiter :=
  {| buckets := buckets rl; rate := fdiv (of_int rpm) (of_int 60); capacity := of_int rpm;
     stop := stop rl |}.

Definition set_buckets (m : gmap string bucket) (rl : rateLimiter) : rateLimiter :=
  {| buckets := m; rate := rate rl; capacity := capacity rl; stop := stop rl |}.

Definition getOrCreate (key : string) (now : Z) (rl : rateLimiter) : option (bucket * rateLimiter) :=
  match buckets rl !! key with
  | Some b => Some (b, rl)
  | None =>
      if decide (maxBuckets <= size (buckets rl))%nat then None
      else let b := {| tokens := capacity rl; lastRefill := now; lastSeen := now |} in
           Some (b, set_buckets (<[key := b]> (buckets rl)) rl)
  end.

(** [Duration.Seconds]. *)
Definition seconds (d : Z) : float64 :=
  fadd (of_int (Z.quot d Second)) (fdiv (of_int (Z.rem d Second)) (of_int 1000000000)).

Section float.
Context `{FloatUnit}.

(** [min(rl.capacity, b.tokens+elapsed*rl.rate)]. *)
Definition refilled (rl : rateLimiter) (b : bucket) (now : Z) : float64 :=
  fmin (capacity rl) (mul_add (seconds (time_sub now (lastRefill b))) (rate rl) (tokens b)).

Definition Allow (key : string) (now : Z) (rl : rateLimiter) : bool * rateLimiter :=
  match getOrCreate key now rl with
  | None => (false, rl)
  | Some (b, rl) =>
      let t := refilled rl b now in
      let put t := set_buckets
        (<[key := {| tokens := t; lastRefill := now; lastSeen := now |}]> (buckets rl)) rl in
      if decide (t < one) then (false, put t) else (true, put (fsub t one))
  end.

Record bucketSnapshot := mkBucketSnapshot {
  snap_Key : string;
  snap_Tokens : float64;
  snap_Capacity : float64;
}.

Definition Snapshot `{MapRange} (now : Z) (rl : rateLimiter) : list bucketSnapshot :=
  (fun '(key, b) => {| snap_Key := key; snap_Tokens := refilled rl b now;
                       snap_Capacity := capacity rl |}) <$> range_list (buckets rl).
End float.

(** One tick of the gc goroutine: drop the buckets idle since the cutoff. *)
Definition gc_tick (now : Z) (rl : rateLimiter) : rateLimiter :=
  set_buckets (filter (fun kb => negb (time_before (lastSeen kb.2) (now - idleEvict)) = true) (buckets rl)) rl.

(** [retryAfterSeconds] of router.go: the Retry-After of a 429. *)
Definition defaultRateRPM : Z := 60.
Definition retryAfterSeconds (rpm : Z) : Z :=
  let rpm := if decide (rpm <= 0) then defaultRateRPM else rpm in
  let secs := sint 64 (fceil (fdiv (of_int 60) (of_int rpm))) in
  if decide (secs < 1) then 1 else secs.

(** ** Invariant *)

Record wf (rl : rateLimiter) : Prop := {
  wf_capacity : repr (capacity rl) /\ 0 <= capacity rl;
  wf_rate : 0 <= rate rl;
  wf_size : (size (buckets rl) <= maxBuckets)%nat;
  wf_tokens : map_Forall (fun _ b => repr (tokens b) /\ 0 <= tokens b) (buckets rl);
}.

Lemma of_int_nonneg n : 0 <= n -> 0 <= of_int n.
Proof. intros. apply round_ge; [lia|apply repr_0|]. pose proof one_pos. nia. Qed.

Lemma of_int_mono n m : n <= m -> of_int n <= of_int m.
Proof. intros. apply round_mono; [lia..|]. pose proof one_pos. nia. Qed.

Lemma repr_of_int n : repr (of_int n).
Proof. apply repr_round. lia. Qed.

Lemma of_int_pos n : 0 < n -> 0 < of_int n.
Proof.
  intros. pose proof one_pos. apply Z.lt_le_trans with (of_int 1); [|apply of_int_mono; lia].
  rewrite of_int_exact; lia.
Qed.

#[local] Hint Resolve of_int_nonneg repr_of_int : pm.

Lemma rate_of_nonneg rpm : 0 <= rpm -> 0 <= fdiv (of_int rpm) (of_int 60).
Proof. intros. apply fdiv_nonneg; [auto with pm|by apply of_int_pos]. Qed.

Lemma newRateLimiter_wf rpm : 0 <= rpm -> wf (newRateLimiter rpm).
Proof.
  intros. split; cbn; [auto with pm|by apply rate_of_nonneg| |apply map_Forall_empty].
  rewrite map_size_empty. lia.
Qed.

Lemma SetRate_wf rpm rl : 0 <= rpm -> wf rl -> wf (SetRate rpm rl).
Proof. intros ? [??? ?]. split; cbn; auto using rate_of_nonneg with pm. Qed.

(** The rate and the capacity are those of [rpm] requests per minute. *)
Definition configured (rpm : Z) (rl : rateLimiter) : Prop :=
  capacity rl = of_int rpm /\ rate rl = fdiv (of_int rpm) (of_int 60).

Lemma newRateLimiter_configured rpm : configured rpm (newRateLimiter rpm).
Proof. by split. Qed.

Lemma set_buckets_wf m rl :
  wf rl -> (size m <= maxBuckets)%nat ->
  map_Forall (fun _ b => repr (tokens b) /\ 0 <= tokens b) m -> wf (set_buckets m rl).
Proof. intros [??? ?] ??. by split. Qed.

Lemma gc_tick_wf now rl : wf rl -> wf (gc_tick now rl).
Proof.
  intros Hw. apply set_buckets_wf; [done| |].
  - etrans; [|apply (wf_size _ Hw)]. apply map_subseteq_size, map_filter_subseteq.
  - intros k b [Hb _]%map_lookup_filter_Some. by apply (wf_tokens _ Hw) in Hb.
Qed.

Lemma seconds_0 : seconds 0 = 0.
Proof. unfold seconds. rewrite fadd_0_r; [done|apply repr_of_int]. Qed.

Lemma time_sub_refl t : time_sub t t = 0.
Proof. unfold time_sub, minInt64, maxInt64. lia. Qed.

Section float.
Context `{FloatUnit}.

Lemma getOrCreate_Some key now rl b rl' :
  getOrCreate key now rl = Some (b, rl') ->
  buckets rl' = <[key := b]> (buckets rl) /\ rate rl' = rate rl /\ capacity rl' = capacity rl /\
  stop rl' = stop rl /\
  (buckets rl !! key = Some b \/
   buckets rl !! key = None /\ (size (buckets rl) < maxBuckets)%nat /\
   b = {| tokens := capacity rl; lastRefill := now; lastSeen := now |}).
Proof.
  unfold getOrCreate. destruct (buckets rl !! key) eqn:E; intros.
  - simplify_eq. rewrite insert_id by done. naive_solver.
  - case_decide; simplify_eq/=. repeat split; auto. right. repeat split; auto. lia.
Qed.

Lemma refilled_repr rl b now : wf rl -> repr (refilled rl b now).
Proof.
  intros Hw. unfold refilled, fmin. destruct (Z.min_spec (capacity rl)
    (mul_add (seconds (time_sub now (lastRefill b))) (rate rl) (tokens b))) as [[_ ->]|[_ ->]];
    [apply Hw|apply repr_mul_add].
Qed.

Lemma refilled_le rl b now : refilled rl b now <= capacity rl.
Proof. unfold refilled, fmin. lia. Qed.

Lemma seconds_nonneg d : 0 <= d -> 0 <= seconds d.
Proof.
  intros. unfold seconds, Second. transitivity (fadd 0 0); [done|].
  apply fadd_mono; [apply of_int_nonneg, Z.quot_pos; lia|].
  apply fdiv_nonneg; [apply of_int_nonneg, Z.rem_nonneg; lia|by apply of_int_pos].
Qed.

Lemma refilled_nonneg rl b now :
  wf rl -> 0 <= tokens b -> lastRefill b <= now -> 0 <= refilled rl b now.
Proof.
  intros Hw Hb Hn. unfold refilled, fmin. apply Z.min_glb; [apply Hw|].
  apply mul_add_ge; [apply repr_0|done|]. apply fmul_nonneg; [|apply Hw].
  apply seconds_nonneg. unfold time_sub, minInt64, maxInt64. lia.
Qed.

Lemma fsub_one_nonneg t : repr t -> one <= t -> 0 <= fsub t one.
Proof. intros. apply round_ge; [lia|apply repr_0|lia]. Qed.

(** Time is monotone: no bucket was refilled after [now]. *)
Definition not_after (rl : rateLimiter) (now : Z) : Prop :=
  map_Forall (fun _ b => lastRefill b <= now) (buckets rl).

Lemma Allow_wf key now rl : wf rl -> not_after rl now -> wf (Allow key now rl).2.
Proof.
  intros Hw Hn. unfold Allow. destruct (getOrCreate key now rl) as [[b rl']|] eqn:E; [|done].
  apply getOrCreate_Some in E as (Hbs & Hr & Hc & Hst & Hb).
  assert (wf rl') as Hw'.
  { split; rewrite ?Hr, ?Hc; try apply Hw; rewrite Hbs.
    - destruct Hb as [Hb|(Hb & Hs & _)]; [rewrite insert_id by done; apply Hw|].
      rewrite map_size_insert_None by done. lia.
    - apply map_Forall_insert_2; [|apply Hw]. destruct Hb as [Hb|(_ & _ & ->)]; [|apply Hw].
      by apply (wf_tokens _ Hw) in Hb. }
  assert (0 <= refilled rl' b now) as Ht.
  { apply refilled_nonneg; [done| |].
    - by destruct (wf_tokens _ Hw' key b) as [_ ?]; [by rewrite Hbs, lookup_insert_eq|].
    - destruct Hb as [Hb|(_ & _ & ->)]; [by apply Hn in Hb|done]. }
  pose proof (refilled_repr rl' b now Hw') as Hrr.
  assert (forall t, repr t -> 0 <= t ->
    wf (set_buckets (<[key:={| tokens := t; lastRefill := now; lastSeen := now |}]> (buckets rl')) rl')).
  { intros t Htr Ht0. apply set_buckets_wf; [done| |].
    - rewrite Hbs, insert_insert_eq, map_size_insert.
      destruct Hb as [Hb|(Hb & ? & _)]; rewrite Hb; [apply Hw|lia].
    - by apply map_Forall_insert_2; [|apply Hw']. }
  case_decide; cbn; [auto|]. apply H0; [apply repr_round; lia|]. by apply fsub_one_nonneg; [|lia].
Qed.

(** ** The operations, one by one *)

(** Calls for one client leave every other client's bucket alone. *)
Lemma Allow_frame key key' now rl :
  key <> key' -> buckets (Allow key now rl).2 !! key' = buckets rl !! key'.
Proof.
  intros Hne. unfold Allow. destruct (getOrCreate key now rl) as [[b rl']|] eqn:E; [|done].
  apply getOrCreate_Some in E as (Hbs & _).
  case_decide; cbn; rewrite Hbs; by rewrite !lookup_insert_ne.
Qed.

Lemma Allow_params key now rl :
  rate (Allow key now rl).2 = rate rl /\ capacity (Allow key now rl).2 = capacity rl.
Proof.
  unfold Allow. destruct (getOrCreate key now rl) as [[b rl']|] eqn:E; [|done].
  apply getOrCreate_Some in E as (_ & ? & ? & _). by case_decide.
Qed.

Lemma Allow_configured rpm key now rl :
  configured rpm rl -> configured rpm (Allow key now rl).2.
Proof. unfold configured. by destruct (Allow_params key now rl) as [-> ->]. Qed.

(** A tracked client: the decision and the bucket it leaves. *)
Lemma Allow_tracked key now rl b :
  buckets rl !! key = Some b ->
  Allow key now rl =
  (bool_decide (one <= refilled rl b now),
   set_buckets (<[key := {| tokens := if decide (refilled rl b now < one) then refilled rl b now
                                      else fsub (refilled rl b now) one;
                            lastRefill := now; lastSeen := now |}]> (buckets rl)) rl).
Proof.
  intros Hb. unfold Allow, getOrCreate. rewrite Hb. case_decide.
  - by rewrite bool_decide_eq_false_2 by lia.
  - by rewrite bool_decide_eq_true_2 by lia.
Qed.

(** What the client could still be granted at the instant [now]. *)
Definition budget (key : string) (now : Z) (rl : rateLimiter) : float64 :=
  match buckets rl !! key with
  | Some b => refilled rl b now
  | None => capacity rl
  end.

Lemma refilled_now rl t now :
  repr t -> t <= capacity rl ->
  refilled rl {| tokens := t; lastRefill := now; lastSeen := now |} now = t.
Proof.
  intros Ht Hc. unfold refilled, fmin; cbn.
  rewrite time_sub_refl, seconds_0, mul_add_0 by done. lia.
Qed.

Lemma Allow_budget key now rl :
  wf rl -> not_after rl now -> capacity rl <= 2 ^ 53 * one ->
  budget key now (Allow key now rl).2 =
  budget key now rl - (if (Allow key now rl).1 then one else 0).
Proof.
  intros Hw Hn Hc. unfold Allow. destruct (getOrCreate key now rl) as [[b rl']|] eqn:E.
  2:{ cbn. lia. }
  apply getOrCreate_Some in E as (Hbs & Hr & Hcap & _ & Hb).
  assert (budget key now rl = refilled rl' b now) as ->.
  { unfold budget. destruct Hb as [->|(-> & _ & ->)].
    - unfold refilled. by rewrite Hr, Hcap.
    - symmetry. apply refilled_now; [apply Hw|lia]. }
  assert (wf rl -> repr (refilled rl' b now)) as Hrr.
  { intros [[Hcr _] _ _ _]. unfold refilled, fmin. rewrite Hcap.
    destruct (Z.min_spec (capacity rl) (mul_add (seconds (time_sub now (lastRefill b))) (rate rl') (tokens b)))
      as [[_ ->]|[_ ->]]; auto with pm. }
  specialize (Hrr Hw). pose proof (refilled_le rl' b now).
  case_decide; cbn; unfold budget; cbn; rewrite lookup_insert_eq.
  - rewrite Z.sub_0_r. by apply refilled_now.
  - rewrite fsub_one_exact by (done || lia). apply refilled_now; cbn; [|pose proof one_pos; lia].
    rewrite <- fsub_one_exact by (done || lia). apply repr_round. lia.
Qed.

Lemma Allow_budget_ne key key' now rl :
  key <> key' -> budget key' now (Allow key now rl).2 = budget key' now rl.
Proof.
  intros Hne. unfold budget. rewrite Allow_frame by done.
  destruct (Allow_params key now rl) as [Hr Hc]. rewrite Hc.
  destruct (buckets rl !! key') as [b|]; [|done]. unfold refilled. by rewrite Hr, Hc.
Qed.

Lemma Allow_true_budget key now rl :
  wf rl -> (Allow key now rl).1 = true -> one <= budget key now rl.
Proof.
  intros Hw. unfold Allow, budget. destruct (getOrCreate key now rl) as [[b rl']|] eqn:E; [|done].
  apply getOrCreate_Some in E as (_ & Hr & Hc & _ & Hb).
  assert (refilled rl' b now = refilled rl b now) as Heq by (unfold refilled; by rewrite Hr, Hc).
  case_decide; cbn; [done|]. intros _. destruct Hb as [->|(-> & _ & ->)]; [lia|].
  pose proof (refilled_le rl' {| tokens := capacity rl; lastRefill := now; lastSeen := now |} now). lia.
Qed.

Lemma Allow_not_after key now rl : not_after rl now -> not_after (Allow key now rl).2 now.
Proof.
  intros Hn. unfold Allow. destruct (getOrCreate key now rl) as [[b rl']|] eqn:E; [|done].
  apply getOrCreate_Some in E as (Hbs & _ & _ & _ & Hb).
  assert (lastRefill b <= now) by (destruct Hb as [Hb|(_ & _ & ->)]; [by apply Hn in Hb|done]).
  case_decide; cbn; unfold not_after; cbn; rewrite Hbs, insert_insert_eq;
    by apply map_Forall_insert_2; cbn.
Qed.

(** The verdict on a client that is, or can be, tracked. *)
Lemma Allow_verdict key now rl :
  wf rl -> is_Some (buckets rl !! key) \/ (size (buckets rl) < maxBuckets)%nat ->
  (Allow key now rl).1 = bool_decide (one <= budget key now rl).
Proof.
  intros Hw Hk. destruct (buckets rl !! key) as [b|] eqn:E.
  - rewrite (Allow_tracked _ _ _ _ E). unfold budget. by rewrite E.
  - destruct Hk as [[? ?]|Hs]; [done|]. unfold Allow, getOrCreate, budget. rewrite E.
    rewrite decide_False by lia. rewrite refilled_now; cbn; [|apply Hw|lia].
    case_decide; cbn; [by rewrite bool_decide_eq_false_2 by lia|by rewrite bool_decide_eq_true_2 by lia].
Qed.

(** Requests of several clients arriving at one instant, in order. *)
Fixpoint Allow_all (keys : list string) (now : Z) (rl : rateLimiter) : list (string * bool) * rateLimiter :=
  match keys with
  | [] => ([], rl)
  | k :: keys =>
      let '(ok, rl) := Allow k now rl in
      let '(oks, rl) := Allow_all keys now rl in
      ((k, ok) :: oks, rl)
  end.

(** How many of them were granted to [key]. *)
Definition granted (key : string) (l : list (string * bool)) : Z :=
  Z.of_nat (length (filter (fun v => v = (key, true)) l)).

Lemma granted_cons key k ok l :
  granted key ((k, ok) :: l) = granted key l + (if decide ((k, ok) = (key, true)) then 1 else 0).
Proof. unfold granted. rewrite filter_cons. case_decide; cbn [length]; lia. Qed.

Lemma Allow_all_budget keys key now rl :
  wf rl -> not_after rl now -> capacity rl <= 2 ^ 53 * one ->
  granted key (Allow_all keys now rl).1 * one <= budget key now rl.
Proof.
  revert rl. induction keys as [|k keys IH]; intros rl Hw Hn Hc; cbn.
  { unfold budget. destruct (buckets rl !! key) as [b|] eqn:E; [|apply Hw].
    apply refilled_nonneg; [done|apply (wf_tokens _ Hw _ _ E)|apply (Hn _ _ E)]. }
  pose proof (Allow_wf k now rl Hw Hn) as Hw'. pose proof (Allow_not_after k now rl Hn) as Hn'.
  destruct (Allow_params k now rl) as [_ Hcap].
  pose proof (Allow_budget key now rl Hw Hn Hc) as Hb.
  pose proof (Allow_budget_ne k key now rl) as Hb'.
  destruct (Allow k now rl) as [ok rl'] eqn:E; cbn in *.
  specialize (IH rl' Hw' Hn' ltac:(lia)).
  destruct (Allow_all keys now rl') as [oks rl''] eqn:E'; cbn in *.
  rewrite granted_cons. destruct (decide (k = key)) as [->|Hne].
  - rewrite E in Hb; cbn in Hb. case_decide; destruct ok; simplify_eq; lia.
  - specialize (Hb' Hne). case_decide; simplify_eq. lia.
Qed.

(** ** Refill over time *)

Lemma seconds_ge d n : 0 <= n -> n * Second <= d -> of_int n <= seconds d.
Proof.
  unfold Second. intros Hn Hd. unfold seconds, Second.
  rewrite <- (fadd_0_r (of_int n)) by auto with pm. apply fadd_mono.
  - apply of_int_mono. apply Z.quot_le_lower_bound; lia.
  - apply fdiv_nonneg; [apply of_int_nonneg, Z.rem_nonneg; lia|by apply of_int_pos].
Qed.

Lemma elapsed_ge (t u n : Z) :
  0 <= n -> n * Second <= t - u -> t - u <= maxInt64 -> of_int n <= seconds (time_sub t u).
Proof.
  intros Hn Hge Hle. apply seconds_ge; [done|].
  unfold time_sub, minInt64, maxInt64 in *. unfold Second in *. lia.
Qed.

Lemma retryAfterSeconds_ge1 rpm : 1 <= retryAfterSeconds rpm.
Proof. unfold retryAfterSeconds. case_decide; case_decide; lia. Qed.

(** The Retry-After of [rpm] and the product the refill adds over it, on
    numbers scaled to 2^-110 so that they can be computed. *)
Definition small_rate (rpm : Z) : Z := round (rpm * 2 ^ 110) 60.
Definition small_retry (rpm : Z) : Z := - ((- round (60 * 2 ^ 110) rpm) / 2 ^ 110).
Definition retry_refills (rpm : Z) : bool :=
  bool_decide (1 <= small_retry rpm <= 60 /\ 2 ^ 110 <= round (small_retry rpm * small_rate rpm) 1).

Lemma retry_small : forallb (fun n => retry_refills (Z.of_nat n)) (seq 1 60) = true.
Proof. vm_compute. reflexivity. Qed.

Lemma div_scaled n d :
  1 <= n <= 60 -> 1 <= d <= 60 -> fdiv (of_int n) (of_int d) = round (n * 2 ^ 110) d * 2 ^ 964.
Proof.
  intros Hn Hd. pose proof one_pos. unfold fdiv. rewrite !of_int_exact by lia.
  rewrite round_cancel by nia. rewrite one_110, Z.mul_assoc. apply round_scale; lia.
Qed.

Lemma retry_scaled rpm :
  1 <= rpm <= 60 -> 1 <= small_retry rpm <= 60 -> retryAfterSeconds rpm = small_retry rpm.
Proof.
  intros Hr Hs. unfold retryAfterSeconds. rewrite (decide_False (P := rpm <= 0)) by lia.
  assert (fceil (fdiv (of_int 60) (of_int rpm)) = small_retry rpm) as ->.
  { unfold fceil, small_retry. rewrite div_scaled, one_110, <- Z.mul_opp_l by lia.
    rewrite Z.div_mul_cancel_r; [done|lia..]. }
  rewrite sint_id by lia. rewrite decide_False; lia.
Qed.

(** The product the refill adds over [retryAfterSeconds] is a whole token. *)
Lemma retry_refill rpm :
  1 <= rpm -> one <= fmul (of_int (retryAfterSeconds rpm)) (fdiv (of_int rpm) (of_int 60)).
Proof.
  intros Hr. pose proof one_pos as H1. pose proof (retryAfterSeconds_ge1 rpm) as H2.
  destruct (decide (rpm <= 60)) as [Hle|Hgt].
  - pose proof retry_small as Hall. rewrite forallb_forall in Hall.
    specialize (Hall (Z.to_nat rpm)). rewrite Z2Nat.id in Hall by lia.
    unfold retry_refills in Hall. rewrite bool_decide_eq_true in Hall.
    destruct (Hall ltac:(apply in_seq; lia)) as [Hs Hone].
    rewrite (retry_scaled rpm), div_scaled by lia. fold (small_rate rpm).
    assert (2 ^ 100 <= small_rate rpm) by (apply round_ge; [lia|rewrite <- (Z.mul_1_l (2 ^ 100)); apply repr_grid; lia|lia]).
    unfold fmul. rewrite of_int_exact by lia.
    replace (small_retry rpm * one * (small_rate rpm * 2 ^ 964))
      with (small_retry rpm * small_rate rpm * 2 ^ 964 * one) by lia.
    rewrite <- (Z.mul_1_l one) at 3. rewrite round_cancel by nia.
    rewrite round_scale by nia. rewrite one_110. lia.
  - assert (one <= fdiv (of_int rpm) (of_int 60)) as H3.
    { apply round_ge; [by apply of_int_pos|apply repr_one|].
      rewrite (Z.mul_comm one). apply Z.mul_le_mono_nonneg_r; [lia|]. apply of_int_mono. lia. }
    assert (one <= of_int (retryAfterSeconds rpm)) as H4.
    { transitivity (of_int 1); [by rewrite of_int_exact by lia; lia|]. by apply of_int_mono. }
    apply round_ge; [done|apply repr_one|]. apply Z.mul_le_mono_nonneg; lia.
Qed.

Lemma rate_ge_64th rpm : 0 <= rpm <= 2 ^ 53 -> rpm * 2 ^ 1068 <= fdiv (of_int rpm) (of_int 60).
Proof.
  intros Hr. pose proof one_pos. apply round_ge; [by apply of_int_pos|by apply repr_grid|].
  rewrite !of_int_exact by lia. rewrite one_64. assert (0 < 2 ^ 1068) by (apply Z.pow_pos_nonneg; lia). nia.
Qed.

(** Half an hour refills any bucket. *)
Lemma refilled_idle rl b now rpm :
  0 <= rpm <= 2 ^ 53 -> configured rpm rl ->
  0 <= tokens b -> idleEvict <= now - lastRefill b <= maxInt64 ->
  refilled rl b now = capacity rl.
Proof.
  intros Hr [Hc Hra] Ht Hn. unfold refilled, fmin. apply Z.min_l. rewrite Hc, Hra.
  apply mul_add_ge; [auto with pm|done|].
  pose proof (elapsed_ge now (lastRefill b) 1800 ltac:(lia)
    ltac:(unfold idleEvict, Minute, Second in *; lia) ltac:(lia)) as He.
  pose proof (rate_ge_64th rpm Hr). pose proof one_pos.
  assert (0 < 2 ^ 1068) by (apply Z.pow_pos_nonneg; lia).
  transitivity (fmul (of_int 1800) (rpm * 2 ^ 1068)).
  - apply round_ge; [done|auto with pm|]. rewrite !of_int_exact by lia.
    rewrite one_64. nia.
  - apply fmul_mono; split; [apply of_int_nonneg; lia|done|lia|done].
Qed.

(** After a gc tick every client has the same budget as before it. *)
Lemma gc_budget key now now' rl rpm :
  wf rl -> 0 <= rpm <= 2 ^ 53 -> configured rpm rl ->
  map_Forall (fun _ b => lastRefill b = lastSeen b /\ now' - lastRefill b <= maxInt64) (buckets rl) ->
  now <= now' ->
  budget key now' (gc_tick now rl) = budget key now' rl.
Proof.
  intros Hw Hr Hc Hl Hn. unfold budget, gc_tick; cbn.
  destruct (buckets rl !! key) as [b|] eqn:E.
  - destruct (Hl _ _ E) as [Hls Hmax]. destruct (wf_tokens _ Hw _ _ E) as [_ Ht].
    destruct (time_before (lastSeen b) (now - idleEvict)) eqn:Hi.
    + rewrite map_lookup_filter, E; cbn. rewrite option_guard_False by (rewrite Hi; done).
      symmetry. apply refilled_idle with rpm; try done.
      unfold time_before in Hi. reflect_bools. lia.
    + rewrite (map_lookup_filter_Some_2 _ _ _ _ E) by (cbn; by rewrite Hi). done.
  - rewrite map_lookup_filter, E. done.
Qed.
End float.

(** ** Properties *)

(** C29. Per-client limit. However requests of any number of clients interleave
    at one instant, a limiter configured for [rpm] grants each client at most
    [rpm] of them, whatever state its buckets were in and whether or not the
    hardware fuses the refill's multiply and add. *)
Theorem burst_bound `{FloatUnit} (rpm now : Z) (rl : rateLimiter) (keys : list string) (key : string) :
  0 <= rpm <= 2 ^ 53 -> wf rl -> configured rpm rl -> not_after rl now ->
  granted key (Allow_all keys now rl).1 <= rpm.
Proof.
  intros Hr Hw [Hc _] Hn. pose proof one_pos. rewrite of_int_exact in Hc by done.
  pose proof (Allow_all_budget keys key now rl Hw Hn ltac:(nia)) as Hb.
  assert (budget key now rl <= capacity rl); [|nia].
  unfold budget. destruct (buckets rl !! key); [apply refilled_le|lia].
Qed.

Lemma burst_bound_witness : granted "a" (Allow_all ["a"; "b"; "a"; "a"] 0 (newRateLimiter 2)).1 <= 2.
Proof.
  apply (burst_bound 2 0 (newRateLimiter 2) ["a"; "b"; "a"; "a"] "a").
  - lia.
  - apply newRateLimiter_wf. lia.
  - apply newRateLimiter_configured.
  - apply map_Forall_empty.
Defined.

(** Retry-After is honest. A tracked client that is refused at [t0] and
    retries after the number of seconds the 429 response tells it to wait is
    let through, for every rate and despite floating-point rounding. *)
Theorem retry_after_sufficient `{FloatUnit} (rpm t0 now : Z) (rl rl' : rateLimiter) (key : string) :
  1 <= rpm <= 2 ^ 53 -> wf rl -> configured rpm rl ->
  not_after rl t0 -> Allow key t0 rl = (false, rl') -> is_Some (buckets rl' !! key) ->
  t0 + retryAfterSeconds rpm * Second <= now -> now - t0 <= maxInt64 ->
  (Allow key now rl').1 = true.
Proof.
  intros Hr Hw [Hc Hra] Hn Hden [b Hb] Hwait Hmax.
  pose proof (Allow_wf key t0 rl Hw Hn) as Hw'. destruct (Allow_params key t0 rl) as [Hra' Hc'].
  rewrite Hden in *; cbn in *. rewrite (Allow_verdict _ _ _ Hw') by (left; eauto).
  apply bool_decide_eq_true. unfold budget. rewrite Hb.
  assert (lastRefill b = t0) as Ht.
  { unfold Allow in Hden. destruct (getOrCreate key t0 rl) as [[b0 rl0]|] eqn:E.
    - case_decide; simplify_eq. cbn in Hb. rewrite lookup_insert_eq in Hb. by simplify_eq.
    - unfold getOrCreate in E. simplify_eq. rewrite Hb in E. done. }
  unfold refilled, fmin. apply Z.min_glb.
  - rewrite Hc', Hc. transitivity (of_int 1); [by rewrite of_int_exact by lia; lia|]. apply of_int_mono. lia.
  - destruct (wf_tokens _ Hw' _ _ Hb). apply mul_add_ge; [apply repr_one|done|].
    pose proof one_pos. pose proof (retryAfterSeconds_ge1 rpm).
    rewrite Hra', Hra. etrans; [apply (retry_refill rpm); lia|].
    apply fmul_mono; [|split; [by apply rate_of_nonneg; lia|done]].
    split; [apply of_int_nonneg; lia|]. apply elapsed_ge; unfold Second in *; lia.
Qed.

Lemma retry_after_sufficient_witness :
  let rl := (Allow "a" 0 (newRateLimiter 1)).2 in
  retryAfterSeconds 1 = 60 /\ (Allow "a" 5 rl).1 = false /\
  (Allow "a" (5 + 60 * Second) (Allow "a" 5 rl).2).1 = true.
Proof.
  intros rl. assert (retryAfterSeconds 1 = 60) as Hs by (rewrite retry_scaled; [by vm_compute|lia|by vm_compute]).
  assert (Hw : wf rl) by (apply Allow_wf; [apply newRateLimiter_wf; lia|apply map_Forall_empty]).
  assert (Hd : (Allow "a" 5 rl).1 = false) by by vm_compute.
  split; [exact Hs|]. split; [exact Hd|].
  apply (retry_after_sufficient 1 5 (5 + 60 * Second) rl (Allow "a" 5 rl).2 "a").
  - lia.
  - exact Hw.
  - apply Allow_configured, newRateLimiter_configured.
  - apply (bool_decide_eq_true_1 _). by vm_compute.
  - apply fst_eq_pair, Hd.
  - apply (bool_decide_eq_true_1 _). by vm_compute.
  - rewrite Hs. lia.
  - unfold Second, maxInt64. lia.
Defined.

(** Garbage collection is invisible. Dropping the buckets idle for half an
    hour changes no later decision about a client that was tracked: by then
    its bucket had refilled to capacity, exactly what a new one starts with. *)
Theorem gc_transparent `{FloatUnit} (rpm now now' : Z) (rl : rateLimiter) (key : string) :
  0 <= rpm <= 2 ^ 53 -> wf rl -> configured rpm rl ->
  map_Forall (fun _ b => lastRefill b = lastSeen b /\ now' - lastRefill b <= maxInt64) (buckets rl) ->
  now <= now' -> is_Some (buckets rl !! key) ->
  (Allow key now' (gc_tick now rl)).1 = (Allow key now' rl).1.
Proof.
  intros Hr Hw Hc Hl Hn Hk.
  rewrite (Allow_verdict _ _ _ Hw) by by left.
  rewrite Allow_verdict; [by erewrite gc_budget|by apply gc_tick_wf|].
  destruct Hk as [b Hb]. unfold gc_tick; cbn.
  destruct (time_before (lastSeen b) (now - idleEvict)) eqn:Hi.
  - right. pose proof (wf_size _ Hw).
    apply Nat.le_lt_trans with (size (delete key (buckets rl))).
    + apply map_subseteq_size, map_subseteq_spec. intros k b' [Hb' Hf]%map_lookup_filter_Some.
      apply lookup_delete_Some. split; [|done]. intros <-. cbn in Hf. simplify_eq. by rewrite Hi in Hf.
    + rewrite map_size_delete_Some by by exists b.
      assert (size (buckets rl) <> 0)%nat; [|lia]. apply map_size_ne_0_lookup. by exists key, b.
  - left. exists b. apply map_lookup_filter_Some_2; [done|]. cbn. by rewrite Hi.
Qed.

Lemma gc_transparent_witness :
  let rl := (Allow "a" 0 (newRateLimiter 3)).2 in
  let now := 31 * Minute in
  (Allow "a" now (gc_tick now rl)).1 = (Allow "a" now rl).1.
Proof.
  intros rl now. apply (gc_transparent 3).
  - lia.
  - apply Allow_wf; [apply newRateLimiter_wf; lia|apply map_Forall_empty].
  - apply Allow_configured, newRateLimiter_configured.
  - apply (bool_decide_eq_true_1 _). by vm_compute.
  - lia.
  - apply (bool_decide_eq_true_1 _). by vm_compute.
Defined.

End RateLimiter.

(** ** The interface the router holds

    [lim_Allow key now later r l] is one [Allow] call starting at [now]; [r] is
    what the shared limiter answers if it is asked, and [later] the time after
    that answer. *)
Class Limiter (L : Type) := {
  lim_Allow : string -> Z -> Z -> reply -> L -> bool * L;
  lim_SetRate : Z -> L -> L;
  lim_Stop : L -> go L;
}.

(** What every limiter promises the router: only the last rate set counts,
    so refreshing a route at an unchanged rate keeps all its state; and
    a limiter that was not stopped can be, without a panic. *)
Class LimiterLaws (L : Type) `{Limiter L} := {
  lim_running : L -> bool;
  lim_SetRate_last rpm rpm' l : lim_SetRate rpm (lim_SetRate rpm' l) = lim_SetRate rpm l;
  lim_SetRate_running rpm l : lim_running (lim_SetRate rpm l) = lim_running l;
  lim_Stop_running l : lim_running l = true -> exists l', lim_Stop l = Ret l';
}.

Module HybridLimiter.
Import RateLimiter.

(** The breaker, the local fallback, and the parameters sent to the Redis
    script. The Redis server is outside: its reply is an argument. *)
Record hybridLimiter := mkHybridLimiter {
  primary_rate : float64;
  primary_capacity : float64;
  fallback : rateLimiter;
  failures : Z;
  openUntil : Z;
}.

Definition redisFailureThreshold : Z := 3.
Definition redisBreakerCooldown : Z := 30 * Second.
(** [time.Time{}]: the start of year 1. *)
Definition time_zero : Z := -62135596800 * Second.

Definition newHybridLimiter (rpm : Z) : hybridLimiter :=
  {| primary_rate := fdiv (of_int rpm) (of_int 60); primary_capacity := of_int rpm;
     fallback := newRateLimiter rpm; failures := 0; openUntil := time_zero |}.

Definition breakerOpen (now : Z) (h : hybridLimiter) : bool := time_before now (openUntil h).

Definition set_fallback (f : rateLimiter) (h : hybridLimiter) : hybridLimiter :=
  {| primary_rate := primary_rate h; primary_capacity := primary_capacity h; fallback := f;
     failures := failures h; openUntil := openUntil h |}.

Definition set_breaker (n u : Z) (h : hybridLimiter) : hybridLimiter :=
  {| primary_rate := primary_rate h; primary_capacity := primary_capacity h;
     fallback := fallback h; failures := n; openUntil := u |}.

Definition recordFailure (now : Z) (h : hybridLimiter) : hybridLimiter :=
  let n := failures h + 1 in
  set_breaker n (if decide (redisFailureThreshold <= n) then now + redisBreakerCooldown
                 else openUntil h) h.

Definition recordSuccess (h : hybridLimiter) : hybridLimiter := set_breaker 0 time_zero h.

Definition SetRate (rpm : Z) (h : hybridLimiter) : hybridLimiter :=
  {| primary_rate := fdiv (of_int rpm) (of_int 60); primary_capacity := of_int rpm;
     fallback := RateLimiter.SetRate rpm (fallback h);
     failures := failures h; openUntil := openUntil h |}.

Definition Stop (h : hybridLimiter) : go hybridLimiter :=
  f ← RateLimiter.Stop (fallback h); Ret (set_fallback f h).

Section float.
Context `{FloatUnit}.

Definition fallback_Allow (key : string) (now : Z) (h : hybridLimiter) : bool * hybridLimiter :=
  let '(ok, f) := RateLimiter.Allow key now (fallback h) in (ok, set_fallback f h).

Definition Allow (key : string) (now later : Z) (r : reply) (h : hybridLimiter) : bool * hybridLimiter :=
  if breakerOpen now h then fallback_Allow key now h
  else match r with
       | None => fallback_Allow key later (recordFailure later h)
       | Some allowed => (allowed, recordSuccess h)
       end.

#[export] Instance rateLimiter_Limiter : Limiter rateLimiter := {|
  lim_Allow key now _ _ rl := RateLimiter.Allow key now rl;
  lim_SetRate := RateLimiter.SetRate;
  lim_Stop := RateLimiter.Stop;
|}.
#[export] Instance hybridLimiter_Limiter : Limiter hybridLimiter := {|
  lim_Allow := Allow;
  lim_SetRate := SetRate;
  lim_Stop := Stop;
|}.
#[export] Program Instance rateLimiter_laws : LimiterLaws rateLimiter :=
  {| lim_running rl := negb (RateLimiter.stop rl) |}.
Next Obligation. done. Qed.
Next Obligation. done. Qed.
Next Obligation. intros rl Hs%negb_true_iff. cbn. unfold RateLimiter.Stop. rewrite Hs. by eexists. Qed.
#[export] Program Instance hybridLimiter_laws : LimiterLaws hybridLimiter :=
  {| lim_running h := negb (RateLimiter.stop (fallback h)) |}.
Next Obligation. done. Qed.
Next Obligation. done. Qed.
Next Obligation.
  intros h Hs%negb_true_iff. cbn. unfold Stop, RateLimiter.Stop. rewrite Hs. by eexists.
Qed.

(** A run of calls, each with its times and the shared limiter's answer. *)
Fixpoint run (calls : list (string * Z * Z * reply)) (h : hybridLimiter) : list bool * hybridLimiter :=
  match calls with
  | [] => ([], h)
  | (key, now, later, r) :: calls =>
      let '(ok, h) := Allow key now later r h in
      let '(oks, h) := run calls h in (ok :: oks, h)
  end.

(** The same calls against the local limiter alone, at the times it is asked. *)
Fixpoint run_local (calls : list (string * Z)) (rl : rateLimiter) : list bool * rateLimiter :=
  match calls with
  | [] => ([], rl)
  | (key, now) :: calls =>
      let '(ok, rl) := RateLimiter.Allow key now rl in
      let '(oks, rl) := run_local calls rl in (ok :: oks, rl)
  end.

Lemma Allow_breaker key now later r h :
  failures (Allow key now later r h).2 =
    (if breakerOpen now h then failures h
     else match r with None => failures h + 1 | Some _ => 0 end) /\
  openUntil (Allow key now later r h).2 =
    (if breakerOpen now h then openUntil h
     else match r with
          | None => if decide (redisFailureThreshold <= failures h + 1)
                    then later + redisBreakerCooldown else openUntil h
          | Some _ => time_zero
          end).
Proof.
  unfold Allow, fallback_Allow. destruct (breakerOpen now h).
  - by destruct (RateLimiter.Allow _ _ _).
  - destruct r; [done|]. by destruct (RateLimiter.Allow _ _ _).
Qed.

(** A breaker that is closed with no failures has never been tripped since. *)
Definition quiet (h : hybridLimiter) : Prop := failures h = 0 /\ openUntil h = time_zero.
End float.

(** The circuit breaker. From a quiet limiter, three consecutive Redis
    errors open the breaker, and every call that starts within the next 30
    seconds is decided without consulting Redis at all: whatever Redis would
    have answered, the decision and the new state are the same. *)
Theorem breaker_opens `{FloatUnit} (h : hybridLimiter) (k1 k2 k3 key : string)
    (n1 l1 n2 l2 n3 l3 now later : Z) (r r' : reply) :
  quiet h -> time_zero <= n1 -> time_zero <= n2 -> time_zero <= n3 ->
  now < l3 + redisBreakerCooldown ->
  let h' := (run [(k1, n1, l1, None); (k2, n2, l2, None); (k3, n3, l3, None)] h).2 in
  Allow key now later r h' = Allow key now later r' h' /\
  (Allow key now later r h').1 = (RateLimiter.Allow key now (fallback h')).1.
Proof.
  intros [Hf Ho] H1 H2 H3 Hnow h'.
  assert (Hclosed : forall n g, openUntil g = time_zero -> time_zero <= n -> breakerOpen n g = false).
  { intros n g Hg Hn. unfold breakerOpen, time_before. rewrite Hg. apply bool_decide_eq_false. lia. }
  assert (openUntil h' = l3 + redisBreakerCooldown) as Hopen.
  { unfold h'; cbn.
    destruct (Allow_breaker k1 n1 l1 None h) as [Hf1 Ho1]. rewrite (Hclosed n1 h), Hf, Ho in * by done.
    destruct (Allow k1 n1 l1 None h) as [? g1]; cbn in *. rewrite decide_False in Ho1 by by cbv.
    destruct (Allow_breaker k2 n2 l2 None g1) as [Hf2 Ho2]. rewrite (Hclosed n2 g1), Hf1, Ho1 in * by done.
    destruct (Allow k2 n2 l2 None g1) as [? g2]; cbn in *. rewrite decide_False in Ho2 by by cbv.
    destruct (Allow_breaker k3 n3 l3 None g2) as [_ Ho3]. rewrite (Hclosed n3 g2), Hf2 in * by done.
    destruct (Allow k3 n3 l3 None g2) as [? g3]; cbn in *. rewrite decide_True in Ho3 by by cbv. exact Ho3. }
  unfold Allow. assert (breakerOpen now h' = true) as ->.
  { unfold breakerOpen, time_before. rewrite Hopen. by apply bool_decide_eq_true. }
  split; [done|]. unfold fallback_Allow. by destruct (RateLimiter.Allow _ _ _).
Qed.

Lemma breaker_opens_witness :
  let h' := (run [("a", 0, 1, None); ("b", 2, 3, None); ("a", 4, 5, None)] (newHybridLimiter 2)).2 in
  Allow "a" 20 21 (Some true) h' = Allow "a" 20 21 None h' /\
  (Allow "a" 20 21 (Some true) h').1 = (RateLimiter.Allow "a" 20 (fallback h')).1.
Proof.
  apply (breaker_opens (newHybridLimiter 2) "a" "b" "a" "a").
  - by split.
  - discriminate.
  - discriminate.
  - discriminate.
  - reflexivity.
Defined.

(** A Redis outage degrades to the local limiter, never to no limit. While
    every Redis call fails, the hybrid limiter takes exactly the decisions of
    its in-memory fallback, whether the breaker is open or not. *)
Theorem outage_is_local `{FloatUnit} (calls : list (string * Z)) (h : hybridLimiter) :
  (run ((fun '(k, now) => (k, now, now, None)) <$> calls) h).1 = (run_local calls (fallback h)).1.
Proof.
  revert h. induction calls as [|[k now] calls IH]; intros h; cbn; [done|].
  assert (exists g, Allow k now now None h =
      ((RateLimiter.Allow k now (fallback h)).1, g) /\
      fallback g = (RateLimiter.Allow k now (fallback h)).2) as (g & -> & Hg).
  { unfold Allow, fallback_Allow. destruct (breakerOpen now h); cbn;
      destruct (RateLimiter.Allow k now (fallback h)) as [ok f]; by eexists. }
  specialize (IH g). destruct (RateLimiter.Allow k now (fallback h)) as [ok f]; cbn in *.
  rewrite Hg in IH. destruct (run _ g), (run_local calls f); cbn in *. by rewrite IH.
Qed.

End HybridLimiter.
