(* ===== verification/Http.v ===== *)
(** * HTTP headers, requests and cookies, as net/http presents them

    A header maps canonical names to lists of values. The request record keeps
    the fields the proxy reads. *)
From S2P Require Import Prelude GoString.
Open Scope string_scope.

(** ** Header names *)

(** The RFC 7230 token characters. *)
Definition is_alpha (c : ascii) : bool := in_range c "a" "z" || in_range c "A" "Z".
Definition is_tchar (c : ascii) : bool :=
  is_alpha c || is_digit c || has_byte c "!#$%&'*+-.^_`|~".

Definition upper_byte (c : ascii) : ascii :=
  if in_range c "a" "z" then chr (ascii_N c - 32) else c.

Fixpoint canon_bytes (upper : bool) (s : string) : string :=
  match s with
  | EmptyString => EmptyString
  | String c s =>
      String (if upper then upper_byte c else lower_byte c) (canon_bytes (Ascii.eqb c "-") s)
  end.

(** [textproto.CanonicalMIMEHeaderKey]: a name holding a byte that is not a
    token character is returned unchanged. *)
Definition CanonicalHeaderKey (s : string) : string :=
  if all_bytes is_tchar s then canon_bytes true s else s.

(** ** Headers *)

Notation header := (gmap string (list string)) (only parsing).

Definition Values (h : header) (k : string) : list string :=
  default [] (h !! CanonicalHeaderKey k).
Definition Get (h : header) (k : string) : string :=
  match Values h k with v :: _ => v | [] => "" end.
Definition Set_ (k v : string) (h : header) : header := <[CanonicalHeaderKey k := [v]]> h.
Definition Add_ (k v : string) (h : header) : header :=
  <[CanonicalHeaderKey k := (Values h k ++ [v])%list]> h.
Definition Del (k : string) (h : header) : header := delete (CanonicalHeaderKey k) h.

Fixpoint Del_all (ks : list string) (h : header) : header :=
  match ks with
  | [] => h
  | k :: ks => Del_all ks (Del k h)
  end.

Lemma Del_all_ne ks (h : header) k :
  k ∉ CanonicalHeaderKey <$> ks -> Del_all ks h !! k = h !! k.
Proof.
  revert h. induction ks as [|a ks IH]; intros h Hk; cbn; [done|].
  rewrite fmap_cons, not_elem_of_cons in Hk. rewrite IH by apply Hk.
  unfold Del. destruct Hk as [Hk _]. by rewrite lookup_delete_ne by congruence.
Qed.

Lemma Del_all_None ks (h : header) k : h !! k = None -> Del_all ks h !! k = None.
Proof.
  revert h. induction ks as [|a ks IH]; intros h Hk; cbn; [done|].
  apply IH. apply lookup_delete_None. auto.
Qed.

Lemma Del_all_elem ks (h : header) k :
  k ∈ CanonicalHeaderKey <$> ks -> Del_all ks h !! k = None.
Proof.
  revert h. induction ks as [|a ks IH]; intros h Hk; cbn.
  - by apply not_elem_of_nil in Hk.
  - rewrite fmap_cons, elem_of_cons in Hk. destruct Hk as [->|Hk]; [|by apply IH].
    apply Del_all_None. apply lookup_delete_eq.
Qed.

Example canon_ex : CanonicalHeaderKey "x-pmgr-ACTOR" = "X-Pmgr-Actor". Proof. reflexivity. Qed.
Example canon_bad : CanonicalHeaderKey "a b" = "a b". Proof. reflexivity. Qed.

(** Header names that differ only in case are one name. *)
Lemma lower_byte_tchar c : is_tchar (lower_byte c) = is_tchar c.
Proof. destruct c as [[] [] [] [] [] [] [] []]; reflexivity. Qed.
Lemma canon_byte_lower c : lower_byte (lower_byte c) = lower_byte c.
Proof. destruct c as [[] [] [] [] [] [] [] []]; reflexivity. Qed.
Lemma upper_byte_lower c : upper_byte (lower_byte c) = upper_byte c.
Proof. destruct c as [[] [] [] [] [] [] [] []]; reflexivity. Qed.
Lemma dash_lower c : Ascii.eqb (lower_byte c) "-" = Ascii.eqb c "-".
Proof. destruct c as [[] [] [] [] [] [] [] []]; reflexivity. Qed.

Lemma canon_bytes_lower b s : canon_bytes b (ToLower s) = canon_bytes b s.
Proof.
  unfold ToLower. revert b. induction s as [|c s IH]; intros b; cbn; [done|].
  rewrite IH, dash_lower. f_equal. destruct b; [apply upper_byte_lower|apply canon_byte_lower].
Qed.

Lemma all_tchar_lower s : all_bytes is_tchar (ToLower s) = all_bytes is_tchar s.
Proof. unfold ToLower. induction s as [|c s IH]; cbn; [done|]. by rewrite IH, lower_byte_tchar. Qed.

Lemma canonical_fold a b :
  all_bytes is_tchar a = true -> EqualFold a b = true -> CanonicalHeaderKey a = CanonicalHeaderKey b.
Proof.
  unfold EqualFold, CanonicalHeaderKey. intros Ha Hf. apply bool_decide_eq_true in Hf.
  assert (all_bytes is_tchar b = true) as Hb by (by rewrite <- all_tchar_lower, <- Hf, all_tchar_lower).
  rewrite Ha, Hb. rewrite <- (canon_bytes_lower _ a), <- (canon_bytes_lower _ b). by rewrite Hf.
Qed.

(** ** Requests *)

Record request := mkRequest {
  req_Method : string;
  req_Host : string;
  req_Path : string;       (* URL.Path: decoded *)
  req_RawQuery : string;
  req_Header : header;
  req_RemoteAddr : string;
}.

Definition set_Header (h : header) (r : request) : request :=
  {| req_Method := req_Method r; req_Host := req_Host r; req_Path := req_Path r;
     req_RawQuery := req_RawQuery r; req_Header := h; req_RemoteAddr := req_RemoteAddr r |}.

Definition set_Path (p : string) (r : request) : request :=
  {| req_Method := req_Method r; req_Host := req_Host r; req_Path := p;
     req_RawQuery := req_RawQuery r; req_Header := req_Header r; req_RemoteAddr := req_RemoteAddr r |}.

(** ** Cookies *)

Definition is_blank (c : ascii) : bool := Ascii.eqb c " " || Ascii.eqb c (chr 9).

Fixpoint trim_left_blank (s : string) : string :=
  match s with
  | EmptyString => EmptyString
  | String c s' => if is_blank c then trim_left_blank s' else s
  end.
(** [textproto.TrimString]: spaces and tabs. *)
Definition trim_blank (s : string) : string :=
  rev_string (trim_left_blank (rev_string (trim_left_blank s))).

Definition is_token (s : string) : bool := negb (bool_decide (s = "")) && all_bytes is_tchar s.

Definition dquote : ascii := chr 34.
Definition cookie_byte (c : ascii) : bool :=
  in_range c " " "~" && negb (Ascii.eqb c dquote) && negb (Ascii.eqb c ";") && negb (Ascii.eqb c "\").

(** Surrounding double quotes are removed. *)
Definition unquote (v : string) : string :=
  match CutPrefix v (String dquote "") with
  | Some r =>
      match CutPrefix (rev_string r) (String dquote "") with
      | Some m => rev_string m
      | None => v
      end
  | None => v
  end.

Definition parse_cookie (part : string) : option (string * string) :=
  let part := trim_blank part in
  let '(name, val) := default (part, "") (Cut part "=") in
  let name := trim_blank name in
  if is_token name then
    let v := unquote val in
    if all_bytes cookie_byte v then Some (name, v) else None
  else None.

(** [req.Cookie(name)]: the value of the first well-formed cookie so named. *)
Definition Cookie (r : request) (name : string) : option string :=
  let parts := flat_map (fun line => Split line ";") (Values (req_Header r) "Cookie") in
  snd <$> find_first (fun nv => bool_decide (fst nv = name)) (omap parse_cookie parts).

Example cookie_ex :
  let r := {| req_Method := "GET"; req_Host := ""; req_Path := "/"; req_RawQuery := "";
              req_Header := {["Cookie" := ["a=1; pmgr_sso=x|y ;b=2"]]}; req_RemoteAddr := "" |} in
  Cookie r "pmgr_sso" = Some "x|y" /\ Cookie r "c" = None.
Proof. by vm_compute. Qed.

(** A request that sends no Cookie header carries no cookie. *)
Lemma Cookie_none r name : req_Header r !! "Cookie" = None -> Cookie r name = None.
Proof. intros H. unfold Cookie, Values. change (CanonicalHeaderKey "Cookie") with "Cookie". by rewrite H. Qed.

(** [hostOnly] of router.go. *)
Definition hostOnly (s : string) : string := before_byte s ":".
