(* ===== verification/Sha256.v ===== *)
(** * SHA-256, HMAC and the encodings of crypto/sha256, crypto/hmac,
    encoding/hex and encoding/base64

    The standard-library routines the proxy builds its keys, cookies and tokens
    from, as executable definitions on byte strings. *)
From S2P Require Import Prelude GoString.
Open Scope string_scope.

(** ** SHA-256 *)

Definition w32 (z : Z) : Z := Z.land z 4294967295.
Definition rotr (x n : Z) : Z := Z.lor (Z.shiftr x n) (w32 (Z.shiftl x (32 - n))).

(** The constants are the first 32 fractional bits of the cube roots of the
    first 64 primes, and of the square roots of the first eight. *)
Fixpoint any_divisor (n : Z) (ps : list Z) : bool :=
  match ps with [] => false | p :: ps => Z.eqb (n mod p) 0 || any_divisor n ps end.

Fixpoint primes_from (fuel : nat) (n : Z) (ps : list Z) : list Z :=
  match fuel with
  | O => ps
  | S fuel => primes_from fuel (n + 1) (if any_divisor n ps then ps else ps ++ [n])%list
  end.

(** The largest [r] below [hi] with [r ^ 3 <= n], by bisection. *)
Fixpoint cube_root (fuel : nat) (n lo hi : Z) : Z :=
  match fuel with
  | O => lo
  | S fuel =>
      let mid := (lo + hi) / 2 in
      if Z.leb (mid * mid * mid) n then cube_root fuel n mid hi else cube_root fuel n lo mid
  end.

Definition round_constants : list Z := Eval vm_compute in
  map (fun p => w32 (cube_root 40 (Z.shiftl p 96) 0 (Z.shiftl 1 36))) (primes_from 310 2 []).

Record digest := mkDigest { d_a : Z; d_b : Z; d_c : Z; d_d : Z; d_e : Z; d_f : Z; d_g : Z; d_h : Z }.

Definition initial : digest := Eval vm_compute in
  let root p := w32 (Z.sqrt (Z.shiftl p 64)) in
  mkDigest (root 2) (root 3) (root 5) (root 7) (root 11) (root 13) (root 17) (root 19).

Definition sigma0 (x : Z) : Z := Z.lxor (Z.lxor (rotr x 7) (rotr x 18)) (Z.shiftr x 3).
Definition sigma1 (x : Z) : Z := Z.lxor (Z.lxor (rotr x 17) (rotr x 19)) (Z.shiftr x 10).
Definition Sigma0 (x : Z) : Z := Z.lxor (Z.lxor (rotr x 2) (rotr x 13)) (rotr x 22).
Definition Sigma1 (x : Z) : Z := Z.lxor (Z.lxor (rotr x 6) (rotr x 11)) (rotr x 25).
Definition ch (x y z : Z) : Z := Z.lxor (Z.land x y) (Z.land (Z.lxor x 4294967295) z).
Definition maj (x y z : Z) : Z := Z.lxor (Z.lxor (Z.land x y) (Z.land x z)) (Z.land y z).

Definition sha_round (d : digest) (k w : Z) : digest :=
  let t1 := w32 (d_h d + Sigma1 (d_e d) + ch (d_e d) (d_f d) (d_g d) + k + w) in
  let t2 := w32 (Sigma0 (d_a d) + maj (d_a d) (d_b d) (d_c d)) in
  mkDigest (w32 (t1 + t2)) (d_a d) (d_b d) (d_c d) (w32 (d_d d + t1)) (d_e d) (d_f d) (d_g d).

(** The message schedule is a window of sixteen words, oldest first. *)
Definition next_word (w : list Z) : Z :=
  let at_ i := nth i w 0 in
  w32 (sigma1 (at_ 14%nat) + at_ 9%nat + sigma0 (at_ 1%nat) + at_ 0%nat).

Fixpoint rounds (ks : list Z) (w : list Z) (d : digest) : digest :=
  match ks with
  | [] => d
  | k :: ks => rounds ks (tail w ++ [next_word w])%list (sha_round d k (nth 0 w 0))
  end.

Definition add_digest (d e : digest) : digest :=
  mkDigest (w32 (d_a d + d_a e)) (w32 (d_b d + d_b e)) (w32 (d_c d + d_c e)) (w32 (d_d d + d_d e))
           (w32 (d_e d + d_e e)) (w32 (d_f d + d_f e)) (w32 (d_g d + d_g e)) (w32 (d_h d + d_h e)).

Definition block (d : digest) (w : list Z) : digest := add_digest d (rounds round_constants w d).

Definition byte_Z (c : ascii) : Z := Z.of_N (ascii_N c).
Definition Z_byte (z : Z) : ascii := chr (Z.to_N (Z.land z 255)).

(** Big-endian 32-bit words; the input's length is a multiple of four. *)
Fixpoint words (s : string) : list Z :=
  match s with
  | String a (String b (String c (String d s))) =>
      (Z.shiftl (byte_Z a) 24 + Z.shiftl (byte_Z b) 16 + Z.shiftl (byte_Z c) 8 + byte_Z d) :: words s
  | _ => []
  end.

Fixpoint be_bytes (n : nat) (z : Z) : string :=
  match n with
  | O => ""
  | S n => String (Z_byte (Z.shiftr z (8 * Z.of_nat n))) (be_bytes n z)
  end.

Fixpoint repeat_byte (n : nat) (c : ascii) : string :=
  match n with O => "" | S n => String c (repeat_byte n c) end.

Definition pad (s : string) : string :=
  s +:+ String (chr 128) (repeat_byte (Z.to_nat ((55 - len s) mod 64)) (chr 0)) +:+ be_bytes 8 (8 * len s).

Fixpoint blocks (fuel : nat) (d : digest) (w : list Z) : digest :=
  match fuel, w with
  | S fuel, _ :: _ => blocks fuel (block d (take 16 w)) (drop 16 w)
  | _, _ => d
  end.

Definition digest_bytes (d : digest) : string :=
  be_bytes 4 (d_a d) +:+ be_bytes 4 (d_b d) +:+ be_bytes 4 (d_c d) +:+ be_bytes 4 (d_d d) +:+
  be_bytes 4 (d_e d) +:+ be_bytes 4 (d_f d) +:+ be_bytes 4 (d_g d) +:+ be_bytes 4 (d_h d).

(** [sha256.Sum256]: one block per sixteen words, so the number of words is
    fuel enough. *)
Definition Sum256 (s : string) : string :=
  let w := words (pad s) in digest_bytes (blocks (List.length w) initial w).

(** ** HMAC *)

Fixpoint xor_bytes (s : string) (k : Z) : string :=
  match s with
  | EmptyString => EmptyString
  | String c s => String (Z_byte (Z.lxor (byte_Z c) k)) (xor_bytes s k)
  end.

Definition hmac_key (key : string) : string :=
  let k := if decide (64 < len key) then Sum256 key else key in
  k +:+ repeat_byte (Z.to_nat (64 - len k)) (chr 0).

(** [hmac.New(sha256.New, key)], [Write(msg)], [Sum(nil)]. *)
Definition hmac_sha256 (key msg : string) : string :=
  let k := hmac_key key in
  Sum256 (xor_bytes k 92 +:+ Sum256 (xor_bytes k 54 +:+ msg)).

(** ** Hexadecimal *)

Definition hex_digit (n : Z) : ascii := chr (Z.to_N (if decide (n < 10) then 48 + n else 87 + n)).

(** [hex.EncodeToString]. *)
Fixpoint hex (s : string) : string :=
  match s with
  | EmptyString => EmptyString
  | String c s => String (hex_digit (byte_Z c / 16)) (String (hex_digit (byte_Z c mod 16)) (hex s))
  end.

Fixpoint take_bytes (n : nat) (s : string) : string :=
  match n, s with
  | S n, String c s => String c (take_bytes n s)
  | _, _ => ""
  end.

Example Sum256_abc :
  hex (Sum256 "abc") = "ba7816bf8f01cfea414140de5dae2223b00361a396177a9cb410ff61f20015ad".
Proof. vm_compute. reflexivity. Qed.
Example hmac_jefe :
  hex (hmac_sha256 "Jefe" "what do ya want for nothing?")
  = "5bdcc146bf60754e6a042426089575c75a003f089d2739839dec58b964ec3843".
Proof. vm_compute. reflexivity. Qed.
