(* ===== verification/Duration.v ===== *)
(** * Durations and UTF-8: time.ParseDuration and unicode/utf8

    Go's parser of durations such as "1h30m" and "1.5s", with its uint64
    overflow checks and its floating-point fractions, and the decoding of runes
    that string ranges perform. *)
From S2P Require Import Prelude GoString Float64.
Open Scope string_scope.

(** ** time.ParseDuration *)

Definition two63 : Z := 2 ^ 63.
Lemma two63_eq : two63 = 9223372036854775808.
Proof. reflexivity. Qed.

(** [leadingInt]: the digits' value in uint64, [None] on overflow, and the rest. *)
Fixpoint leadingInt (s : string) (x : Z) : option Z * string :=
  match s with
  | String c s' =>
      if is_digit c then
        if decide (two63 / 10 < x) then (None, s)
        else let x := x * 10 + digit_val c in
             if decide (two63 < x) then (None, s) else leadingInt s' x
      else (Some x, s)
  | EmptyString => (Some x, s)
  end.

(** [leadingFraction]: the digits that fit, their float scale, and the rest. *)
Fixpoint leadingFraction (s : string) (x : Z) (scale : float64) (overflow : bool) : Z * float64 * string :=
  match s with
  | String c s' =>
      if is_digit c then
        if overflow then leadingFraction s' x scale overflow
        else if decide ((two63 - 1) / 10 < x) then leadingFraction s' x scale true
        else let y := x * 10 + digit_val c in
             if decide (two63 < y) then leadingFraction s' x scale true
             else leadingFraction s' y (fmul scale (of_int 10)) false
      else (x, scale, s)
  | EmptyString => (x, scale, s)
  end.

(** Everything up to the next digit or point. *)
Fixpoint take_unit (s : string) : string * string :=
  match s with
  | String c s' =>
      if Ascii.eqb c "." || is_digit c then ("", s)
      else let '(u, r) := take_unit s' in (String c u, r)
  | EmptyString => ("", "")
  end.

Definition micro1 : string := String (chr 194) (String (chr 181) "s").   (* U+00B5 *)
Definition micro2 : string := String (chr 206) (String (chr 188) "s").   (* U+03BC *)

Definition unitMap (u : string) : option Z :=
  if decide (u = "ns") then Some 1
  else if decide (u = "us") then Some 1000
  else if decide (u = micro1) then Some 1000
  else if decide (u = micro2) then Some 1000
  else if decide (u = "ms") then Some 1000000
  else if decide (u = "s") then Some Second
  else if decide (u = "m") then Some Minute
  else if decide (u = "h") then Some Hour
  else None.

(** One component, "12.5s": its value in nanoseconds and the rest. *)
Definition parse_component (s : string) : option (Z * string) :=
  match s with
  | EmptyString => None
  | String c _ =>
      if Ascii.eqb c "." || is_digit c then
        let '(ov, s1) := leadingInt s 0 in
        v ← ov;
        let pre := negb (bool_decide (len s1 = len s)) in
        let '(f, scale, s2, post) :=
          match s1 with
          | String d t =>
              if Ascii.eqb d "." then
                let '(f, scale, t') := leadingFraction t 0 (of_int 1) false in
                (f, scale, t', negb (bool_decide (len t' = len t)))
              else (0, of_int 1, s1, false)
          | EmptyString => (0, of_int 1, s1, false)
          end in
        if negb pre && negb post then None
        else
          let '(u, rest) := take_unit s2 in
          if decide (u = "") then None
          else
            unit ← unitMap u;
            if decide (two63 / unit < v) then None
            else
              let v := v * unit in
              let v := if decide (0 < f)
                       then uint 64 (v + fmul (of_int f) (fdiv (of_int unit) scale) / one) else v in
              if bool_decide (0 < f) && bool_decide (two63 < v) then None else Some (v, rest)
      else None
  end.

(** Each component consumes at least a byte: the length is fuel enough. *)
Fixpoint parse_components (fuel : nat) (s : string) (d : Z) : option Z :=
  match s with
  | EmptyString => Some d
  | _ =>
      match fuel with
      | O => None
      | S fuel =>
          '(v, rest) ← parse_component s;
          let d := uint 64 (d + v) in
          if decide (two63 < d) then None else parse_components fuel rest d
      end
  end.

(** [time.ParseDuration]; [None] is an error. *)
Definition ParseDuration (s : string) : option Z :=
  let '(neg, s) := match s with
                   | String c s' => if Ascii.eqb c "-" || Ascii.eqb c "+" then (Ascii.eqb c "-", s') else (false, s)
                   | EmptyString => (false, s)
                   end in
  if decide (s = "0") then Some 0
  else if decide (s = "") then None
  else
    d ← parse_components (String.length s) s 0;
    if neg : bool then Some (- d)
    else if decide (two63 - 1 < d) then None else Some d.

Example dur_1 : ParseDuration "1h30m" = Some (90 * Minute). Proof. vm_compute. reflexivity. Qed.
Example dur_2 : ParseDuration "-1.5s" = Some (- 1500000000). Proof. vm_compute. reflexivity. Qed.
Example dur_3 : ParseDuration ".5m" = Some (30 * Second). Proof. vm_compute. reflexivity. Qed.
Example dur_4 : ParseDuration "5" = None /\ ParseDuration "s" = None /\ ParseDuration "9223372037s" = None.
Proof. vm_compute. done. Qed.

(** ** Whole seconds are read back *)

Lemma digit_val_range c : is_digit c = true -> 0 <= digit_val c <= 9.
Proof. destruct c as [[] [] [] [] [] [] [] []]; vm_compute; split; congruence. Qed.

Lemma parse_digits_ge s x v : parse_digits s x = Some v -> 0 <= x -> x <= v.
Proof.
  revert x. induction s as [|c s IH]; intros x Hp Hx; cbn in Hp; [simplify_eq; lia|].
  destruct (is_digit c) eqn:Hc; [|done]. pose proof (digit_val_range c Hc) as Hd.
  apply IH in Hp; lia.
Qed.

Lemma leadingInt_digits s x r v :
  parse_digits s x = Some v -> 0 <= x -> v <= two63 ->
  match r with String c _ => is_digit c = false | EmptyString => True end ->
  leadingInt (s +:+ r) x = (Some v, r).
Proof.
  revert x. induction s as [|c s IH]; intros x Hp Hx Hv Hr; cbn in *.
  - simplify_eq. destruct r as [|c r]; [done|]. cbn. by rewrite Hr.
  - destruct (is_digit c) eqn:Hc; [|done]. pose proof (digit_val_range c Hc) as Hd.
    assert (10 * x + digit_val c <= v) as Hle by (apply (parse_digits_ge _ _ _ Hp); lia).
    replace (x * 10 + digit_val c) with (10 * x + digit_val c) by lia.
    pose proof two63_eq as H63. assert (two63 / 10 = 922337203685477580) as H10 by reflexivity. rewrite decide_False by lia. rewrite decide_False by lia. apply IH; auto; lia.
Qed.

Lemma ParseDuration_seconds n :
  0 <= n <= 9223372036 -> ParseDuration (FormatInt n +:+ "s") = Some (n * Second).
Proof.
  intros Hn. unfold FormatInt. rewrite decide_False by lia.
  destruct (parse_fmt_digits 20 n "" 0) as [Hp _]; [cbn; lia|lia|].
  destruct (fmt_digits_first 20 n "") as (c & r & Hf & Hc); [lia|lia|].
  rewrite Hf in *. replace (_ + n) with n in Hp by lia. cbn [parse_digits] in Hp. 
  unfold ParseDuration. change ((String c r +:+ "s")%string) with (String c (r +:+ "s")).
  assert (Ascii.eqb c "-" || Ascii.eqb c "+" = false) as Hsign.
  { destruct c as [[] [] [] [] [] [] [] []]; done. }
  cbv iota. rewrite Hsign. rewrite decide_False by (intros [= _ Hr]; by destruct r). rewrite decide_False by done.
  assert (parse_component (String c (r +:+ "s")) = Some (n * Second, "")) as Hcomp.
  { unfold parse_component. rewrite Hc, orb_true_r.
    change (String c (r +:+ "s")) with (String c r +:+ "s")%string.
    rewrite (leadingInt_digits (String c r) 0 "s" n); [|exact Hp|lia|unfold two63; lia|done].
    cbn [mbind option_bind]. rewrite bool_decide_false by (unfold len; rewrite length_append; cbn; lia).
    change (Ascii.eqb "s" ".") with false. cbv beta iota. cbn [negb andb].
    change (take_unit "s") with ("s", ""). cbv beta iota. rewrite decide_False by done.
    change (unitMap "s") with (Some Second). cbn [mbind option_bind].
    assert (two63 / Second = 9223372036) as -> by reflexivity.
    rewrite decide_False by lia. rewrite (decide_False (P := 0 < 0)) by lia.
    rewrite (bool_decide_false (0 < 0)) by lia. done. }
  cbn [String.length parse_components]. change (String c (r +:+ "s")) with (String c (r +:+ "s")) in Hcomp.
  rewrite Hcomp. cbn [mbind option_bind]. unfold Second, two63 in *. rewrite uint_id by lia.
  rewrite decide_False by lia.
  assert (forall k, parse_components k "" (0 + n * 1000000000) = Some (n * 1000000000)) as -> by (intros k; by destruct k).
  cbn [mbind option_bind]. rewrite decide_False by lia. done.
Qed.

(** A parsed duration is an int64. *)
Lemma parse_components_range k s d v : 0 <= d <= two63 -> parse_components k s d = Some v -> 0 <= v <= two63.
Proof.
  revert s d. induction k as [|k IH]; intros s d Hd; destruct s as [|c s]; cbn [parse_components];
    try (intros; by simplify_eq).
  destruct (parse_component (String c s)) as [[x rest]|]; cbn [mbind option_bind]; [|done].
  case_decide as Ho; [done|]. apply IH. pose proof (uint_range 64 (d + x)). lia.
Qed.

Lemma ParseDuration_range s d : ParseDuration s = Some d -> minInt64 <= d <= maxInt64.
Proof.
  unfold ParseDuration, minInt64, maxInt64.
  destruct (match s with EmptyString => _ | String _ _ => _ end) as [neg s'].
  case_decide; [intros; simplify_eq; lia|]. case_decide; [done|].
  destruct (parse_components _ s' 0) as [v|] eqn:Hv; cbn; [|done].
  apply parse_components_range in Hv; [|unfold two63; lia]. unfold two63 in *.
  destruct neg; [intros; simplify_eq; lia|]. case_decide; [done|]. intros; simplify_eq; lia.
Qed.

(** ** UTF-8 *)

Definition in_N (c : ascii) (lo hi : N) : bool := ((lo <=? ascii_N c) && (ascii_N c <=? hi))%N.

(** The bytes a leading byte calls for: the range of the first continuation
    byte and how many plain ones follow it. *)
Definition rune_shape (c : ascii) : option (N * N * nat) :=
  if in_N c 194 223 then Some (128, 191, 0%nat)%N
  else if in_N c 224 224 then Some (160, 191, 1%nat)%N
  else if in_N c 237 237 then Some (128, 159, 1%nat)%N
  else if in_N c 225 239 then Some (128, 191, 1%nat)%N
  else if in_N c 240 240 then Some (144, 191, 2%nat)%N
  else if in_N c 241 243 then Some (128, 191, 2%nat)%N
  else if in_N c 244 244 then Some (128, 143, 2%nat)%N
  else None.

Fixpoint continuations (n : nat) (s : string) : option string :=
  match n, s with
  | O, _ => Some s
  | S n, String c s => if in_N c 128 191 then continuations n s else None
  | S _, EmptyString => None
  end.

(** The rest of a string after its first rune; an invalid byte is a rune. *)
Definition after_rune (c : ascii) (s : string) : string :=
  match rune_shape c, s with
  | Some (lo, hi, n), String d t =>
      if in_N d lo hi then default s (continuations n t) else s
  | _, _ => s
  end.

(** [utf8.RuneCountInString]; every rune takes at least a byte. *)
Fixpoint rune_count (fuel : nat) (s : string) : nat :=
  match fuel, s with
  | S fuel, String c s => S (rune_count fuel (after_rune c s))
  | _, _ => 0
  end.
Definition RuneCountInString (s : string) : Z := Z.of_nat (rune_count (String.length s) s).

(** Whether ranging over the string meets a [unicode.IsControl] rune: an ASCII
    control, or U+0080 to U+009F, whose encoding is the byte 194 and one of 128
    to 159. Neither byte pattern can occur inside another valid rune. *)
Fixpoint hasControl (s : string) : bool :=
  match s with
  | EmptyString => false
  | String c s' =>
      in_N c 0 31 || in_N c 127 127 ||
      (in_N c 194 194 && match s' with String d _ => in_N d 128 159 | EmptyString => false end) || hasControl s'
  end.

Example runes_ex : RuneCountInString (String (chr 195) (String (chr 169) "t")) = 2. Proof. reflexivity. Qed.
