(* ===== verification/DurationText.v ===== *)
(** * Durations printed: time.Duration.String

    Go's canonical text of a duration ("1h0m0s", "1.5s", "200ms"), and that
    time.ParseDuration reads it back exactly: the fractions it prints are
    computed without rounding in binary64. *)
From S2P Require Import Prelude GoString Float64 Duration.
Open Scope string_scope.

(** [fmtFrac]: the [n] low decimal digits of [v], trailing zeros omitted, and
    the rest of [v]. *)
Fixpoint fmt_frac (n : nat) (v : Z) (print : bool) (acc : string) : bool * string * Z :=
  match n with
  | O => (print, acc, v)
  | S n =>
      let print := print || negb (bool_decide (v mod 10 = 0)) in
      fmt_frac n (v / 10) print (if print then String (digit (v mod 10)) acc else acc)
  end.
Definition frac_text (n : nat) (v : Z) : string :=
  let '(p, acc, _) := fmt_frac n v false "" in if p then String "." acc else "".

(** One unit of a duration: [v / 10^n] with its fraction. *)
Definition fmt_unit (n : nat) (v : Z) (unit : string) : string :=
  FormatInt (v / 10 ^ Z.of_nat n) +:+ frac_text n v +:+ unit.

Definition fmt_duration (u : Z) : string :=
  if decide (u = 0) then "0s"
  else if decide (u < 1000) then fmt_unit 0 u "ns"
  else if decide (u < 1000000) then fmt_unit 3 u micro1
  else if decide (u < Second) then fmt_unit 6 u "ms"
  else
    let s := u / Second in
    let secs := FormatInt (s mod 60) +:+ frac_text 9 u +:+ "s" in
    let m := s / 60 in
    if decide (m > 0) then
      let mins := FormatInt (m mod 60) +:+ "m" +:+ secs in
      let h := m / 60 in
      if decide (h > 0) then FormatInt h +:+ "h" +:+ mins else mins
    else secs.

(** [Duration.String]; the negation is in uint64. *)
Definition Duration_String (d : Z) : string :=
  if decide (d < 0) then String "-" (fmt_duration (- d)) else fmt_duration d.

Example dstr_1 : Duration_String (90 * Minute) = "1h30m0s". Proof. vm_compute. reflexivity. Qed.
Example dstr_2 : Duration_String 1500000000 = "1.5s". Proof. vm_compute. reflexivity. Qed.
Example dstr_3 : Duration_String 200000000 = "200ms". Proof. vm_compute. reflexivity. Qed.
Example dstr_4 : Duration_String (-1001) = (String "-" ("1.001" +:+ micro1)). Proof. vm_compute. reflexivity. Qed.
Example dstr_5 : Duration_String (2 * Minute + 50000000) = "2m0.05s". Proof. vm_compute. reflexivity. Qed.

(** ** Exact arithmetic *)

Lemma round_exact x d : 0 < d -> repr x -> round (x * d) d = x.
Proof. intros Hd Hx. apply Z.le_antisymm; [by apply round_le|by apply round_ge]. Qed.

Lemma fmul_int a b : 0 <= a -> 0 <= b -> a * b <= 2 ^ 53 -> fmul (a * one) (b * one) = a * b * one.
Proof.
  intros. pose proof one_pos. unfold fmul. replace (a * one * (b * one)) with (a * b * one * one) by lia.
  apply round_exact; [done|]. apply repr_int. nia.
Qed.

Lemma fdiv_int c b : 0 <= c <= 2 ^ 53 -> 0 < b -> fdiv (c * b * one) (b * one) = c * one.
Proof.
  intros. pose proof one_pos. unfold fdiv. replace (c * b * one * one) with (c * one * (b * one)) by lia.
  apply round_exact; [nia|]. by apply repr_int.
Qed.

(** ** The fraction *)

Lemma mod_pow_S v n : 0 <= v -> v mod 10 ^ Z.of_nat (S n) = 10 * ((v / 10) mod 10 ^ Z.of_nat n) + v mod 10.
Proof.
  intros Hv. rewrite Nat2Z.inj_succ, Z.pow_succ_r by lia. rewrite Z.rem_mul_r by lia. lia.
Qed.

Lemma fmt_frac_rest n v p acc : 0 <= v -> snd (fmt_frac n v p acc) = v / 10 ^ Z.of_nat n.
Proof.
  revert v p acc. induction n as [|n IH]; intros v p acc Hv; cbn [fmt_frac]; [by rewrite Z.div_1_r|].
  rewrite IH by (apply Z.div_pos; lia). rewrite Z.div_div by lia. f_equal. rewrite Nat2Z.inj_succ, Z.pow_succ_r by lia. lia.
Qed.

Lemma fmt_frac_print n v acc :
  0 <= v ->
  exists acc', fmt_frac n v true acc = (true, acc', v / 10 ^ Z.of_nat n) /\
    String.length acc' = (n + String.length acc)%nat /\
    forall x, parse_digits acc' x = parse_digits acc (x * 10 ^ Z.of_nat n + v mod 10 ^ Z.of_nat n).
Proof.
  revert v acc. induction n as [|n IH]; intros v acc Hv.
  { exists acc. cbn. rewrite Z.div_1_r. split_and!; [done|done|]. intros x. f_equal. rewrite Z.mod_1_r. lia. }
  cbn [fmt_frac orb]. destruct (IH (v / 10) (String (digit (v mod 10)) acc)) as (acc' & He & Hl & Hp); [apply Z.div_pos; lia|].
  exists acc'. rewrite He. split_and!.
  - f_equal. rewrite Z.div_div by lia. f_equal. rewrite Nat2Z.inj_succ, Z.pow_succ_r by lia. lia.
  - rewrite Hl. cbn. lia.
  - intros x. rewrite Hp. cbn [parse_digits]. destruct (is_digit_digit (v mod 10)) as [-> ->]; [by apply Z.mod_pos_bound|].
    f_equal. rewrite mod_pow_S by done. rewrite Nat2Z.inj_succ, Z.pow_succ_r by lia. lia.
Qed.

(** The printed fraction: none, or [k] digits that stand for it exactly. *)
Lemma fmt_frac_spec n v :
  0 <= v ->
  (v mod 10 ^ Z.of_nat n = 0 /\ fmt_frac n v false "" = (false, "", v / 10 ^ Z.of_nat n)) \/
  exists acc (k : nat) y, fmt_frac n v false "" = (true, acc, v / 10 ^ Z.of_nat n) /\
    (0 < k <= n)%nat /\ String.length acc = k /\ 0 < y < 10 ^ Z.of_nat k /\
    y * 10 ^ Z.of_nat (n - k) = v mod 10 ^ Z.of_nat n /\ parse_digits acc 0 = Some y.
Proof.
  revert v. induction n as [|n IH]; intros v Hv.
  { left. cbn. by rewrite Z.mod_1_r, Z.div_1_r. }
  assert (v / 10 / 10 ^ Z.of_nat n = v / 10 ^ Z.of_nat (S n)) as Hdiv.
  { rewrite Z.div_div by lia. f_equal. rewrite Nat2Z.inj_succ, Z.pow_succ_r by lia. lia. }
  pose proof (Z.mod_pos_bound v 10 ltac:(lia)) as Hm. pose proof (mod_pow_S v n Hv) as Hmod.
  cbn [fmt_frac orb]. case_bool_decide as Hz; cbn [negb].
  - destruct (IH (v / 10)) as [[H0 He]|(acc & k & y & He & Hk & Hl & Hy & Hyk & Hp)]; [apply Z.div_pos; lia| |].
    + left. rewrite He, Hdiv. split; [lia|done].
    + right. exists acc, k, y. rewrite He, Hdiv. split_and!; try done; try lia.
      rewrite Hmod, Hz, <- Hyk, Nat.sub_succ_l, Nat2Z.inj_succ, Z.pow_succ_r by lia. ring.
  - right. destruct (fmt_frac_print n (v / 10) (String (digit (v mod 10)) "")) as (acc & He & Hl & Hp); [apply Z.div_pos; lia|].
    exists acc, (S n), (v mod 10 ^ Z.of_nat (S n)). rewrite He, Hdiv.
    pose proof (Z.mod_pos_bound v (10 ^ Z.of_nat (S n)) ltac:(apply Z.pow_pos_nonneg; lia)).
    split_and!; try done; try lia.
    + rewrite Hl. cbn. lia.
    + rewrite Nat.sub_diag. cbn. lia.
    + rewrite Hp. cbn [parse_digits]. destruct (is_digit_digit (v mod 10)) as [-> ->]; [done|]. f_equal. lia.
Qed.

Lemma leadingFraction_digits s x (j : nat) r v :
  parse_digits s x = Some v -> 0 <= x -> v < 10 ^ 9 -> (j + String.length s <= 9)%nat ->
  match r with String c _ => is_digit c = false | EmptyString => True end ->
  leadingFraction (s +:+ r) x (10 ^ Z.of_nat j * one) false = (v, 10 ^ Z.of_nat (j + String.length s) * one, r).
Proof.
  revert x j. induction s as [|c s IH]; intros x j Hp Hx Hv Hj Hr.
  - cbn in Hp. injection Hp as ->. cbn [String.append String.length]. rewrite Nat.add_0_r.
    destruct r as [|c r]; [done|]. cbn. by rewrite Hr.
  - cbn [String.append leadingFraction parse_digits String.length] in *. destruct (is_digit c) eqn:Hc; [|done].
    pose proof (digit_val_range c Hc) as Hd. pose proof (parse_digits_ge _ _ _ Hp ltac:(lia)) as Hge.
    assert ((two63 - 1) / 10 = 922337203685477580) as -> by reflexivity. rewrite decide_False by lia.
    replace (x * 10 + digit_val c) with (10 * x + digit_val c) by lia. rewrite (decide_False (P := two63 < _)) by (rewrite two63_eq; lia).
    assert (fmul (10 ^ Z.of_nat j * one) (of_int 10) = 10 ^ Z.of_nat (S j) * one) as ->.
    { rewrite of_int_exact by lia. rewrite fmul_int; [|lia|lia|].
      - f_equal. rewrite Nat2Z.inj_succ, Z.pow_succ_r by lia. lia.
      - transitivity (10 ^ 8 * 10); [|lia]. apply Z.mul_le_mono_nonneg_r; [lia|]. apply Z.pow_le_mono_r; lia. }
    rewrite (IH (10 * x + digit_val c) (S j)); [|done|lia|done|lia|done].
    by replace (S j + String.length s)%nat with (j + S (String.length s))%nat by lia.
Qed.

(** ** One component *)

Definition starts_nondigit (r : string) : Prop :=
  match r with String c _ => is_digit c = false | EmptyString => True end.
(** The text after a unit: nothing, or the digits of the next component. *)
Definition ends_unit (r : string) : Prop :=
  match r with String c _ => is_digit c = true | EmptyString => True end.
Definition unit_text (u : string) : Prop :=
  u <> "" /\ all_bytes (fun c => negb (Ascii.eqb c "." || is_digit c)) u = true.

Lemma take_unit_text u r : unit_text u -> ends_unit r -> take_unit (u +:+ r) = (u, r).
Proof.
  intros [_ Hu] Hr. induction u as [|c u IH]; cbn [String.append take_unit].
  - destruct r as [|c r]; [done|]. cbn [take_unit]. unfold ends_unit in Hr. by rewrite Hr, orb_true_r.
  - cbn in Hu. apply andb_true_iff in Hu as [Hc Hu]. apply negb_true_iff in Hc. rewrite Hc. by rewrite IH.
Qed.

Lemma unit_nondigit u r : unit_text u -> starts_nondigit (u +:+ r).
Proof.
  intros [Hne Hu]. destruct u as [|c u]; [done|]. cbn in *. apply andb_true_iff in Hu as [Hc _].
  apply negb_true_iff, orb_false_iff in Hc. by destruct Hc.
Qed.

Lemma FormatInt_text n :
  0 <= n <= maxInt64 ->
  parse_digits (FormatInt n) 0 = Some n /\ exists c r, FormatInt n = String c r /\ is_digit c = true.
Proof.
  unfold maxInt64. intros Hn. unfold FormatInt. rewrite decide_False by lia.
  destruct (parse_fmt_digits 20 n "" 0) as [Hp _]; [cbn; lia|lia|]. split; [|apply fmt_digits_first; lia].
  rewrite Hp. done.
Qed.

(** The fraction of a component is parsed exactly. *)
Lemma frac_exact (n k : nat) y :
  (0 < k <= n)%nat -> (n <= 9)%nat -> 0 < y < 10 ^ Z.of_nat k ->
  fmul (of_int y) (fdiv (of_int (10 ^ Z.of_nat n)) (10 ^ Z.of_nat k * one)) / one = y * 10 ^ Z.of_nat (n - k).
Proof.
  intros Hk Hn Hy. pose proof one_pos.
  assert (10 ^ Z.of_nat k <= 10 ^ 9) by (apply Z.pow_le_mono_r; lia).
  assert (10 ^ Z.of_nat n <= 10 ^ 9) by (apply Z.pow_le_mono_r; lia).
  assert (10 ^ Z.of_nat n = 10 ^ Z.of_nat (n - k) * 10 ^ Z.of_nat k) as Hnk.
  { rewrite <- Z.pow_add_r by lia. f_equal. lia. }
  assert (0 < 10 ^ Z.of_nat (n - k)) by (apply Z.pow_pos_nonneg; lia).
  assert (0 < 10 ^ Z.of_nat k) by (apply Z.pow_pos_nonneg; lia).
  rewrite !of_int_exact by lia. rewrite Hnk, fdiv_int by nia. rewrite fmul_int by nia.
  apply Z.div_mul. lia.
Qed.

(** The text of [v] units and the fraction of [u], where a unit is [10^n]
    nanoseconds when there is a fraction. *)
Lemma parse_component_text n u v unit w rest :
  0 <= u -> (n <= 9)%nat -> 0 <= v <= maxInt64 -> unit_text unit -> ends_unit rest -> unitMap unit = Some w -> 0 < w ->
  (n = 0%nat \/ w = 10 ^ Z.of_nat n) -> v * w + u mod 10 ^ Z.of_nat n < two63 ->
  parse_component (FormatInt v +:+ frac_text n u +:+ unit +:+ rest) = Some (v * w + u mod 10 ^ Z.of_nat n, rest).
Proof.
  intros Hu Hn Hv Hut Hr Hw Hw0 Hwn Hmax. destruct (FormatInt_text v Hv) as [Hp (c & r & Hf & Hc)].
  pose proof (take_unit_text _ _ Hut Hr) as Htake. pose proof (unit_nondigit _ rest Hut) as Hnd.
  assert (0 <= u mod 10 ^ Z.of_nat n) as Hmod by (apply Z.mod_pos_bound, Z.pow_pos_nonneg; lia).
  assert (starts_nondigit (frac_text n u +:+ unit +:+ rest)) as Hnd2.
  { unfold frac_text. destruct (fmt_frac n u false "") as [[[] acc] ?]; [done|exact Hnd]. }
  assert (parse_component (FormatInt v +:+ frac_text n u +:+ unit +:+ rest) =
    let s1 := frac_text n u +:+ unit +:+ rest in
    let '(f, scale, s2, post) :=
      match s1 with
      | String d t => if Ascii.eqb d "." then let '(f, scale, t') := leadingFraction t 0 (of_int 1) false in
                                              (f, scale, t', negb (bool_decide (len t' = len t)))
                      else (0, of_int 1, s1, false)
      | EmptyString => (0, of_int 1, s1, false)
      end in
    let '(un, rest) := take_unit s2 in
    if decide (un = "") then None
    else unit ← unitMap un;
         if decide (two63 / unit < v) then None
         else let v := v * unit in
              let v := if decide (0 < f) then uint 64 (v + fmul (of_int f) (fdiv (of_int unit) scale) / one) else v in
              if bool_decide (0 < f) && bool_decide (two63 < v) then None else Some (v, rest)) as ->.
  { unfold parse_component. rewrite Hf in *. cbn [String.append]. rewrite Hc, orb_true_r.
    change (String c (r +:+ frac_text n u +:+ unit +:+ rest)) with (String c r +:+ frac_text n u +:+ unit +:+ rest)%string.
    rewrite (leadingInt_digits (String c r) 0 _ v Hp); [|lia|unfold maxInt64, two63 in *; lia|exact Hnd2].
    cbn [mbind option_bind]. rewrite bool_decide_false by (unfold len; rewrite (length_append (String c r)); cbn [String.length]; lia). cbn [negb andb].
    done. }
  cbv zeta. destruct Hut as [Hune _].
  destruct (fmt_frac_spec n u Hu) as [[H0 He]|(acc & k & y & He & Hk & Hl & Hy & Hyk & Hyp)]; unfold frac_text; rewrite He.
  - rewrite H0 in *. cbn [String.append]. destruct (unit +:+ rest) as [|d t] eqn:Hud; [by destruct unit|].
    assert (Ascii.eqb d "." = false) as ->.
    { destruct unit as [|d' unit']; [done|]. cbn in Hud. injection Hud as Hd _. subst d'.
      cbn in Htake. destruct (Ascii.eqb d "."); [done|done]. }
    rewrite Htake. rewrite decide_False by done. rewrite Hw. cbn [mbind option_bind].
    rewrite (decide_False (P := two63 / w < v)) by (pose proof (Z.mul_succ_div_gt two63 w ltac:(lia)); nia).
    rewrite decide_False by lia. rewrite (bool_decide_false (0 < 0)) by lia. cbn [andb]. do 2 f_equal. lia.
  - cbn [String.append]. rewrite Ascii.eqb_refl. rewrite (of_int_exact 1) by lia. change (1 * one) with (10 ^ Z.of_nat 0 * one).
    rewrite (leadingFraction_digits acc 0 0 (unit +:+ rest) y Hyp); [|lia| |lia|exact Hnd].
    2: { assert (10 ^ Z.of_nat k <= 10 ^ 9) by (apply Z.pow_le_mono_r; lia). lia. }
    rewrite Htake, decide_False by done. rewrite Hw. cbn [mbind option_bind].
    rewrite (decide_False (P := two63 / w < v)) by (pose proof (Z.mul_succ_div_gt two63 w ltac:(lia)); nia).
    rewrite decide_True by lia. destruct Hwn as [-> | ->]; [lia|]. rewrite Hl. cbn [Nat.add].
    rewrite (frac_exact n k y) by (try done; lia). rewrite Hyk. rewrite uint_id by (unfold two63 in *; nia).
    rewrite (bool_decide_false (two63 < _)) by lia. by rewrite andb_false_r.
Qed.

(** ** The whole text *)

(** The components of [s] bring the total from [d] to [v]. *)
Definition parses_to (s : string) (d v : Z) : Prop :=
  forall fuel, (String.length s <= fuel)%nat -> parse_components fuel s d = Some v.

Lemma parses_nil d : parses_to "" d d.
Proof. intros [|fuel] _; done. Qed.

Lemma parses_step s x rest d v :
  parse_component s = Some (x, rest) -> (String.length rest < String.length s)%nat ->
  0 <= d -> 0 <= x -> d + x <= two63 -> parses_to rest (d + x) v -> parses_to s d v.
Proof.
  intros Hc Hl Hd Hx Hm Hr fuel Hf. destruct s as [|c s]; [done|]. destruct fuel as [|fuel]; [cbn in Hf; lia|].
  cbn [parse_components]. rewrite Hc. cbn [mbind option_bind]. unfold two63 in Hm. rewrite uint_id by lia.
  rewrite decide_False by (unfold two63; lia). apply Hr. cbn in *. lia.
Qed.

Lemma ends_unit_FormatInt n s : 0 <= n <= maxInt64 -> ends_unit (FormatInt n +:+ s).
Proof. intros Hn. destruct (FormatInt_text n Hn) as (_ & c & r & -> & Hc). exact Hc. Qed.

(** A component without a fraction: [frac_text 0] is empty. *)
Lemma parses_whole v unit w rest d t :
  0 <= v <= maxInt64 -> unit_text unit -> ends_unit rest -> unitMap unit = Some w -> 0 < w ->
  0 <= d -> d + v * w < two63 -> parses_to rest (d + v * w) t -> parses_to (FormatInt v +:+ unit +:+ rest) d t.
Proof.
  intros Hv Hu Hr Hw Hw0 Hd Hm Hp. pose proof (parse_component_text 0 0 v unit w rest) as Hc.
  cbn [Z.of_nat Z.pow frac_text fmt_frac String.append] in Hc. rewrite Z.mod_1_r, Z.add_0_r in Hc.
  eapply parses_step; [apply Hc; try done; try lia; by left| | | | |done]; try lia; try nia.
  rewrite length_append. destruct Hu as [Hne _]. destruct unit; [done|]. cbn. rewrite length_append. lia.
Qed.

Lemma parses_last n u v unit w d t :
  0 <= u -> (n <= 9)%nat -> 0 <= v <= maxInt64 -> unit_text unit -> unitMap unit = Some w -> w = 10 ^ Z.of_nat n ->
  0 <= d -> t = d + (v * w + u mod 10 ^ Z.of_nat n) -> t < two63 ->
  parses_to (FormatInt v +:+ frac_text n u +:+ unit) d t.
Proof.
  intros Hu Hn Hv Hut Hw Hwn Hd -> Ht. rewrite <- (append_nil_r unit).
  assert (0 < 10 ^ Z.of_nat n) by (apply Z.pow_pos_nonneg; lia).
  pose proof (Z.mod_pos_bound u (10 ^ Z.of_nat n) ltac:(lia)).
  eapply parses_step; [apply parse_component_text with (w := w); try done; try lia; by right| | | | |apply parses_nil]; try nia.
  rewrite !length_append. destruct Hut as [Hne _]. destruct unit; [done|]. cbn. lia.
Qed.

Lemma fmt_unit_parses n u unit :
  0 <= u < two63 -> (n <= 9)%nat -> unit_text unit -> unitMap unit = Some (10 ^ Z.of_nat n) ->
  parses_to (fmt_unit n u unit) 0 u.
Proof.
  intros Hu Hn Hut Hw. unfold fmt_unit. assert (0 < 10 ^ Z.of_nat n) by (apply Z.pow_pos_nonneg; lia).
  pose proof (Z.div_mod u (10 ^ Z.of_nat n) ltac:(lia)). pose proof (Z.mod_pos_bound u (10 ^ Z.of_nat n) ltac:(lia)).
  pose proof (Z.div_pos u (10 ^ Z.of_nat n) ltac:(lia) ltac:(lia)).
  eapply parses_last; try done; try lia. unfold maxInt64, two63 in *. nia.
Qed.

Ltac unit_facts := split; [done|reflexivity].

Lemma fmt_duration_parses u : 0 < u <= maxInt64 -> parses_to (fmt_duration u) 0 u.
Proof.
  unfold maxInt64. intros Hu. unfold fmt_duration. rewrite decide_False by lia.
  assert (0 <= u < two63) as Hu' by (unfold two63; lia).
  case_decide; [apply fmt_unit_parses; [done|lia|unit_facts|done]|].
  case_decide; [apply fmt_unit_parses; [done|lia|unit_facts|done]|].
  case_decide; [apply fmt_unit_parses; [done|lia|unit_facts|done]|]. unfold Second in *.
  set (s := u / 1000000000). pose proof (Z.div_mod u 1000000000 ltac:(lia)) as Hdm. fold s in Hdm.
  pose proof (Z.mod_pos_bound u 1000000000 ltac:(lia)) as Hfr.
  pose proof (Z.div_mod s 60 ltac:(lia)) as Hs. pose proof (Z.mod_pos_bound s 60 ltac:(lia)) as Hsb.
  set (m := s / 60) in *. pose proof (Z.div_mod m 60 ltac:(lia)) as Hm. pose proof (Z.mod_pos_bound m 60 ltac:(lia)) as Hmb.
  assert (forall d, 0 <= d -> d + (s mod 60) * 1000000000 + u mod 1000000000 = u ->
    parses_to (FormatInt (s mod 60) +:+ frac_text 9 u +:+ "s") d u) as Hsecs.
  { intros d Hd He. eapply (parses_last 9 u (s mod 60) "s" Second); try done; try lia.
    - unfold maxInt64. lia.
    - change (10 ^ Z.of_nat 9) with 1000000000. unfold Second. lia. }
  case_decide as Hm0; [|apply Hsecs; lia]. 
  assert (forall d, 0 <= d -> d + (m mod 60) * Minute + (s mod 60) * 1000000000 + u mod 1000000000 = u ->
    parses_to (FormatInt (m mod 60) +:+ "m" +:+ FormatInt (s mod 60) +:+ frac_text 9 u +:+ "s") d u) as Hmins.
  { intros d Hd He. unfold Minute, Second in *. eapply (parses_whole (m mod 60) "m" Minute); try done; unfold Minute, Second, maxInt64; try lia.
    - apply ends_unit_FormatInt. unfold maxInt64. lia.
    - apply Hsecs; lia. }
  case_decide as Hh0; [|apply Hmins; [lia|unfold Minute, Second; lia]].
  eapply (parses_whole (m / 60) "h" Hour); try done; unfold Hour, Minute, Second, maxInt64 in *; try lia.
  - apply ends_unit_FormatInt. unfold maxInt64. lia.
  - apply Hmins; lia.
Qed.

Lemma fmt_duration_text u :
  0 <= u <= maxInt64 -> exists c r, fmt_duration u = String c r /\ is_digit c = true /\ r <> "".
Proof.
  unfold maxInt64. intros Hu.
  assert (forall n s, 0 <= n <= maxInt64 -> s <> "" -> exists c r, FormatInt n +:+ s = String c r /\ is_digit c = true /\ r <> "") as Hf.
  { intros n s Hn Hs. destruct (FormatInt_text n Hn) as (_ & c & r & -> & Hc). exists c, (r +:+ s). split_and!; [done|done|by destruct r]. }
  assert (forall a b, b <> "" -> a +:+ b <> "") as Hne by (by intros [] []).
  assert (forall x y, 0 <= x -> 0 < y -> x <= maxInt64 -> 0 <= x / y <= maxInt64) as Hdiv.
  { intros x y Hx Hy Hxm. split; [by apply Z.div_pos|]. transitivity x; [|done]. apply Z.div_le_upper_bound; nia. }
  assert (forall x, 0 <= x mod 60 <= maxInt64) as Hmod.
  { intros x. pose proof (Z.mod_pos_bound x 60 ltac:(lia)). unfold maxInt64. lia. }
  unfold fmt_duration. case_decide; [by eexists _, _|].
  assert (0 <= u / Second <= maxInt64) as Hs by (apply Hdiv; unfold Second, maxInt64; lia).
  repeat case_decide; try (apply Hf; [by apply Hmod|by repeat apply Hne]); try (apply Hf; [apply Hdiv; [lia..|]; unfold maxInt64; lia|by repeat apply Hne]).
  apply Hf; [|by repeat apply Hne]. apply Hdiv; [apply Hdiv; lia|lia|apply Hdiv; lia].
Qed.

(** Every non-negative duration is read back exactly. *)
Lemma ParseDuration_String d : 0 <= d <= maxInt64 -> ParseDuration (Duration_String d) = Some d.
Proof.
  intros Hd. destruct (decide (d = 0)) as [->|Hne]; [done|].
  pose proof (fmt_duration_parses d ltac:(lia)) as Hp. destruct (fmt_duration_text d Hd) as (c & r & Hf & Hc & Hr).
  unfold Duration_String. rewrite decide_False by lia. unfold ParseDuration. rewrite Hf in *.
  assert (Ascii.eqb c "-" || Ascii.eqb c "+" = false) as Hsign.
  { pose proof (byte_check (fun c => negb (is_digit c) || negb (Ascii.eqb c "-" || Ascii.eqb c "+")) eq_refl c) as Hb.
    cbn beta in Hb. rewrite Hc in Hb. by apply negb_true_iff in Hb. }
  cbv iota. rewrite Hsign, decide_False by (by intros [= _ ->]). rewrite decide_False by done. rewrite Hp by done.
  cbn [mbind option_bind]. rewrite decide_False; [done|]. unfold maxInt64, two63 in *. lia.
Qed.

Lemma Duration_String_ne d : 0 <= d <= maxInt64 -> Duration_String d <> "".
Proof.
  intros Hd. unfold Duration_String. rewrite decide_False by lia.
  by destruct (fmt_duration_text d Hd) as (c & r & -> & _).
Qed.
