(* ===== verification/Cache.v ===== *)
(** * The micro-cache: cmd/proxy/cache.go

    The store of one route ([responseCache]), the rules deciding which requests
    and responses it may serve, the cache key, and the recorder that captures a
    response as it streams. *)
From S2P Require Import Prelude GoString Http.
Open Scope string_scope.

Definition cacheMaxBody : Z := 2 ^ 20.
Definition cacheMaxEntries : Z := 1024.
Definition cacheMaxBytes : Z := 32 * 2 ^ 20.

Record cacheEntry := mkCacheEntry {
  ce_status : Z;
  ce_header : header;
  ce_body : string;
  ce_storedAt : Z;
}.

(** A fill in flight: [done] is closed when it ends. *)
Record cacheFill := mkCacheFill {
  fill_done : bool;
  fill_waiters : Z;
}.

(** [inflight] holds pointers into [fills], so that the identity test of
    [endFill] is the code's. *)
Record responseCache := mkResponseCache {
  ttl : Z;
  entries : gmap string cacheEntry;
  inflight : gmap string positive;
  bytes : Z;
  fills : gmap positive cacheFill;
}.

Definition newResponseCache (ttl : Z) : responseCache :=
  {| ttl := ttl; entries := ∅; inflight := ∅; bytes := 0; fills := ∅ |}.

Definition set_store (m : gmap string cacheEntry) (n : Z) (c : responseCache) : responseCache :=
  {| ttl := ttl c; entries := m; inflight := inflight c; bytes := n; fills := fills c |}.

Definition setTTL (d : Z) (c : responseCache) : responseCache :=
  if decide (d <> ttl c)
  then {| ttl := d; entries := ∅; inflight := inflight c; bytes := 0; fills := fills c |}
  else c.

Definition expired (c : responseCache) (e : cacheEntry) (now : Z) : bool :=
  negb (time_before now (ce_storedAt e + ttl c)).

Definition get (key : string) (now : Z) (c : responseCache) : option cacheEntry * responseCache :=
  match entries c !! key with
  | None => (None, c)
  | Some e =>
      if expired c e now
      then (None, set_store (delete key (entries c)) (bytes c - len (ce_body e)) c)
      else (Some e, c)
  end.

Definition over (c : responseCache) : bool :=
  bool_decide (cacheMaxEntries < Z.of_nat (size (entries c))) || bool_decide (cacheMaxBytes < bytes c).

Section evict.
Context `{MapRange}.

(** The first loop of [evictLocked]: delete the expired entries one by one. *)
Definition drop_expired (now : Z) (c : responseCache) : responseCache :=
  foldl (fun c '(k, e) =>
    if expired c e now then set_store (delete k (entries c)) (bytes c - len (ce_body e)) c else c)
  c (range_list (entries c)).

(** The scan for the entry with the smallest [storedAt]. *)
Definition older (best : option (string * cacheEntry)) (ke : string * cacheEntry) :=
  match best with
  | None => Some ke
  | Some b => if time_before (ce_storedAt ke.2) (ce_storedAt b.2) then Some ke else Some b
  end.
Definition oldest (c : responseCache) : option (string * cacheEntry) :=
  foldl older None (range_list (entries c)).

(** The second loop; reading [oldest.body] when there is no entry panics.
    [None] means the fuel ran out. *)
Fixpoint evict_loop (fuel : nat) (c : responseCache) : option (go responseCache) :=
  if over c then
    match fuel with
    | O => None
    | S fuel =>
        match oldest c with
        | None => Some Panic
        | Some (k, e) =>
            evict_loop fuel (set_store (delete k (entries c)) (bytes c - len (ce_body e)) c)
        end
    end
  else Some (Ret c).

Definition evictLocked (now : Z) (c : responseCache) : option (go responseCache) :=
  let c := drop_expired now c in evict_loop (size (entries c)) c.

Definition put (key : string) (e : cacheEntry) (now : Z) (c : responseCache) : option (go responseCache) :=
  let n := match entries c !! key with Some old => bytes c - len (ce_body old) | None => bytes c end in
  let c := set_store (<[key := e]> (entries c)) (n + len (ce_body e)) c in
  if over c then evictLocked now c else Some (Ret c).
End evict.

Definition set_fills (i : gmap string positive) (f : gmap positive cacheFill) (c : responseCache) :=
  {| ttl := ttl c; entries := entries c; inflight := i; bytes := bytes c; fills := f |}.

Definition beginFill (key : string) (c : responseCache) : positive * bool * responseCache :=
  match inflight c !! key with
  | Some f => (f, false, c)
  | None =>
      let f := fresh (dom (fills c)) in
      (f, true, set_fills (<[key := f]> (inflight c))
                          (<[f := {| fill_done := false; fill_waiters := 0 |}]> (fills c)) c)
  end.

(** Closing [done] twice panics. *)
Definition endFill (key : string) (f : positive) (c : responseCache) : go responseCache :=
  let i := if decide (inflight c !! key = Some f) then delete key (inflight c) else inflight c in
  match fills c !! f with
  | Some fl =>
      if fill_done fl then Panic
      else Ret (set_fills i (<[f := {| fill_done := true; fill_waiters := fill_waiters fl |}]> (fills c)) c)
  | None => Panic
  end.

(** ** The key *)

(** The quality-value test [strconv.ParseFloat(q, 64) == 0] on decimal
    numerals: an optional sign, digits with at most one point, at least one
    digit, no digit but 0, and an optional exponent. Hexadecimal numerals and
    decimal ones too small for a double, which also parse to 0, are left out. *)
Definition zero_exponent (s : string) : bool := all_bytes is_digit s && negb (bool_decide (s = "")).
Fixpoint zero_mantissa (s : string) (seen point : bool) : bool :=
  match s with
  | EmptyString => seen
  | String c r =>
      if Ascii.eqb c "0" then zero_mantissa r true point
      else if Ascii.eqb c "." then negb point && zero_mantissa r seen true
      else if Ascii.eqb c "e" || Ascii.eqb c "E" then
        seen && zero_exponent (match r with
                               | String d r' => if Ascii.eqb d "+" || Ascii.eqb d "-" then r' else r
                               | EmptyString => r
                               end)
      else false
  end.
Definition is_zero_float (q : string) : bool :=
  match q with
  | String c r => if Ascii.eqb c "+" || Ascii.eqb c "-" then zero_mantissa r false false
                  else zero_mantissa q false false
  | EmptyString => false
  end.

Definition codings : list string := ["br"; "deflate"; "gzip"; "zstd"].

Definition zero_q (p : string) : bool :=
  match CutPrefix (ToLower (TrimSpace p)) "q=" with
  | Some q => is_zero_float q
  | None => false
  end.

(** The coding one comma-separated token asks for, if the cache keys on it. *)
Definition token_coding (tok : string) : option string :=
  match Split tok ";" with
  | name :: params =>
      let name := ToLower (TrimSpace name) in
      if bool_decide (name ∈ codings) && negb (existsb zero_q params) then Some name else None
  | [] => None
  end.

Fixpoint collect_codings (toks : list string) (out : list string) : list string :=
  match toks with
  | [] => out
  | tok :: toks =>
      match token_coding tok with
      | Some name => collect_codings toks (if decide (name ∈ out) then out else out ++ [name])%list
      | None => collect_codings toks out
      end
  end.

Definition sort_strings (l : list string) : list string := merge_sort String.le l.

Definition normalizeAcceptEncoding (s : string) : string :=
  Join (sort_strings (collect_codings (Split s ",") [])) ",".

Definition NUL : string := String (chr 0) "".

Definition cacheKey (host path rawQuery acceptEncoding : string) : string :=
  host +:+ NUL +:+ path +:+ "?" +:+ rawQuery +:+ NUL +:+ normalizeAcceptEncoding acceptEncoding.

(** ** What may be cached *)

(** [has_cache] is [g.cache != nil]. *)
Definition cacheRequestEligible (req : request) (has_cache : bool) (cacheTTL : Z)
    (cachePaths : list string) (origPath : string) : bool :=
  if negb has_cache || bool_decide (cacheTTL <= 0) then false
  else if negb (bool_decide (req_Method req = "GET")) && negb (bool_decide (req_Method req = "HEAD")) then false
  else if negb (bool_decide (Get (req_Header req) "Authorization" = "")) ||
          negb (bool_decide (default [] (req_Header req !! "Cookie") = [])) ||
          negb (bool_decide (Get (req_Header req) "Range" = "")) then false
  else match cachePaths with
       | [] => true
       | _ => existsb (HasPrefix origPath) cachePaths
       end.

Definition directive (tok : string) : string :=
  let t := ToLower (TrimSpace tok) in
  match Cut t "=" with Some (name, _) => name | None => t end.

Definition cacheResponseStorable (h : header) : bool :=
  if negb (bool_decide (default [] (h !! "Set-Cookie") = [])) then false
  else if existsb (fun v => existsb (fun tok => bool_decide (directive tok ∈ ["private"; "no-store"; "no-cache"]))
                              (Split v ",")) (Values h "Cache-Control") then false
  else negb (existsb (fun v => existsb (fun tok =>
                let t := ToLower (TrimSpace tok) in
                negb (bool_decide (t = "")) && negb (bool_decide (t = "accept-encoding")))
              (Split v ",")) (Values h "Vary")).

Definition transfer_headers : list string :=
  ["Connection"; "Keep-Alive"; "Transfer-Encoding"; "Upgrade"; "Proxy-Authenticate";
   "Proxy-Authorization"; "Proxy-Connection"; "Trailer"; "Te"; "Content-Length"; "X-Cache"; "Age"].

(** The names listed in the Connection header are deleted first. [Values] is
    evaluated once, before the loop deletes anything. *)
Definition cloneStorableHeader (h : header) : header :=
  let named := flat_map (fun v => trimmed_parts v) (Values h "Connection") in
  Del_all transfer_headers (Del_all named h).

(** [unionStrings]: an order-preserving dedupe. *)
Fixpoint union_loop (l : list string) (out : list string) : list string :=
  match l with
  | [] => out
  | s :: l =>
      let s := TrimSpace s in
      if bool_decide (s = "") || bool_decide (s ∈ out) then union_loop l out
      else union_loop l (out ++ [s])%list
  end.
Definition unionStrings (a b : list string) : list string := union_loop (a ++ b)%list [].

(** ** The recorder *)

Record cacheRecorder := mkCacheRecorder {
  cr_mode : string;
  cr_record : bool;
  cr_wroteHeader : bool;
  cr_status : Z;
  cr_storable : bool;
  cr_header : header;
  cr_buf : string;
  cr_overflow : bool;
  cr_declaredLen : Z;
}.

Definition newRecorder (mode : string) (record : bool) : cacheRecorder :=
  {| cr_mode := mode; cr_record := record; cr_wroteHeader := false; cr_status := 0;
     cr_storable := false; cr_header := ∅; cr_buf := ""; cr_overflow := false; cr_declaredLen := 0 |}.

(** [WriteHeader] reads and stamps the shared header map [h] of the writer
    underneath; the forwarded call is the caller's. *)
Definition WriteHeader (code : Z) (h : header) (w : cacheRecorder) : header * cacheRecorder :=
  if bool_decide (code < 200) || cr_wroteHeader w then (h, w)
  else
    let h := Set_ "X-Cache" (cr_mode w) h in
    let storable := cr_record w && (bool_decide (code = 200) && cacheResponseStorable h) in
    (h, {| cr_mode := cr_mode w; cr_record := cr_record w; cr_wroteHeader := true; cr_status := code;
           cr_storable := if cr_record w then storable else cr_storable w;
           cr_header := if storable then cloneStorableHeader h else cr_header w;
           cr_buf := cr_buf w; cr_overflow := cr_overflow w;
           cr_declaredLen := if storable
             then default (-1) (let cl := Get h "Content-Length" in
                                if decide (cl = "") then None else ParseInt cl)
             else cr_declaredLen w |}).

Definition set_buf (b : string) (o : bool) (w : cacheRecorder) : cacheRecorder :=
  {| cr_mode := cr_mode w; cr_record := cr_record w; cr_wroteHeader := cr_wroteHeader w;
     cr_status := cr_status w; cr_storable := cr_storable w; cr_header := cr_header w;
     cr_buf := b; cr_overflow := o; cr_declaredLen := cr_declaredLen w |}.

Definition Write (p : string) (h : header) (w : cacheRecorder) : header * cacheRecorder :=
  let '(h, w) := if cr_wroteHeader w then (h, w) else WriteHeader 200 h w in
  if cr_storable w && negb (cr_overflow w) then
    if decide (cacheMaxBody < len (cr_buf w) + len p) then (h, set_buf "" true w)
    else (h, set_buf (cr_buf w +:+ p) (cr_overflow w) w)
  else (h, w).

Definition entry (w : cacheRecorder) : option cacheEntry :=
  if negb (cr_record w) || negb (cr_wroteHeader w) || negb (cr_storable w) || cr_overflow w then None
  else if bool_decide (0 <= cr_declaredLen w) && negb (bool_decide (len (cr_buf w) = cr_declaredLen w)) then None
  else Some {| ce_status := cr_status w; ce_header := cr_header w; ce_body := cr_buf w; ce_storedAt := 0 |}.

(** What [serveCached] writes: the status, the header map and the body. *)
Definition serveCached (req : request) (e : cacheEntry) (now : Z) (h : header) : Z * header * string :=
  let h := ce_header e ∪ h in
  let age := Z.max 0 (Z.quot (time_sub now (ce_storedAt e)) Second) in
  let h := Set_ "Content-Length" (FormatInt (len (ce_body e))) h in
  let h := Set_ "Age" (FormatInt age) h in
  let h := Set_ "X-Cache" "HIT" h in
  (ce_status e, h, if decide (req_Method req = "HEAD") then "" else ce_body e).

(** ** The store's invariant *)

Definition sum_bytes (m : gmap string cacheEntry) : Z :=
  map_fold (fun _ e n => len (ce_body e) + n) 0 m.

Lemma sum_bytes_empty : sum_bytes ∅ = 0.
Proof. apply map_fold_empty. Qed.

Lemma sum_bytes_insert m k e :
  m !! k = None -> sum_bytes (<[k := e]> m) = len (ce_body e) + sum_bytes m.
Proof. intros. unfold sum_bytes. rewrite map_fold_insert_L; [done| |done]. intros. lia. Qed.

Lemma sum_bytes_delete m k e :
  m !! k = Some e -> sum_bytes (delete k m) = sum_bytes m - len (ce_body e).
Proof.
  intros. unfold sum_bytes. rewrite (map_fold_delete_L _ _ k e m); [lia| |done]. intros. lia.
Qed.

Lemma sum_bytes_replace m k e :
  sum_bytes (<[k := e]> m) =
  sum_bytes m - (match m !! k with Some old => len (ce_body old) | None => 0 end) + len (ce_body e).
Proof.
  destruct (m !! k) as [old|] eqn:E.
  - rewrite <- insert_delete_eq, sum_bytes_insert by apply lookup_delete_eq.
    rewrite (sum_bytes_delete _ _ old) by done. lia.
  - rewrite sum_bytes_insert by done. lia.
Qed.

Definition accounted (c : responseCache) : Prop := bytes c = sum_bytes (entries c).

Lemma accounted_delete c k e :
  accounted c -> entries c !! k = Some e ->
  accounted (set_store (delete k (entries c)) (bytes c - len (ce_body e)) c).
Proof. unfold accounted; cbn. intros -> He. by rewrite (sum_bytes_delete _ _ e). Qed.

Lemma get_accounted key now c : accounted c -> accounted (get key now c).2.
Proof.
  intros Hc. unfold get. destruct (entries c !! key) as [e|] eqn:E; [|done].
  destruct (expired c e now); [|done]. by apply accounted_delete.
Qed.

Lemma setTTL_accounted d c : accounted c -> accounted (setTTL d c).
Proof. intros Hc. unfold setTTL. case_decide; [|done]. unfold accounted; cbn. by rewrite sum_bytes_empty. Qed.

Section evict.
Context `{MapRange}.

Lemma drop_expired_gen now (l : list (string * cacheEntry)) c :
  NoDup l.*1 -> (forall k e, (k, e) ∈ l -> entries c !! k = Some e) -> accounted c ->
  let c' := foldl (fun c '(k, e) => if expired c e now
    then set_store (delete k (entries c)) (bytes c - len (ce_body e)) c else c) c l in
  accounted c' /\ ttl c' = ttl c /\ inflight c' = inflight c /\ fills c' = fills c /\
  (forall k e, entries c' !! k = Some e <->
     entries c !! k = Some e /\ ~ ((k, e) ∈ l /\ expired c e now = true)).
Proof.
  revert c. induction l as [|[k e] l IH]; intros c Hnd Hl Hc; cbn.
  { split_and!; auto. intros k e. split; [|naive_solver]. intros ?. split; [done|]. set_solver. }
  apply NoDup_cons in Hnd as [Hk Hnd].
  assert (He : entries c !! k = Some e) by (apply Hl; set_solver).
  assert (Hkl : forall e', (k, e') ∉ l).
  { intros e' Hin. apply Hk. apply list_elem_of_fmap. by exists (k, e'). }
  destruct (expired c e now) eqn:Hx.
  - destruct (IH (set_store (delete k (entries c)) (bytes c - len (ce_body e)) c)) as (Ha & Ht & Hi & Hf & Hspec); [done| |by apply accounted_delete|].
    { intros k' e' Hin; cbn. rewrite lookup_delete_ne; [apply Hl; set_solver|]. intros ->. by apply (Hkl e'). }
    split; [done|]. split; [done|]. split; [done|]. split; [done|].
    intros k' e'. rewrite Hspec; cbn. rewrite lookup_delete_Some. split.
    + intros [[Hne Hlk] Hn]. split; [done|]. intros [[Heq|Hin]%elem_of_cons Hx']; [congruence|]. by apply Hn.
    + intros [Hlk Hn]. split; [split; [|done]|].
      * intros ->. apply Hn. split; [|congruence]. rewrite He in Hlk. simplify_eq. set_solver.
      * intros [Hin Hx']. apply Hn. split; [set_solver|]. exact Hx'.
  - destruct (IH c) as (Ha & Ht & Hi & Hf & Hspec); [done| |done|].
    { intros k' e' Hin. apply Hl. set_solver. }
    split; [done|]. split; [done|]. split; [done|]. split; [done|].
    intros k' e'. rewrite Hspec. split.
    + intros [Hlk Hn]. split; [done|]. intros [[Heq|Hin]%elem_of_cons Hx']; [simplify_eq; congruence|]. by apply Hn.
    + intros [Hlk Hn]. split; [done|]. intros [Hin Hx']. apply Hn. split; [set_solver|done].
Qed.

(** Dropping the expired entries removes them and nothing else. *)
Lemma drop_expired_spec now c :
  accounted c ->
  accounted (drop_expired now c) /\ ttl (drop_expired now c) = ttl c /\
  inflight (drop_expired now c) = inflight c /\ fills (drop_expired now c) = fills c /\
  (forall k e, entries (drop_expired now c) !! k = Some e <->
     entries c !! k = Some e /\ expired c e now = false).
Proof.
  intros Hc. destruct (drop_expired_gen now (range_list (entries c)) c) as (? & ? & ? & ? & Hs);
    [apply range_NoDup|intros; by apply elem_of_range|done|].
  split_and!; try done. intros k e. rewrite Hs, elem_of_range. fold (drop_expired now c).
  destruct (expired c e now); naive_solver.
Qed.

Lemma foldl_older l acc :
  match foldl older acc l with
  | Some (k, e) =>
      ((k, e) ∈ l \/ acc = Some (k, e)) /\
      (forall k' e', (k', e') ∈ l \/ acc = Some (k', e') -> ce_storedAt e <= ce_storedAt e')
  | None => l = [] /\ acc = None
  end.
Proof.
  revert acc. induction l as [|[k e] l IH]; intros acc; cbn.
  { destruct acc as [[k e]|]; [|done]. split; [by right|]. intros k' e' [Hin|Heq]; [set_solver|].
    simplify_eq. lia. }
  specialize (IH (older acc (k, e))). destruct (foldl older (older acc (k, e)) l) as [[k0 e0]|].
  - destruct IH as [Hin Hle]. unfold older, time_before in *. split.
    + destruct Hin as [Hin|Heq]; [set_solver|]. destruct acc as [[ka ea]|]; cbn in *.
      * case_bool_decide; simplify_eq; set_solver.
      * simplify_eq. set_solver.
    + intros k' e' Hk'. destruct acc as [[ka ea]|]; cbn in *.
      * case_bool_decide.
        -- destruct Hk' as [[?|?]%elem_of_cons|?]; simplify_eq; [by eapply Hle; right|eapply Hle; eauto|].
           transitivity (ce_storedAt e); [by eapply Hle; right|lia].
        -- destruct Hk' as [[?|?]%elem_of_cons|?]; simplify_eq; [|eapply Hle; eauto|by eapply Hle; right].
           transitivity (ce_storedAt ea); [by eapply Hle; right|lia].
      * destruct Hk' as [[?|?]%elem_of_cons|?]; simplify_eq; [by eapply Hle; right|eapply Hle; eauto].
  - destruct IH as [-> Hacc]. destruct acc as [[ka ea]|]; cbn in *; [by destruct (time_before _ _)|done].
Qed.

Lemma oldest_spec c :
  match oldest c with
  | Some (k, e) => entries c !! k = Some e /\
      (forall k' e', entries c !! k' = Some e' -> ce_storedAt e <= ce_storedAt e')
  | None => entries c = ∅
  end.
Proof.
  unfold oldest. pose proof (foldl_older (range_list (entries c)) None) as Hf.
  destruct (foldl older None _) as [[k e]|].
  - destruct Hf as [[Hin|?] Hle]; [|done]. split; [by apply elem_of_range|].
    intros k' e' Hk'. eapply Hle. left. by apply elem_of_range.
  - destruct Hf as [Hnil _]. apply map_empty. intros k. destruct (entries c !! k) as [e|] eqn:E; [|done].
    apply elem_of_range in E. rewrite Hnil in E. set_solver.
Qed.

Lemma not_over_empty c : accounted c -> entries c = ∅ -> over c = false.
Proof.
  intros Hc He. unfold over. rewrite Hc, He, map_size_empty, sum_bytes_empty. by vm_compute.
Qed.

(** What eviction keeps: a part of the store, and nothing older than what it
    dropped. *)
Definition evicts (m m' : gmap string cacheEntry) : Prop :=
  m' ⊆ m /\
  (forall k d k' e, m !! k = Some d -> m' !! k = None -> m' !! k' = Some e ->
    ce_storedAt d <= ce_storedAt e).

Lemma evict_loop_spec fuel c :
  accounted c -> (size (entries c) <= fuel)%nat ->
  exists c', evict_loop fuel c = Some (Ret c') /\ accounted c' /\ over c' = false /\
    ttl c' = ttl c /\ inflight c' = inflight c /\ fills c' = fills c /\ evicts (entries c) (entries c').
Proof.
  revert c. induction fuel as [|fuel IH]; intros c Hc Hs.
  - assert (entries c = ∅) as He by (apply map_size_empty_iff; lia).
    cbn. rewrite (not_over_empty c) by done. exists c.
    split_and!; try done; [by apply not_over_empty|]. split; [done|]. intros k d k' e _ _ Hl. by rewrite He in Hl.
  - cbn. destruct (over c) eqn:Ho.
    2:{ exists c. split_and!; try done. split; [done|]. intros k d k' e Hk Hn. congruence. }
    pose proof (oldest_spec c) as Hold. destruct (oldest c) as [[k e]|].
    2:{ by rewrite not_over_empty in Ho. }
    destruct Hold as [Hk Hmin].
    destruct (IH (set_store (delete k (entries c)) (bytes c - len (ce_body e)) c))
      as (c' & Heq & Ha & Ho' & Ht & Hi & Hf & Hsub & Hage); [by apply accounted_delete| |].
    { cbn. rewrite map_size_delete_Some by by exists e. lia. }
    exists c'. cbn in *. split_and!; try done. split.
    + etrans; [done|]. apply delete_subseteq.
    + intros k0 d k' e' Hk0 Hn He'. destruct (decide (k0 = k)) as [->|Hne].
      * simplify_eq. eapply Hmin. eapply lookup_weaken; [done|]. etrans; [done|]. apply delete_subseteq.
      * eapply Hage; [by rewrite lookup_delete_ne|done|done].
Qed.
End evict.

Section store.
Context `{MapRange}.

Lemma evictLocked_spec now c :
  accounted c ->
  exists c', evictLocked now c = Some (Ret c') /\ accounted c' /\ over c' = false /\
    ttl c' = ttl c /\ inflight c' = inflight c /\ fills c' = fills c /\
    entries c' ⊆ entries c /\
    (forall k d k' e, entries c !! k = Some d -> expired c d now = false ->
      entries c' !! k = None -> entries c' !! k' = Some e -> ce_storedAt d <= ce_storedAt e).
Proof.
  intros Hc. destruct (drop_expired_spec now c Hc) as (Ha & Ht & Hi & Hf & Hd).
  destruct (evict_loop_spec (size (entries (drop_expired now c))) (drop_expired now c) Ha (le_n _))
    as (c' & Heq & Ha' & Ho & Ht' & Hi' & Hf' & Hsub & Hage).
  exists c'. split_and!; try done; try congruence.
  - etrans; [done|]. apply map_subseteq_spec. intros k e. rewrite Hd. naive_solver.
  - intros k d k' e Hk Hx Hn He. eapply Hage; [by rewrite Hd|done|done].
Qed.

Lemma put_spec key e now c :
  accounted c ->
  exists c', put key e now c = Some (Ret c') /\ accounted c' /\ over c' = false /\
    ttl c' = ttl c /\ inflight c' = inflight c /\ fills c' = fills c /\
    entries c' ⊆ <[key := e]> (entries c) /\
    (forall k d k' e', <[key := e]> (entries c) !! k = Some d -> expired c d now = false ->
      entries c' !! k = None -> entries c' !! k' = Some e' -> ce_storedAt d <= ce_storedAt e').
Proof.
  intros Hc. unfold put.
  set (n := match entries c !! key with Some old => bytes c - len (ce_body old) | None => bytes c end).
  set (c1 := set_store (<[key := e]> (entries c)) (n + len (ce_body e)) c).
  assert (accounted c1) as H1.
  { unfold accounted, c1, n; cbn. rewrite sum_bytes_replace, Hc. destruct (entries c !! key); lia. }
  destruct (over c1) eqn:Ho.
  - destruct (evictLocked_spec now c1 H1) as (c' & ? & ? & ? & ? & ? & ? & ? & ?). eexists. by split_and!.
  - exists c1. split_and!; try done. intros k d k' e' Hk _ Hn. cbn in *. congruence.
Qed.
End store.

(** Requests and refreshes act on a store through these operations. *)
Inductive cache_op :=
| OpGet (key : string) (now : Z)
| OpPut (key : string) (e : cacheEntry) (now : Z)
| OpSetTTL (d : Z).

Inductive cache_step `{MapRange} : responseCache -> cache_op -> responseCache -> Prop :=
| step_get c key now : cache_step c (OpGet key now) (get key now c).2
| step_put c key e now c' : put key e now c = Some (Ret c') -> cache_step c (OpPut key e now) c'
| step_setTTL c d : cache_step c (OpSetTTL d) (setTTL d c).

Inductive cache_run `{MapRange} : responseCache -> list cache_op -> responseCache -> Prop :=
| run_nil c : cache_run c [] c
| run_snoc c ops c' op c'' : cache_run c ops c' -> cache_step c' op c'' -> cache_run c (ops ++ [op])%list c''.

(** What holds of a store after the operations [ops]. *)
Record cache_ok (ops : list cache_op) (c : responseCache) : Prop := {
  ok_accounted : accounted c;
  ok_bounds : over c = false;
  ok_source : forall k e, entries c !! k = Some e -> exists now, OpPut k e now ∈ ops;
}.

Lemma cache_step_ok `{MapRange} ops c op c' :
  cache_ok ops c -> cache_step c op c' -> cache_ok (ops ++ [op])%list c'.
Proof.
  intros [Ha Ho Hs] Hst. assert (Hs' : forall k e, entries c !! k = Some e ->
    exists now, OpPut k e now ∈ (ops ++ [op])%list) by set_solver.
  destruct Hst as [c key now|c key e now c' Hp|c d].
  - split; [by apply get_accounted| |].
    + unfold get. destruct (entries c !! key) as [e|] eqn:E; [|done].
      destruct (expired c e now); [|done]. unfold over in *; cbn.
      rewrite map_size_delete_Some by by exists e. reflect_bools.
      apply orb_false_iff. assert (0 <= len (ce_body e)) by (unfold len; lia).
      split; apply bool_decide_eq_false; lia.
    + intros k e. unfold get. destruct (entries c !! key) as [e0|]; [|auto].
      destruct (expired c e0 now); [|auto]. cbn. intros [_ ?]%lookup_delete_Some. auto.
  - destruct (put_spec key e now c Ha) as (c1 & Hp1 & Ha1 & Ho1 & _ & _ & _ & Hsub & _).
    rewrite Hp1 in Hp. simplify_eq. split; [done|done|]. intros k e' Hk.
    eapply lookup_weaken in Hk; [|done]. apply lookup_insert_Some in Hk as [[-> ->]|[_ Hk]]; [|auto].
    exists now. set_solver.
  - split; [by apply setTTL_accounted| |]; unfold setTTL; by case_decide.
Qed.

(** C32. The cache store stays within its bounds. After any sequence of reads,
    writes and TTL changes, on whatever schedule and whatever order the map is
    walked in: the byte counter equals the bytes stored, there are at most 1024
    entries and 32 MiB of bodies, and every entry was put under its own key. *)
Theorem cache_bounds `{MapRange} (d : Z) (ops : list cache_op) (c : responseCache) :
  cache_run (newResponseCache d) ops c ->
  bytes c = sum_bytes (entries c) /\ Z.of_nat (size (entries c)) <= cacheMaxEntries /\
  bytes c <= cacheMaxBytes /\
  (forall k e, entries c !! k = Some e -> exists now, OpPut k e now ∈ ops).
Proof.
  intros Hr. assert (cache_ok ops c) as [Ha Ho Hs].
  { remember (newResponseCache d) as c0. induction Hr; subst.
    - split; [done|by vm_compute|done].
    - eapply cache_step_ok; eauto. }
  unfold over in Ho. reflect_bools. split_and!; [done|lia|lia|done].
Qed.

Lemma cache_bounds_witness :
  let e := {| ce_status := 200; ce_header := ∅; ce_body := "hi"; ce_storedAt := 0 |} in
  let c := set_store {["k" := e]} 2 (newResponseCache 5) in
  bytes c = sum_bytes (entries c) /\ Z.of_nat (size (entries c)) <= cacheMaxEntries /\
  bytes c <= cacheMaxBytes /\
  (forall k e', entries c !! k = Some e' -> exists now, OpPut k e' now ∈ [OpPut "k" e 0]).
Proof.
  intros e c. apply (cache_bounds 5 [OpPut "k" e 0] c).
  apply (run_snoc (newResponseCache 5) [] (newResponseCache 5) (OpPut "k" e 0) c); [constructor|]. apply step_put. by vm_compute.
Defined.

(** A put never fails and evicts oldest first. Storing a response never
    panics and its eviction loop ends within as many rounds as there are
    entries; afterwards both bounds hold, nothing was added but the new entry,
    and no unexpired entry was dropped in favour of an older one. *)
Theorem put_total `{MapRange} (key : string) (e : cacheEntry) (now : Z) (c : responseCache) :
  bytes c = sum_bytes (entries c) ->
  exists c', put key e now c = Some (Ret c') /\
    Z.of_nat (size (entries c')) <= cacheMaxEntries /\ bytes c' <= cacheMaxBytes /\
    entries c' ⊆ <[key := e]> (entries c) /\
    (forall k d k' e', <[key := e]> (entries c) !! k = Some d -> expired c d now = false ->
      entries c' !! k = None -> entries c' !! k' = Some e' -> ce_storedAt d <= ce_storedAt e').
Proof.
  intros Hc. destruct (put_spec key e now c Hc) as (c' & ? & _ & Ho & _ & _ & _ & ? & ?).
  exists c'. unfold over in Ho. reflect_bools. split_and!; try done; lia.
Qed.

Lemma put_total_witness :
  let e := {| ce_status := 200; ce_header := ∅; ce_body := "hi"; ce_storedAt := 0 |} in
  exists c', put "k" e 0 (newResponseCache 5) = Some (Ret c') /\
    Z.of_nat (size (entries c')) <= cacheMaxEntries /\ bytes c' <= cacheMaxBytes /\
    entries c' ⊆ <["k" := e]> ∅ /\
    (forall k d k' e', <["k" := e]> (∅ : gmap string cacheEntry) !! k = Some d -> expired (newResponseCache 5) d 0 = false ->
      entries c' !! k = None -> entries c' !! k' = Some e' -> ce_storedAt d <= ce_storedAt e').
Proof. intros e. apply (put_total "k" e 0 (newResponseCache 5)). by vm_compute. Defined.

(** ** Coalescing *)

(** Fillers claim a key and release it when their request ends. *)
Inductive fill_op :=
| FillBegin (key : string)
| FillEnd (key : string) (f : positive).

(** The store and the fills whose owners are still at work, by key. *)
Inductive fill_step : responseCache * gmap string positive -> fill_op -> responseCache * gmap string positive -> Prop :=
| fill_begin_owner c owners key f c' :
    beginFill key c = (f, true, c') -> fill_step (c, owners) (FillBegin key) (c', <[key := f]> owners)
| fill_begin_waiter c owners key f c' :
    beginFill key c = (f, false, c') -> fill_step (c, owners) (FillBegin key) (c', owners)
| fill_end c owners key f c' :
    owners !! key = Some f -> endFill key f c = Ret c' ->
    fill_step (c, owners) (FillEnd key f) (c', delete key owners).

Record fill_ok (c : responseCache) (owners : gmap string positive) : Prop := {
  fok_inflight : inflight c = owners;
  fok_open : forall k f, owners !! k = Some f -> exists n, fills c !! f = Some {| fill_done := false; fill_waiters := n |};
  fok_inj : forall k k' f, owners !! k = Some f -> owners !! k' = Some f -> k = k';
}.

Lemma fill_step_ok c owners op c' owners' :
  fill_ok c owners -> fill_step (c, owners) op (c', owners') -> fill_ok c' owners'.
Proof.
  intros [Hi Ho Hinj] Hst. inversion Hst; subst; clear Hst.
  - unfold beginFill in *. destruct (inflight c !! key) eqn:E; simplify_eq.
    set (f := fresh (dom (fills c))) in *.
    assert (Hf : fills c !! f = None) by apply not_elem_of_dom, is_fresh.
    split; cbn; [done| |].
    + intros k g [[-> ->]|[_ Hk]]%lookup_insert_Some; [rewrite lookup_insert_eq; eauto|].
      destruct (Ho _ _ Hk) as [n Hn]. exists n. rewrite lookup_insert_ne; [done|]. intros ->. congruence.
    + intros k k' g Hk Hk'. apply lookup_insert_Some in Hk as [[-> ->]|[Hne Hk]];
        apply lookup_insert_Some in Hk' as [[Hk'' Hg]|[Hne' Hk']]; simplify_eq; try done.
      * destruct (Ho _ _ Hk'). congruence.
      * destruct (Ho _ _ Hk). congruence.
      * by eapply Hinj.
  - unfold beginFill in *. destruct (inflight c !! key) eqn:E; simplify_eq. by split.
  - match goal with H1 : _ !! key = Some f, H2 : endFill _ _ _ = _ |- _ =>
      rename H1 into Hk; rename H2 into He end.
    destruct (Ho _ _ Hk) as [n Hn]. unfold endFill in He. rewrite Hn, Hk in He. cbn in He.
    rewrite decide_True in He by done. simplify_eq. split; cbn; [done| |].
    + intros k g [Hne Hg]%lookup_delete_Some. destruct (Ho _ _ Hg) as [m Hm]. exists m.
      rewrite lookup_insert_ne; [done|]. intros ->. by apply Hne, (Hinj _ _ g).
    + intros k k' g [_ Hk1]%lookup_delete_Some [_ Hk2]%lookup_delete_Some. by eapply Hinj.
Qed.

Inductive fill_reach (d : Z) : responseCache -> gmap string positive -> Prop :=
| fill_init : fill_reach d (newResponseCache d) ∅
| fill_next c o op c' o' : fill_reach d c o -> fill_step (c, o) op (c', o') -> fill_reach d c' o'.

(** C33. Concurrent misses are coalesced. In every reachable state each key has
    at most one filler at work, a further miss on that key parks on the same
    fill, and the owner's release never double-closes it and frees the key. *)
Theorem coalescing (d : Z) (c : responseCache) (owners : gmap string positive) (key : string) :
  fill_reach d c owners ->
  match owners !! key with
  | Some f =>
      beginFill key c = (f, false, c) /\
      exists c', endFill key f c = Ret c' /\ fill_reach d c' (delete key owners) /\
        inflight c' !! key = None /\ fill_done <$> fills c' !! f = Some true
  | None => exists f c', beginFill key c = (f, true, c') /\ fill_reach d c' (<[key := f]> owners)
  end.
Proof.
  intros Hr. assert (fill_ok c owners) as [Hi Ho Hinj].
  { induction Hr; [by split|]. by eapply fill_step_ok. }
  destruct (owners !! key) as [f|] eqn:Hk.
  - unfold beginFill. rewrite Hi, Hk. split; [done|].
    destruct (Ho _ _ Hk) as [n Hn].
    assert (exists c', endFill key f c = Ret c' /\ inflight c' !! key = None /\
      fill_done <$> fills c' !! f = Some true) as (c' & He & Hn' & Hd).
    { unfold endFill. rewrite Hn, Hi, Hk. cbn. eexists. split; [done|]. cbn.
      rewrite decide_True by done. by rewrite lookup_delete_eq, lookup_insert_eq. }
    exists c'. split_and!; try done. eapply fill_next; [done|]. by apply fill_end.
  - unfold beginFill. rewrite Hi, Hk. do 2 eexists. split; [done|].
    eapply fill_next; [done|]. apply fill_begin_owner. unfold beginFill. by rewrite Hi, Hk.
Qed.

Lemma coalescing_witness :
  exists f c', beginFill "k" (newResponseCache 5) = (f, true, c') /\ fill_reach 5 c' {["k" := f]}.
Proof.
  pose proof (coalescing 5 (newResponseCache 5) ∅ "k" (fill_init 5)) as Hc.
  rewrite lookup_empty in Hc. exact Hc.
Defined.

(** ** The recorder *)

Fixpoint concat_bytes (ps : list string) : string :=
  match ps with [] => "" | p :: ps => p +:+ concat_bytes ps end.

(** A final status followed by the chunks of the body, as the reverse proxy
    copies them; [h] is the header map when the status is written. *)
Fixpoint write_all (ps : list string) (h : header) (w : cacheRecorder) : cacheRecorder :=
  match ps with
  | [] => w
  | p :: ps => let '(h, w) := Write p h w in write_all ps h w
  end.

Definition record_response (code : Z) (ps : list string) (h : header) : cacheRecorder :=
  let '(h, w) := WriteHeader code h (newRecorder "MISS" true) in write_all ps h w.

(** What the chunks written so far leave in the buffer. *)
Definition buffered (w : cacheRecorder) (b : string) : Prop :=
  cr_wroteHeader w = true /\ cr_storable w = true /\
  (cr_overflow w = false -> cr_buf w = b /\ len b <= cacheMaxBody) /\
  (cr_overflow w = true -> cacheMaxBody < len b).

Lemma len_app a b : len (a +:+ b) = len a + len b.
Proof. unfold len. rewrite length_append. lia. Qed.

Lemma Write_buffered p h w b :
  buffered w b -> (Write p h w).1 = h /\ buffered (Write p h w).2 (b +:+ p) /\
  cr_status (Write p h w).2 = cr_status w /\ cr_header (Write p h w).2 = cr_header w /\
  cr_declaredLen (Write p h w).2 = cr_declaredLen w /\ cr_record (Write p h w).2 = cr_record w.
Proof.
  intros (Hw & Hs & Hn & Ho). unfold Write. rewrite Hw, Hs. cbn.
  assert (Hp : 0 <= len p) by (unfold len; lia).
  destruct (cr_overflow w) eqn:E; cbn.
  - split_and!; try done. split_and!; try done; [congruence|]. intros _. rewrite len_app.
    specialize (Ho eq_refl). lia.
  - destruct (Hn eq_refl) as [-> Hb]. case_decide; cbn; split_and!; try done; rewrite ?len_app;
      split_and!; cbn; rewrite ?E; try done; intros; rewrite ?len_app; try (split; [done|]); lia.
Qed.

Lemma write_all_buffered ps h w b :
  buffered w b ->
  let w' := write_all ps h w in
  buffered w' (b +:+ concat_bytes ps) /\ cr_status w' = cr_status w /\ cr_header w' = cr_header w /\
  cr_declaredLen w' = cr_declaredLen w /\ cr_record w' = cr_record w.
Proof.
  revert h w b. induction ps as [|p ps IH]; intros h w b Hb; cbn; [by rewrite append_nil_r|].
  destruct (Write_buffered p h w b Hb) as (_ & Hb' & E1 & E2 & E3 & E4).
  destruct (Write p h w) as [h' w']; cbn in *. destruct (IH h' w' _ Hb') as (? & ? & ? & ? & ?).
  rewrite append_assoc in *. split_and!; try done; congruence.
Qed.

Lemma write_all_unstorable ps h w :
  cr_wroteHeader w = true -> cr_storable w = false -> entry (write_all ps h w) = None.
Proof.
  revert h w. induction ps as [|p ps IH]; intros h w Hw Hs; cbn.
  - unfold entry. rewrite Hs. cbn. by rewrite !orb_true_r.
  - unfold Write. rewrite Hw, Hs. cbn. by apply IH.
Qed.

Lemma cloneStorable_subset h k vs : cloneStorableHeader h !! k = Some vs -> h !! k = Some vs.
Proof.
  unfold cloneStorableHeader. intros Hk.
  assert (Hgen : forall ks (m : header), Del_all ks m !! k = Some vs -> m !! k = Some vs).
  { intros ks m Hm. destruct (decide (k ∈ CanonicalHeaderKey <$> ks)) as [Hin|Hout].
    - by rewrite Del_all_elem in Hm.
    - by rewrite Del_all_ne in Hm. }
  by do 2 apply Hgen in Hk.
Qed.

Lemma cloneStorable_transfer h k :
  k ∈ transfer_headers -> cloneStorableHeader h !! CanonicalHeaderKey k = None.
Proof. intros Hk. apply Del_all_elem. by apply list_elem_of_fmap_2. Qed.

Definition stamped (h : header) : header := Set_ "X-Cache" "MISS" h.

Definition declared (h : header) : Z :=
  default (-1) (let cl := Get (stamped h) "Content-Length" in
                if decide (cl = "") then None else ParseInt cl).

#[local] Arguments cloneStorableHeader : simpl never.
#[local] Arguments declared : simpl never.

(** The cache records whole responses only. For a final status and any way
    the body is split into writes, an entry results exactly when the status is
    200, the headers allow storing, the body is at most 1 MiB and as long as
    the backend declared; its body is then the concatenation of the writes,
    and its header carries no Set-Cookie value and no per-transfer header. *)
Theorem recorded_exact (code : Z) (ps : list string) (h : header) :
  200 <= code ->
  let body := concat_bytes ps in
  match entry (record_response code ps h) with
  | Some e =>
      code = 200 /\ cacheResponseStorable (stamped h) = true /\ len body <= cacheMaxBody /\
      (0 <= declared h -> len body = declared h) /\
      ce_status e = 200 /\ ce_body e = body /\ ce_header e = cloneStorableHeader (stamped h) /\
      default [] (ce_header e !! "Set-Cookie") = [] /\
      (forall k, k ∈ transfer_headers -> ce_header e !! CanonicalHeaderKey k = None)
  | None =>
      code <> 200 \/ cacheResponseStorable (stamped h) = false \/ cacheMaxBody < len body \/
      (0 <= declared h /\ len body <> declared h)
  end.
Proof.
  intros Hcode body. unfold record_response, WriteHeader.
  rewrite bool_decide_eq_false_2 by lia. cbn. fold (stamped h).
  destruct (bool_decide (code = 200) && cacheResponseStorable (stamped h)) eqn:Hst.
  2:{ rewrite write_all_unstorable by done. apply andb_false_iff in Hst as [Hc|Hs]; [|auto].
      left. by apply bool_decide_eq_false in Hc. }
  reflect_bools. lazymatch goal with |- context [write_all ps (stamped h) ?w] =>
    destruct (write_all_buffered ps (stamped h) w "") as ((Hw & Hs & Hn & Ho) & Est & Eh & Ed & Er);
    [by split_and!|]; set (w' := write_all ps (stamped h) w) in * end.
  change (cr_declaredLen w' = declared h) in Ed. clearbody w'.
  unfold entry. rewrite Hw, Hs, Er, Ed. cbn in *. fold body in Hn, Ho.
  destruct (cr_overflow w'); cbn; [right; right; left; auto|].
  destruct (Hn eq_refl) as [-> Hlen].
  destruct (bool_decide (0 <= declared h) && negb (bool_decide (len body = declared h))) eqn:Hd; cbn.
  { reflect_bools. do 3 right. done. }
  rewrite Eh, Est. split_and!; try done.
  - intros Hpos. rewrite bool_decide_eq_true_2 in Hd by done. cbn in Hd. by reflect_bools.
  - destruct (cloneStorableHeader (stamped h) !! "Set-Cookie") as [vs|] eqn:E; [|done].
    apply cloneStorable_subset in E. unfold cacheResponseStorable in *. rewrite E in *; cbn in *.
    by destruct vs.
  - intros k Hk. by apply cloneStorable_transfer.
Qed.

Lemma recorded_exact_witness :
  match entry (record_response 200 ["he"; "llo"] {["Content-Length" := ["5"]]}) with
  | Some e => ce_body e = "hello"
  | None => False
  end.
Proof.
  pose proof (recorded_exact 200 ["he"; "llo"] {["Content-Length" := ["5"]]} ltac:(lia)) as H.
  assert (is_Some (entry (record_response 200 ["he"; "llo"] {["Content-Length" := ["5"]]}))) as [e He]
    by (vm_compute; eauto).
  cbv zeta in H. rewrite He in *. apply H.
Defined.

(** ** Keys *)

(** The set of codings an Accept-Encoding header asks for. *)
Definition accepted (s : string) : gset string := list_to_set (omap token_coding (Split s ",")).

Lemma collect_codings_spec toks out :
  NoDup out ->
  NoDup (collect_codings toks out) /\
  (forall x, x ∈ collect_codings toks out <-> x ∈ out \/ x ∈ omap token_coding toks).
Proof.
  revert out. induction toks as [|t toks IH]; intros out Hnd; cbn.
  - split; [done|]. intros x. split; [auto|]. intros [?|?%elem_of_nil]; done.
  - destruct (token_coding t) as [n|]; [|by apply IH]. case_decide as Hn.
    + destruct (IH out Hnd) as [? Hx]. split; [done|]. intros x. rewrite Hx. set_solver.
    + destruct (IH (out ++ [n])%list) as [? Hx].
      { apply NoDup_app. split_and!; [done|set_solver|]. apply NoDup_singleton. }
      split; [done|]. intros x. rewrite Hx. set_solver.
Qed.

Lemma sort_strings_unique l l' : l ≡ₚ l' -> sort_strings l = sort_strings l'.
Proof.
  intros Hp. apply (StronglySorted_unique String.le); [apply StronglySorted_merge_sort; apply _..|].
  unfold sort_strings. by rewrite !merge_sort_Permutation.
Qed.

Lemma token_coding_elem tok n : token_coding tok = Some n -> n ∈ codings.
Proof.
  unfold token_coding. destruct (Split tok ";") as [|x params]; [done|].
  destruct (bool_decide (ToLower (TrimSpace x) ∈ codings) && negb (existsb zero_q params)) eqn:E; [|done].
  reflect_bools. by intros [= <-].
Qed.

Lemma accepted_codings s n : n ∈ accepted s -> n ∈ codings.
Proof.
  unfold accepted. rewrite elem_of_list_to_set, list_elem_of_omap.
  intros (tok & _ & Ht). by eapply token_coding_elem.
Qed.

Definition normal_list (s : string) : list string := sort_strings (collect_codings (Split s ",") []).

Lemma normal_list_elem s n : n ∈ normal_list s <-> n ∈ accepted s.
Proof.
  unfold normal_list, sort_strings, accepted. rewrite merge_sort_Permutation.
  destruct (collect_codings_spec (Split s ",") [] (NoDup_nil_2)) as [_ Hx]. rewrite Hx.
  rewrite elem_of_list_to_set. set_solver.
Qed.

Lemma normal_list_ext s s' : accepted s = accepted s' -> normal_list s = normal_list s'.
Proof.
  intros Ha. apply sort_strings_unique.
  destruct (collect_codings_spec (Split s ",") [] NoDup_nil_2) as [Hn Hx].
  destruct (collect_codings_spec (Split s' ",") [] NoDup_nil_2) as [Hn' Hx'].
  apply NoDup_Permutation; [done..|]. intros x. rewrite Hx, Hx'.
  assert (x ∈ accepted s <-> x ∈ accepted s') as H by (by rewrite Ha).
  unfold accepted in H. rewrite !elem_of_list_to_set in H. set_solver.
Qed.

(** Every coding is read back as itself. *)
Lemma coding_self n : n ∈ codings ->
  token_coding n = Some n /\ has_byte "," n = false /\ n <> "" /\ has_byte (chr 0) n = false.
Proof.
  intros H. repeat (apply elem_of_cons in H as [->|H]; [by vm_compute|]). by apply elem_of_nil in H.
Qed.

Lemma omap_coding_self l : Forall (fun n => n ∈ codings) l -> omap token_coding l = l.
Proof.
  induction 1 as [|n l Hn _ IH]; [done|]. cbn. destruct (coding_self n Hn) as [-> _]. by rewrite IH.
Qed.

Lemma normal_list_codings s : Forall (fun n => n ∈ codings) (normal_list s).
Proof. apply Forall_forall. intros n Hn%normal_list_elem. by eapply accepted_codings. Qed.

Lemma accepted_normalize s : accepted (normalizeAcceptEncoding s) = accepted s.
Proof.
  unfold normalizeAcceptEncoding. fold (normal_list s).
  apply set_eq. intros n. rewrite <- (normal_list_elem s n).
  pose proof (normal_list_codings s) as Hc. unfold accepted.
  destruct (decide (normal_list s = [])) as [->|Hne]; [set_solver|].
  rewrite Split_Join; [|done|].
  - by rewrite omap_coding_self, elem_of_list_to_set.
  - eapply Forall_impl; [exact Hc|]. intros x Hx. by apply coding_self.
Qed.

(** Accept-Encoding is reduced to a canonical form. Two headers share a
    cache entry exactly when they accept the same set of codings, whatever the
    order, repetition, case, spacing or non-zero quality values, and the
    canonical form is its own canonical form. *)
Theorem normalize_canonical (s s' : string) :
  (normalizeAcceptEncoding s = normalizeAcceptEncoding s' <-> accepted s = accepted s') /\
  normalizeAcceptEncoding (normalizeAcceptEncoding s) = normalizeAcceptEncoding s.
Proof.
  assert (Hext : forall a b, accepted a = accepted b -> normalizeAcceptEncoding a = normalizeAcceptEncoding b).
  { intros a b Hab. unfold normalizeAcceptEncoding. fold (normal_list a) (normal_list b).
    by rewrite (normal_list_ext a b). }
  split; [split; [|apply Hext]|].
  - intros Heq. by rewrite <- (accepted_normalize s), <- (accepted_normalize s'), Heq.
  - apply Hext, accepted_normalize.
Qed.

Lemma has_NUL_Join l : Forall (fun p => has_byte (chr 0) p = false) l -> has_byte (chr 0) (Join l ",") = false.
Proof.
  induction 1 as [|p l Hp Hl IH]; [done|]. destruct l as [|q l]; [done|].
  change (Join (p :: q :: l) ",") with (p +:+ String "," (Join (q :: l) ",")).
  rewrite has_byte_app, Hp. exact IH.
Qed.

Lemma normalize_NUL s : has_byte (chr 0) (normalizeAcceptEncoding s) = false.
Proof.
  apply has_NUL_Join. eapply Forall_impl; [apply normal_list_codings|].
  intros n Hn. by apply coding_self.
Qed.

Lemma cut_unique sep a b a' b' :
  has_byte sep a = false -> has_byte sep a' = false ->
  a +:+ String sep b = a' +:+ String sep b' -> a = a' /\ b = b'.
Proof.
  intros Ha Ha' Heq.
  assert (Cut (a +:+ String sep b) sep = Some (a, b)) as H1 by (by apply Cut_Some).
  assert (Cut (a' +:+ String sep b') sep = Some (a', b')) as H2 by (by apply Cut_Some).
  rewrite Heq, H2 in H1. by simplify_eq.
Qed.

(** Requests whose paths hold no question mark share a cache entry only
    when host, path and query are equal and the same codings are accepted. *)
Theorem cacheKey_inj (h h' p p' q q' ae ae' : string) :
  has_byte (chr 0) h = false -> has_byte (chr 0) h' = false ->
  has_byte "?" p = false -> has_byte "?" p' = false ->
  has_byte (chr 0) q = false -> has_byte (chr 0) q' = false ->
  cacheKey h p q ae = cacheKey h' p' q' ae' ->
  h = h' /\ p = p' /\ q = q' /\ accepted ae = accepted ae'.
Proof.
  intros Hh Hh' Hp Hp' Hq Hq' Heq. unfold cacheKey, NUL in Heq.
  apply (cut_unique (chr 0)) in Heq as [-> Heq]; [|done..].
  apply (cut_unique "?") in Heq as [-> Heq]; [|done..].
  apply (cut_unique (chr 0)) in Heq as [-> Heq]; [|done..].
  split_and!; try done. by rewrite <- (accepted_normalize ae), <- (accepted_normalize ae'), Heq.
Qed.

Lemma cacheKey_inj_witness :
  "h" = "h" /\ "/a" = "/a" /\ "x=1" = "x=1" /\ accepted "gzip, br" = accepted "br;q=0.5,gzip".
Proof.
  apply (cacheKey_inj "h" "h" "/a" "/a" "x=1" "x=1" "gzip, br" "br;q=0.5,gzip");
    vm_compute; reflexivity.
Defined.

(** The key is not injective on all requests. A path holding a decoded
    question mark (requested as /a%3Fb) has the key of a different request (the
    path /a with the query "b?"), for every host and every encoding, so one
    resource's body can be stored under and served for the other. *)
Theorem cacheKey_collision (h p q ae : string) :
  cacheKey h (p +:+ "?" +:+ q) "" ae = cacheKey h p (q +:+ "?") ae.
Proof. unfold cacheKey. rewrite !append_assoc. done. Qed.
