(* ===== verification/Balancer.v ===== *)
(** * Backends and load balancing: cmd/proxy/router.go and cmd/proxy/health.go

    A backend is shared by pointer between route groups, so it lives in a store
    of locations; a route group holds the locations. The pick functions are the
    code's weighted round-robin, with the run-time panics of its index
    expression. *)
From S2P Require Import Prelude GoString Float64 Http Sha256.
Open Scope string_scope.

(** A pointer. *)
Notation loc := positive (only parsing).

Record Backend := mkBackend {
  b_URL : string;
  b_Weight : Z;
  b_Container : string;
  b_HealthPath : string;
  b_proxy : option (option loc);  (* nil, or a reverse proxy and its Transport field *)
  b_healthyFlag : bool;
  b_stickyID : string;
  b_consecFails : Z;              (* int32 *)
  b_DockerUnhealthy : bool;
  b_Learned : bool;
  b_PeerID : string;
  b_Variant : string;
  b_peerTestID : string;
  b_ContainerID : string;
  b_draining : bool;
  b_transport : option loc;
}.

Definition set_healthyFlag (ok : bool) (b : Backend) : Backend :=
  mkBackend (b_URL b) (b_Weight b) (b_Container b) (b_HealthPath b) (b_proxy b) ok (b_stickyID b)
    (b_consecFails b) (b_DockerUnhealthy b) (b_Learned b) (b_PeerID b) (b_Variant b) (b_peerTestID b)
    (b_ContainerID b) (b_draining b) (b_transport b).
Definition set_consecFails (n : Z) (b : Backend) : Backend :=
  mkBackend (b_URL b) (b_Weight b) (b_Container b) (b_HealthPath b) (b_proxy b) (b_healthyFlag b)
    (b_stickyID b) n (b_DockerUnhealthy b) (b_Learned b) (b_PeerID b) (b_Variant b) (b_peerTestID b)
    (b_ContainerID b) (b_draining b) (b_transport b).
Definition set_draining (d : bool) (b : Backend) : Backend :=
  mkBackend (b_URL b) (b_Weight b) (b_Container b) (b_HealthPath b) (b_proxy b) (b_healthyFlag b)
    (b_stickyID b) (b_consecFails b) (b_DockerUnhealthy b) (b_Learned b) (b_PeerID b) (b_Variant b)
    (b_peerTestID b) (b_ContainerID b) d (b_transport b).
Definition set_peerTestID (id : string) (b : Backend) : Backend :=
  mkBackend (b_URL b) (b_Weight b) (b_Container b) (b_HealthPath b) (b_proxy b) (b_healthyFlag b)
    (b_stickyID b) (b_consecFails b) (b_DockerUnhealthy b) (b_Learned b) (b_PeerID b) (b_Variant b)
    id (b_ContainerID b) (b_draining b) (b_transport b).
(** Wires a transport into the backend and its reverse proxy. *)
Definition set_transport (t : loc) (b : Backend) : Backend :=
  mkBackend (b_URL b) (b_Weight b) (b_Container b) (b_HealthPath b) (Some (Some t)) (b_healthyFlag b)
    (b_stickyID b) (b_consecFails b) (b_DockerUnhealthy b) (b_Learned b) (b_PeerID b) (b_Variant b)
    (b_peerTestID b) (b_ContainerID b) (b_draining b) (Some t).

(** ** Construction *)

Definition backendStickyID (rawURL : string) : string := hex (take_bytes 8 (Sum256 rawURL)).

(** [url.Parse] is done by the caller; the Director and ErrorHandler closures
    are modelled with the request path. *)
Definition makeBackend (rawURL : string) (weight : Z) (container healthPath : string) : Backend :=
  {| b_URL := rawURL; b_Weight := weight; b_Container := container; b_HealthPath := healthPath;
     b_proxy := Some None; b_healthyFlag := false; b_stickyID := backendStickyID rawURL;
     b_consecFails := 0; b_DockerUnhealthy := false; b_Learned := false; b_PeerID := "";
     b_Variant := ""; b_peerTestID := ""; b_ContainerID := ""; b_draining := false;
     b_transport := None |}.

Definition makePeerBackend (peerBaseURL peerID : string) (weight : Z) : Backend :=
  {| b_URL := peerBaseURL; b_Weight := if decide (weight < 1) then 1 else weight;
     b_Container := "peer:" +:+ peerID; b_HealthPath := "";
     b_proxy := Some None; b_healthyFlag := false; b_stickyID := backendStickyID peerBaseURL;
     b_consecFails := 0; b_DockerUnhealthy := false; b_Learned := true; b_PeerID := peerID;
     b_Variant := ""; b_peerTestID := ""; b_ContainerID := ""; b_draining := false;
     b_transport := None |}.

(** ** Health *)

Definition unhealthyAfterConsecutiveFails : Z := 2.

Definition markHealthy (ok : bool) (b : Backend) : Backend := set_healthyFlag ok b.

Definition recordHealthCheck (ok : bool) (b : Backend) : Backend :=
  if ok then markHealthy true (set_consecFails 0 b)
  else
    let n := sint 32 (b_consecFails b + 1) in
    let b := set_consecFails n b in
    if decide (unhealthyAfterConsecutiveFails <= n) then markHealthy false b else b.

Definition healthy (b : Backend) : bool :=
  negb (b_DockerUnhealthy b) && negb (b_draining b) && b_healthyFlag b.

Definition excludedFrom (b : Backend) (ignoreHealth : bool) : bool :=
  if b_DockerUnhealthy b || b_draining b then true
  else negb ignoreHealth && negb (b_healthyFlag b).

(** The outcome of one probe, as [checkBackend] classifies it: with a health
    path, the HTTP status or an error; without one, whether the dial worked. *)
Inductive probe := HTTPStatus (code : Z) | HTTPError | Dialled (ok : bool).

Definition checkBackend (p : probe) (b : Backend) : Backend :=
  recordHealthCheck
    match p with
    | HTTPStatus code => bool_decide (Z.quot code 100 = 2)
    | HTTPError => false
    | Dialled ok => ok
    end b.

(** ** A/B variants *)

Definition variantName (b : Backend) : string := if decide (b_Variant b = "B") then "B" else "A".
Definition inVariant (b : Backend) (v : string) : bool :=
  bool_decide (v = "") || bool_decide (variantName b = v).

(** ** Route groups *)

(** The A/B experiment a group's labels describe (abtest.go). *)
Record abConfig := mkAbConfig {
  ab_ID : string;
  ab_Assign : string;
  ab_Header : string;
  ab_Split : Z;
  ab_Groups : gmap string string;
  ab_UIDCookie : string;
  ab_GroupCookie : string;
  ab_Anon : bool;
  ab_SessionIdle : Z;
  ab_PinRefresh : Z;
  ab_MaxSession : Z;
  ab_Started : Z;
  ab_Epoch : Z;
  ab_Phase : string;
  ab_PhaseAt : Z;
  ab_AbortReason : string;
  ab_Exclude : list string;
  ab_Static : list string;
  ab_CookieJS : bool;
  ab_Override : bool;
  ab_AutoAbort : bool;
  ab_MinSamples : Z;
  ab_MinRuntime : Z;
  ab_Warmup : Z;
  ab_Window : Z;
  ab_Windows : Z;
  ab_WindowMinSamples : Z;
  ab_ErrDelta : float64;
  ab_ErrRatio : float64;
  ab_P95Ratio : float64;
  ab_P95Slack : Z;
}.

Definition set_ab_Started (v : Z) (c : abConfig) : abConfig :=
  mkAbConfig (ab_ID c) (ab_Assign c) (ab_Header c) (ab_Split c) (ab_Groups c) (ab_UIDCookie c)
    (ab_GroupCookie c) (ab_Anon c) (ab_SessionIdle c) (ab_PinRefresh c) (ab_MaxSession c) v (ab_Epoch c)
    (ab_Phase c) (ab_PhaseAt c) (ab_AbortReason c) (ab_Exclude c) (ab_Static c) (ab_CookieJS c)
    (ab_Override c) (ab_AutoAbort c) (ab_MinSamples c) (ab_MinRuntime c) (ab_Warmup c) (ab_Window c)
    (ab_Windows c) (ab_WindowMinSamples c) (ab_ErrDelta c) (ab_ErrRatio c) (ab_P95Ratio c) (ab_P95Slack
    c).
Definition set_ab_Epoch (v : Z) (c : abConfig) : abConfig :=
  mkAbConfig (ab_ID c) (ab_Assign c) (ab_Header c) (ab_Split c) (ab_Groups c) (ab_UIDCookie c)
    (ab_GroupCookie c) (ab_Anon c) (ab_SessionIdle c) (ab_PinRefresh c) (ab_MaxSession c) (ab_Started c)
    v (ab_Phase c) (ab_PhaseAt c) (ab_AbortReason c) (ab_Exclude c) (ab_Static c) (ab_CookieJS c)
    (ab_Override c) (ab_AutoAbort c) (ab_MinSamples c) (ab_MinRuntime c) (ab_Warmup c) (ab_Window c)
    (ab_Windows c) (ab_WindowMinSamples c) (ab_ErrDelta c) (ab_ErrRatio c) (ab_P95Ratio c) (ab_P95Slack
    c).
Definition set_ab_PhaseAt (v : Z) (c : abConfig) : abConfig :=
  mkAbConfig (ab_ID c) (ab_Assign c) (ab_Header c) (ab_Split c) (ab_Groups c) (ab_UIDCookie c)
    (ab_GroupCookie c) (ab_Anon c) (ab_SessionIdle c) (ab_PinRefresh c) (ab_MaxSession c) (ab_Started c)
    (ab_Epoch c) (ab_Phase c) v (ab_AbortReason c) (ab_Exclude c) (ab_Static c) (ab_CookieJS c)
    (ab_Override c) (ab_AutoAbort c) (ab_MinSamples c) (ab_MinRuntime c) (ab_Warmup c) (ab_Window c)
    (ab_Windows c) (ab_WindowMinSamples c) (ab_ErrDelta c) (ab_ErrRatio c) (ab_P95Ratio c) (ab_P95Slack
    c).

(** [g_cache], [g_limiter] and [g_ab] are pointers, nil for [None]. *)
Record RouteGroup := mkRouteGroup {
  g_Host : string;
  g_PathPrefix : string;
  g_StripPrefix : bool;
  g_Name : string;
  g_Service : string;
  g_Backends : list loc;
  g_DropHeaders : list string;
  g_Sticky : bool;
  g_CacheTTL : Z;
  g_CachePaths : list string;
  g_cache : option loc;
  g_AuthRequired : bool;
  g_AuthUsers : list string;
  g_AuthMode : string;
  g_RateLimit : bool;
  g_RateRPM : Z;
  g_limiter : option loc;
  g_Spread : bool;
  g_SpreadLocal : bool;
  g_cursor : Z;                 (* uint64 *)
  g_panicLogAt : Z;             (* int64 *)
  g_static : bool;
  g_abCfg : option abConfig;
  g_ab : option loc;
  g_abLocal : option abConfig;
}.

Definition set_g_cursor (v : Z) (g : RouteGroup) : RouteGroup :=
  mkRouteGroup (g_Host g) (g_PathPrefix g) (g_StripPrefix g) (g_Name g) (g_Service g) (g_Backends g)
    (g_DropHeaders g) (g_Sticky g) (g_CacheTTL g) (g_CachePaths g) (g_cache g) (g_AuthRequired g)
    (g_AuthUsers g) (g_AuthMode g) (g_RateLimit g) (g_RateRPM g) (g_limiter g) (g_Spread g)
    (g_SpreadLocal g) v (g_panicLogAt g) (g_static g) (g_abCfg g) (g_ab g) (g_abLocal g).
Definition set_g_cache (v : (option loc)) (g : RouteGroup) : RouteGroup :=
  mkRouteGroup (g_Host g) (g_PathPrefix g) (g_StripPrefix g) (g_Name g) (g_Service g) (g_Backends g)
    (g_DropHeaders g) (g_Sticky g) (g_CacheTTL g) (g_CachePaths g) v (g_AuthRequired g) (g_AuthUsers g)
    (g_AuthMode g) (g_RateLimit g) (g_RateRPM g) (g_limiter g) (g_Spread g) (g_SpreadLocal g) (g_cursor
    g) (g_panicLogAt g) (g_static g) (g_abCfg g) (g_ab g) (g_abLocal g).
Definition set_g_limiter (v : (option loc)) (g : RouteGroup) : RouteGroup :=
  mkRouteGroup (g_Host g) (g_PathPrefix g) (g_StripPrefix g) (g_Name g) (g_Service g) (g_Backends g)
    (g_DropHeaders g) (g_Sticky g) (g_CacheTTL g) (g_CachePaths g) (g_cache g) (g_AuthRequired g)
    (g_AuthUsers g) (g_AuthMode g) (g_RateLimit g) (g_RateRPM g) v (g_Spread g) (g_SpreadLocal g)
    (g_cursor g) (g_panicLogAt g) (g_static g) (g_abCfg g) (g_ab g) (g_abLocal g).
Definition set_g_Backends (v : (list loc)) (g : RouteGroup) : RouteGroup :=
  mkRouteGroup (g_Host g) (g_PathPrefix g) (g_StripPrefix g) (g_Name g) (g_Service g) v (g_DropHeaders g)
    (g_Sticky g) (g_CacheTTL g) (g_CachePaths g) (g_cache g) (g_AuthRequired g) (g_AuthUsers g)
    (g_AuthMode g) (g_RateLimit g) (g_RateRPM g) (g_limiter g) (g_Spread g) (g_SpreadLocal g) (g_cursor
    g) (g_panicLogAt g) (g_static g) (g_abCfg g) (g_ab g) (g_abLocal g).
Definition set_g_Spread (v : bool) (g : RouteGroup) : RouteGroup :=
  mkRouteGroup (g_Host g) (g_PathPrefix g) (g_StripPrefix g) (g_Name g) (g_Service g) (g_Backends g)
    (g_DropHeaders g) (g_Sticky g) (g_CacheTTL g) (g_CachePaths g) (g_cache g) (g_AuthRequired g)
    (g_AuthUsers g) (g_AuthMode g) (g_RateLimit g) (g_RateRPM g) (g_limiter g) v (g_SpreadLocal g)
    (g_cursor g) (g_panicLogAt g) (g_static g) (g_abCfg g) (g_ab g) (g_abLocal g).
Definition set_g_panicLogAt (v : Z) (g : RouteGroup) : RouteGroup :=
  mkRouteGroup (g_Host g) (g_PathPrefix g) (g_StripPrefix g) (g_Name g) (g_Service g) (g_Backends g)
    (g_DropHeaders g) (g_Sticky g) (g_CacheTTL g) (g_CachePaths g) (g_cache g) (g_AuthRequired g)
    (g_AuthUsers g) (g_AuthMode g) (g_RateLimit g) (g_RateRPM g) (g_limiter g) (g_Spread g)
    (g_SpreadLocal g) (g_cursor g) v (g_static g) (g_abCfg g) (g_ab g) (g_abLocal g).
Definition set_g_RateRPM (v : Z) (g : RouteGroup) : RouteGroup :=
  mkRouteGroup (g_Host g) (g_PathPrefix g) (g_StripPrefix g) (g_Name g) (g_Service g) (g_Backends g)
    (g_DropHeaders g) (g_Sticky g) (g_CacheTTL g) (g_CachePaths g) (g_cache g) (g_AuthRequired g)
    (g_AuthUsers g) (g_AuthMode g) (g_RateLimit g) v (g_limiter g) (g_Spread g) (g_SpreadLocal g)
    (g_cursor g) (g_panicLogAt g) (g_static g) (g_abCfg g) (g_ab g) (g_abLocal g).
Definition set_g_AuthRequired (v : bool) (g : RouteGroup) : RouteGroup :=
  mkRouteGroup (g_Host g) (g_PathPrefix g) (g_StripPrefix g) (g_Name g) (g_Service g) (g_Backends g)
    (g_DropHeaders g) (g_Sticky g) (g_CacheTTL g) (g_CachePaths g) (g_cache g) v (g_AuthUsers g)
    (g_AuthMode g) (g_RateLimit g) (g_RateRPM g) (g_limiter g) (g_Spread g) (g_SpreadLocal g) (g_cursor
    g) (g_panicLogAt g) (g_static g) (g_abCfg g) (g_ab g) (g_abLocal g).
Definition set_g_AuthUsers (v : (list string)) (g : RouteGroup) : RouteGroup :=
  mkRouteGroup (g_Host g) (g_PathPrefix g) (g_StripPrefix g) (g_Name g) (g_Service g) (g_Backends g)
    (g_DropHeaders g) (g_Sticky g) (g_CacheTTL g) (g_CachePaths g) (g_cache g) (g_AuthRequired g) v
    (g_AuthMode g) (g_RateLimit g) (g_RateRPM g) (g_limiter g) (g_Spread g) (g_SpreadLocal g) (g_cursor
    g) (g_panicLogAt g) (g_static g) (g_abCfg g) (g_ab g) (g_abLocal g).
Definition set_g_AuthMode (v : string) (g : RouteGroup) : RouteGroup :=
  mkRouteGroup (g_Host g) (g_PathPrefix g) (g_StripPrefix g) (g_Name g) (g_Service g) (g_Backends g)
    (g_DropHeaders g) (g_Sticky g) (g_CacheTTL g) (g_CachePaths g) (g_cache g) (g_AuthRequired g)
    (g_AuthUsers g) v (g_RateLimit g) (g_RateRPM g) (g_limiter g) (g_Spread g) (g_SpreadLocal g)
    (g_cursor g) (g_panicLogAt g) (g_static g) (g_abCfg g) (g_ab g) (g_abLocal g).
Definition set_g_RateLimit (v : bool) (g : RouteGroup) : RouteGroup :=
  mkRouteGroup (g_Host g) (g_PathPrefix g) (g_StripPrefix g) (g_Name g) (g_Service g) (g_Backends g)
    (g_DropHeaders g) (g_Sticky g) (g_CacheTTL g) (g_CachePaths g) (g_cache g) (g_AuthRequired g)
    (g_AuthUsers g) (g_AuthMode g) v (g_RateRPM g) (g_limiter g) (g_Spread g) (g_SpreadLocal g) (g_cursor
    g) (g_panicLogAt g) (g_static g) (g_abCfg g) (g_ab g) (g_abLocal g).
Definition set_g_SpreadLocal (v : bool) (g : RouteGroup) : RouteGroup :=
  mkRouteGroup (g_Host g) (g_PathPrefix g) (g_StripPrefix g) (g_Name g) (g_Service g) (g_Backends g)
    (g_DropHeaders g) (g_Sticky g) (g_CacheTTL g) (g_CachePaths g) (g_cache g) (g_AuthRequired g)
    (g_AuthUsers g) (g_AuthMode g) (g_RateLimit g) (g_RateRPM g) (g_limiter g) (g_Spread g) v (g_cursor
    g) (g_panicLogAt g) (g_static g) (g_abCfg g) (g_ab g) (g_abLocal g).
Definition set_g_Sticky (v : bool) (g : RouteGroup) : RouteGroup :=
  mkRouteGroup (g_Host g) (g_PathPrefix g) (g_StripPrefix g) (g_Name g) (g_Service g) (g_Backends g)
    (g_DropHeaders g) v (g_CacheTTL g) (g_CachePaths g) (g_cache g) (g_AuthRequired g) (g_AuthUsers g)
    (g_AuthMode g) (g_RateLimit g) (g_RateRPM g) (g_limiter g) (g_Spread g) (g_SpreadLocal g) (g_cursor
    g) (g_panicLogAt g) (g_static g) (g_abCfg g) (g_ab g) (g_abLocal g).
Definition set_g_CacheTTL (v : Z) (g : RouteGroup) : RouteGroup :=
  mkRouteGroup (g_Host g) (g_PathPrefix g) (g_StripPrefix g) (g_Name g) (g_Service g) (g_Backends g)
    (g_DropHeaders g) (g_Sticky g) v (g_CachePaths g) (g_cache g) (g_AuthRequired g) (g_AuthUsers g)
    (g_AuthMode g) (g_RateLimit g) (g_RateRPM g) (g_limiter g) (g_Spread g) (g_SpreadLocal g) (g_cursor
    g) (g_panicLogAt g) (g_static g) (g_abCfg g) (g_ab g) (g_abLocal g).
Definition set_g_CachePaths (v : (list string)) (g : RouteGroup) : RouteGroup :=
  mkRouteGroup (g_Host g) (g_PathPrefix g) (g_StripPrefix g) (g_Name g) (g_Service g) (g_Backends g)
    (g_DropHeaders g) (g_Sticky g) (g_CacheTTL g) v (g_cache g) (g_AuthRequired g) (g_AuthUsers g)
    (g_AuthMode g) (g_RateLimit g) (g_RateRPM g) (g_limiter g) (g_Spread g) (g_SpreadLocal g) (g_cursor
    g) (g_panicLogAt g) (g_static g) (g_abCfg g) (g_ab g) (g_abLocal g).
Definition set_g_abCfg (v : (option abConfig)) (g : RouteGroup) : RouteGroup :=
  mkRouteGroup (g_Host g) (g_PathPrefix g) (g_StripPrefix g) (g_Name g) (g_Service g) (g_Backends g)
    (g_DropHeaders g) (g_Sticky g) (g_CacheTTL g) (g_CachePaths g) (g_cache g) (g_AuthRequired g)
    (g_AuthUsers g) (g_AuthMode g) (g_RateLimit g) (g_RateRPM g) (g_limiter g) (g_Spread g)
    (g_SpreadLocal g) (g_cursor g) (g_panicLogAt g) (g_static g) v (g_ab g) (g_abLocal g).
Definition set_g_ab (v : option loc) (g : RouteGroup) : RouteGroup :=
  mkRouteGroup (g_Host g) (g_PathPrefix g) (g_StripPrefix g) (g_Name g) (g_Service g) (g_Backends g)
    (g_DropHeaders g) (g_Sticky g) (g_CacheTTL g) (g_CachePaths g) (g_cache g) (g_AuthRequired g)
    (g_AuthUsers g) (g_AuthMode g) (g_RateLimit g) (g_RateRPM g) (g_limiter g) (g_Spread g)
    (g_SpreadLocal g) (g_cursor g) (g_panicLogAt g) (g_static g) (g_abCfg g) v (g_abLocal g).
Definition set_g_abLocal (v : (option abConfig)) (g : RouteGroup) : RouteGroup :=
  mkRouteGroup (g_Host g) (g_PathPrefix g) (g_StripPrefix g) (g_Name g) (g_Service g) (g_Backends g)
    (g_DropHeaders g) (g_Sticky g) (g_CacheTTL g) (g_CachePaths g) (g_cache g) (g_AuthRequired g)
    (g_AuthUsers g) (g_AuthMode g) (g_RateLimit g) (g_RateRPM g) (g_limiter g) (g_Spread g)
    (g_SpreadLocal g) (g_cursor g) (g_panicLogAt g) (g_static g) (g_abCfg g) (g_ab g) v.

(** A group with no backend and every other field zero but its identity. *)
Definition new_group (host path name service : string) (strip : bool) : RouteGroup :=
  {| g_Host := host; g_PathPrefix := path; g_StripPrefix := strip; g_Name := name; g_Service := service;
     g_Backends := []; g_DropHeaders := []; g_Sticky := false; g_CacheTTL := 0; g_CachePaths := [];
     g_cache := None; g_AuthRequired := false; g_AuthUsers := []; g_AuthMode := ""; g_RateLimit := false;
     g_RateRPM := 0; g_limiter := None; g_Spread := false; g_SpreadLocal := false; g_cursor := 0;
     g_panicLogAt := 0; g_static := false; g_abCfg := None; g_ab := None; g_abLocal := None |}.

Definition panicLogInterval : Z := 30 * Second.

(** Whether the line is logged, and the group after it. *)
Definition logPanicOnce (now : Z) (g : RouteGroup) : bool * RouteGroup :=
  if decide (now - g_panicLogAt g < panicLogInterval) then (false, g)
  else (true, set_g_panicLogAt now g).

(** ** Picking a backend *)

Notation store := (gmap positive Backend) (only parsing).

(** Dereferencing a pointer; a dangling one is a nil dereference. *)
Definition deref (s : store) (b : loc) : go Backend :=
  match s !! b with Some v => Ret v | None => Panic end.

(** The pool under construction: each backend the filter keeps is appended
    [weight] times, weights below one counting as one. *)
Definition weight_of (b : Backend) : nat := Z.to_nat (if decide (b_Weight b < 1) then 1 else b_Weight b).

Fixpoint build_pool (s : store) (keep : loc -> Backend -> bool) (bs : list loc) (pool : list loc) : go (list loc) :=
  match bs with
  | [] => Ret pool
  | l :: bs =>
      b ← deref s l;
      build_pool s keep bs (if keep l b then pool ++ replicate (weight_of b) l else pool)%list
  end.

(** [pool[int(g.cursor.Add(1)-1) % len(pool)]]: the addition and the
    subtraction wrap at 64 bits, the conversion to int is two's complement, and
    Go's [%] keeps the sign of the dividend. *)
Definition next_index (g : RouteGroup) (n : nat) : Z * RouteGroup :=
  let c := uint 64 (g_cursor g + 1) in
  (Z.rem (sint 64 (uint 64 (c - 1))) (Z.of_nat n), set_g_cursor c g).

Definition choose (g : RouteGroup) (pool : list loc) : go (option loc * RouteGroup) :=
  match pool with
  | [] => Ret (None, g)
  | _ => let '(i, g') := next_index g (List.length pool) in
         b ← slice_at pool i; Ret (Some b, g')
  end.

Definition pickPool (s : store) (g : RouteGroup) (skip : gset loc) (ignoreHealth : bool) (variant : string)
  : go (option loc * RouteGroup) :=
  pool ← build_pool s (fun l b =>
    negb (bool_decide (l ∈ skip) || negb (inVariant b variant) || excludedFrom b ignoreHealth)) (g_Backends g) [];
  choose g pool.

Definition pickTier (s : store) (g : RouteGroup) (skip : gset loc) (wantLearned ignoreHealth : bool)
    (variant : string) : go (option loc * RouteGroup) :=
  pool ← build_pool s (fun l b =>
    negb (bool_decide (l ∈ skip) || negb (eqb (b_Learned b) wantLearned) || negb (inVariant b variant)
          || excludedFrom b ignoreHealth)) (g_Backends g) [];
  choose g pool.

(** [pickHealthy] and [pickAny] are the same function but for [ignoreHealth]. *)
Definition pickHealthy (s : store) (g : RouteGroup) (skip : gset loc) (allowPeer : bool) (variant : string)
  : go (option loc * RouteGroup) :=
  if g_Spread g && allowPeer then pickPool s g skip false variant
  else
    '(b, g) ← pickTier s g skip false false variant;
    match b with
    | Some _ => Ret (b, g)
    | None => if allowPeer : bool then pickTier s g skip true false variant else Ret (None, g)
    end.

Definition pickAny (s : store) (g : RouteGroup) (skip : gset loc) (allowPeer : bool) (variant : string)
  : go (option loc * RouteGroup) :=
  if g_Spread g && allowPeer then pickPool s g skip true variant
  else
    '(b, g) ← pickTier s g skip false true variant;
    match b with
    | Some _ => Ret (b, g)
    | None => if allowPeer : bool then pickTier s g skip true true variant else Ret (None, g)
    end.

(** ** Session affinity *)

Definition stickyCookiePrefix : string := "_pmgr_sticky_".

Definition stickyCookieName (g : RouteGroup) : string :=
  stickyCookiePrefix +:+ hex (take_bytes 4 (Sum256 (g_Host g +:+ "|" +:+ g_PathPrefix g))).

Definition stickyCookiePath (g : RouteGroup) : string :=
  if decide (g_PathPrefix g <> "") then g_PathPrefix g else "/".

Fixpoint find_sticky (s : store) (id : string) (bs : list loc) : go (option loc) :=
  match bs with
  | [] => Ret None
  | l :: bs => b ← deref s l; if decide (b_stickyID b = id) then Ret (Some l) else find_sticky s id bs
  end.

Definition backendByStickyID (s : store) (g : RouteGroup) (id : string) : go (option loc) :=
  find_sticky s id (g_Backends g).

(** [http.SetCookie] for a name and value already valid, as these hex strings
    are. A path holding a byte outside the printable range or a semicolon loses
    those bytes. *)
Definition path_byte (c : ascii) : bool := in_range c " " "~" && negb (Ascii.eqb c ";").
Fixpoint sanitize_path (s : string) : string :=
  match s with
  | EmptyString => EmptyString
  | String c s => if path_byte c then String c (sanitize_path s) else sanitize_path s
  end.

Definition sticky_cookie (g : RouteGroup) (stickyID : string) : string :=
  stickyCookieName g +:+ "=" +:+ stickyID +:+ "; Path=" +:+ sanitize_path (stickyCookiePath g)
  +:+ "; Max-Age=7200; HttpOnly; Secure; SameSite=Lax".

Fixpoint keep_others (prefix : string) (vs : list string) (h : header) : header :=
  match vs with
  | [] => h
  | v :: vs => keep_others prefix vs (if HasPrefix v prefix then h else Add_ "Set-Cookie" v h)
  end.

Definition setStickyCookie (h : header) (g : RouteGroup) (stickyID : string) : header :=
  let existing := default [] (h !! "Set-Cookie") in
  let h := keep_others (stickyCookieName g +:+ "=") existing (Del "Set-Cookie" h) in
  Add_ "Set-Cookie" (sticky_cookie g stickyID) h.

(** * The pool *)

Definition pool_of (s : store) (keep : loc -> Backend -> bool) (bs : list loc) : list loc :=
  flat_map (fun l => match s !! l with
                     | Some b => if keep l b then replicate (weight_of b) l else []
                     | None => []
                     end) bs.

(** No group holds a dangling pointer. *)
Definition valid (s : store) (bs : list loc) : Prop := Forall (fun l => is_Some (s !! l)) bs.

Lemma build_pool_eq s keep bs pool :
  valid s bs -> build_pool s keep bs pool = Ret (pool ++ pool_of s keep bs)%list.
Proof.
  intros Hv. revert pool. induction Hv as [|l bs [b Hb] Hv IH]; intros pool; cbn.
  - by rewrite app_nil_r.
  - unfold deref. rewrite Hb. cbn. rewrite IH. f_equal.
    destruct (keep l b); [|done]. by rewrite <- app_assoc.
Qed.

Lemma weight_of_pos b : (0 < weight_of b)%nat.
Proof. unfold weight_of. case_decide; lia. Qed.

Lemma elem_of_pool s keep bs l :
  l ∈ pool_of s keep bs <-> l ∈ bs /\ exists b, s !! l = Some b /\ keep l b = true.
Proof.
  unfold pool_of. rewrite elem_of_flat_map. split.
  - intros (x & Hx & Hl). destruct (s !! x) as [b|] eqn:Hb; [|by apply not_elem_of_nil in Hl].
    destruct (keep x b) eqn:Hk; [|by apply not_elem_of_nil in Hl].
    apply elem_of_replicate in Hl as [-> _]. eauto.
  - intros (Hl & b & Hb & Hk). exists l. split; [done|]. rewrite Hb, Hk.
    apply elem_of_replicate. split; [done|]. pose proof (weight_of_pos b). lia.
Qed.

(** The cursor has not left the non-negative int range: fewer than 2^63 picks
    have been made. Past it the index goes negative and the code panics. *)
Definition cursor_ok (g : RouteGroup) (n : Z) : Prop := 0 <= g_cursor g /\ g_cursor g + n <= 2 ^ 63.

Lemma choose_eq g pool :
  cursor_ok g 1 -> pool <> [] ->
  exists l, pool !! (Z.to_nat (g_cursor g) `mod` List.length pool)%nat = Some l /\
    choose g pool = Ret (Some l, set_g_cursor (g_cursor g + 1) g).
Proof.
  intros [Hc Hc'] Hne.
  assert (0 < List.length pool)%nat as Hlen by (destruct pool; [done|cbn; lia]).
  destruct (lookup_lt_is_Some_2 pool (Z.to_nat (g_cursor g) `mod` List.length pool)) as [l Hl].
  { apply Nat.mod_upper_bound. lia. }
  exists l. split; [done|]. unfold choose, next_index.
  rewrite !uint_id by (rewrite ?uint_id; lia). rewrite sint_id by (cbn; lia).
  replace (g_cursor g + 1 - 1) with (g_cursor g) by lia.
  rewrite Z.rem_mod_nonneg by lia.
  assert (slice_at pool (g_cursor g mod Z.of_nat (List.length pool)) = Ret l) as Hs.
  { apply slice_at_Ret. split; [apply Z.mod_pos_bound; lia|].
    rewrite <- Hl. f_equal. rewrite <- (Z2Nat.id (g_cursor g)) at 1 by lia.
    rewrite <- Nat2Z.inj_mod. apply Nat2Z.id. }
  destruct pool; [done|]. rewrite Hs. done.
Qed.

Lemma choose_nil g : choose g [] = Ret (None, g).
Proof. done. Qed.

(** * Eligibility *)

Definition eligible (s : store) (g : RouteGroup) (skip : gset loc) (allowPeer ignoreHealth : bool)
    (variant : string) (l : loc) : Prop :=
  l ∈ g_Backends g /\ l ∉ skip /\
  exists b, s !! l = Some b /\ inVariant b variant = true /\ excludedFrom b ignoreHealth = false /\
    (b_Learned b = true -> allowPeer = true).

Definition local (s : store) (l : loc) : Prop := exists b, s !! l = Some b /\ b_Learned b = false.

Lemma pickPool_spec s g skip ih v :
  valid s (g_Backends g) -> cursor_ok g 1 ->
  exists r, (pickPool s g skip ih v = Ret (r, match r with Some _ => set_g_cursor (g_cursor g + 1) g | None => g end)) /\
    match r with
    | Some l => eligible s g skip true ih v l
    | None => forall l, ~ eligible s g skip true ih v l
    end.
Proof.
  intros Hv Hc. unfold pickPool. rewrite build_pool_eq by done. cbn.
  set (keep := fun l b => _).
  assert (Hk : forall l, l ∈ pool_of s keep (g_Backends g) <-> eligible s g skip true ih v l).
  { intros l. rewrite elem_of_pool. unfold eligible, keep. split.
    - intros (Hl & b & Hb & Hk). reflect_bools. split_and!; eauto 10.
    - intros (Hl & Hs & b & Hb & Hiv & He & _). split; [done|]. exists b. split; [done|].
      rewrite Hiv, He, bool_decide_false by done. done. }
  destruct (decide (pool_of s keep (g_Backends g) = [])) as [Hn|Hn].
  - rewrite Hn. exists None. split; [done|]. intros l Hl%Hk. rewrite Hn in Hl. by apply not_elem_of_nil in Hl.
  - destruct (choose_eq g _ Hc Hn) as (l & Hl & ->). exists (Some l). split; [done|].
    apply Hk. by eapply list_elem_of_lookup_2.
Qed.

Lemma pickTier_spec s g skip wl ih v :
  valid s (g_Backends g) -> cursor_ok g 1 ->
  exists r, (pickTier s g skip wl ih v = Ret (r, match r with Some _ => set_g_cursor (g_cursor g + 1) g | None => g end)) /\
    match r with
    | Some l => eligible s g skip wl ih v l /\ exists b, s !! l = Some b /\ b_Learned b = wl
    | None => forall l b, eligible s g skip true ih v l -> s !! l = Some b -> b_Learned b <> wl
    end.
Proof.
  intros Hv Hc. unfold pickTier. rewrite build_pool_eq by done. cbn.
  set (keep := fun l b => _).
  assert (Hk : forall l, l ∈ pool_of s keep (g_Backends g) <->
                 eligible s g skip true ih v l /\ exists b, s !! l = Some b /\ b_Learned b = wl).
  { intros l. rewrite elem_of_pool. unfold eligible, keep. split.
    - intros (Hl & b & Hb & Hk). reflect_bools.
      match goal with H : eqb _ _ = true |- _ => apply eqb_prop in H end. split_and!; eauto 10.
    - intros ((Hl & Hs & b & Hb & Hiv & He & _) & b' & Hb' & Hw). split; [done|]. exists b. split; [done|].
      simplify_eq. rewrite Hiv, He, bool_decide_false, eqb_reflx by done. done. }
  destruct (decide (pool_of s keep (g_Backends g) = [])) as [Hn|Hn].
  - rewrite Hn. exists None. split; [done|]. intros l b He Hb Hw.
    assert (l ∈ pool_of s keep (g_Backends g)) as Hl by (apply Hk; eauto).
    rewrite Hn in Hl. by apply not_elem_of_nil in Hl.
  - destruct (choose_eq g _ Hc Hn) as (l & Hl & ->). exists (Some l). split; [done|].
    assert (l ∈ pool_of s keep (g_Backends g)) as Hin by (by eapply list_elem_of_lookup_2).
    apply Hk in Hin as [(? & ? & b & ? & ? & ? & ?) (b' & ? & ?)]. simplify_eq.
    split; [|eauto]. unfold eligible. split_and!; [done..|]. exists b. split_and!; [done..|]. intros Hx. by destruct (b_Learned b).
Qed.

Lemma eligible_peer s g skip ap ih v l :
  eligible s g skip ap ih v l -> eligible s g skip true ih v l.
Proof. intros (? & ? & b & ? & ? & ? & ?). unfold eligible. split_and!; [done..|]. exists b. auto. Qed.

Lemma local_eligible s g skip ap ap' ih v l :
  local s l -> eligible s g skip ap ih v l -> eligible s g skip ap' ih v l.
Proof.
  intros (b' & Hb' & Hl) (? & ? & b & ? & ? & ? & ?). simplify_eq. unfold eligible. split_and!; [done..|].
  eexists. split_and!; [done..|]. by rewrite Hl.
Qed.

Definition pick_result (s : store) (g : RouteGroup) (skip : gset loc) (allowPeer ih : bool) (v : string)
    (r : option loc) : Prop :=
  match r with
  | Some l =>
      eligible s g skip allowPeer ih v l /\
      (g_Spread g && allowPeer = false -> ~ local s l -> forall l', eligible s g skip allowPeer ih v l' -> ~ local s l')
  | None => forall l, ~ eligible s g skip allowPeer ih v l
  end.

Lemma two_tier_spec s g skip ap ih v :
  valid s (g_Backends g) -> cursor_ok g 1 ->
  exists r, ('(b, g) ← pickTier s g skip false ih v;
     match b with Some _ => Ret (b, g) | None => if ap : bool then pickTier s g skip true ih v else Ret (None, g) end)
     = Ret (r, match r with Some _ => set_g_cursor (g_cursor g + 1) g | None => g end) /\
   match r with
   | Some l => eligible s g skip ap ih v l /\ (~ local s l -> forall l', eligible s g skip ap ih v l' -> ~ local s l')
   | None => forall l, ~ eligible s g skip ap ih v l
   end.
Proof.
  intros Hv Hc. destruct (pickTier_spec s g skip false ih v Hv Hc) as (r & -> & Hr). cbn.
  destruct r as [l|].
  - exists (Some l). split; [done|]. destruct Hr as [He (b & Hb & Hl)].
    split; [|intros []; by exists b]. eapply local_eligible, He. by exists b.
  - assert (Hnl : forall l, eligible s g skip true ih v l -> ~ local s l).
    { intros l He (b & Hb & Hl). by eapply Hr. }
    destruct ap.
    + destruct (pickTier_spec s g skip true ih v Hv Hc) as (r' & -> & Hr').
      exists r'. split; [done|]. destruct r' as [l|].
      * destruct Hr' as [He _]. split; [done|]. intros _ l' He'. by apply Hnl.
      * intros l He. pose proof He as (? & ? & b & Hb & ?). pose proof (Hnl l He) as Hn.
        pose proof (Hr' l b He Hb) as Hw. apply Hn. exists b. split; [done|]. by destruct (b_Learned b).
    + exists None. split; [done|]. intros l He. apply (Hnl l); [by eapply eligible_peer|].
      destruct He as (? & ? & b & Hb & ? & ? & Hp). exists b. split; [done|]. destruct (b_Learned b); [|done].
      by specialize (Hp eq_refl).
Qed.

Lemma pick_spec s g skip ap ih v :
  valid s (g_Backends g) -> cursor_ok g 1 ->
  exists r, (if ih : bool then pickAny s g skip ap v else pickHealthy s g skip ap v)
     = Ret (r, match r with Some _ => set_g_cursor (g_cursor g + 1) g | None => g end) /\
   pick_result s g skip ap ih v r.
Proof.
  intros Hv Hc.
  assert (Hunf : (if ih : bool then pickAny s g skip ap v else pickHealthy s g skip ap v) =
    if g_Spread g && ap then pickPool s g skip ih v else
    '(b, g) ← pickTier s g skip false ih v;
     match b with Some _ => Ret (b, g) | None => if ap : bool then pickTier s g skip true ih v else Ret (None, g) end).
  { by destruct ih. }
  rewrite Hunf. destruct (g_Spread g && ap) eqn:Hsp.
  - apply andb_true_iff in Hsp as [Hs ->].
    destruct (pickPool_spec s g skip ih v Hv Hc) as (r & -> & Hr). exists r. split; [done|].
    unfold pick_result. rewrite Hs. destruct r; [|done]. by split.
  - destruct (two_tier_spec s g skip ap ih v Hv Hc) as (r & -> & Hr). exists r. split; [done|].
    unfold pick_result. destruct r as [l|]; [|done]. destruct Hr. split; auto.
Qed.

(** C22. Backend selection is safe, complete and local-first. As long as fewer
    than 2^63 picks were made, [pickHealthy] never panics. It returns a backend of
    the group that is not in the skip set, has the requested variant, is healthy,
    not draining and not reported unhealthy by Docker, and is a peer only when
    peers are allowed; without Spread it is a peer only when no local backend is
    eligible; and it returns nil exactly when nothing is eligible. *)
Theorem pickHealthy_correct (s : store) (g : RouteGroup) (skip : gset loc) (allowPeer : bool) (variant : string) :
  valid s (g_Backends g) -> cursor_ok g 1 ->
  exists r g', pickHealthy s g skip allowPeer variant = Ret (r, g') /\
    pick_result s g skip allowPeer false variant r.
Proof. intros Hv Hc. destruct (pick_spec s g skip allowPeer false variant Hv Hc) as (r & Heq & Hr). eauto. Qed.

(** The panic-mode fallback. *)

(** The last resort distrusts only the proxy's own probes. [pickAny] may
    return a backend whose probe failed, but never one that Docker reports
    unhealthy, that drains, that was tried already, or a peer of a request that
    has already hopped; and it returns nil only when every backend is so barred. *)
Theorem pickAny_floor (s : store) (g : RouteGroup) (skip : gset loc) (allowPeer : bool) (variant : string) :
  valid s (g_Backends g) -> cursor_ok g 1 ->
  exists r g', pickAny s g skip allowPeer variant = Ret (r, g') /\
    (forall l, r = Some l -> l ∈ g_Backends g /\ l ∉ skip /\ exists b, s !! l = Some b /\
       b_DockerUnhealthy b = false /\ b_draining b = false /\ (b_Learned b = true -> allowPeer = true)) /\
    (r = None -> forall l b, l ∈ g_Backends g -> l ∉ skip -> s !! l = Some b -> inVariant b variant = true ->
       b_DockerUnhealthy b = false -> b_draining b = false -> b_Learned b = true /\ allowPeer = false).
Proof.
  intros Hv Hc. destruct (pick_spec s g skip allowPeer true variant Hv Hc) as (r & Heq & Hr).
  exists r. eexists. split; [exact Heq|]. split.
  - intros l ->. destruct Hr as [(Hl & Hs & b & Hb & Hiv & He & Hp) _]. split_and!; [done..|].
    exists b. unfold excludedFrom in He. destruct (b_DockerUnhealthy b), (b_draining b); done.
  - intros -> l b Hl Hs Hb Hiv Hd Hdr. destruct (b_Learned b) eqn:Hlb, allowPeer; try done;
      exfalso; apply (Hr l); unfold eligible; (split_and!; [done..|]); exists b;
      unfold excludedFrom; rewrite Hd, Hdr, Hlb; done.
Qed.

(** * Fairness *)

Fixpoint picks (n : nat) (s : store) (g : RouteGroup) (skip : gset loc) (allowPeer : bool) (variant : string)
  : go (list (option loc) * RouteGroup) :=
  match n with
  | O => Ret ([], g)
  | S n =>
      '(b, g) ← pickHealthy s g skip allowPeer variant;
      '(bs, g) ← picks n s g skip allowPeer variant;
      Ret (b :: bs, g)
  end.

Definition keeps (skip : gset loc) (v : string) (tier : option bool) (l : loc) (b : Backend) : bool :=
  match tier with
  | None => negb (bool_decide (l ∈ skip) || negb (inVariant b v) || excludedFrom b false)
  | Some wl => negb (bool_decide (l ∈ skip) || negb (eqb (b_Learned b) wl) || negb (inVariant b v)
                     || excludedFrom b false)
  end.

Definition tier_pool (s : store) (g : RouteGroup) (skip : gset loc) (ap : bool) (v : string) : list loc :=
  let pool t := pool_of s (keeps skip v t) (g_Backends g) in
  if g_Spread g && ap then pool None
  else match pool (Some false) with
       | [] => if ap then pool (Some true) else []
       | p => p
       end.

Lemma pickHealthy_choose s g skip ap v :
  valid s (g_Backends g) -> cursor_ok g 1 ->
  pickHealthy s g skip ap v = choose g (tier_pool s g skip ap v).
Proof.
  intros Hv Hc. unfold pickHealthy, tier_pool, pickPool, pickTier. rewrite !build_pool_eq by done. cbn.
  fold (keeps skip v None) (keeps skip v (Some false)) (keeps skip v (Some true)).
  destruct (g_Spread g && ap); [done|].
  destruct (pool_of s (keeps skip v (Some false)) (g_Backends g)) as [|x p] eqn:Hp; cbn [mbind go_bind choose].
  - destruct ap; [by rewrite build_pool_eq|done].
  - destruct (choose_eq g (x :: p) Hc ltac:(done)) as (l & _ & Heq). unfold choose in Heq. by rewrite Heq.
Qed.

Lemma tier_pool_cursor s g skip ap v c : tier_pool s (set_g_cursor c g) skip ap v = tier_pool s g skip ap v.
Proof. done. Qed.

Lemma picks_eq n s g skip ap v :
  valid s (g_Backends g) -> cursor_ok g (Z.of_nat n) -> tier_pool s g skip ap v <> [] ->
  exists ls, picks n s g skip ap v = Ret (Some <$> ls, set_g_cursor (g_cursor g + Z.of_nat n) g) /\
    length ls = n /\
    forall i, (i < n)%nat -> ls !! i =
      tier_pool s g skip ap v !! ((Z.to_nat (g_cursor g) + i) `mod` List.length (tier_pool s g skip ap v))%nat.
Proof.
  revert g. induction n as [|n IH]; intros g Hv [Hc Hc'] Hne.
  - exists []. cbn. split_and!; [|done|intros; lia]. repeat f_equal. by destruct g; cbn; rewrite Z.add_0_r.
  - cbn. rewrite pickHealthy_choose by (unfold cursor_ok; auto with lia).
    destruct (choose_eq g (tier_pool s g skip ap v)) as (l & Hl & ->); [unfold cursor_ok; lia|done|]. cbn.
    destruct (IH (set_g_cursor (g_cursor g + 1) g)) as (ls & -> & Hlen & Hls);
      [done|unfold cursor_ok; cbn; lia|done|].
    exists (l :: ls). cbn. rewrite Hlen. split_and!; [|done|].
    + by replace (g_cursor g + Z.of_nat (S n)) with (g_cursor g + 1 + Z.of_nat n) by lia.
    + intros [|i] Hi; cbn.
      * rewrite <- Hl. f_equal. f_equal. lia.
      * rewrite Hls by lia. rewrite tier_pool_cursor. cbn. f_equal. f_equal. lia.
Qed.

(** Reading a list cyclically from any position for one whole turn. *)
Lemma cyclic_perm {A} (p ls : list A) k :
  p <> [] -> length ls = length p ->
  (forall i, (i < length p)%nat -> ls !! i = p !! ((k + i) `mod` length p)%nat) -> ls ≡ₚ p.
Proof.
  intros Hne Hlen Hls. assert (0 < length p)%nat as Hp by (destruct p; [done|cbn; lia]).
  set (r := (k `mod` length p)%nat).
  assert (r < length p)%nat as Hr by (apply Nat.mod_upper_bound; lia).
  rewrite <- (rotate_perm r p). apply reflexive_eq, list_eq_same_length with (length p); [rewrite length_app, length_drop, length_take; lia|done|].
  intros i x y Hi Hx Hy. rewrite Hls in Hx by done.
  rewrite Nat.Div0.add_mod in Hx. fold r in Hx.
  rewrite (Nat.mod_small i) in Hx by done.
  destruct (decide (i < length p - r)%nat) as [Hlt|Hge].
  - rewrite Nat.mod_small in Hx by lia.
    rewrite lookup_app_l in Hy by (rewrite length_drop; lia). rewrite lookup_drop in Hy. congruence.
  - rewrite lookup_app_r in Hy by (rewrite length_drop; lia). rewrite length_drop in Hy.
    rewrite lookup_take_lt in Hy by lia.
    replace (r + i)%nat with ((i - (length p - r)) + 1 * length p)%nat in Hx by lia.
    rewrite Nat.Div0.mod_add, Nat.mod_small in Hx by lia. congruence.
Qed.

Lemma count_replicate n (l : loc) : count_occ Pos.eq_dec (replicate n l) l = n.
Proof. induction n as [|n IH]; [done|]. cbn. destruct (Pos.eq_dec l l); [|done]. by rewrite IH. Qed.

Lemma pool_count s keep bs l b :
  NoDup bs -> s !! l = Some b ->
  count_occ Pos.eq_dec (pool_of s keep bs) l =
    if decide (l ∈ bs) then if keep l b then weight_of b else 0%nat else 0%nat.
Proof.
  intros Hnd Hb. induction Hnd as [|x bs Hx Hnd IH]; [done|].
  change (pool_of s keep (x :: bs)) with
    (match s !! x with Some b => if keep x b then replicate (weight_of b) x else [] | None => [] end
     ++ pool_of s keep bs)%list.
  rewrite count_occ_app, IH. destruct (decide (x = l)) as [->|Hne].
  - rewrite Hb, (decide_False (P := l ∈ bs)), (decide_True (P := l ∈ l :: bs)) by set_solver.
    destruct (keep l b); cbn; [|done]. rewrite Nat.add_0_r. apply count_replicate.
  - assert (count_occ Pos.eq_dec match s !! x with Some b0 => if keep x b0 then replicate (weight_of b0) x else []
             | None => [] end l = 0%nat) as ->.
    { apply count_occ_not_In. intros Hin%list_elem_of_In. destruct (s !! x) as [b'|]; [|by apply not_elem_of_nil in Hin].
      destruct (keep x b'); [|by apply not_elem_of_nil in Hin]. apply elem_of_replicate in Hin. naive_solver. }
    cbn. destruct (decide (l ∈ bs)) as [Hin|Hin].
    + by rewrite (decide_True (P := l ∈ x :: bs)) by set_solver.
    + by rewrite (decide_False (P := l ∈ x :: bs)) by set_solver.
Qed.

(** The backends the round-robin runs over. *)
Definition candidate (s : store) (g : RouteGroup) (skip : gset loc) (ap : bool) (v : string) (l : loc) : Prop :=
  eligible s g skip ap false v l /\
  (g_Spread g && ap = false -> local s l \/ forall l', eligible s g skip ap false v l' -> ~ local s l').

Lemma elem_of_keeps s g skip v t l :
  l ∈ pool_of s (keeps skip v t) (g_Backends g) <->
  eligible s g skip true false v l /\
  (forall wl, t = Some wl -> exists b, s !! l = Some b /\ b_Learned b = wl).
Proof.
  rewrite elem_of_pool. unfold eligible. split.
  - intros (Hl & b & Hb & Hk). destruct t as [wl|]; cbn in Hk; reflect_bools;
      try match goal with H : eqb _ _ = true |- _ => apply eqb_prop in H end;
      (split; [split_and!; eauto 10|]); intros wl' Heq; simplify_eq; eauto.
  - intros ((Hl & Hs & b & Hb & Hiv & He & _) & Ht). split; [done|]. exists b. split; [done|].
    destruct t as [wl|]; cbn; rewrite Hiv, He, bool_decide_false by done; [|done].
    destruct (Ht wl eq_refl) as (b' & Hb' & Hw). simplify_eq. by rewrite eqb_reflx.
Qed.

Lemma local_dec s l : {local s l} + {~ local s l}.
Proof.
  destruct (s !! l) as [b|] eqn:Hb.
  - destruct (b_Learned b) eqn:Hl; [right|left; by exists b]. intros (b' & ? & ?). congruence.
  - right. intros (b' & ? & ?). congruence.
Defined.

Lemma elem_of_tier_pool s g skip ap v l : l ∈ tier_pool s g skip ap v <-> candidate s g skip ap v l.
Proof.
  assert (Hlocal : forall l, l ∈ pool_of s (keeps skip v (Some false)) (g_Backends g) <->
            eligible s g skip ap false v l /\ local s l).
  { intros x. rewrite elem_of_keeps. split.
    - intros [He Hx]. assert (local s x) by (by apply Hx). split; [|done]. by eapply local_eligible.
    - intros [He Hx]. split; [by eapply local_eligible|]. intros ? [= <-]. exact Hx. }
  unfold tier_pool, candidate. destruct (g_Spread g && ap) eqn:Hsp.
  { apply andb_true_iff in Hsp as [_ ->]. rewrite elem_of_keeps. naive_solver. }
  destruct (pool_of s (keeps skip v (Some false)) (g_Backends g)) as [|x p] eqn:Hp.
  - assert (Hno : forall l', eligible s g skip ap false v l' -> ~ local s l').
    { intros l' He Hl. assert (l' ∈ ([] : list loc)) as Hin by (by apply Hlocal). by apply not_elem_of_nil in Hin. }
    destruct ap.
    + rewrite elem_of_keeps. split; [naive_solver|]. intros [He _]. split; [done|]. intros ? [= <-].
      destruct He as (? & ? & b & Hb & ? & ? & ?). exists b. split; [done|].
      destruct (b_Learned b) eqn:Hl; [done|]. exfalso. apply (Hno l); [unfold eligible; eauto 10|by exists b].
    + split; [by intros ?%not_elem_of_nil|]. intros [He _]. exfalso. apply (Hno l He).
      destruct He as (? & ? & b & Hb & ? & ? & Hx). exists b. split; [done|]. destruct (b_Learned b); [|done].
      by specialize (Hx eq_refl).
  - rewrite Hlocal. split; [naive_solver|]. intros [He Hc]. split; [done|].
    destruct (Hc eq_refl) as [?|Hno]; [done|]. exfalso.
    assert (x ∈ x :: p) as [Hex Hlx]%Hlocal by set_solver. by apply (Hno x).
Qed.

Lemma tier_pool_count s g skip ap v l b :
  NoDup (g_Backends g) -> s !! l = Some b -> l ∈ tier_pool s g skip ap v ->
  count_occ Pos.eq_dec (tier_pool s g skip ap v) l = weight_of b.
Proof.
  intros Hnd Hb Hl.
  assert (exists t, tier_pool s g skip ap v = pool_of s (keeps skip v t) (g_Backends g)) as [t Ht].
  { revert Hl. unfold tier_pool. destruct (g_Spread g && ap); [eauto|].
    destruct (pool_of s (keeps skip v (Some false)) (g_Backends g)) eqn:Hp; [|eauto].
    destruct ap; [eauto|]. by intros ?%not_elem_of_nil. }
  rewrite Ht in *. rewrite (pool_count _ _ _ _ b) by done.
  apply elem_of_pool in Hl as (Hl & b' & Hb' & Hk). simplify_eq. rewrite decide_True by done. by rewrite Hk.
Qed.

(** C30. The round-robin is exactly weighted. Over any run of picks as long as
    the total weight of the candidate tier, every candidate is picked exactly as
    many times as its weight (at least one) and no other backend at all, wherever
    the shared cursor starts, as long as it does not overflow during the run (it
    stays below 2^63). *)
Theorem weighted_fair (s : store) (g : RouteGroup) (skip : gset loc) (allowPeer : bool) (variant : string) :
  valid s (g_Backends g) -> NoDup (g_Backends g) ->
  cursor_ok g (Z.of_nat (List.length (tier_pool s g skip allowPeer variant))) ->
  exists ls g', picks (List.length (tier_pool s g skip allowPeer variant)) s g skip allowPeer variant
                = Ret (Some <$> ls, g') /\
    forall l b, s !! l = Some b ->
      (candidate s g skip allowPeer variant l -> count_occ Pos.eq_dec ls l = weight_of b) /\
      (~ candidate s g skip allowPeer variant l -> count_occ Pos.eq_dec ls l = 0%nat).
Proof.
  intros Hv Hnd Hc. set (p := tier_pool s g skip allowPeer variant) in *.
  assert (exists ls g', picks (length p) s g skip allowPeer variant = Ret (Some <$> ls, g') /\ ls ≡ₚ p)
    as (ls & g' & Hp & Hperm).
  { destruct (decide (p = [])) as [Hn|Hn]; [rewrite Hn; by exists [], g|].
    destruct (picks_eq (length p) s g skip allowPeer variant) as (ls & -> & Hlen & Hls); [done..|].
    exists ls. eexists. split; [done|]. by eapply cyclic_perm. }
  exists ls, g'. split; [done|]. intros l b Hb. rewrite <- elem_of_tier_pool.
  pose proof (proj1 (Permutation_count_occ Pos.eq_dec ls p) Hperm l) as ->. fold p. split; intros Hl.
  - by apply tier_pool_count.
  - apply count_occ_not_In. by rewrite <- list_elem_of_In.
Qed.

(** * Health *)

(** What happens to a backend's health flag between two refreshes: a periodic
    probe, or the failure of a proxied request. *)
Inductive health_event := Probe (p : probe) | RequestFailed.

Definition health_step (b : Backend) (e : health_event) : Backend :=
  match e with Probe p => checkBackend p b | RequestFailed => markHealthy false b end.

Definition probe_ok (p : probe) : bool :=
  match p with HTTPStatus code => bool_decide (Z.quot code 100 = 2) | HTTPError => false | Dialled ok => ok end.

(** The verdict recomputed from the history, latest event first: up if the last
    probe to succeed came after every request failure and fewer than two probes
    failed since. *)
Fixpoint verdict (failed : nat) (history : list health_event) : bool :=
  match history with
  | [] => (failed <? 2)%nat
  | RequestFailed :: _ => false
  | Probe p :: h => if probe_ok p then (failed <? 2)%nat else verdict (S failed) h
  end.

Definition run_health (b : Backend) (es : list health_event) : Backend := fold_left health_step es b.

Lemma verdict_down n h : (2 <= n)%nat -> verdict n h = false.
Proof.
  revert n. induction h as [|[p|] h IH]; intros n Hn; cbn [verdict]; [by apply Nat.ltb_ge| |done].
  destruct (probe_ok p); [by apply Nat.ltb_ge|]. apply IH. lia.
Qed.

(** The counter holds the failures since the last success while the backend is
    up; once it is down the counter no longer matters, even when it wraps. *)
Definition health_inv (b : Backend) (h : list health_event) : Prop :=
  b_healthyFlag b = verdict 0 h /\
  (b_healthyFlag b = true -> exists n, b_consecFails b = Z.of_nat n /\ (n < 2)%nat /\
     forall k, verdict k h = (k + n <? 2)%nat).

Lemma health_step_inv b h e : health_inv b h -> health_inv (health_step b e) (e :: h).
Proof.
  intros [Hf Hn]. destruct e as [p|]; [|by split]. unfold health_step, checkBackend.
  change (match p with HTTPStatus code => _ | HTTPError => _ | Dialled ok => _ end) with (probe_ok p).
  unfold recordHealthCheck, health_inv. cbn [verdict]. destruct (probe_ok p).
  { split; [done|]. intros _. exists O. split_and!; [done|lia|]. intros k. by rewrite Nat.add_0_r. }
  destruct (b_healthyFlag b) eqn:Hb.
  - destruct (Hn eq_refl) as (n & Hc & Hlt & Hk). rewrite Hc, sint_id by (cbn; lia).
    unfold unhealthyAfterConsecutiveFails. case_decide; cbn.
    + rewrite Hk. split; [|done]. symmetry. apply Nat.ltb_ge. lia.
    + assert (n = 0)%nat as -> by lia. rewrite Hb, Hk. split; [done|]. intros _. exists 1%nat.
      split_and!; [done|lia|]. intros k. rewrite Hk. by replace (S k + 0)%nat with (k + 1)%nat by lia.
  - assert (verdict 1 h = false) as Hv.
    { clear -Hf. destruct h as [|[p|] h]; [done| |done]. cbn in *. destruct (probe_ok p); [done|]. by apply verdict_down. }
    case_decide; cbn; rewrite ?Hb, Hv; done.
Qed.

(** C31. Health verdicts have hysteresis on the way down only. Starting from a
    fresh, healthy backend, after any history of probes and request failures the
    flag is up exactly when, since the last successful probe, no proxied request
    failed and fewer than two probes did; the int32 failure counter never makes it
    otherwise, however long the outage. *)
Theorem health_hysteresis (b : Backend) (es : list health_event) :
  b_healthyFlag b = true -> b_consecFails b = 0 ->
  b_healthyFlag (run_health b es) = verdict 0 (rev es).
Proof.
  intros Hh Hc. enough (health_inv (run_health b es) (rev es)) as [? _] by done.
  induction es as [|e es IH] using rev_ind.
  - split; [done|]. intros _. exists O. split_and!; [done|lia|]. intros k. by rewrite Nat.add_0_r.
  - unfold run_health in *. rewrite fold_left_app, rev_app_distr. by apply health_step_inv.
Qed.

(** * Session affinity *)

Lemma keep_others_spec p vs (h : header) :
  keep_others p vs h = match filter (fun v => HasPrefix v p = false) vs with
                       | [] => h
                       | l => <["Set-Cookie" := (Values h "Set-Cookie" ++ l)%list]> h
                       end.
Proof.
  revert h. induction vs as [|v vs IH]; intros h; [done|]. cbn [keep_others]. rewrite IH.
  rewrite filter_cons. destruct (HasPrefix v p) eqn:Hp.
  - by rewrite decide_False by done.
  - rewrite decide_True by done. unfold Add_, Values.
    change (CanonicalHeaderKey "Set-Cookie") with "Set-Cookie".
    destruct (filter (fun v => HasPrefix v p = false) vs) as [|x l]; [done|].
    rewrite lookup_insert_eq, insert_insert_eq. cbn. by rewrite <- app_assoc.
Qed.

Lemma setStickyCookie_eq (h : header) g id :
  setStickyCookie h g id =
  <["Set-Cookie" := (filter (fun v => HasPrefix v (stickyCookieName g +:+ "=") = false)
                       (Values h "Set-Cookie") ++ [sticky_cookie g id])%list]> h.
Proof.
  unfold setStickyCookie. rewrite keep_others_spec. unfold Del, Add_, Values.
  change (CanonicalHeaderKey "Set-Cookie") with "Set-Cookie".
  rewrite lookup_delete_eq. cbn [default app].
  destruct (filter _ (default [] (h !! "Set-Cookie"))) as [|x l]; cbn [default].
  - rewrite lookup_delete_eq. cbn. by rewrite insert_delete_eq.
  - rewrite lookup_insert_eq. cbn. by rewrite insert_insert_eq, insert_delete_eq.
Qed.

(** A response carries one affinity cookie. Whatever cookies earlier
    attempts of the request queued, after [setStickyCookie] the response has
    exactly one cookie of this route's name, the last backend's; every other
    Set-Cookie keeps its value and order, and no other header changes. *)
Theorem one_sticky_cookie (h : header) (g : RouteGroup) (ids : list string) (id : string) :
  let p := (stickyCookieName g +:+ "=")%string in
  let others := filter (fun v => HasPrefix v p = false) (Values h "Set-Cookie") in
  fold_left (fun h id => setStickyCookie h g id) (ids ++ [id])%list h
    = <["Set-Cookie" := (others ++ [sticky_cookie g id])%list]> h /\
  HasPrefix (sticky_cookie g id) p = true.
Proof.
  cbn zeta. assert (Hp : forall id, HasPrefix (sticky_cookie g id) (stickyCookieName g +:+ "=") = true).
  { intros i. unfold sticky_cookie. rewrite <- append_assoc. apply HasPrefix_app. }
  split; [|done]. rewrite fold_left_app. cbn [fold_left].
  enough (Hw : forall h', (h' = h \/ exists i, h' = setStickyCookie h g i) ->
            setStickyCookie h' g id = setStickyCookie h g id /\
            forall i, exists j, setStickyCookie h' g i = setStickyCookie h g j).
  { rewrite <- setStickyCookie_eq.
    assert (Hf : forall l h', (h' = h \/ exists i, h' = setStickyCookie h g i) ->
              let r := fold_left (fun h id => setStickyCookie h g id) l h' in
              r = h \/ exists i, r = setStickyCookie h g i).
    { induction l as [|i l IH]; intros h' Hh'; [done|]. cbn. apply IH. right. by apply Hw. }
    apply Hw, Hf. by left. }
  assert (Hre : forall i j, setStickyCookie (setStickyCookie h g i) g j = setStickyCookie h g j).
  { intros i j. rewrite (setStickyCookie_eq _ _ j), (setStickyCookie_eq _ _ i), (setStickyCookie_eq h g j).
    unfold Values. change (CanonicalHeaderKey "Set-Cookie") with "Set-Cookie".
    rewrite lookup_insert_eq, insert_insert_eq. cbn [default from_option Datatypes.id]. f_equal.
    rewrite filter_app, filter_cons_False, filter_nil, app_nil_r by (by rewrite Hp).
    rewrite list_filter_filter_l by done. done. }
  intros h' [->|[i ->]]; [eauto|]. split; [apply Hre|]. intros j. exists j. apply Hre.
Qed.

(** The affinity cookie's name does not separate all routes. It keeps 32
    bits of the hash of host and path, and these two routes of one host share a
    name, so a client's pin for one is presented to the other. *)
Theorem sticky_name_collision :
  stickyCookieName (new_group "a.com" "/app13514" "a" "" false)
  = stickyCookieName (new_group "a.com" "/app133836" "b" "" false).
Proof. vm_compute. reflexivity. Qed.

(** * Witnesses *)

Definition up (url : string) (w : Z) : Backend := set_healthyFlag true (makeBackend url w "c" "").
Definition ex_store : store :=
  {[1%positive := up "http://10.0.0.1:80" 2;
    2%positive := up "http://10.0.0.2:80" 1;
    3%positive := makeBackend "http://10.0.0.3:80" 1 "c" "";
    4%positive := set_healthyFlag true (makePeerBackend "http://peer:80" "p" 3)]}.
Definition ex_group : RouteGroup :=
  set_g_Backends [1; 2; 3; 4]%positive (new_group "h" "/a" "h" "" false).

Lemma ex_valid : valid ex_store (g_Backends ex_group).
Proof. repeat constructor; by eexists. Qed.

Lemma pickHealthy_correct_witness :
  exists r g', pickHealthy ex_store ex_group {[1%positive]} true "" = Ret (r, g') /\
    pick_result ex_store ex_group {[1%positive]} true false "" r.
Proof. apply (pickHealthy_correct ex_store ex_group {[1%positive]} true ""); [apply ex_valid|by split]. Defined.

Lemma pickAny_floor_witness :
  exists r g', pickAny ex_store ex_group {[1; 2]}%positive false "" = Ret (r, g') /\ r = Some 3%positive.
Proof.
  destruct (pickAny_floor ex_store ex_group {[1; 2]}%positive false "") as (r & g' & Heq & _);
    [apply ex_valid|by split|].
  exists r, g'. split; [exact Heq|]. vm_compute in Heq. by simplify_eq.
Defined.

Lemma weighted_fair_witness :
  exists ls g', picks 3 ex_store ex_group ∅ true "" = Ret (Some <$> ls, g') /\
    forall l b, ex_store !! l = Some b ->
      (candidate ex_store ex_group ∅ true "" l -> count_occ Pos.eq_dec ls l = weight_of b) /\
      (~ candidate ex_store ex_group ∅ true "" l -> count_occ Pos.eq_dec ls l = 0%nat).
Proof.
  assert (List.length (tier_pool ex_store ex_group ∅ true "") = 3%nat) as Hlen by (vm_compute; reflexivity).
  rewrite <- Hlen. apply (weighted_fair ex_store ex_group ∅ true "").
  - apply ex_valid.
  - apply (bool_decide_eq_true_1 _). by vm_compute.
  - by split.
Defined.

Lemma health_hysteresis_witness :
  b_healthyFlag (run_health (up "u" 1) [Probe HTTPError; Probe (HTTPStatus 500); Probe (Dialled true)])
  = verdict 0 [Probe (Dialled true); Probe (HTTPStatus 500); Probe HTTPError].
Proof. by apply (health_hysteresis (up "u" 1) [Probe HTTPError; Probe (HTTPStatus 500); Probe (Dialled true)]). Defined.
