(* ===== verification/Router.v ===== *)
(** * The routing table: cmd/proxy/router.go

    [Router] is the state behind the router's mutex; [memory] holds the objects
    it and its groups point to: backends, limiters, caches, A/B runs, and the
    transports whose idle connections were closed. [Set_] is [Router.Set], which
    replaces the table on every refresh and carries state across. *)
From S2P Require Import Prelude GoString Float64 Http RateLimit Cache Balancer.
Open Scope string_scope.

(** What the router needs of an A/B run (the [abRun] of abtest.go): its identity
    and times, and how a refresh detaches and reattaches it. *)
Class ABRuntime (R : Type) := {
  run_new : string -> string -> Z -> R;    (* service, test id, now in seconds *)
  run_id : R -> string;
  run_firstSeen : R -> Z;
  run_cfg : R -> option abConfig;
  run_detach : R -> R;
  run_attach : abConfig -> Z -> R -> R;    (* resolved config, local B backends *)
}.

Record routeTombstone := mkTombstone { t_host : string; t_path : string; t_until : Z }.

Record Router := mkRouter {
  r_groups : list RouteGroup;
  r_limiters : gmap string loc;
  r_caches : gmap string loc;
  r_drainSet : gmap string Z;
  r_tombstones : list routeTombstone;
  r_transports : gmap string loc;
  r_abRuns : gmap string loc;
}.

Definition new_router : Router :=
  {| r_groups := []; r_limiters := ∅; r_caches := ∅; r_drainSet := ∅; r_tombstones := [];
     r_transports := ∅; r_abRuns := ∅ |}.

Record memory (L R : Type) := mkMemory {
  m_backends : gmap loc Backend;
  m_limiters : gmap loc L;
  m_caches : gmap loc responseCache;
  m_runs : gmap loc R;
  m_next : loc;               (* the next address to allocate *)
  m_closed : list loc;        (* transports told to close their idle connections *)
}.
Arguments mkMemory {L R}.
Arguments m_backends {L R}. Arguments m_limiters {L R}. Arguments m_caches {L R}.
Arguments m_runs {L R}. Arguments m_next {L R}. Arguments m_closed {L R}.

Definition drainTTL : Z := 10 * Minute.
Definition routeTombstoneTTL : Z := 5 * Minute.
Definition transientRetryAfter : Z := 5.

Definition group_key (g : RouteGroup) : string := g_Host g +:+ "|" +:+ g_PathPrefix g.
Definition fold_key (g : RouteGroup) : string := ToLower (g_Host g) +:+ "|" +:+ g_PathPrefix g.
Definition tomb_key (t : routeTombstone) : string := t_host t +:+ "|" +:+ t_path t.

Definition longer_path (g g' : RouteGroup) : bool := bool_decide (len (g_PathPrefix g') < len (g_PathPrefix g)).
Definition longer_tomb (t t' : routeTombstone) : bool := bool_decide (len (t_path t') < len (t_path t)).

(** All backends of all groups, in order, with the group they are visited for. *)
Definition visits (gs : list RouteGroup) : list (RouteGroup * loc) :=
  flat_map (fun g => (fun l => (g, l)) <$> g_Backends g) gs.

Definition visit_all (f : RouteGroup -> Backend -> Backend) (vs : list (RouteGroup * loc)) (s : gmap loc Backend)
  : gmap loc Backend :=
  fold_left (fun s '(g, l) => alter (f g) l s) vs s.

Section router.
Context {L : Type} `{Limiter L} {R : Type} `{ABRuntime R} `{MapRange}.
(** [r.newLimiter], or the in-memory limiter when it is nil. *)
Context (newLimiter : string -> Z -> L).

Notation memory := (memory L R).

Definition set_backends (s : gmap loc Backend) (m : memory) : memory :=
  mkMemory s (m_limiters m) (m_caches m) (m_runs m) (m_next m) (m_closed m).
Definition set_limiters (s : gmap loc L) (m : memory) : memory :=
  mkMemory (m_backends m) s (m_caches m) (m_runs m) (m_next m) (m_closed m).
Definition set_caches (s : gmap loc responseCache) (m : memory) : memory :=
  mkMemory (m_backends m) (m_limiters m) s (m_runs m) (m_next m) (m_closed m).
Definition set_runs (s : gmap loc R) (m : memory) : memory :=
  mkMemory (m_backends m) (m_limiters m) (m_caches m) s (m_next m) (m_closed m).
Definition bump (m : memory) : memory :=
  mkMemory (m_backends m) (m_limiters m) (m_caches m) (m_runs m) (Pos.succ (m_next m)) (m_closed m).
Definition close_idle (ts : list loc) (m : memory) : memory :=
  mkMemory (m_backends m) (m_limiters m) (m_caches m) (m_runs m) (m_next m) (m_closed m ++ ts)%list.

(** ** Draining *)

(** The transports of the drained backends, each once. *)
Fixpoint drained_transports (id : string) (bs : list Backend) (idle : list loc) : list loc :=
  match bs with
  | [] => idle
  | b :: bs =>
      drained_transports id bs
        match b_transport b with
        | Some t => if decide (b_ContainerID b = id) then
                      if bool_decide (t ∈ idle) then idle else (idle ++ [t])%list
                    else idle
        | None => idle
        end
  end.

Definition drain_if (p : string -> bool) (b : Backend) : Backend :=
  if p (b_ContainerID b) then set_draining true b else b.

Definition markDraining (id : string) (now : Z) (m : memory) (r : Router) : memory * Router :=
  if decide (id = "") then (m, r)
  else
    let r := mkRouter (r_groups r) (r_limiters r) (r_caches r) (<[id := now]> (r_drainSet r))
               (r_tombstones r) (r_transports r) (r_abRuns r) in
    let vs := visits (r_groups r) in
    let idle := drained_transports id (omap (fun v => m_backends m !! v.2) vs) [] in
    let s := visit_all (fun _ => drain_if (fun c => bool_decide (c = id))) vs (m_backends m) in
    (close_idle idle (set_backends s m), r).

Definition set_drainSet (d : gmap string Z) (r : Router) : Router :=
  mkRouter (r_groups r) (r_limiters r) (r_caches r) d (r_tombstones r) (r_transports r) (r_abRuns r).

Definition clearDraining (id : string) (r : Router) : Router := set_drainSet (delete id (r_drainSet r)) r.

Definition still_draining (now : Z) (d : gmap string Z) : gmap string Z :=
  filter (fun kv => negb (bool_decide (time_sub now (snd kv) > drainTTL)) = true) d.

Definition applyDrainingLocked (now : Z) (gs : list RouteGroup) (m : memory) (d : gmap string Z)
  : memory * gmap string Z :=
  if decide (d = ∅) then (m, d)
  else
    let d := still_draining now d in
    let p c := negb (bool_decide (c = "")) && bool_decide (is_Some (d !! c)) in
    (set_backends (visit_all (fun _ => drain_if p) (visits gs) (m_backends m)) m, d).

(** ** Limiters and caches *)

Fixpoint wire_limiters (gs : list RouteGroup) (m : memory) (lims : gmap string loc) (live : gset string)
  : list RouteGroup * memory * gmap string loc * gset string :=
  match gs with
  | [] => ([], m, lims, live)
  | g :: gs =>
      if g_RateLimit g then
        let key := group_key g in
        let live := {[key]} ∪ live in
        match lims !! key with
        | Some p =>
            let m := set_limiters (alter (lim_SetRate (g_RateRPM g)) p (m_limiters m)) m in
            let '(gs, m, lims, live) := wire_limiters gs m lims live in
            (set_g_limiter (Some p) g :: gs, m, lims, live)
        | None =>
            let p := m_next m in
            let m := bump (set_limiters (<[p := newLimiter key (g_RateRPM g)]> (m_limiters m)) m) in
            let '(gs, m, lims, live) := wire_limiters gs m (<[key := p]> lims) live in
            (set_g_limiter (Some p) g :: gs, m, lims, live)
        end
      else
        let '(gs, m, lims, live) := wire_limiters gs m lims live in (g :: gs, m, lims, live)
  end.

(** Stops and forgets the limiters of routes no longer limited. *)
Fixpoint stop_dead (kvs : list (string * loc)) (live : gset string) (m : memory) (lims : gmap string loc)
  : go (memory * gmap string loc) :=
  match kvs with
  | [] => Ret (m, lims)
  | (key, p) :: kvs =>
      if bool_decide (key ∈ live) then stop_dead kvs live m lims
      else
        match m_limiters m !! p with
        | None => Panic
        | Some l =>
            l ← lim_Stop l;
            stop_dead kvs live (set_limiters (<[p := l]> (m_limiters m)) m) (delete key lims)
        end
  end.

Fixpoint wire_caches (gs : list RouteGroup) (m : memory) (cs : gmap string loc) (live : gset string)
  : list RouteGroup * memory * gmap string loc * gset string :=
  match gs with
  | [] => ([], m, cs, live)
  | g :: gs =>
      if decide (g_CacheTTL g <= 0) then
        let '(gs, m, cs, live) := wire_caches gs m cs live in (g :: gs, m, cs, live)
      else
        let key := group_key g in
        let live := {[key]} ∪ live in
        match cs !! key with
        | Some p =>
            let m := set_caches (alter (setTTL (g_CacheTTL g)) p (m_caches m)) m in
            let '(gs, m, cs, live) := wire_caches gs m cs live in
            (set_g_cache (Some p) g :: gs, m, cs, live)
        | None =>
            let p := m_next m in
            let m := bump (set_caches (<[p := newResponseCache (g_CacheTTL g)]> (m_caches m)) m) in
            let '(gs, m, cs, live) := wire_caches gs m (<[key := p]> cs) live in
            (set_g_cache (Some p) g :: gs, m, cs, live)
        end
  end.

Definition keep_live (live : gset string) (cs : gmap string loc) : gmap string loc :=
  filter (fun kv => fst kv ∈ live) cs.

(** ** A/B runs *)

Definition count_local_B (m : memory) (gs : list RouteGroup) : gmap string Z :=
  fold_left (fun n '(g, l) =>
    match g_abCfg g, m_backends m !! l with
    | Some _, Some b =>
        if bool_decide (b_Variant b = "B") && negb (b_Learned b)
        then <[g_Service g := default 0 (n !! g_Service g) + 1]> n else n
    | _, _ => n
    end) (visits gs) ∅.

(** The first group of a service resolves its experiment's times. *)
Definition resolve_cfg (c : abConfig) (run : R) : abConfig :=
  let c := if decide (ab_Started c = 0)
           then set_ab_Started (match run_cfg run with Some c' => ab_Started c' | None => run_firstSeen run end) c
           else c in
  let c := if decide (ab_Epoch c = 0) then set_ab_Epoch (ab_Started c) c else c in
  if decide (ab_PhaseAt c = 0) then set_ab_PhaseAt (ab_Started c) c else c.

Fixpoint wire_ab (now : Z) (bLocal : gmap string Z) (gs : list RouteGroup) (m : memory)
    (runs : gmap string loc) (resolved : gmap string abConfig)
  : list RouteGroup * memory * gmap string loc :=
  match gs with
  | [] => ([], m, runs)
  | g :: gs =>
      match g_abCfg g with
      | None =>
          let '(gs, m, runs) := wire_ab now bLocal gs m runs resolved in (set_g_ab None g :: gs, m, runs)
      | Some c =>
          let svc := g_Service g in
          let '(p, run, m, runs) :=
            match (p ← runs !! svc; run ← m_runs m !! p;
                   if decide (run_id run = ab_ID c) then Some (p, run) else None) with
            | Some (p, run) => (p, run, m, runs)
            | None =>
                let p := m_next m in
                let run := run_new svc (ab_ID c) (now / Second) in
                (p, run, bump (set_runs (<[p := run]> (m_runs m)) m), <[svc := p]> runs)
            end in
          match resolved !! svc with
          | Some cfg =>
              let '(gs, m, runs) := wire_ab now bLocal gs m runs resolved in
              (set_g_ab (Some p) (set_g_abCfg (Some cfg) g) :: gs, m, runs)
          | None =>
              let cfg := resolve_cfg c run in
              let m := set_runs (<[p := run_attach cfg (default 0 (bLocal !! svc)) run]> (m_runs m)) m in
              let '(gs, m, runs) := wire_ab now bLocal gs m runs (<[svc := cfg]> resolved) in
              (set_g_ab (Some p) (set_g_abCfg (Some cfg) g) :: gs, m, runs)
          end
      end
  end.

Definition reconcileAB (now : Z) (gs : list RouteGroup) (m : memory) (runs : gmap string loc)
  : list RouteGroup * memory * gmap string loc :=
  let bLocal := count_local_B m gs in
  let attached p := bool_decide (p ∈ (map_to_list runs).*2) in
  let m := set_runs (map_imap (fun p run => Some (if attached p then run_detach run else run)) (m_runs m)) m in
  wire_ab now bLocal gs m runs ∅.

(** ** Transports *)

Fixpoint wire_transports (ls : list loc) (m : memory) (ts : gmap string loc) (live : gset string)
  : memory * gmap string loc * gset string :=
  match ls with
  | [] => (m, ts, live)
  | l :: ls =>
      match m_backends m !! l with
      | None => wire_transports ls m ts live
      | Some b =>
          match b_proxy b with
          | None => wire_transports ls m ts live
          | Some injected =>
              match b_transport b with
              | Some t =>
                  let ts := match ts !! b_URL b with None => <[b_URL b := t]> ts | Some _ => ts end in
                  wire_transports ls m ts ({[b_URL b]} ∪ live)
              | None =>
                  match injected with
                  | Some _ => wire_transports ls m ts live
                  | None =>
                      let '(t, m, ts) :=
                        match ts !! b_URL b with
                        | Some t => (t, m, ts)
                        | None => (m_next m, bump m, <[b_URL b := m_next m]> ts)
                        end in
                      let m := set_backends (<[l := set_transport t b]> (m_backends m)) m in
                      wire_transports ls m ts ({[b_URL b]} ∪ live)
                  end
              end
          end
      end
  end.

(** Wires every backend and returns the transports whose URL is gone. *)
Definition reconcileTransportsLocked (gs : list RouteGroup) (m : memory) (ts : gmap string loc)
  : memory * gmap string loc * list loc :=
  let '(m, ts, live) := wire_transports (snd <$> visits gs) m ts ∅ in
  (m, filter (fun kv => fst kv ∈ live) ts,
   omap (fun kv => if decide (fst kv ∈ live) then None else Some (snd kv)) (range_list ts)).

(** ** Tombstones *)

Fixpoint keep_tombs (now : Z) (newKeys : gset string) (ts : list routeTombstone) (seen : gset string)
    (out : list routeTombstone) : gset string * list routeTombstone :=
  match ts with
  | [] => (seen, out)
  | t :: ts =>
      let key := tomb_key t in
      if time_after now (t_until t) || bool_decide (key ∈ newKeys) || bool_decide (key ∈ seen)
      then keep_tombs now newKeys ts seen out
      else keep_tombs now newKeys ts ({[key]} ∪ seen) (out ++ [t])%list
  end.

Fixpoint bury (now : Z) (newKeys : gset string) (prev : list RouteGroup) (seen : gset string)
    (out : list routeTombstone) : list routeTombstone :=
  match prev with
  | [] => out
  | g :: prev =>
      let key := fold_key g in
      if bool_decide (key ∈ newKeys) || bool_decide (key ∈ seen) then bury now newKeys prev seen out
      else bury now newKeys prev ({[key]} ∪ seen)
             (out ++ [mkTombstone (ToLower (g_Host g)) (g_PathPrefix g) (now + routeTombstoneTTL)])%list
  end.

Definition reconcileTombstonesLocked (now : Z) (prev groups : list RouteGroup) (ts : list routeTombstone)
  : list routeTombstone :=
  let newKeys : gset string := list_to_set (fold_key <$> groups) in
  let '(seen, kept) := keep_tombs now newKeys ts ∅ [] in
  SliceStable longer_tomb (bury now newKeys prev seen kept).

(** ** Health carried across a refresh *)

Definition health_key (g : RouteGroup) (b : Backend) : string :=
  g_Host g +:+ "|" +:+ g_PathPrefix g +:+ "|" +:+ b_URL b +:+ "|" +:+ b_Variant b.

Definition prev_health (prev : list RouteGroup) (s : gmap loc Backend) : gmap string bool :=
  fold_left (fun h '(g, l) => match s !! l with
                              | Some b => <[health_key g b := b_healthyFlag b]> h
                              | None => h
                              end) (visits prev) ∅.

Definition carry_health (prev groups : list RouteGroup) (s : gmap loc Backend) : gmap loc Backend :=
  let h := prev_health prev s in
  visit_all (fun g b => set_healthyFlag (default true (h !! health_key g b)) b) (visits groups) s.

(** [Router.Set]. Its three readings of the clock are arguments. *)
Definition Set_ (groups : list RouteGroup) (now_ab now_drain now_tomb : Z) (m : memory) (r : Router)
  : go (memory * Router) :=
  let groups := SliceStable longer_path groups in
  let prev := r_groups r in
  let '(groups, m, lims, live) := wire_limiters groups m (r_limiters r) ∅ in
  '(m, lims) ← stop_dead (range_list lims) live m lims;
  let '(groups, m, cs, liveCache) := wire_caches groups m (r_caches r) ∅ in
  let '(groups, m, runs) := reconcileAB now_ab groups m (r_abRuns r) in
  let '(m, drain) := applyDrainingLocked now_drain groups m (r_drainSet r) in
  let '(m, ts, stale) := reconcileTransportsLocked groups m (r_transports r) in
  let tombs := reconcileTombstonesLocked now_tomb prev groups (r_tombstones r) in
  let m := close_idle stale m in
  let m := set_backends (carry_health prev groups (m_backends m)) m in
  Ret (m, mkRouter groups lims (keep_live liveCache cs) drain tombs ts runs).

Definition Snapshot (r : Router) : list RouteGroup := r_groups r.
End router.

(** ** Matching a request *)

(** The loop of [ServeHTTP] over the published groups. *)
Definition matches (reqHost path : string) (g : RouteGroup) : bool :=
  EqualFold reqHost (g_Host g) && (bool_decide (g_PathPrefix g = "") || HasPrefix path (g_PathPrefix g)).

Definition route (groups : list RouteGroup) (reqHost path : string) : option RouteGroup :=
  find_first (matches reqHost path) groups.

Definition tombstoned (tombs : list routeTombstone) (now : Z) (host path : string) (group : option RouteGroup)
  : bool :=
  existsb (fun t =>
    EqualFold host (t_host t) && (bool_decide (t_path t = "") || HasPrefix path (t_path t)) &&
    negb (time_after now (t_until t)) &&
    match group with None => true | Some g => bool_decide (len (g_PathPrefix g) < len (t_path t)) end) tombs.

(** * Lemmas *)

(** The fields a refresh wires are erased; the rest of a group is its identity
    and configuration. *)
Definition erase (g : RouteGroup) : RouteGroup :=
  set_g_limiter None (set_g_cache None (set_g_ab None (set_g_abCfg None g))).

Lemma erase_host g g' : erase g = erase g' -> g_Host g = g_Host g'.
Proof. intros H. by injection H. Qed.
Lemma erase_path g g' : erase g = erase g' -> g_PathPrefix g = g_PathPrefix g'.
Proof. intros H. by injection H. Qed.
Lemma erase_backends g g' : erase g = erase g' -> g_Backends g = g_Backends g'.
Proof. intros H. by injection H. Qed.
Lemma erase_RateLimit g g' : erase g = erase g' -> g_RateLimit g = g_RateLimit g'.
Proof. intros H. by injection H. Qed.
Lemma erase_key g g' : erase g = erase g' -> group_key g = group_key g' /\ fold_key g = fold_key g'.
Proof. intros H. unfold group_key, fold_key. by rewrite (erase_host _ _ H), (erase_path _ _ H). Qed.
Lemma erase_matches h p g g' : erase g = erase g' -> matches h p g = matches h p g'.
Proof. intros H. unfold matches. by rewrite (erase_host _ _ H), (erase_path _ _ H). Qed.
#[export] Hint Resolve erase_host erase_path erase_backends erase_RateLimit : pm.

(** Two tables that differ only in wiring. *)
Definition same_table (gs gs' : list RouteGroup) : Prop := erase <$> gs = erase <$> gs'.

Lemma same_table_cons g gs g' gs' :
  same_table (g :: gs) (g' :: gs') <-> erase g = erase g' /\ same_table gs gs'.
Proof.
  unfold same_table. rewrite !fmap_cons. split; [by apply cons_eq_inj|]. by intros [-> ->].
Qed.

Lemma same_table_map {B} (f : RouteGroup -> B) gs gs' :
  (forall g g', erase g = erase g' -> f g = f g') -> same_table gs gs' -> f <$> gs = f <$> gs'.
Proof.
  intros Hf. revert gs'. induction gs as [|g gs IH]; intros [|g' gs'] Heq; [done..|].
  apply same_table_cons in Heq as [? ?]. rewrite !fmap_cons. f_equal; auto.
Qed.

Lemma same_table_elem gs gs' g :
  same_table gs gs' -> g ∈ gs -> exists g', g' ∈ gs' /\ erase g' = erase g.
Proof.
  intros Hs Hg. assert (erase g ∈ erase <$> gs') as Hin by (rewrite <- Hs; by apply list_elem_of_fmap_2).
  apply list_elem_of_fmap in Hin as (g' & ? & ?). eauto.
Qed.

Lemma same_table_visits gs gs' : same_table gs gs' -> snd <$> visits gs = snd <$> visits gs'.
Proof.
  revert gs'. induction gs as [|g gs IH]; intros [|g' gs'] Heq; [done..|].
  apply same_table_cons in Heq as [Hg Hgs]. unfold visits. cbn. rewrite !fmap_app.
  f_equal; [|by apply IH]. rewrite (erase_backends _ _ Hg). rewrite <- !list_fmap_compose. by apply list_fmap_ext.
Qed.

Lemma elem_of_visits gs g l : (g, l) ∈ visits gs <-> g ∈ gs /\ l ∈ g_Backends g.
Proof.
  unfold visits. rewrite elem_of_flat_map. split.
  - intros (g' & Hg' & Hl). apply list_elem_of_fmap in Hl as (l' & ? & ?). by simplify_eq.
  - intros [Hg Hl]. exists g. split; [done|]. apply list_elem_of_fmap. eauto.
Qed.

Section table.
Context {L : Type} `{Limiter L} {R : Type} `{ABRuntime R} `{MapRange}.
Context (newLimiter : string -> Z -> L).
Notation memory := (memory L R).
Implicit Types m : memory.

Lemma wire_limiters_table gs m lims live :
  same_table (wire_limiters newLimiter gs m lims live).1.1.1 gs /\
  m_backends (wire_limiters newLimiter gs m lims live).1.1.2 = m_backends m.
Proof.
  revert m lims live. induction gs as [|g gs IH]; intros m lims live; [done|]. cbn.
  destruct (g_RateLimit g); [destruct (lims !! group_key g)|];
    match goal with |- context [wire_limiters newLimiter gs ?m ?l ?v] =>
      specialize (IH m l v); destruct (wire_limiters newLimiter gs m l v) as [[[? ?] ?] ?] end;
    cbn in *; destruct IH as [IH IHm]; unfold same_table in *; cbn; rewrite IH; split; auto.
Qed.

Lemma wire_caches_table gs m cs live :
  same_table (wire_caches gs m cs live).1.1.1 gs /\
  m_backends (wire_caches gs m cs live).1.1.2 = m_backends m /\
  m_limiters (wire_caches gs m cs live).1.1.2 = m_limiters m.
Proof.
  revert m cs live. induction gs as [|g gs IH]; intros m cs live; [done|]. cbn.
  case_decide; [|destruct (cs !! group_key g)];
    match goal with |- context [wire_caches gs ?m ?l ?v] =>
      specialize (IH m l v); destruct (wire_caches gs m l v) as [[[? ?] ?] ?] end;
    cbn in *; destruct IH as (IH & IHm & IHl); unfold same_table in *; cbn; rewrite IH; split_and!; auto.
Qed.

Lemma wire_ab_table now bl gs m runs res :
  same_table (wire_ab now bl gs m runs res).1.1 gs /\
  m_backends (wire_ab now bl gs m runs res).1.2 = m_backends m /\
  m_limiters (wire_ab now bl gs m runs res).1.2 = m_limiters m.
Proof.
  revert m runs res. induction gs as [|g gs IH]; intros m runs res; [done|]. cbn.
  destruct (g_abCfg g) as [c|].
  - destruct (p ← runs !! g_Service g; _) as [[p run]|];
      destruct (res !! g_Service g);
      match goal with |- context [wire_ab now bl gs ?m ?l ?v] =>
        specialize (IH m l v); destruct (wire_ab now bl gs m l v) as [[? ?] ?] end;
      cbn in *; destruct IH as (IH & IHm & IHl); unfold same_table in *; cbn; rewrite IH; split_and!; auto.
  - specialize (IH m runs res). destruct (wire_ab now bl gs m runs res) as [[? ?] ?].
    cbn in *; destruct IH as (IH & IHm & IHl); unfold same_table in *; cbn; rewrite IH; split_and!; auto.
Qed.

Lemma stop_dead_backends kvs live m lims m' lims' :
  stop_dead kvs live m lims = Ret (m', lims') -> m_backends m' = m_backends m.
Proof.
  revert m lims. induction kvs as [|[k p] kvs IH]; intros m lims; cbn; [intros; by simplify_eq|].
  case_bool_decide; [apply IH|]. destruct (m_limiters m !! p) as [l|]; [|done].
  destruct (lim_Stop l) as [l'|]; cbn; [|done]. intros Hs%IH. done.
Qed.
End table.

(** ** What a refresh does to each backend *)

Definition visitors (l : loc) (vs : list (RouteGroup * loc)) : list RouteGroup :=
  omap (fun v => if decide (snd v = l) then Some (fst v) else None) vs.

Lemma visit_all_lookup f vs (s : gmap loc Backend) l :
  visit_all f vs s !! l = (fun b => fold_left (fun b g => f g b) (visitors l vs) b) <$> s !! l.
Proof.
  unfold visit_all. revert s. induction vs as [|[g l'] vs IH]; intros s; cbn.
  - by destruct (s !! l).
  - rewrite IH. destruct (decide (l' = l)) as [->|Hne].
    + rewrite lookup_alter_eq. by destruct (s !! l).
    + by rewrite lookup_alter_ne.
Qed.

Lemma elem_of_visitors l vs g : g ∈ visitors l vs <-> (g, l) ∈ vs.
Proof.
  unfold visitors. rewrite list_elem_of_omap. split.
  - intros ([g' l'] & Hin & Hd). cbn in Hd. case_decide; by simplify_eq.
  - intros Hin. exists (g, l). split; [done|]. cbn. by rewrite decide_True.
Qed.

Lemma drain_if_ContainerID p b : b_ContainerID (drain_if p b) = b_ContainerID b.
Proof. unfold drain_if. by destruct (p _). Qed.

Lemma drain_if_idem p b : drain_if p (drain_if p b) = drain_if p b.
Proof. unfold drain_if at 1. rewrite drain_if_ContainerID. unfold drain_if. by destruct (p (b_ContainerID b)). Qed.

Lemma visit_drain p vs (s : gmap loc Backend) l :
  visit_all (fun _ => drain_if p) vs s !! l =
  (if decide (l ∈ snd <$> vs) then drain_if p <$> s !! l else s !! l).
Proof.
  rewrite visit_all_lookup.
  assert (Hf : forall gs b, fold_left (fun b (_ : RouteGroup) => drain_if p b) gs b =
                match gs with [] => b | _ => drain_if p b end).
  { induction gs as [|g gs IH]; intros b; [done|]. cbn [fold_left]. rewrite IH.
    destruct gs; [done|]. apply drain_if_idem. }
  case_decide as Hl.
  - apply list_elem_of_fmap in Hl as ([g l'] & -> & Hl). apply elem_of_visitors in Hl.
    cbn [snd]. destruct (s !! l') as [b|]; [|done]. cbn. rewrite Hf. destruct (visitors l' vs) as [|g' gs] eqn:Hv; [|done].
    by apply not_elem_of_nil in Hl.
  - destruct (s !! l) as [b|]; [|done]. cbn. rewrite Hf. destruct (visitors l vs) as [|g' gs] eqn:Hv; [done|].
    exfalso. apply Hl. apply list_elem_of_fmap. exists (g', l). split; [done|]. apply elem_of_visitors. rewrite Hv.
    set_solver.
Qed.

(** A backend without its wiring. *)
Definition unwire (b : Backend) : Backend :=
  mkBackend (b_URL b) (b_Weight b) (b_Container b) (b_HealthPath b) None (b_healthyFlag b) (b_stickyID b)
    (b_consecFails b) (b_DockerUnhealthy b) (b_Learned b) (b_PeerID b) (b_Variant b) (b_peerTestID b)
    (b_ContainerID b) (b_draining b) None.

Lemma unwire_set_transport t b : unwire (set_transport t b) = unwire b.
Proof. done. Qed.

Section backends.
Context {L : Type} `{Limiter L} {R : Type} `{ABRuntime R} `{MapRange}.
Context (newLimiter : string -> Z -> L).
Notation memory := (memory L R).
Implicit Types m : memory.

Lemma wire_transports_unwire ls m ts live l :
  unwire <$> m_backends (wire_transports ls m ts live).1.1 !! l = unwire <$> m_backends m !! l.
Proof.
  revert m ts live. induction ls as [|l' ls IH]; intros m ts live; cbn; [done|].
  destruct (m_backends m !! l') as [b|] eqn:Hb; [|apply IH].
  destruct (b_proxy b) as [inj|]; [|apply IH]. destruct (b_transport b); [apply IH|].
  destruct inj; [apply IH|]. destruct (ts !! b_URL b); rewrite IH; cbn;
    (destruct (decide (l = l')) as [->|];
      [rewrite lookup_insert_eq, Hb; cbn; by rewrite unwire_set_transport|by rewrite lookup_insert_ne]).
Qed.

Lemma wire_transports_limiters ls m ts live :
  m_limiters (wire_transports ls m ts live).1.1 = m_limiters m.
Proof.
  revert m ts live. induction ls as [|l' ls IH]; intros m ts live; cbn; [done|].
  destruct (m_backends m !! l') as [b|] eqn:Hb; [|apply IH].
  destruct (b_proxy b) as [inj|]; [|apply IH]. destruct (b_transport b); [apply IH|].
  destruct inj; [apply IH|]. destruct (ts !! b_URL b); by rewrite IH.
Qed.

(** Everything a refresh does, phase by phase. *)
Record refreshed (groups : list RouteGroup) (n_drain n_tomb : Z) (m : memory) (r : Router)
    (m' : memory) (r' : Router) : Prop := {
  rf_table : same_table (r_groups r') (SliceStable longer_path groups);
  rf_tombs : r_tombstones r' = reconcileTombstonesLocked n_tomb (r_groups r) (r_groups r') (r_tombstones r);
  rf_drain : r_drainSet r' = if decide (r_drainSet r = ∅) then ∅ else still_draining n_drain (r_drainSet r);
  rf_backends : exists s, m_backends m' = carry_health (r_groups r) (r_groups r') s /\
    forall l, unwire <$> s !! l = unwire <$>
      (if decide (l ∈ snd <$> visits (r_groups r'))
       then drain_if (fun c => negb (bool_decide (c = "")) && bool_decide (is_Some (r_drainSet r' !! c)))
              <$> m_backends m !! l
       else m_backends m !! l);
}.

Lemma drain_if_none (s : gmap loc Backend) l : unwire <$> s !! l = unwire <$>
  (drain_if (fun c => negb (bool_decide (c = "")) && bool_decide (is_Some ((∅ : gmap string Z) !! c))) <$> s !! l).
Proof.
  destruct (s !! l) as [b|]; [|done]. cbn. unfold drain_if. rewrite lookup_empty.
  rewrite (bool_decide_false (is_Some None)) by (by intros []). by rewrite andb_false_r.
Qed.

Lemma Set_refreshed groups n1 n2 n3 m r m' r' :
  Set_ newLimiter groups n1 n2 n3 m r = Ret (m', r') -> refreshed groups n2 n3 m r m' r'.
Proof.
  unfold Set_.
  pose proof (wire_limiters_table newLimiter (SliceStable longer_path groups) m (r_limiters r) ∅) as [Ht1 Hb1].
  destruct (wire_limiters newLimiter _ m (r_limiters r) ∅) as [[[gs1 m1] lims] live]. cbn in Ht1, Hb1.
  destruct (stop_dead (range_list lims) live m1 lims) as [[m2 lims2]|] eqn:Hsd; cbn; [|done].
  apply stop_dead_backends in Hsd as Hb2.
  pose proof (wire_caches_table gs1 m2 (r_caches r) ∅) as (Ht3 & Hb3 & _).
  destruct (wire_caches gs1 m2 (r_caches r) ∅) as [[[gs3 m3] cs] liveC]. cbn in Ht3, Hb3.
  unfold reconcileAB. set (bl := count_local_B m3 gs3). set (m3' := set_runs _ m3).
  pose proof (wire_ab_table n1 bl gs3 m3' (r_abRuns r) ∅) as (Ht4 & Hb4 & _).
  destruct (wire_ab n1 bl gs3 m3' (r_abRuns r) ∅) as [[gs4 m4] runs]. cbn in Ht4, Hb4.
  assert (same_table gs4 (SliceStable longer_path groups)) as Ht.
  { unfold same_table in *. congruence. }
  assert (m_backends m4 = m_backends m) as Hb by congruence.
  unfold applyDrainingLocked. destruct (decide (r_drainSet r = ∅)) as [Hd|Hd].
  - unfold reconcileTransportsLocked.
    pose proof (wire_transports_unwire (snd <$> visits gs4) m4 (r_transports r) ∅) as Hu.
    destruct (wire_transports _ m4 (r_transports r) ∅) as [[m5 ts] live5]. cbn in Hu |- *. intros Heq. simplify_eq.
    cbn. split; cbn; [done..| |].
    + by rewrite decide_True.
    + exists (m_backends m5). split; [done|]. intros l. rewrite Hu, Hb, Hd. case_decide; [|done]. apply drain_if_none.
  - unfold reconcileTransportsLocked. set (md := set_backends _ m4).
    pose proof (wire_transports_unwire (snd <$> visits gs4) md (r_transports r) ∅) as Hu.
    destruct (wire_transports _ md (r_transports r) ∅) as [[m5 ts] live5]. cbn in Hu |- *. intros Heq. simplify_eq.
    cbn. split; cbn; [done..| |].
    + by rewrite decide_False.
    + exists (m_backends m5). split; [done|]. intros l. rewrite Hu, visit_drain, Hb. done.
Qed.
End backends.

(** ** The longest prefix *)

Lemma longer_path_sorted gs : StronglySorted (not_before longer_path) (SliceStable longer_path gs).
Proof.
  apply SliceStable_sorted.
  - unfold longer_path. intros x y Hxy. reflect_bools. apply bool_decide_eq_false. lia.
  - unfold longer_path, not_before. intros x y z Hxy Hyz. reflect_bools. apply bool_decide_eq_false. lia.
Qed.

Lemma same_table_sorted gs gs' :
  same_table gs gs' -> StronglySorted (not_before longer_path) gs' -> StronglySorted (not_before longer_path) gs.
Proof.
  intros Hs Hsort. revert gs Hs. induction Hsort as [|g' gs' Hsort IH Hall]; intros [|g gs] Hs; [constructor|done..|].
  apply same_table_cons in Hs as [Hg Hs]. constructor; [auto|].
  apply Forall_forall. intros x Hx. destruct (same_table_elem _ _ _ Hs Hx) as (x' & Hx' & Hxx).
  rewrite Forall_forall in Hall. specialize (Hall x' Hx'). unfold not_before, longer_path in *.
  by rewrite (erase_path _ _ Hg), <- (erase_path _ _ Hxx).
Qed.

Lemma matches_same_length h p g g' :
  matches h p g = true -> matches h p g' = true ->
  len (g_PathPrefix g) = len (g_PathPrefix g') -> g_PathPrefix g = g_PathPrefix g'.
Proof.
  unfold matches. intros [_ Hg]%andb_true_iff [_ Hg']%andb_true_iff Hlen.
  assert (Hp : forall g, bool_decide (g_PathPrefix g = "") || HasPrefix p (g_PathPrefix g) = true ->
                 HasPrefix p (g_PathPrefix g) = true).
  { intros x [->%bool_decide_eq_true|?]%orb_true_iff; [|done]. apply HasPrefix_Cut. by eexists. }
  by apply (HasPrefix_total p); [apply Hp..|].
Qed.

(** ** Executions *)

Section executions.
Context {L : Type} `{Limiter L} {R : Type} `{ABRuntime R} `{MapRange}.
Context (newLimiter : string -> Z -> L).
Notation memory := (memory L R).

(** What happens to the router: a refresh with freshly built backends, a stop
    signal, the event that ends it, a health verdict, a charged request. *)
Inductive event :=
| ESet (fresh : gmap loc Backend) (groups : list RouteGroup) (n_ab n_drain n_tomb : Z)
| EDrain (id : string) (now : Z)
| EClear (id : string)
| EHealth (l : loc) (e : health_event)
| EAllow (p : loc) (key : string) (now later : Z) (r : reply).

(** The state carries the last reading of the clock. *)
Record state := mkState { st_now : Z; st_mem : memory; st_router : Router }.

(** Host names hold no bar. *)
Definition hosts_ok (gs : list RouteGroup) : Prop := Forall (fun g => has_byte "|" (g_Host g) = false) gs.

Inductive step : event -> state -> state -> Prop :=
| step_Set fresh groups n1 n2 n3 now m r m' r' :
    now <= n1 <= n2 -> n2 <= n3 -> hosts_ok groups ->
    Set_ newLimiter groups n1 n2 n3 (set_backends (fresh ∪ m_backends m) m) r = Ret (m', r') ->
    step (ESet fresh groups n1 n2 n3) (mkState now m r) (mkState n3 m' r')
| step_Drain id n now m r :
    now <= n ->
    step (EDrain id n) (mkState now m r) (mkState n (markDraining id n m r).1 (markDraining id n m r).2)
| step_Clear id now m r :
    step (EClear id) (mkState now m r) (mkState now m (clearDraining id r))
| step_Health l e now m r :
    step (EHealth l e) (mkState now m r)
      (mkState now (set_backends (alter (fun b => health_step b e) l (m_backends m)) m) r)
| step_Allow p key n n' a now m r :
    step (EAllow p key n n' a) (mkState now m r)
      (mkState now (set_limiters (alter (fun l => (lim_Allow key n n' a l).2) p (m_limiters m)) m) r).

Inductive steps : list event -> state -> state -> Prop :=
| steps_nil s : steps [] s s
| steps_cons e es s1 s2 s3 : step e s1 s2 -> steps es s2 s3 -> steps (e :: es) s1 s3.

(** A fresh router, at any time and over any memory. *)
Definition initial (s : state) : Prop := st_router s = new_router.
Definition reachable (s : state) : Prop := exists s0 es, initial s0 /\ steps es s0 s.

Lemma steps_ind_r (P : state -> Prop) es s s' :
  (forall e s s', P s -> step e s s' -> P s') -> P s -> steps es s s' -> P s'.
Proof. intros Hstep Hs Hsteps. induction Hsteps; eauto. Qed.

Lemma step_clock e s s' : step e s s' -> st_now s <= st_now s'.
Proof. destruct 1; cbn; lia. Qed.

Lemma steps_clock es s s' : steps es s s' -> st_now s <= st_now s'.
Proof. induction 1 as [|e es s1 s2 s3 Hs _ IH]; [lia|]. apply step_clock in Hs. lia. Qed.

(** *** The drain invariant *)

Definition drain_ok (s : state) : Prop :=
  forall id at_, r_drainSet (st_router s) !! id = Some at_ ->
    id <> "" /\ forall g l b, g ∈ r_groups (st_router s) -> l ∈ g_Backends g ->
      m_backends (st_mem s) !! l = Some b -> b_ContainerID b = id -> b_draining b = true.

(** The container of a backend and whether it drains: health does not touch it. *)
Definition cd (b : Backend) : string * bool := (b_ContainerID b, b_draining b).

Lemma cd_fold (h : gmap string bool) gs b :
  cd (fold_left (fun b g => set_healthyFlag (default true (h !! health_key g b)) b) gs b) = cd b.
Proof. revert b. induction gs as [|g gs IH]; intros b; [done|]. cbn [fold_left]. by rewrite IH. Qed.

Lemma cd_carry prev gs s l : cd <$> carry_health prev gs s !! l = cd <$> s !! l.
Proof.
  unfold carry_health. rewrite visit_all_lookup. destruct (s !! l) as [b|]; [|done].
  cbn. f_equal. apply cd_fold.
Qed.

Lemma cd_unwire b b' : unwire b = unwire b' -> cd b = cd b'.
Proof. intros Heq. change (cd (unwire b) = cd (unwire b')). by rewrite Heq. Qed.

Lemma refreshed_cd groups n2 n3 (m : memory) r (m' : memory) r' l :
  refreshed groups n2 n3 m r m' r' ->
  cd <$> m_backends m' !! l = cd <$>
    (if decide (l ∈ snd <$> visits (r_groups r'))
     then drain_if (fun c => negb (bool_decide (c = "")) && bool_decide (is_Some (r_drainSet r' !! c)))
            <$> m_backends m !! l
     else m_backends m !! l).
Proof.
  intros [_ _ _ (s & -> & Hs)]. rewrite cd_carry. specialize (Hs l).
  set (o := if decide _ then _ else _) in *. destruct (s !! l), o; cbn in *; try done.
  apply (inj Some) in Hs. apply (f_equal Some). by apply cd_unwire.
Qed.

Lemma still_draining_lookup now d id at_ :
  still_draining now d !! id = Some at_ <-> d !! id = Some at_ /\ ~ time_sub now at_ > drainTTL.
Proof.
  unfold still_draining. rewrite map_lookup_filter_Some. cbn.
  rewrite negb_true_iff, bool_decide_eq_false. done.
Qed.

Lemma drain_if_drains p b : p (b_ContainerID b) = true -> b_draining (drain_if p b) = true.
Proof. unfold drain_if. by intros ->. Qed.
Lemma drain_if_keeps p b : b_draining b = true -> b_draining (drain_if p b) = true.
Proof. unfold drain_if. by destruct (p _). Qed.

Lemma step_drain_ok e s s' : step e s s' -> drain_ok s -> drain_ok s'.
Proof.
  intros Hstep Hok id at_. destruct Hstep as
    [fresh groups n1 n2 n3 now m r m' r' Hn Hn' Hh HSet|id' n now m r Hn|id' now m r|l e now m r|p key n n' a now m r].
  - apply Set_refreshed in HSet as Hrf. cbn. intros Hid.
    assert (id <> "") as Hne.
    { rewrite (rf_drain _ _ _ _ _ _ _ Hrf) in Hid. case_decide; [done|].
      apply still_draining_lookup in Hid as [Hid _]. by apply (Hok id at_). }
    split; [done|]. intros g l b Hg Hl Hb Hc.
    pose proof (refreshed_cd _ _ _ _ _ _ _ l Hrf) as Hcd. rewrite Hb in Hcd. cbn in Hcd.
    rewrite decide_True in Hcd by (apply list_elem_of_fmap; exists (g, l); by rewrite elem_of_visits).
    destruct ((fresh ∪ m_backends m) !! l) as [b0|]; [|done]. cbn in Hcd. injection Hcd as Hc0 Hd0.
    rewrite Hd0. apply drain_if_drains. rewrite drain_if_ContainerID in Hc0. rewrite <- Hc0, Hc, Hid.
    by rewrite bool_decide_false, bool_decide_true by eauto.
  - unfold markDraining. case_decide as Hid'; cbn; [apply Hok|]. intros Hid.
    assert (forall g l b, g ∈ r_groups r -> l ∈ g_Backends g ->
      visit_all (fun _ => drain_if (fun c => bool_decide (c = id'))) (visits (r_groups r)) (m_backends m) !! l = Some b ->
      exists b0, m_backends m !! l = Some b0 /\ b = drain_if (fun c => bool_decide (c = id')) b0) as Hv.
    { intros g l b Hg Hl. rewrite visit_drain.
      rewrite decide_True by (apply list_elem_of_fmap; exists (g, l); by rewrite elem_of_visits).
      destruct (m_backends m !! l) as [b0|]; intros Hb; simplify_eq/=. eauto. }
    apply lookup_insert_Some in Hid as [[<- _]|[Hne Hid]].
    + split; [done|]. intros g l b Hg Hl Hb Hc. destruct (Hv g l b Hg Hl Hb) as (b0 & Hb0 & ->).
      apply drain_if_drains. rewrite drain_if_ContainerID in Hc. by rewrite Hc, bool_decide_true.
    + destruct (Hok id at_ Hid) as [Hi Hall]. split; [done|]. intros g l b Hg Hl Hb Hc.
      destruct (Hv g l b Hg Hl Hb) as (b0 & Hb0 & ->). apply drain_if_keeps.
      rewrite drain_if_ContainerID in Hc. by apply (Hall g l).
  - cbn. intros Hid%lookup_delete_Some. destruct Hid as [_ Hid]. exact (Hok id at_ Hid).
  - cbn. intros Hid. destruct (Hok id at_ Hid) as [Hi Hall]. split; [done|]. intros g l' b Hg Hl Hb Hc.
    cbn in Hall. destruct (decide (l = l')) as [->|Hne].
    + rewrite lookup_alter_eq in Hb. destruct (m_backends m !! l') as [b0|] eqn:Hb0; [|done]. cbn in Hb.
      simplify_eq. assert (cd (health_step b0 e) = cd b0) as Hcd.
      { destruct e as [p|]; [|done]. unfold health_step, checkBackend, recordHealthCheck.
        destruct (match p with HTTPStatus _ => _ | _ => _ end); [done|]. by case_decide. }
      unfold cd in Hcd. injection Hcd as Hcc ->. rewrite Hcc in Hall. by apply (Hall g l').
    + rewrite lookup_alter_ne in Hb by done. by apply (Hall g l').
  - cbn. apply Hok.
Qed.

Lemma reachable_drain_ok s : reachable s -> drain_ok s.
Proof.
  intros (s0 & es & Hi & Hs). apply (steps_ind_r drain_ok es s0 s); [|  |done].
  - intros e s1 s2 Hok Hst. by eapply step_drain_ok.
  - intros id at_. rewrite Hi. cbn. by rewrite lookup_empty.
Qed.

(** An entry stays until it is cleared or ten minutes old. *)
Lemma steps_drain_kept id t es s s' :
  steps es s s' -> EClear id ∉ es -> st_now s' - t <= drainTTL ->
  (exists at_, r_drainSet (st_router s) !! id = Some at_ /\ t <= at_ <= st_now s) ->
  exists at_, r_drainSet (st_router s') !! id = Some at_ /\ t <= at_ <= st_now s'.
Proof.
  intros Hsteps. induction Hsteps as [|e es s1 s2 s3 Hstep Hsteps IH]; intros Hcl Htt Hat; [done|].
  apply not_elem_of_cons in Hcl as [Hcl1 Hcl2]. apply IH; [done..|]. clear IH.
  pose proof (step_clock _ _ _ Hstep) as Hc1. pose proof (steps_clock _ _ _ Hsteps) as Hc2.
  destruct Hat as (at_ & Hat & Hta). destruct Hstep as
    [fresh groups n1 n2 n3 now m r m' r' Hn Hn' Hh HSet|id' n now m r Hn|id' now m r|l e now m r|p key n n' a now m r];
    cbn in *; try by exists at_.
  - apply Set_refreshed in HSet as Hrf. exists at_. split; [|lia]. rewrite (rf_drain _ _ _ _ _ _ _ Hrf).
    case_decide as Hd; [rewrite Hd in Hat; done|]. apply still_draining_lookup. split; [done|].
    rewrite time_sub_gt by (cbv; split; congruence). lia.
  - unfold markDraining. case_decide as Hid; cbn; [exists at_; split; [done|lia]|].
    destruct (decide (id' = id)) as [->|Hne].
    + exists n. rewrite lookup_insert_eq. split; [done|lia].
    + exists at_. rewrite lookup_insert_ne by done. split; [done|lia].
  - exists at_. rewrite lookup_delete_ne by congruence. done.
Qed.
End executions.

(** ** Tombstones *)

Lemma has_bar_lower s : has_byte "|" (ToLower s) = has_byte "|" s.
Proof.
  unfold ToLower, has_byte. f_equal. induction s as [|c s IH]; cbn; [done|]. rewrite IH.
  f_equal. destruct c as [[] [] [] [] [] [] [] []]; reflexivity.
Qed.

Lemma keep_tombs_spec now ks ts seen out :
  NoDup (tomb_key <$> ts) -> (forall t, t ∈ ts -> tomb_key t ∉ seen) ->
  keep_tombs now ks ts seen out =
    let kept := filter (fun t => negb (time_after now (t_until t)) = true /\ tomb_key t ∉ ks) ts in
    (seen ∪ list_to_set (tomb_key <$> kept), (out ++ kept)%list).
Proof.
  revert seen out. induction ts as [|t ts IH]; intros seen out Hnd Hseen; cbn zeta.
  { cbn. rewrite app_nil_r. f_equal. set_solver. }
  rewrite fmap_cons in Hnd. apply NoDup_cons in Hnd as [Ht Hnd]. cbn [keep_tombs].
  rewrite (bool_decide_false (tomb_key t ∈ seen)) by (apply Hseen; set_solver). rewrite orb_false_r.
  rewrite filter_cons. destruct (time_after now (t_until t)) eqn:Ha; cbn [orb].
  { rewrite decide_False by (by intros []). apply IH; [done|]. intros t' Ht'. apply Hseen. set_solver. }
  case_bool_decide as Hk.
  { rewrite decide_False by (by intros []). apply IH; [done|]. intros t' Ht'. apply Hseen. set_solver. }
  rewrite decide_True by done. rewrite IH; [|done|].
  - cbn zeta. rewrite fmap_cons, <- app_assoc. cbn. f_equal. set_solver.
  - intros t' Ht' [Heq%elem_of_singleton|Hin]%elem_of_union.
    + apply Ht. rewrite <- Heq. by apply list_elem_of_fmap_2.
    + by apply (Hseen t'); [set_solver|].
Qed.

Definition buried (now : Z) (g : RouteGroup) : routeTombstone :=
  mkTombstone (ToLower (g_Host g)) (g_PathPrefix g) (now + routeTombstoneTTL).

(** What [bury] adds: a tombstone for each key that is neither live nor seen. *)
Lemma bury_spec now ks prev seen out :
  NoDup (tomb_key <$> out) -> (forall t, t ∈ out -> tomb_key t ∈ seen) ->
  let res := bury now ks prev seen out in
  NoDup (tomb_key <$> res) /\
  (forall t, t ∈ res <-> t ∈ out \/ t ∈ res /\ exists g, g ∈ prev /\ fold_key g ∉ ks /\ fold_key g ∉ seen /\ t = buried now g) /\
  (forall g, g ∈ prev -> fold_key g ∉ ks -> fold_key g ∉ seen ->
     exists g', g' ∈ prev /\ fold_key g' = fold_key g /\ buried now g' ∈ res).
Proof.
  revert seen out. induction prev as [|g prev IH]; intros seen out Hnd Hseen; cbn zeta; cbn [bury].
  { split_and!; [done| |by intros g ?%not_elem_of_nil]. intros t. split; [auto|]. intros [?|[? _]]; done. }
  destruct (bool_decide (fold_key g ∈ ks) || bool_decide (fold_key g ∈ seen)) eqn:Hskip.
  - destruct (IH seen out Hnd Hseen) as (Hn & He & Hg).
    assert (~ (fold_key g ∉ ks /\ fold_key g ∉ seen)) as Hno.
    { apply orb_true_iff in Hskip as [Hs|Hs]; apply bool_decide_eq_true in Hs; tauto. }
    split_and!; [done| |].
    + intros t. split.
      * intros Ht. apply He in Ht as [?|[Ht (g' & ? & ? & ? & ->)]]; [by left|right].
        split; [done|]. exists g'. split_and!; [set_solver|done..].
      * intros [?|[? _]]; [|done]. apply He. by left.
    + intros g' [->|Hg']%elem_of_cons Hk Hs; [by destruct Hno|].
      destruct (Hg g' Hg' Hk Hs) as (g'' & ? & ? & ?). exists g''. split_and!; [set_solver|done..].
  - reflect_bools.
    set (seen' := {[fold_key g]} ∪ seen). set (out' := (out ++ [buried now g])%list).
    destruct (IH seen' out') as (Hn & He & Hg).
    { unfold out'. rewrite fmap_app. apply NoDup_app. split_and!; [done| |apply NoDup_singleton].
      intros k Hk Hk'. apply list_elem_of_fmap in Hk as (t & -> & Ht). cbn in Hk'.
      apply list_elem_of_singleton in Hk'. specialize (Hseen t Ht). rewrite Hk' in Hseen. done. }
    { intros t [Ht|Ht]%elem_of_app; unfold seen'; [specialize (Hseen t Ht); set_solver|].
      apply list_elem_of_singleton in Ht as ->. unfold buried, tomb_key, fold_key. cbn. set_solver. }
    fold (buried now g). fold out' seen'. split_and!; [done| |].
    + intros t. split.
      * intros Ht. destruct (proj1 (He t) Ht) as [Ho|[_ (g' & ? & ? & Hns & ->)]].
        -- unfold out' in Ho. apply elem_of_app in Ho as [?|Ho]; [by left|right].
           apply list_elem_of_singleton in Ho as ->. split; [done|]. exists g. set_solver.
        -- right. split; [done|]. exists g'. unfold seen' in Hns. set_solver.
      * intros [?|[? _]]; [|done]. apply He. left. unfold out'. set_solver.
    + intros g' [->|Hg']%elem_of_cons Hk Hs.
      * exists g. split_and!; [set_solver|done|]. apply He. left. unfold out'. set_solver.
      * destruct (decide (fold_key g' = fold_key g)) as [Heq|Hne].
        -- exists g. split_and!; [set_solver|done|]. apply He. left. unfold out'. set_solver.
        -- destruct (Hg g' Hg' Hk) as (g'' & ? & ? & ?); [unfold seen'; set_solver|].
           exists g''. split_and!; [set_solver|done..].
Qed.

(** What a refresh makes of the tombstones. *)
Lemma reconcileTombstones_spec now prev groups ts :
  NoDup (tomb_key <$> ts) -> (forall t, t ∈ ts -> tomb_key t ∉ fold_key <$> prev) ->
  let res := reconcileTombstonesLocked now prev groups ts in
  NoDup (tomb_key <$> res) /\
  (forall t, t ∈ res -> tomb_key t ∉ fold_key <$> groups /\
     (t ∈ ts \/ exists g, g ∈ prev /\ t = buried now g)) /\
  (forall t, t ∈ ts -> now <= t_until t -> tomb_key t ∉ fold_key <$> groups -> t ∈ res) /\
  (forall g, g ∈ prev -> fold_key g ∉ fold_key <$> groups ->
     exists g', g' ∈ prev /\ fold_key g' = fold_key g /\ buried now g' ∈ res).
Proof.
  intros Hnd Hdis. cbn zeta. unfold reconcileTombstonesLocked.
  set (ks := list_to_set (fold_key <$> groups) : gset string).
  assert (forall k, k ∈ ks <-> k ∈ fold_key <$> groups) as Hks by (intros k; apply elem_of_list_to_set).
  rewrite keep_tombs_spec by (done || set_solver). cbn zeta.
  set (kept := filter _ ts). cbn [app].
  destruct (bury_spec now ks prev (∅ ∪ list_to_set (tomb_key <$> kept)) kept) as (Hn & He & Hg).
  { unfold kept. eapply sublist_NoDup; [exact Hnd|]. apply fmap_sublist, sublist_filter. }
  { intros t Ht. apply elem_of_union. right. apply elem_of_list_to_set. by apply list_elem_of_fmap_2. }
  set (res := bury _ _ _ _ _) in *. split_and!.
  - by rewrite SliceStable_perm.
  - intros t Ht%elem_of_SliceStable. apply He in Ht as [Ht|[_ (g & Hgp & Hk & _ & ->)]].
    + unfold kept in Ht. apply list_elem_of_filter in Ht as [[_ Hk] Ht]. rewrite Hks in Hk. auto.
    + split; [|eauto]. rewrite <- Hks. done.
  - intros t Ht Hu Hk. apply elem_of_SliceStable, He. left. apply list_elem_of_filter.
    split_and!; [|by rewrite Hks|done]. apply negb_true_iff, bool_decide_eq_false. lia.
  - intros g Hgp Hk. rewrite <- Hks in Hk. destruct (Hg g Hgp Hk) as (g' & ? & ? & ?).
    + intros [?|Hin]%elem_of_union; [done|]. apply elem_of_list_to_set in Hin.
      apply list_elem_of_fmap in Hin as (t & Heq & Ht). apply list_elem_of_filter in Ht as [_ Ht].
      apply (Hdis t Ht). rewrite <- Heq. by apply list_elem_of_fmap_2.
    + exists g'. split_and!; [done..|]. by apply elem_of_SliceStable.
Qed.

(** The names a key stands for. *)
Lemma fold_key_inj h p g :
  has_byte "|" h = false -> has_byte "|" (g_Host g) = false ->
  (ToLower h +:+ "|" +:+ p)%string = fold_key g -> ToLower h = ToLower (g_Host g) /\ p = g_PathPrefix g.
Proof.
  intros Hh Hg Heq. apply (cut_unique "|"); [by rewrite has_bar_lower..|]. exact Heq.
Qed.

Section tombs.
Context {L : Type} `{Limiter L} {R : Type} `{ABRuntime R} `{MapRange}.
Context (newLimiter : string -> Z -> L).
Notation state := (@state L R).
Notation step := (step newLimiter).
Notation steps := (steps newLimiter).
Implicit Types s : state.

Record tombs_ok (s : state) : Prop := {
  to_hosts : hosts_ok (r_groups (st_router s));
  to_nodup : NoDup (tomb_key <$> r_tombstones (st_router s));
  to_dead : forall t, t ∈ r_tombstones (st_router s) -> tomb_key t ∉ fold_key <$> r_groups (st_router s);
}.

Lemma refreshed_hosts groups n2 n3 m r m' r' :
  @refreshed L R groups n2 n3 m r m' r' -> hosts_ok groups -> hosts_ok (r_groups r').
Proof.
  intros Hrf Hh. unfold hosts_ok in *. rewrite Forall_forall in *. intros g Hg.
  destruct (same_table_elem _ _ _ (rf_table _ _ _ _ _ _ _ Hrf) Hg) as (g' & Hg' & He).
  rewrite <- (erase_host _ _ He). by apply Hh, (elem_of_SliceStable longer_path).
Qed.

Lemma refreshed_keys groups n2 n3 m r m' r' k :
  @refreshed L R groups n2 n3 m r m' r' -> k ∈ fold_key <$> r_groups r' <-> k ∈ fold_key <$> groups.
Proof.
  intros Hrf. rewrite (same_table_map fold_key _ _) by
    (exact (rf_table _ _ _ _ _ _ _ Hrf) || (intros g g' He; by apply erase_key)).
  by rewrite SliceStable_perm.
Qed.

Lemma step_tombs_ok e s s' : step e s s' -> tombs_ok s -> tombs_ok s'.
Proof.
  intros Hstep [Hh Hn Hd]. destruct Hstep as
    [fresh groups n1 n2 n3 now m r m' r' Hle Hle' Hho HSet|id' n now m r Hle|id' now m r|l e now m r|p key n n' a now m r];
    cbn in *; try by split.
  - apply Set_refreshed in HSet as Hrf.
    destruct (reconcileTombstones_spec n3 (r_groups r) (r_groups r') (r_tombstones r) Hn Hd) as (Hnd & Hel & _).
    split; cbn; rewrite ?(rf_tombs _ _ _ _ _ _ _ Hrf); [by eapply refreshed_hosts|done|].
    intros t Ht. by apply Hel.
  - unfold markDraining. by case_decide; split.
Qed.

Lemma reachable_tombs_ok s : reachable newLimiter s -> tombs_ok s.
Proof.
  intros (s0 & es & Hi & Hs). apply (steps_ind_r newLimiter tombs_ok es s0 s); [| |done].
  - intros e s1 s2 Hok Hst. by eapply step_tombs_ok.
  - split; rewrite Hi; cbn; [by constructor|constructor|]. by intros t ?%not_elem_of_nil.
Qed.

(** A route that left at some time is live again or still buried. *)
Definition covered (h p : string) (until : Z) (s : state) : Prop :=
  (exists g, g ∈ r_groups (st_router s) /\ ToLower (g_Host g) = ToLower h /\ g_PathPrefix g = p) \/
  (exists t, t ∈ r_tombstones (st_router s) /\ t_host t = ToLower h /\ t_path t = p /\ until <= t_until t).

Lemma set_covered h p until n3 prev groups ts :
  has_byte "|" h = false -> hosts_ok prev -> hosts_ok groups ->
  NoDup (tomb_key <$> ts) -> (forall t, t ∈ ts -> tomb_key t ∉ fold_key <$> prev) ->
  n3 <= until <= n3 + routeTombstoneTTL ->
  (exists g, g ∈ prev /\ ToLower (g_Host g) = ToLower h /\ g_PathPrefix g = p) \/
  (exists t, t ∈ ts /\ t_host t = ToLower h /\ t_path t = p /\ until <= t_until t) ->
  (exists g, g ∈ groups /\ ToLower (g_Host g) = ToLower h /\ g_PathPrefix g = p) \/
  (exists t, t ∈ reconcileTombstonesLocked n3 prev groups ts /\
     t_host t = ToLower h /\ t_path t = p /\ until <= t_until t).
Proof.
  intros Hb Hhp Hhg Hnd Hdis Hu Hcov. unfold hosts_ok in *. rewrite Forall_forall in Hhp, Hhg.
  destruct (reconcileTombstones_spec n3 prev groups ts Hnd Hdis) as (_ & _ & Hkeep & Hbury).
  destruct (decide ((ToLower h +:+ "|" +:+ p)%string ∈ fold_key <$> groups)) as [Hin|Hout].
  { left. apply list_elem_of_fmap in Hin as (g & Heq & Hg). exists g. split; [done|].
    apply fold_key_inj in Heq as [<- <-]; auto. }
  right. destruct Hcov as [(g & Hg & Hgh & Hgp)|(t & Ht & Hth & Htp & Htu)].
  - assert (fold_key g = (ToLower h +:+ "|" +:+ p)%string) as Hk by (unfold fold_key; by rewrite Hgh, Hgp).
    destruct (Hbury g Hg) as (g' & Hg' & Heq & Hres); [by rewrite Hk|].
    exists (buried n3 g'). rewrite Hk in Heq. symmetry in Heq. apply fold_key_inj in Heq as [-> ->]; auto.
    split_and!; [done..|]. cbn. lia.
  - exists t. split_and!; [|done..]. apply Hkeep; [done|lia|]. unfold tomb_key. by rewrite Hth, Htp.
Qed.

Lemma steps_covered h p until es s s' :
  has_byte "|" h = false -> steps es s s' -> tombs_ok s -> st_now s' <= until <= st_now s + routeTombstoneTTL ->
  covered h p until s -> covered h p until s'.
Proof.
  intros Hb Hsteps. induction Hsteps as [|e es s1 s2 s3 Hstep Hsteps IH]; intros Hok Hu Hcov; [done|].
  pose proof (step_clock _ _ _ _ Hstep) as Hc1. pose proof (steps_clock _ _ _ _ Hsteps) as Hc2.
  apply IH; [by eapply step_tombs_ok|lia|]. clear IH.
  destruct Hok as [Hh Hn Hd]. destruct Hstep as
    [fresh groups n1 n2 n3 now m r m' r' Hle Hle' Hho HSet|id' n now m r Hle|id' now m r|l e now m r|pp key n n' a now m r];
    cbn in *; try done.
  - apply Set_refreshed in HSet as Hrf. unfold covered. cbn. rewrite (rf_tombs _ _ _ _ _ _ _ Hrf).
    apply set_covered; try done; [by eapply refreshed_hosts|lia].
  - unfold markDraining. by case_decide.
Qed.
End tombs.

(** ** Limiters across a refresh *)

Section limiters.
Context {L : Type} `{LimiterLaws L} {R : Type} `{ABRuntime R} `{MapRange}.
Notation memory := (memory L R).
Implicit Types m : memory.

(** The limiter map holds live, running limiters, one per key. *)
Record lim_ok m (lims : gmap string loc) : Prop := {
  lo_live : forall k p, lims !! k = Some p ->
    (p < m_next m)%positive /\ exists l, m_limiters m !! p = Some l /\ lim_running l = true;
  lo_inj : forall k k' p, lims !! k = Some p -> lims !! k' = Some p -> k = k';
}.

(** The rates the groups of one key set, in order. *)
Definition rerate (k : string) (gs : list RouteGroup) (o : option L) : option L :=
  fold_left (fun o g => if g_RateLimit g && bool_decide (group_key g = k)
                        then lim_SetRate (g_RateRPM g) <$> o else o) gs o.

Definition limited (gs : list RouteGroup) (k : string) : Prop :=
  exists g, g ∈ gs /\ g_RateLimit g = true /\ group_key g = k.

Record wired (gs : list RouteGroup) m (lims : gmap string loc) (live : gset string)
    (gs' : list RouteGroup) (m' : memory) (lims' : gmap string loc) (live' : gset string) : Prop := {
  wd_ok : lim_ok m' lims';
  wd_next : (m_next m <= m_next m')%positive;
  wd_keep : forall k p, lims !! k = Some p -> lims' !! k = Some p /\
              m_limiters m' !! p = rerate k gs (m_limiters m !! p);
  wd_live : forall k, k ∈ live' <-> k ∈ live \/ limited gs k;
  wd_dom : forall k, is_Some (lims' !! k) <-> is_Some (lims !! k) \/ limited gs k;
  wd_groups : forall g, g ∈ gs' -> g_RateLimit g = true ->
                exists p, g_limiter g = Some p /\ lims' !! group_key g = Some p;
}.

Lemma limited_cons g gs k :
  limited (g :: gs) k <-> (g_RateLimit g = true /\ group_key g = k) \/ limited gs k.
Proof. unfold limited. set_solver. Qed.

Lemma lim_ok_alter rpm p m lims :
  lim_ok m lims -> lim_ok (set_limiters (alter (lim_SetRate rpm) p (m_limiters m)) m) lims.
Proof.
  intros [Hl Hi]. split; [|done]. intros k q Hq. destruct (Hl k q Hq) as (? & l & Hlq & Hr).
  split; [done|]. cbn. destruct (decide (p = q)) as [->|Hne].
  - rewrite lookup_alter_eq, Hlq. eexists. split; [done|]. by rewrite lim_SetRate_running.
  - rewrite lookup_alter_ne by done. eauto.
Qed.

(** A limiter constructor makes running limiters. *)
Definition makes_running (newLimiter : string -> Z -> L) : Prop :=
  forall key rpm, lim_running (newLimiter key rpm) = true.

Lemma lim_ok_new newLimiter key rpm m lims :
  makes_running newLimiter ->
  lim_ok m lims -> lims !! key = None ->
  lim_ok (bump (set_limiters (<[m_next m := newLimiter key rpm]> (m_limiters m)) m)) (<[key := m_next m]> lims).
Proof.
  intros Hnew [Hl Hi] Hk. split; cbn.
  - intros k q [[<- <-]|[Hne Hq]]%lookup_insert_Some.
    + split; [lia|]. eexists. split; [apply lookup_insert_eq|apply Hnew].
    + destruct (Hl k q Hq) as (? & l & ? & ?). split; [lia|].
      rewrite lookup_insert_ne by (intros Heq; rewrite Heq in *; lia). eauto.
  - intros k k' q [[<- <-]|[Hne Hq]]%lookup_insert_Some [[<- Hqq]|[Hne' Hq']]%lookup_insert_Some; subst; try done.
    + by destruct (Hl _ _ Hq') as [? _]; lia.
    + by destruct (Hl _ _ Hq) as [? _]; lia.
    + by eapply Hi.
Qed.

Lemma wire_limiters_wired newLimiter gs m lims live :
  makes_running newLimiter -> lim_ok m lims ->
  let res := wire_limiters newLimiter gs m lims live in
  wired gs m lims live res.1.1.1 res.1.1.2 res.1.2 res.2.
Proof.
  intros Hnew. revert m lims live. induction gs as [|g gs IH]; intros m lims live Hok; cbn zeta.
  { split; cbn; try done; try lia.
    - intros k. split; [auto|]. intros [?|(g & Hg%not_elem_of_nil & _)]; done.
    - intros k. split; [auto|]. intros [?|(g & Hg%not_elem_of_nil & _)]; done.
    - by intros g Hg%not_elem_of_nil. }
  cbn [wire_limiters]. destruct (g_RateLimit g) eqn:Hrl.
  - destruct (lims !! group_key g) as [p|] eqn:Hp.
    + set (m1 := set_limiters _ m).
      assert (lim_ok m1 lims) as Hok1 by (by apply lim_ok_alter).
      specialize (IH m1 lims ({[group_key g]} ∪ live) Hok1). cbn zeta in IH.
      destruct (wire_limiters newLimiter gs m1 lims _) as [[[gs' m'] lims'] live']. cbn in IH |- *.
      destruct IH as [Hok' Hnx Hkeep Hlive Hdom Hgs]. split; try done.
      * intros k q Hq. destruct (Hkeep k q Hq) as [Hq' Hm]. split; [done|]. rewrite Hm.
        unfold rerate. cbn [fold_left]. rewrite Hrl. cbn [andb]. f_equal. unfold m1. cbn.
        case_bool_decide as Hk.
        -- subst k. rewrite Hq in Hp. simplify_eq. by rewrite lookup_alter_eq.
        -- rewrite lookup_alter_ne; [done|]. intros ->. apply Hk. by eapply (lo_inj _ _ Hok).
      * intros k. rewrite Hlive, limited_cons. set_solver.
      * intros k. rewrite Hdom, limited_cons. split; [tauto|]. intros [?|[[_ <-]|?]]; [tauto|left; by eexists|tauto].
      * intros g' [->|Hg']%elem_of_cons Hr; [|by apply Hgs]. exists p. split; [done|]. by apply Hkeep.
    + set (m1 := bump _). set (lims1 := <[group_key g := _]> lims).
      assert (lim_ok m1 lims1) as Hok1 by (by apply lim_ok_new).
      specialize (IH m1 lims1 ({[group_key g]} ∪ live) Hok1). cbn zeta in IH.
      destruct (wire_limiters newLimiter gs m1 lims1 _) as [[[gs' m'] lims'] live']. cbn in IH |- *.
      destruct IH as [Hok' Hnx Hkeep Hlive Hdom Hgs]. split; try done.
      * cbn in Hnx. lia.
      * intros k q Hq. assert (group_key g <> k) as Hne by (intros Heq; subst k; congruence).
        destruct (Hkeep k q) as [Hq' Hm]; [unfold lims1; by rewrite lookup_insert_ne|].
        split; [done|]. rewrite Hm. unfold rerate. cbn [fold_left]. rewrite Hrl, bool_decide_false by done.
        cbn [andb]. f_equal. unfold m1. cbn. apply lookup_insert_ne.
        intros Heq. destruct (lo_live _ _ Hok k q Hq) as [Hlt _]. rewrite Heq in Hlt. lia.
      * intros k. rewrite Hlive, limited_cons. set_solver.
      * intros k. rewrite Hdom, limited_cons. unfold lims1. rewrite lookup_insert_is_Some'. naive_solver.
      * intros g' [->|Hg']%elem_of_cons Hr; [|by apply Hgs]. eexists. split; [done|].
        apply Hkeep. apply lookup_insert_eq.
  - specialize (IH m lims live Hok). cbn zeta in IH.
    destruct (wire_limiters newLimiter gs m lims live) as [[[gs' m'] lims'] live']. cbn in IH |- *.
    destruct IH as [Hok' Hnx Hkeep Hlive Hdom Hgs]. split; try done.
    + intros k q Hq. destruct (Hkeep k q Hq) as [Hq' Hm]. split; [done|]. rewrite Hm. unfold rerate. cbn [fold_left].
      by rewrite Hrl.
    + intros k. rewrite Hlive, limited_cons. naive_solver congruence.
    + intros k. rewrite Hdom, limited_cons. naive_solver congruence.
    + intros g' [->|Hg']%elem_of_cons Hr; [congruence|by apply Hgs].
Qed.

Lemma stop_dead_ok kvs live m lims :
  NoDup kvs.*1 -> (forall k p, (k, p) ∈ kvs -> lims !! k = Some p) -> lim_ok m lims ->
  exists m' lims', stop_dead kvs live m lims = Ret (m', lims') /\
    lim_ok m' lims' /\ m_next m' = m_next m /\
    (forall k p, lims' !! k = Some p <-> lims !! k = Some p /\ ~ (k ∈ kvs.*1 /\ k ∉ live)) /\
    (forall k p, lims' !! k = Some p -> m_limiters m' !! p = m_limiters m !! p).
Proof.
  revert m lims. induction kvs as [|[k p] kvs IH]; intros m lims Hnd Hin Hok; cbn [stop_dead].
  { exists m, lims. split_and!; try done. intros k p. cbn. set_solver. }
  rewrite fmap_cons in Hnd. apply NoDup_cons in Hnd as [Hk Hnd]. cbn in Hk.
  case_bool_decide as Hl.
  - destruct (IH m lims Hnd) as (m' & lims' & -> & Hok' & Hnx & Hlk & Hm); [|done|].
    { intros k' p' Hkp. apply Hin. set_solver. }
    exists m', lims'. split_and!; try done. intros k' p'. rewrite Hlk, fmap_cons. cbn. set_solver.
  - assert (lims !! k = Some p) as Hkp by (apply Hin; set_solver).
    destruct (lo_live _ _ Hok k p Hkp) as (Hlt & l & Hlp & Hr). rewrite Hlp.
    destruct (lim_Stop_running l Hr) as [l' ->]. cbn.
    destruct (IH (set_limiters (<[p := l']> (m_limiters m)) m) (delete k lims) Hnd)
      as (m' & lims' & -> & Hok' & Hnx & Hlk & Hm).
    { intros k' p' Hkp'. rewrite lookup_delete_ne; [apply Hin; set_solver|].
      intros ->. apply Hk. apply list_elem_of_fmap. by exists (k', p'). }
    { split.
      - intros k' q [Hne Hq]%lookup_delete_Some. destruct (lo_live _ _ Hok k' q Hq) as (? & l0 & ? & ?).
        split; [done|]. cbn. rewrite lookup_insert_ne; [eauto|].
        intros ->. apply Hne. by eapply (lo_inj _ _ Hok).
      - intros k1 k2 q [_ Hq1]%lookup_delete_Some [_ Hq2]%lookup_delete_Some. by eapply (lo_inj _ _ Hok). }
    exists m', lims'. split_and!; try done.
    + intros k1 p1. rewrite Hlk, lookup_delete_Some, elem_of_cons. naive_solver.
    + intros k' q Hq. rewrite (Hm k' q Hq). cbn. apply lookup_insert_ne. intros ->.
      apply Hlk in Hq as [[Hne Hq]%lookup_delete_Some _]. apply Hne. by eapply (lo_inj _ _ Hok).
Qed.

Lemma wire_caches_next gs m cs live : (m_next m <= m_next (wire_caches gs m cs live).1.1.2)%positive.
Proof.
  revert m cs live. induction gs as [|g gs IH]; intros m cs live; cbn; [lia|].
  case_decide; [|destruct (cs !! group_key g)];
    match goal with |- context [wire_caches gs ?m ?l ?v] =>
      specialize (IH m l v); destruct (wire_caches gs m l v) as [[[? ?] ?] ?] end; cbn in *; lia.
Qed.

Lemma wire_ab_next now bl gs m runs res : (m_next m <= m_next (wire_ab now bl gs m runs res).1.2)%positive.
Proof.
  revert m runs res. induction gs as [|g gs IH]; intros m runs res; cbn; [lia|].
  destruct (g_abCfg g) as [c|].
  - destruct (p ← runs !! g_Service g; _) as [[p run]|]; destruct (res !! g_Service g);
      match goal with |- context [wire_ab now bl gs ?m ?l ?v] =>
        specialize (IH m l v); destruct (wire_ab now bl gs m l v) as [[? ?] ?] end; cbn in *; lia.
  - specialize (IH m runs res). destruct (wire_ab now bl gs m runs res) as [[? ?] ?]. cbn in *; lia.
Qed.

Lemma wire_transports_next ls m ts live : (m_next m <= m_next (wire_transports ls m ts live).1.1)%positive.
Proof.
  revert m ts live. induction ls as [|l' ls IH]; intros m ts live; cbn; [lia|].
  destruct (m_backends m !! l') as [b|]; [|apply IH].
  destruct (b_proxy b) as [inj|]; [|apply IH]. destruct (b_transport b); [apply IH|].
  destruct inj; [apply IH|].
  destruct (ts !! b_URL b); (etransitivity; [|apply IH]); cbn; lia.
Qed.

Lemma rerate_last rpm k gs o :
  (forall g, g ∈ gs -> g_RateLimit g = true -> group_key g = k -> g_RateRPM g = rpm) ->
  limited gs k -> rerate k gs o = lim_SetRate rpm <$> o.
Proof.
  intros Hall Hlim. unfold rerate.
  enough (forall o', (o' = o \/ o' = lim_SetRate rpm <$> o) ->
    let r := fold_left (fun o g => if g_RateLimit g && bool_decide (group_key g = k)
                        then lim_SetRate (g_RateRPM g) <$> o else o) gs o' in
    (limited gs k -> r = lim_SetRate rpm <$> o) /\ (o' = lim_SetRate rpm <$> o -> r = lim_SetRate rpm <$> o)) as He
    by (destruct (He o) as [Hx _]; auto).
  clear Hlim. induction gs as [|g gs IH]; intros o' Ho'; cbn zeta; cbn [fold_left].
  { split; [|done]. by intros (g & ?%not_elem_of_nil & _). }
  assert (forall g, g ∈ gs -> g_RateLimit g = true -> group_key g = k -> g_RateRPM g = rpm) as Hall'
    by (intros; apply Hall; set_solver).
  destruct (g_RateLimit g && bool_decide (group_key g = k)) eqn:Hg.
  - reflect_bools. rewrite (Hall g) by (done || set_solver).
    assert (lim_SetRate rpm <$> o' = lim_SetRate rpm <$> o) as ->.
    { destruct Ho' as [->| ->]; [done|]. destruct o; cbn; [|done]. by rewrite lim_SetRate_last. }
    destruct (IH Hall' (lim_SetRate rpm <$> o)) as [_ IH2]; [auto|]. split; intros _; by apply IH2.
  - destruct (IH Hall' o' Ho') as [IH1 IH2]. split; [|done].
    rewrite limited_cons. intros [[Hr Hk]|?]; [|by apply IH1]. rewrite Hr, bool_decide_true in Hg by done. done.
Qed.
End limiters.

(** ** Health across a refresh *)

Lemma prev_health_spec prev (s : gmap loc Backend) k :
  match prev_health prev s !! k with
  | Some v => exists g l b, g ∈ prev /\ l ∈ g_Backends g /\ s !! l = Some b /\ health_key g b = k /\ b_healthyFlag b = v
  | None => forall g l b, g ∈ prev -> l ∈ g_Backends g -> s !! l = Some b -> health_key g b <> k
  end.
Proof.
  unfold prev_health.
  enough (forall vs (h : gmap string bool), let r := fold_left (fun h '(g, l) => match s !! l with
      | Some b => <[health_key g b := b_healthyFlag b]> h | None => h end) vs h in
    match r !! k with
    | Some v => h !! k = Some v \/ exists g l b, (g, l) ∈ vs /\ s !! l = Some b /\ health_key g b = k /\ b_healthyFlag b = v
    | None => h !! k = None /\ forall g l b, (g, l) ∈ vs -> s !! l = Some b -> health_key g b <> k
    end) as He.
  { specialize (He (visits prev) ∅). cbn zeta in He. destruct (fold_left _ _ _ !! k) as [v|].
    - destruct He as [?|(g & l & b & Hv & ?)]; [done|]. apply elem_of_visits in Hv. naive_solver.
    - destruct He as [_ He]. intros g l b Hg Hl. apply He, elem_of_visits. done. }
  induction vs as [|[g l] vs IH]; intros h; cbn zeta; cbn [fold_left].
  { destruct (h !! k); [by left|]. split; [done|]. by intros g l b ?%not_elem_of_nil. }
  destruct (s !! l) as [b|] eqn:Hb.
  - specialize (IH (<[health_key g b := b_healthyFlag b]> h)). cbn zeta in IH. destruct (fold_left _ vs _ !! k) as [v|].
    + destruct IH as [[[<- <-]|[_ ?]]%lookup_insert_Some|(g' & l' & b' & ? & ?)]; [right|by left|right].
      * exists g, l, b. set_solver.
      * exists g', l', b'. set_solver.
    + destruct IH as [[Hh Hne]%lookup_insert_None He]. split; [done|].
      intros g' l' b' [Heq|Hin]%elem_of_cons Hb'; [by simplify_eq|by eapply He].
  - specialize (IH h). cbn zeta in IH. destruct (fold_left _ vs _ !! k) as [v|].
    + destruct IH as [?|(g' & l' & b' & ? & ?)]; [by left|right]. exists g', l', b'. set_solver.
    + destruct IH as [Hh He]. split; [done|]. intros g' l' b' [Heq|Hin]%elem_of_cons Hb'; [simplify_eq|by eapply He].
Qed.

Lemma health_key_group g b :
  health_key g b = (group_key g +:+ "|" +:+ b_URL b +:+ "|" +:+ b_Variant b)%string.
Proof. unfold health_key, group_key. by rewrite !append_assoc. Qed.

Lemma fold_health (h : gmap string bool) g gs b :
  gs <> [] -> Forall (fun g' => group_key g' = group_key g) gs ->
  b_healthyFlag (fold_left (fun b g => set_healthyFlag (default true (h !! health_key g b)) b) gs b)
  = default true (h !! health_key g b).
Proof.
  intros Hne Hall. assert (forall g', group_key g' = group_key g -> forall b', health_key g' b' = health_key g b') as Hk.
  { intros g' Hg' b'. by rewrite !health_key_group, Hg'. }
  destruct gs as [|g0 gs]; [done|]. apply Forall_cons in Hall as [Hg0 Hall]. cbn [fold_left].
  rewrite (Hk g0 Hg0).
  assert (forall b', health_key g b' = health_key g b -> b_healthyFlag b' = default true (h !! health_key g b) ->
    b_healthyFlag (fold_left (fun b g => set_healthyFlag (default true (h !! health_key g b)) b) gs b')
    = default true (h !! health_key g b)) as Hgen.
  { clear -Hk Hall. induction Hall as [|g' gs Hg' Hall IH]; intros b' Hkb Hb'; [done|]. cbn [fold_left].
    apply IH; [done|]. cbn. by rewrite (Hk g' Hg'), Hkb. }
  by apply Hgen.
Qed.

(** Wiring caches and A/B runs leaves limiters alone. *)
Definition with_limiter (g : RouteGroup) : RouteGroup * option loc := (erase g, g_limiter g).

Section wiring.
Context {L : Type} `{Limiter L} {R : Type} `{ABRuntime R}.
Notation memory := (memory L R).

Lemma wire_caches_limiter gs (m : memory) cs live :
  with_limiter <$> (wire_caches gs m cs live).1.1.1 = with_limiter <$> gs.
Proof.
  revert m cs live. induction gs as [|g gs IH]; intros m cs live; [done|]. cbn.
  case_decide; [|destruct (cs !! group_key g)];
    match goal with |- context [wire_caches gs ?m ?l ?v] =>
      specialize (IH m l v); destruct (wire_caches gs m l v) as [[[? ?] ?] ?] end;
    cbn in *; rewrite IH; done.
Qed.

Lemma wire_ab_limiter now bl gs (m : memory) runs res :
  with_limiter <$> (wire_ab now bl gs m runs res).1.1 = with_limiter <$> gs.
Proof.
  revert m runs res. induction gs as [|g gs IH]; intros m runs res; [done|]. cbn.
  destruct (g_abCfg g) as [c|].
  - destruct (p ← runs !! g_Service g; _) as [[p run]|]; destruct (res !! g_Service g);
      match goal with |- context [wire_ab now bl gs ?m ?l ?v] =>
        specialize (IH m l v); destruct (wire_ab now bl gs m l v) as [[? ?] ?] end; cbn in *; rewrite IH; done.
  - specialize (IH m runs res). destruct (wire_ab now bl gs m runs res) as [[? ?] ?]. cbn in *; rewrite IH; done.
Qed.
End wiring.

(** * Properties *)

Section properties.
Context {L : Type} `{LimiterLaws L} {R : Type} `{ABRuntime R} `{MapRange}.
Context (newLimiter : string -> Z -> L).
Notation memory := (memory L R).
Notation state := (@state L R).
Implicit Types m : memory.

(** C21. Requests go to the most specific route. After any refresh, the group
    [ServeHTTP] finds for a host and path is one of the configured groups, its
    host and prefix match, and every other configured group that matches has a
    strictly shorter prefix or the very same one; no group is found only when
    none matches. *)
Theorem longest_prefix_wins (groups : list RouteGroup) (n1 n2 n3 : Z) (m m' : memory) (r r' : Router)
    (host path : string) :
  Set_ newLimiter groups n1 n2 n3 m r = Ret (m', r') ->
  match route (r_groups r') host path with
  | Some g => matches host path g = true /\ (exists g0, g0 ∈ groups /\ erase g0 = erase g) /\
      forall g', g' ∈ groups -> matches host path g' = true ->
        len (g_PathPrefix g') < len (g_PathPrefix g) \/ g_PathPrefix g' = g_PathPrefix g
  | None => forall g', g' ∈ groups -> matches host path g' = false
  end.
Proof.
  intros HSet%Set_refreshed. pose proof (rf_table _ _ _ _ _ _ _ HSet) as Ht.
  pose proof (same_table_sorted _ _ Ht (longer_path_sorted groups)) as Hsort.
  assert (Hin : forall g', g' ∈ groups -> exists g, g ∈ r_groups r' /\ erase g = erase g').
  { intros g' Hg'%(elem_of_SliceStable longer_path). by eapply same_table_elem; [symmetry|]. }
  destruct (route (r_groups r') host path) as [g|] eqn:Hr; unfold route in Hr.
  - apply find_first_Some in Hr as (l1 & l2 & Heq & Hm & Hl1). split_and!; [done| |].
    + destruct (same_table_elem _ _ g Ht) as (g0 & Hg0 & He); [rewrite Heq; set_solver|].
      exists g0. split; [by apply elem_of_SliceStable in Hg0|done].
    + intros g' Hg' Hm'. destruct (Hin g' Hg') as (g1 & Hg1 & He).
      rewrite <- (erase_matches _ _ _ _ He) in Hm'. rewrite <- (erase_path _ _ He).
      rewrite Heq in Hg1, Hsort. apply elem_of_app in Hg1 as [Hg1|[->|Hg1]%elem_of_cons].
      * rewrite Forall_forall in Hl1. by rewrite (Hl1 g1 Hg1) in Hm'.
      * by right.
      * apply StronglySorted_app_1_r in Hsort. inversion Hsort as [|? ? _ Hall]; subst.
        rewrite Forall_forall in Hall. specialize (Hall g1 Hg1). unfold not_before, longer_path in Hall.
        reflect_bools. destruct (decide (len (g_PathPrefix g1) = len (g_PathPrefix g))) as [Hlen|Hlen]; [|lia].
        right. by eapply matches_same_length.
  - intros g' Hg'. destruct (Hin g' Hg') as (g & Hg & He). rewrite <- (erase_matches _ _ _ _ He).
    apply find_first_None in Hr. rewrite Forall_forall in Hr. by apply Hr.
Qed.

(** C23. A container that was sent a stop signal gets no new request. From the
    moment [markDraining] runs, for ten minutes or until the container's next
    start, die or destroy event clears it, through any refreshes, health verdicts
    and other events, every backend of that container in the table is excluded
    from selection, the panic-mode fallback included. *)
Theorem drained_gets_nothing (id : string) (t : Z) (es : list event) (s0 s1 s2 : state)
    (g : RouteGroup) (l : loc) (b : Backend) (ignoreHealth : bool) :
  id <> "" -> reachable newLimiter s0 ->
  step newLimiter (EDrain id t) s0 s1 -> steps newLimiter es s1 s2 ->
  EClear id ∉ es -> st_now s2 - t <= drainTTL ->
  g ∈ r_groups (st_router s2) -> l ∈ g_Backends g -> m_backends (st_mem s2) !! l = Some b ->
  b_ContainerID b = id -> excludedFrom b ignoreHealth = true.
Proof.
  intros Hid (si & es0 & Hi & Hs0) Hd Hs Hcl Ht Hg Hl Hb Hc.
  destruct (steps_drain_kept newLimiter id t es s1 s2 Hs Hcl Ht) as (at_ & Hat & _).
  { inversion Hd; subst. cbn. unfold markDraining. rewrite decide_False by done. cbn.
    exists t. rewrite lookup_insert_eq. split; [done|lia]. }
  assert (drain_ok s2) as Hok.
  { assert (forall es s s', drain_ok s -> steps newLimiter es s s' -> drain_ok s') as Hind.
    { intros es' s s' Ho Hss. apply (steps_ind_r newLimiter drain_ok es' s s'); [|done..].
      intros e x y Hx Hy. by eapply step_drain_ok. }
    apply (Hind es s1); [|done]. eapply step_drain_ok; [exact Hd|]. apply (Hind es0 si); [|done].
    intros i a. rewrite Hi. cbn. by rewrite lookup_empty. }
  destruct (Hok id at_ Hat) as [_ Hall]. unfold excludedFrom.
  rewrite (Hall g l b Hg Hl Hb Hc). by rewrite orb_true_r.
Qed.

(** C28. A route that vanishes answers 503, not 404, for five minutes. When a
    refresh drops a route, at any time up to five minutes later and through any
    further events, a request for it that would match no live route is caught by
    a tombstone, and so is one that only matches a less specific live route,
    unless the route itself is back. (Hosts contain no vertical bar, which
    separates host and path in a route key.) *)
Theorem vanished_route_is_unavailable (fresh : gmap loc Backend) (groups : list RouteGroup) (n1 n2 n3 : Z)
    (es : list event) (s0 s1 s2 : state) (g : RouteGroup) (now : Z) (host path : string) :
  reachable newLimiter s0 ->
  g ∈ r_groups (st_router s0) -> fold_key g ∉ fold_key <$> groups ->
  step newLimiter (ESet fresh groups n1 n2 n3) s0 s1 -> steps newLimiter es s1 s2 ->
  st_now s2 <= now <= n3 + routeTombstoneTTL ->
  matches host path g = true ->
  (exists g', g' ∈ r_groups (st_router s2) /\ ToLower (g_Host g') = ToLower (g_Host g) /\
     g_PathPrefix g' = g_PathPrefix g) \/
  match route (r_groups (st_router s2)) host path with
  | None => tombstoned (r_tombstones (st_router s2)) now host path None = true
  | Some live => tombstoned (r_tombstones (st_router s2)) now host path (Some live) = true \/
                 len (g_PathPrefix g) <= len (g_PathPrefix live)
  end.
Proof.
  intros Hr Hg Hout Hset Hs Hn Hm. pose proof (reachable_tombs_ok newLimiter s0 Hr) as Hok0.
  pose proof (step_tombs_ok newLimiter _ _ _ Hset Hok0) as Hok1.
  assert (has_byte "|" (g_Host g) = false) as Hbar.
  { pose proof (to_hosts _ Hok0) as Hh. unfold hosts_ok in Hh. rewrite Forall_forall in Hh. by apply Hh. }
  assert (covered (g_Host g) (g_PathPrefix g) (n3 + routeTombstoneTTL) s1) as Hcov.
  { inversion Hset as [f gs a1 a2 a3 now0 m r m' r' ? ? Hho HSet| | | |]; subst. apply Set_refreshed in HSet as Hrf.
    cbn in *. unfold covered. cbn. rewrite (rf_tombs _ _ _ _ _ _ _ Hrf).
    destruct Hok0 as [Hh Hnd Hdis]. cbn in *.
    apply set_covered; try done; [by eapply refreshed_hosts|unfold routeTombstoneTTL, Minute, Second; lia|].
    left. by exists g. }
  apply (steps_covered newLimiter _ _ _ es s1 s2) in Hcov; [|done..|].
  2: { inversion Hset; subst. cbn. pose proof (steps_clock _ _ _ _ Hs) as Hc. cbn in Hc. lia. }
  destruct Hcov as [Hback|(t & Ht & Hth & Htp & Htu)]; [by left|right].
  assert (Hcatch : forall o, match o with None => True | Some live => len (g_PathPrefix live) < len (g_PathPrefix g) end ->
            tombstoned (r_tombstones (st_router s2)) now host path o = true).
  { intros o Ho. unfold tombstoned. apply existsb_exists. exists t. split; [by apply list_elem_of_In|].
    unfold matches in Hm. apply andb_true_iff in Hm as [Hmh Hmp]. rewrite Hth, Htp, Hmp, andb_true_r.
    unfold EqualFold in *. reflect_bools.
    rewrite bool_decide_true by (rewrite Hmh; symmetry; apply ToLower_idem).
    unfold time_after. rewrite bool_decide_false by lia. cbn.
    destruct o as [live|]; [|done]. by apply bool_decide_eq_true. }
  destruct (route _ host path) as [live|]; [|by apply Hcatch].
  destruct (decide (len (g_PathPrefix live) < len (g_PathPrefix g))) as [Hlt|Hge]; [left; by apply Hcatch|right; lia].
Qed.

(** Refreshes keep rate-limit state. From a table whose limiters are live,
    [Set] never panics; afterwards exactly the rate-limited routes have a
    limiter, each is wired into its group before the table is published, and a
    route that was limited before keeps the same limiter object, its buckets
    untouched but for the configured rate. *)
Theorem limiters_survive_refresh (groups : list RouteGroup) (n1 n2 n3 : Z) (m : memory) (r : Router) :
  makes_running newLimiter ->
  lim_ok m (r_limiters r) ->
  exists m' r', Set_ newLimiter groups n1 n2 n3 m r = Ret (m', r') /\
    lim_ok m' (r_limiters r') /\
    (forall k, is_Some (r_limiters r' !! k) <-> limited groups k) /\
    (forall g, g ∈ r_groups r' -> g_RateLimit g = true ->
       exists p, g_limiter g = Some p /\ r_limiters r' !! group_key g = Some p) /\
    (forall k p rpm, r_limiters r !! k = Some p -> limited groups k ->
       (forall g, g ∈ groups -> g_RateLimit g = true -> group_key g = k -> g_RateRPM g = rpm) ->
       r_limiters r' !! k = Some p /\ m_limiters m' !! p = lim_SetRate rpm <$> m_limiters m !! p).
Proof.
  intros Hnew Hok. unfold Set_.
  pose proof (wire_limiters_wired newLimiter (SliceStable longer_path groups) m (r_limiters r) ∅ Hnew Hok) as Hw.
  pose proof (wire_limiters_table newLimiter (SliceStable longer_path groups) m (r_limiters r) ∅) as [Ht1 _].
  destruct (wire_limiters newLimiter _ m (r_limiters r) ∅) as [[[gs1 m1] lims] live]. cbn in Hw, Ht1.
  destruct Hw as [Hok1 Hnx1 Hkeep Hlive Hdom Hgs].
  assert (Hlim : forall k, limited (SliceStable longer_path groups) k <-> limited groups k).
  { intros k. unfold limited. by setoid_rewrite elem_of_SliceStable. }
  destruct (stop_dead_ok (range_list lims) live m1 lims) as (m2 & lims2 & -> & Hok2 & Hnx2 & Hlk & Hm2);
    [apply range_NoDup|by intros k p ?%elem_of_range|done|]. cbn.
  pose proof (wire_caches_table gs1 m2 (r_caches r) ∅) as (Ht3 & _ & Hl3).
  pose proof (wire_caches_limiter gs1 m2 (r_caches r) ∅) as Hw3.
  pose proof (wire_caches_next gs1 m2 (r_caches r) ∅) as Hnx3.
  destruct (wire_caches gs1 m2 (r_caches r) ∅) as [[[gs3 m3] cs] liveC]. cbn in Ht3, Hl3, Hw3, Hnx3.
  unfold reconcileAB. set (bl := count_local_B m3 gs3). set (m3' := set_runs _ m3).
  pose proof (wire_ab_table n1 bl gs3 m3' (r_abRuns r) ∅) as (Ht4 & _ & Hl4).
  pose proof (wire_ab_limiter n1 bl gs3 m3' (r_abRuns r) ∅) as Hw4.
  pose proof (wire_ab_next n1 bl gs3 m3' (r_abRuns r) ∅) as Hnx4.
  destruct (wire_ab n1 bl gs3 m3' (r_abRuns r) ∅) as [[gs4 m4] runs]. cbn in Ht4, Hl4, Hw4, Hnx4.
  destruct (applyDrainingLocked n2 gs4 m4 (r_drainSet r)) as [m5 dr] eqn:Hdr.
  assert (m_limiters m5 = m_limiters m4 /\ m_next m5 = m_next m4) as [Hl5 Hnx5].
  { unfold applyDrainingLocked in Hdr. case_decide; by simplify_eq. }
  unfold reconcileTransportsLocked.
  pose proof (wire_transports_limiters (snd <$> visits gs4) m5 (r_transports r) ∅) as Hl6.
  pose proof (wire_transports_next (snd <$> visits gs4) m5 (r_transports r) ∅) as Hnx6.
  destruct (wire_transports _ m5 (r_transports r) ∅) as [[m6 ts] live6]. cbn in Hl6, Hnx6.
  eexists _, _. split; [done|]. cbn.
  assert (m_limiters m6 = m_limiters m2) as Hlm by congruence.
  assert (Hlive' : forall k p, lims2 !! k = Some p <-> lims !! k = Some p /\ limited groups k).
  { intros k p. rewrite Hlk. rewrite <- Hlim. split; intros [Hp Hd]; (split; [done|]).
    - destruct (decide (k ∈ live)) as [Hkl|Hkl].
      + apply Hlive in Hkl as [?|?]; [set_solver|done].
      + exfalso. apply Hd. split; [|done]. apply list_elem_of_fmap. exists (k, p). split; [done|].
        by apply elem_of_range.
    - intros [_ Hn]. apply Hn, Hlive. by right. }
  split_and!.
  - destruct Hok2 as [Hlo Hin]. split; cbn; [|done]. intros k p Hp. destruct (Hlo k p Hp) as (? & l & ? & ?).
    split; [lia|]. rewrite Hlm. eauto.
  - intros k. split.
    + intros [p Hp]. by destruct (proj1 (Hlive' k p) Hp).
    + intros Hk. destruct (proj2 (Hdom k)) as [p Hp]; [right; by apply Hlim|]. exists p. by apply Hlive'.
  - intros g Hg Hrl.
    assert (with_limiter g ∈ with_limiter <$> gs1) as Hin by (rewrite <- Hw3, <- Hw4; by apply list_elem_of_fmap_2).
    apply list_elem_of_fmap in Hin as (g1 & Heq & Hg1). apply pair_eq in Heq as [He Hgl].
    destruct (Hgs g1 Hg1) as (p & Hp & Hkp); [by rewrite <- (erase_RateLimit _ _ He)|].
    exists p. split; [congruence|]. apply Hlive'. rewrite (proj1 (erase_key _ _ He)). split; [done|].
    destruct (same_table_elem _ _ g1 Ht1 Hg1) as (g0 & Hg0 & He0). exists g0. apply elem_of_SliceStable in Hg0.
    split_and!; [done| |apply (erase_key _ _ He0)]. rewrite (erase_RateLimit _ _ He0), <- (erase_RateLimit _ _ He). done.
  - intros k p rpm Hp Hk Hrate. destruct (Hkeep k p Hp) as [Hp' Hmp]. split.
    + by apply Hlive'.
    + rewrite Hlm, (Hm2 k) by (by apply Hlive'). rewrite Hmp. apply rerate_last; [|by apply Hlim].
      intros g Hg. apply Hrate. by apply elem_of_SliceStable in Hg.
Qed.
End properties.

Section carried.
Context {L : Type} `{Limiter L} {R : Type} `{ABRuntime R} `{MapRange}.
Context (newLimiter : string -> Z -> L).
Notation memory := (memory L R).

(** What the health key and verdict of a backend depend on. *)
Definition hv (b : Backend) : string * string * bool := (b_URL b, b_Variant b, b_healthyFlag b).

Lemma refreshed_hv groups n2 n3 (m : memory) r (m' : memory) r' :
  refreshed groups n2 n3 m r m' r' ->
  exists s, m_backends m' = carry_health (r_groups r) (r_groups r') s /\
    forall l, hv <$> s !! l = hv <$> m_backends m !! l.
Proof.
  intros [_ _ _ (s & Heq & Hs)]. exists s. split; [done|]. intros l. specialize (Hs l).
  assert (forall o o' : option Backend, unwire <$> o = unwire <$> o' -> hv <$> o = hv <$> o') as Hu.
  { intros [x|] [y|] Heq'; try done. apply (inj Some) in Heq'. cbn. apply (f_equal Some).
    change (hv (unwire x) = hv (unwire y)). by rewrite Heq'. }
  rewrite (Hu _ _ Hs). case_decide; [|done]. destruct (m_backends m !! l) as [b|]; [|done]. cbn. f_equal.
  unfold drain_if. by destruct (_ && _).
Qed.

Lemma hv_key g b b' : hv b = hv b' -> health_key g b = health_key g b' /\ b_healthyFlag b = b_healthyFlag b'.
Proof. intros Heq. unfold health_key. injection Heq as -> -> ->. done. Qed.

Lemma hv_lookup (s s' : gmap loc Backend) l b :
  hv <$> s !! l = hv <$> s' !! l -> s !! l = Some b -> exists b', s' !! l = Some b' /\ hv b' = hv b.
Proof.
  intros Heq Hb. rewrite Hb in Heq. destruct (s' !! l) as [b'|]; [|done]. exists b'. split; [done|].
  by apply (inj Some) in Heq.
Qed.

(** A refresh carries each verdict over. The health of a backend that
    belongs to one route of the new table is that of a backend with the same URL
    and variant on the same route of the old table, or up when the old table had
    none; two routes that share an upstream URL do not disturb each other. *)
Theorem health_carried_over (groups : list RouteGroup) (n1 n2 n3 : Z) (m m' : memory) (r r' : Router)
    (g : RouteGroup) (l : loc) (b : Backend) :
  Set_ newLimiter groups n1 n2 n3 m r = Ret (m', r') ->
  g ∈ r_groups r' -> l ∈ g_Backends g -> m_backends m !! l = Some b ->
  (forall g', g' ∈ r_groups r' -> l ∈ g_Backends g' -> group_key g' = group_key g) ->
  exists b', m_backends m' !! l = Some b' /\
    ((exists g0 l0 b0, g0 ∈ r_groups r /\ l0 ∈ g_Backends g0 /\ m_backends m !! l0 = Some b0 /\
        health_key g0 b0 = health_key g b /\ b_healthyFlag b' = b_healthyFlag b0) \/
     (b_healthyFlag b' = true /\
      forall g0 l0 b0, g0 ∈ r_groups r -> l0 ∈ g_Backends g0 -> m_backends m !! l0 = Some b0 ->
        health_key g0 b0 <> health_key g b)).
Proof.
  intros HSet%Set_refreshed Hg Hl Hb Huniq. destruct (refreshed_hv _ _ _ _ _ _ _ HSet) as (s & -> & Hs).
  destruct (hv_lookup (m_backends m) s l b) as (bs & Hbs & Hhv); [by rewrite Hs|done|].
  unfold carry_health. rewrite visit_all_lookup, Hbs. eexists. split; [done|].
  rewrite (fold_health _ g).
  - destruct (hv_key g _ _ Hhv) as [-> _].
    pose proof (prev_health_spec (r_groups r) s (health_key g b)) as Hp.
    destruct (prev_health (r_groups r) s !! health_key g b) as [v|]; cbn.
    + left. destruct Hp as (g0 & l0 & b0 & Hg0 & Hl0 & Hb0 & Hk & Hv).
      destruct (hv_lookup s (m_backends m) l0 b0 (Hs l0) Hb0) as (b1 & Hb1 & Hhv1).
      destruct (hv_key g0 _ _ Hhv1) as [Hk1 Hf1]. exists g0, l0, b1. split_and!; congruence.
    + right. split; [done|]. intros g0 l0 b0 Hg0 Hl0 Hb0 Hk.
      destruct (hv_lookup (m_backends m) s l0 b0) as (b1 & Hb1 & Hhv1); [by rewrite Hs|done|].
      destruct (hv_key g0 _ _ Hhv1) as [Hk1 _]. apply (Hp g0 l0 b1); congruence.
  - intros Hv. assert (g ∈ visitors l (visits (r_groups r'))) as Hin by (by apply elem_of_visitors, elem_of_visits).
    rewrite Hv in Hin. by apply not_elem_of_nil in Hin.
  - apply Forall_forall. intros g' Hg'. apply elem_of_visitors, elem_of_visits in Hg' as [? ?]. by apply Huniq.
Qed.
End carried.

(** * Witnesses *)

(** Without A/B tests no run is ever made. *)
Definition no_ab : ABRuntime unit :=
  {| run_new _ _ _ := tt; run_id _ := ""; run_firstSeen _ := 0; run_cfg _ := None; run_detach r := r;
     run_attach _ _ r := r |}.

Section examples.
#[local] Existing Instance no_ab.
#[local] Existing Instance separate_unit.
Import HybridLimiter.

Definition mem0 : memory hybridLimiter unit :=
  {| m_backends := {[1%positive := set_healthyFlag true (makeBackend "http://10.0.0.1:80" 1 "c1" "")]};
     m_limiters := ∅; m_caches := ∅; m_runs := ∅; m_next := 10%positive; m_closed := [] |}.

(** A route and the catch-all of its host, with one backend each. *)
Definition api : RouteGroup := set_g_Backends [1%positive] (new_group "h" "/api" "h" "" false).
Definition root : RouteGroup := set_g_Backends [2%positive] (new_group "H" "" "h" "" false).
Definition b2 : Backend :=
  mkBackend "http://10.0.0.2:80" 1 "c2" "" (Some None) false "" 0 false false "" "" "" "cid2" false None.

Definition set1 := Set_ (fun _ rpm => newHybridLimiter rpm) [root; api] 100 100 100
  (set_backends ({[2%positive := b2]} ∪ m_backends mem0) mem0) new_router.
Definition st1 : @state hybridLimiter unit :=
  match set1 with Ret (m, r) => mkState 100 m r | Panic => mkState 0 mem0 new_router end.

Lemma set1_eq : set1 = Ret (st_mem st1, st_router st1).
Proof. vm_compute. reflexivity. Qed.

Lemma set1_step : step (fun _ rpm => newHybridLimiter rpm) (ESet {[2%positive := b2]} [root; api] 100 100 100)
  (mkState 50 mem0 new_router) st1.
Proof.
  replace st1 with (mkState 100 (st_mem st1) (st_router st1)) by (vm_compute; reflexivity).
  apply step_Set; [lia|lia| |exact set1_eq]. repeat constructor.
Qed.

Lemma st1_reachable : reachable (fun _ rpm => newHybridLimiter rpm) st1.
Proof. eexists _, _. split; [|eapply steps_cons; [exact set1_step|apply steps_nil]]. done. Qed.

Lemma longest_prefix_wins_witness :
  exists g, route (r_groups (st_router st1)) "h" "/api/x" = Some g /\
    forall g', g' ∈ [root; api] -> matches "h" "/api/x" g' = true ->
      len (g_PathPrefix g') < len (g_PathPrefix g) \/ g_PathPrefix g' = g_PathPrefix g.
Proof.
  pose proof (longest_prefix_wins (fun _ rpm => newHybridLimiter rpm) [root; api] 100 100 100
    (set_backends ({[2%positive := b2]} ∪ m_backends mem0) mem0) (st_mem st1) new_router (st_router st1)
    "h" "/api/x" set1_eq) as Hw.
  destruct (route (r_groups (st_router st1)) "h" "/api/x") as [g|] eqn:Hr.
  - exists g. split; [done|]. apply Hw.
  - vm_compute in Hr. discriminate.
Defined.

Definition st2 : @state hybridLimiter unit :=
  mkState 200 (markDraining "cid2" 200 (st_mem st1) (st_router st1)).1
    (markDraining "cid2" 200 (st_mem st1) (st_router st1)).2.
Lemma st2_step : step (fun _ rpm => newHybridLimiter rpm) (EDrain "cid2" 200) st1 st2.
Proof.
  replace st1 with (mkState 100 (st_mem st1) (st_router st1)) by (vm_compute; reflexivity).
  unfold st2. constructor. lia.
Qed.

Lemma drained_gets_nothing_witness :
  match m_backends (st_mem st2) !! 2%positive with
  | Some b => excludedFrom b true = true
  | None => False
  end.
Proof.
  destruct (m_backends (st_mem st2) !! 2%positive) as [b|] eqn:Hb; [|by vm_compute in Hb].
  assert (exists g, g ∈ r_groups (st_router st2) /\ 2%positive ∈ g_Backends g) as (g & Hg & Hl).
  { destruct (r_groups (st_router st2)) as [|g1 [|g2 gs]] eqn:Hgs; vm_compute in Hgs; try discriminate.
    exists g2. split; [set_solver|]. simplify_eq. apply (bool_decide_eq_true_1 _). by vm_compute. }
  apply (drained_gets_nothing (fun _ rpm => newHybridLimiter rpm) "cid2" 200 [] st1 st2 st2 g 2%positive b true).
  - done.
  - apply st1_reachable.
  - apply st2_step.
  - apply steps_nil.
  - by intros ?%not_elem_of_nil.
  - by vm_compute.
  - exact Hg.
  - exact Hl.
  - exact Hb.
  - vm_compute in Hb. by simplify_eq.
Defined.

Lemma vanished_route_is_unavailable_witness :
  exists m r, Set_ (fun _ rpm => newHybridLimiter rpm) [root] 200 200 200
                (set_backends (∅ ∪ m_backends (st_mem st1)) (st_mem st1)) (st_router st1) = Ret (m, r) /\
    match route (r_groups r) "h" "/api/x" with
    | None => tombstoned (r_tombstones r) (200 + 4 * Minute) "h" "/api/x" None = true
    | Some live => tombstoned (r_tombstones r) (200 + 4 * Minute) "h" "/api/x" (Some live) = true \/
                   len "/api" <= len (g_PathPrefix live)
    end.
Proof.
  destruct (Set_ (fun _ rpm => newHybridLimiter rpm) [root] 200 200 200
                (set_backends (∅ ∪ m_backends (st_mem st1)) (st_mem st1)) (st_router st1)) as [[m r]|] eqn:Hs;
    [|by vm_compute in Hs].
  exists m, r. split; [done|].
  assert (exists g, g ∈ r_groups (st_router st1) /\ fold_key g = "h|/api" /\ erase g = erase api) as (g & Hg & Hk & He).
  { destruct (r_groups (st_router st1)) as [|g1 gs] eqn:Hgs; vm_compute in Hgs; [done|]. simplify_eq.
    eexists. split; [apply elem_of_cons; by left|]. split; vm_compute; reflexivity. }
  assert (exists s2, step (fun _ rpm => newHybridLimiter rpm) (ESet ∅ [root] 200 200 200) st1 s2 /\
    s2 = mkState 200 m r) as (s2 & Hstep & ->).
  { eexists. split; [|done]. replace st1 with (mkState 100 (st_mem st1) (st_router st1)) by (vm_compute; reflexivity).
    apply step_Set; [lia|lia|repeat constructor|exact Hs]. }
  destruct (vanished_route_is_unavailable (fun _ rpm => newHybridLimiter rpm) ∅ [root] 200 200 200 []
    st1 (mkState 200 m r) (mkState 200 m r) g (200 + 4 * Minute) "h" "/api/x") as [(g' & Hg' & Hh & Hp)|Hres].
  - apply st1_reachable.
  - exact Hg.
  - rewrite Hk. apply (bool_decide_eq_true_1 _). by vm_compute.
  - exact Hstep.
  - apply steps_nil.
  - cbn. unfold routeTombstoneTTL, Minute, Second. lia.
  - rewrite (erase_matches _ _ _ _ He). by vm_compute.
  - exfalso. cbn in Hg'. apply Set_refreshed, rf_table in Hs.
    destruct (same_table_elem _ _ _ Hs Hg') as (g0 & Hg0 & He0). apply elem_of_SliceStable, list_elem_of_singleton in Hg0.
    subst g0. rewrite (erase_path _ _ He) in Hp. by rewrite <- (erase_path _ _ He0) in Hp.
  - rewrite (erase_path _ _ He) in Hres. exact Hres.
Defined.

Lemma limiters_survive_refresh_witness :
  exists m' r', Set_ (fun _ rpm => newHybridLimiter rpm) [set_g_RateLimit true api] 1 1 1 mem0 new_router
                = Ret (m', r') /\
    (forall k, is_Some (r_limiters r' !! k) <-> limited [set_g_RateLimit true api] k).
Proof.
  destruct (limiters_survive_refresh (fun _ rpm => newHybridLimiter rpm) [set_g_RateLimit true api] 1 1 1 mem0 new_router)
    as (m' & r' & Heq & _ & Hk & _).
  - by intros key rpm.
  - split; cbn; intros *; by rewrite lookup_empty.
  - exists m', r'. split; [exact Heq|exact Hk].
Defined.

Lemma health_carried_over_witness :
  exists b', m_backends (st_mem st1) !! 2%positive = Some b' /\ b_healthyFlag b' = true.
Proof.
  assert (exists g, g ∈ r_groups (st_router st1) /\ erase g = erase root) as (g & Hg & He).
  { destruct (r_groups (st_router st1)) as [|g1 [|g2 gs]] eqn:Hgs; vm_compute in Hgs; try discriminate. simplify_eq.
    eexists. split; [apply elem_of_cons; right; apply elem_of_cons; by left|]. vm_compute. reflexivity. }
  destruct (health_carried_over (fun _ rpm => newHybridLimiter rpm) [root; api] 100 100 100
    (set_backends ({[2%positive := b2]} ∪ m_backends mem0) mem0) (st_mem st1) new_router (st_router st1)
    g 2%positive b2) as (b' & Hb' & [(g0 & _ & _ & Hin & _)|[Hf _]]).
  - exact set1_eq.
  - exact Hg.
  - rewrite (erase_backends _ _ He). by apply list_elem_of_singleton.
  - by vm_compute.
  - intros g' Hg' Hl'.
    pose proof (rf_table _ _ _ _ _ _ _ (Set_refreshed _ _ _ _ _ _ _ _ _ set1_eq)) as Ht.
    destruct (same_table_elem _ _ _ Ht Hg') as (g0 & Hg0 & He0). apply elem_of_SliceStable in Hg0.
    rewrite <- (erase_backends _ _ He0) in Hl'. rewrite <- (proj1 (erase_key _ _ He0)), (proj1 (erase_key _ _ He)).
    apply elem_of_cons in Hg0 as [->|Hg0]; [done|]. apply list_elem_of_singleton in Hg0 as ->.
    by apply list_elem_of_singleton in Hl'.
  - by apply not_elem_of_nil in Hin.
  - by exists b'.
Defined.

(** A verdict is lost when a backend is shared. The container backend that
    a labelled route and a static service route both hold is one object, and the
    last route visited decides its health: adding a second route for a container
    whose probes fail marks it up again on the first route too. *)
Theorem shared_health_lost :
  let prev := mkRouter [api] ∅ ∅ ∅ [] ∅ ∅ in
  let m := set_backends {[1%positive := makeBackend "http://10.0.0.1:80" 1 "c" "";
                          2%positive := makeBackend "http://10.0.0.1:80" 1 "c" ""]} mem0 in
  let new := [set_g_Backends [2%positive] api; root] in
  match Set_ (fun _ rpm => newHybridLimiter rpm) new 1 1 1 m prev with
  | Ret (m', r') =>
      b_healthyFlag <$> m_backends m !! 1%positive = Some false /\
      b_healthyFlag <$> m_backends m' !! 2%positive = Some true
  | Panic => False
  end.
Proof. vm_compute. by split. Qed.
End examples.
