(* ===== verification/Labels.v ===== *)
(** * The registry of central labels: internal/labels/labels.go

    Which proxy.* keys may be set through Redis, how each value is validated,
    and the rule for a change to a service's labels. *)
From S2P Require Import Prelude GoString Duration Http.
Open Scope string_scope.

Inductive Class := ProxyLive | DashboardLive | Security | Identity | PerReplica.

#[export] Instance Class_eq_dec : EqDecision Class.
Proof. solve_decision. Defined.

(** [Validate] is nil for keys that can never be set through Redis; a validator
    returns whether the value is accepted. *)
Record Spec := mkSpec {
  Key : string;
  SpecClass : Class;
  Validate : option (string -> bool);
}.

Definition MaxWeight : Z := 100.
Definition MaxDrainSeconds : Z := 300.
Definition MaxValueBytes : Z := 2 ^ 10.
Definition MaxKeys : nat := 64.
Definition maxNameRunes : Z := 64.

Definition DropHeaders : string := "proxy.drop_headers".
Definition ServiceKey : string := "proxy.service".

(** ** Validators *)

(** [^[a-zA-Z0-9][a-zA-Z0-9._-]{0,62}$] *)
Definition is_alnum (c : ascii) : bool := is_alpha c || is_digit c.
Definition serviceName (s : string) : bool :=
  match s with
  | EmptyString => false
  | String c r => is_alnum c && all_bytes (fun d => is_alnum d || has_byte d "._-") r && bool_decide (len r <= 62)
  end.

Definition reservedServices : list string := ["index"; "version"].
Definition ValidService (svc : string) : bool := serviceName svc && negb (bool_decide (svc ∈ reservedServices)).

(** The durations spelled as off, or a non-negative [time.ParseDuration]. *)
Definition ParseCacheTTL (s : string) : option Z :=
  let s := TrimSpace s in
  if decide (ToLower s ∈ [""; "0"; "false"; "off"]) then Some 0
  else d ← ParseDuration s; if decide (d < 0) then None else Some d.

Definition validBool (s : string) : bool := bool_decide (s = "true") || bool_decide (s = "false").

Definition intRange (lo hi : Z) (s : string) : bool :=
  match Atoi s with Some n => bool_decide (lo <= n <= hi) | None => false end.

Definition validAbsPath (s : string) : bool :=
  HasPrefix s "/" && negb (has_byte " " s || has_byte (chr 9) s).

Definition validName (s : string) : bool := bool_decide (RuneCountInString s <= maxNameRunes).

Definition validGroup (s : string) : bool := serviceName s.

Definition splitList (s : string) : list string := trimmed_parts s.

Definition validPathList (s : string) : bool :=
  negb (bool_decide (splitList s = [])) && forallb validAbsPath (splitList s).

(** Every rune of a header name is a token character, so every byte is. *)
Definition validHeaderList (s : string) : bool :=
  negb (bool_decide (splitList s = [])) && forallb (all_bytes is_tchar) (splitList s).

(** ** The registry *)

Definition registry : list Spec := [
  mkSpec "proxy.weight" ProxyLive (Some (intRange 1 MaxWeight));
  mkSpec "proxy.health" ProxyLive (Some validAbsPath);
  mkSpec "proxy.strip" ProxyLive (Some validBool);
  mkSpec "proxy.name" ProxyLive (Some validName);
  mkSpec "proxy.ratelimit" ProxyLive (Some validBool);
  mkSpec "proxy.ratelimit.rpm" ProxyLive (Some (intRange 1 (2 ^ 31 - 1)));
  mkSpec "proxy.sticky" ProxyLive (Some validBool);
  mkSpec "proxy.cache" ProxyLive (Some (fun s => bool_decide (is_Some (ParseCacheTTL s))));
  mkSpec "proxy.cache.paths" ProxyLive (Some validPathList);
  mkSpec DropHeaders ProxyLive (Some validHeaderList);
  mkSpec "proxy.autoupdate" DashboardLive (Some validBool);
  mkSpec "proxy.unscalable" DashboardLive (Some validBool);
  mkSpec "proxy.drain" DashboardLive (Some (intRange 0 MaxDrainSeconds));
  mkSpec "proxy.group" DashboardLive (Some validGroup);
  mkSpec "proxy.maintenance" DashboardLive (Some validAbsPath);
  mkSpec "proxy.overlap" DashboardLive (Some validBool);
  mkSpec "proxy.auth" Security None;
  mkSpec "proxy.auth.users" Security None;
  mkSpec "proxy.auth.mode" Security None;
  mkSpec "proxy.enable" Identity None;
  mkSpec ServiceKey Identity None;
  mkSpec "proxy.host" Identity None;
  mkSpec "proxy.port" Identity None;
  mkSpec "proxy.path" Identity None;
  mkSpec "proxy.canary" PerReplica None;
  mkSpec "proxy.previous_image" PerReplica None;
  mkSpec "proxy.spread" PerReplica None ].

Definition find_spec (key : string) : option Spec :=
  find_first (fun s => bool_decide (Key s = key)) registry.

Definition perReplicaPrefixes : list string := ["proxy.ab."; "pmgr.env."].

Definition Lookup (key : string) : option Spec :=
  match find_spec key with
  | Some s => Some s
  | None => if existsb (HasPrefix key) perReplicaPrefixes then Some (mkSpec key PerReplica None) else None
  end.

Definition Managed (key : string) : bool :=
  match find_spec key with
  | Some s => bool_decide (SpecClass s = ProxyLive) || bool_decide (SpecClass s = DashboardLive)
  | None => false
  end.

Definition ManagedKeys : list string := merge_sort String.le (filter (fun k => Managed k = true) (Key <$> registry)).

(** ** Validation *)

Inductive error :=
| ENotCentral (key : string)              (* not in the registry *)
| EClass (key : string) (c : Class)       (* known but not settable *)
| EEmpty (key : string)
| ETooLong (key : string)
| EControl (key : string)
| EInvalid (key : string)
| EBoth (key : string)
| ETooMany
| ELoosens (header : string).

Definition keyError (key : string) : error :=
  match Lookup key with Some s => EClass key (SpecClass s) | None => ENotCentral key end.

(** [None] is success. A managed key has a validator; calling a nil one would
    panic. *)
Definition ValidateValue (key value : string) : go (option error) :=
  if negb (Managed key) then Ret (Some (keyError key))
  else if decide (value = "") then Ret (Some (EEmpty key))
  else if decide (MaxValueBytes < len value) then Ret (Some (ETooLong key))
  else if hasControl value then Ret (Some (EControl key))
  else match (s ← find_spec key; Validate s) : option (string -> bool) with
       | Some v => Ret (if v value then None else Some (EInvalid key))
       | None => Panic
       end.

(** The loop over the keys to unset. *)
Fixpoint unset_keys (set next : gmap string string) (unset : list string) : error + gmap string string :=
  match unset with
  | [] => inr next
  | k :: unset =>
      if decide (is_Some (set !! k)) then inl (EBoth k)
      else if negb (Managed k) then inl (keyError k)
      else unset_keys set (delete k next) unset
  end.

(** The loop over the sorted pairs to set. *)
Fixpoint set_keys (kvs : list (string * string)) (next : gmap string string) : go (error + gmap string string) :=
  match kvs with
  | [] => Ret (inr next)
  | (k, v) :: kvs =>
      e ← ValidateValue k v;
      match e : option error with
      | Some e => Ret (inl e)
      | None => set_keys kvs (<[k := v]> next)
      end
  end.

Definition headers_of (m : gmap string string) : list string := splitList (default "" (m !! DropHeaders)).

Definition loosened (current next : gmap string string) : option string :=
  find_first (fun h => negb (bool_decide (CanonicalHeaderKey h ∈ CanonicalHeaderKey <$> headers_of next)))
    (headers_of current).

Definition key_le (a b : string * string) : Prop := String.le (fst a) (fst b).
#[export] Instance key_le_dec a b : Decision (key_le a b).
Proof. unfold key_le. apply _. Defined.

(** [ValidateChange], with the map the change leads to. *)
Definition ValidateChange (current set : gmap string string) (unset : list string) (allowLoosen : bool)
  : go (error + gmap string string) :=
  match unset_keys set current unset with
  | inl e => Ret (inl e)
  | inr next =>
      r ← set_keys (merge_sort key_le (map_to_list set)) next;
      match r with
      | inl e => Ret (inl e)
      | inr next =>
          if decide (MaxKeys < size next)%nat then Ret (inl ETooMany)
          else if (allowLoosen : bool) then Ret (inr next)
          else match loosened current next with
               | Some h => Ret (inl (ELoosens h))
               | None => Ret (inr next)
               end
      end
  end.

(** * Properties *)

(** The map a change asks for. *)
Definition unset_all (m : gmap string string) (ks : list string) : gmap string string :=
  foldl (fun m k => delete k m) m ks.
Definition apply_change (current set : gmap string string) (unset : list string) : gmap string string :=
  set ∪ unset_all current unset.

(** A value the registry admits for a key. *)
Definition admitted (k v : string) : Prop :=
  Managed k = true /\ v <> "" /\ len v <= MaxValueBytes /\ hasControl v = false /\
  exists f, (s ← find_spec k; Validate s) = Some f /\ f v = true.

Lemma managed_validated k : Managed k = true -> exists f, (s ← find_spec k; Validate s) = Some f.
Proof.
  unfold Managed. destruct (find_spec k) as [s|] eqn:Hs; [|done]. intros Hc.
  apply find_first_elem in Hs as [Hs _]. cbn.
  assert (Forall (fun s => bool_decide (SpecClass s = ProxyLive) || bool_decide (SpecClass s = DashboardLive) = true ->
                           is_Some (Validate s)) registry) as Hall.
  { unfold registry. repeat apply Forall_cons_2; [..|apply Forall_nil_2]; cbn; intros Hx; first [discriminate Hx|eexists; reflexivity]. }
  rewrite Forall_forall in Hall. destruct (Hall s Hs Hc) as [f Hf]. eauto.
Qed.

Lemma ValidateValue_spec k v :
  exists e, ValidateValue k v = Ret e /\ (e = None <-> admitted k v).
Proof.
  unfold ValidateValue, admitted. destruct (Managed k) eqn:Hm; cbn [negb].
  - destruct (managed_validated k Hm) as [f Hf]. rewrite Hf.
    case_decide; [eexists; split; [done|]; split; [done|tauto]|].
    case_decide; [eexists; split; [done|]; split; [done|lia]|].
    destruct (hasControl v); [eexists; split; [done|]; split; [done|naive_solver]|].
    eexists; split; [done|]. destruct (f v) eqn:Hv.
    + split; [intros _|done]. split_and!; [done..|lia|done|eauto].
    + split; [done|]. intros (_ & _ & _ & _ & f' & Heq & Hf'). congruence.
  - eexists; split; [done|]. split; [done|]. by intros [].
Qed.

Lemma unset_keys_spec set next unset next' :
  unset_keys set next unset = inr next' <->
  Forall (fun k => set !! k = None /\ Managed k = true) unset /\ next' = unset_all next unset.
Proof.
  revert next. induction unset as [|k unset IH]; intros next; cbn.
  - split; [intros; by simplify_eq|]. by intros [_ ->].
  - change (unset_all next (k :: unset)) with (unset_all (delete k next) unset). rewrite Forall_cons. case_decide as Hk.
    + split; [done|]. intros [[[Hn _] _] _]. rewrite Hn in Hk. by destruct Hk.
    + apply eq_None_not_Some in Hk. destruct (Managed k); cbn; [rewrite IH; naive_solver|naive_solver].
Qed.

Lemma set_keys_spec kvs next :
  exists r, set_keys kvs next = Ret r /\
    forall next', r = inr next' <->
      Forall (fun kv => admitted kv.1 kv.2) kvs /\ next' = foldl (fun m kv => <[kv.1 := kv.2]> m) next kvs.
Proof.
  revert next. induction kvs as [|[k v] kvs IH]; intros next; cbn.
  - eexists. split; [done|]. intros next'. split; [intros; by simplify_eq|]. by intros [_ ->].
  - destruct (ValidateValue_spec k v) as (e & -> & He). cbn. destruct e as [e|].
    + eexists. split; [done|]. intros next'. split; [done|]. intros [[Ha _]%Forall_cons _]. by apply He in Ha.
    + destruct (IH (<[k := v]> next)) as (r & Hr & Hn). exists r. split; [done|]. intros next'.
      rewrite Hn, Forall_cons. naive_solver.
Qed.

Lemma foldl_insert_map (kvs : list (string * string)) (next : gmap string string) :
  NoDup kvs.*1 -> foldl (fun m kv => <[kv.1 := kv.2]> m) next kvs = list_to_map kvs ∪ next.
Proof.
  revert next. induction kvs as [|[k v] kvs IH]; intros next Hnd; cbn.
  - by rewrite (left_id_L ∅ (∪)).
  - rewrite fmap_cons in Hnd. apply NoDup_cons in Hnd as [Hk Hnd]. rewrite IH by done. cbn.
    rewrite <- insert_union_l. apply not_elem_of_list_to_map_1 in Hk. by rewrite insert_union_r.
Qed.

Lemma loosened_None current next :
  loosened current next = None <->
  forall h, h ∈ headers_of current -> CanonicalHeaderKey h ∈ CanonicalHeaderKey <$> headers_of next.
Proof.
  unfold loosened. rewrite find_first_None, Forall_forall. split; intros Hh h Hin; specialize (Hh h Hin).
  - by apply negb_false_iff, bool_decide_eq_true in Hh.
  - by apply negb_false_iff, bool_decide_eq_true.
Qed.

(** A central label change is accepted exactly when it is safe. Validation
    never panics, and it accepts a change precisely when every key it unsets or
    sets is a managed key (never an auth, identity or per-replica one), no key is
    both set and unset, every value passes its limits and its key's validator, the
    resulting map keeps at most 64 keys and, unless loosening is allowed, every
    header stripped before is still stripped. *)
Theorem change_accepted (current set : gmap string string) (unset : list string) (allowLoosen : bool) :
  exists r, ValidateChange current set unset allowLoosen = Ret r /\
  forall next, r = inr next <->
    next = apply_change current set unset /\
    (forall k, k ∈ unset -> set !! k = None /\ Managed k = true) /\
    (forall k v, set !! k = Some v -> admitted k v) /\
    (size next <= MaxKeys)%nat /\
    (allowLoosen = false -> forall h, h ∈ headers_of current ->
       CanonicalHeaderKey h ∈ CanonicalHeaderKey <$> headers_of next).
Proof.
  unfold ValidateChange, apply_change.
  assert (Hu : forall n, unset_keys set current unset = inr n <->
    (forall k, k ∈ unset -> set !! k = None /\ Managed k = true) /\ n = unset_all current unset).
  { intros n. rewrite unset_keys_spec, Forall_forall. done. }
  destruct (unset_keys set current unset) as [e|n0] eqn:Hun.
  { exists (inl e). split; [done|]. intros next. split; [done|]. intros (_ & Hk & _).
    pose proof (proj2 (Hu (unset_all current unset)) (conj Hk eq_refl)) as Heq. discriminate Heq. }
  destruct (proj1 (Hu n0) eq_refl) as [Hk ->]. clear Hu.
  set (kvs := merge_sort key_le (map_to_list set)).
  assert (kvs ≡ₚ map_to_list set) as Hp by apply merge_sort_Permutation.
  destruct (set_keys_spec kvs (unset_all current unset)) as (r & -> & Hr). cbn.
  rewrite foldl_insert_map in Hr by (rewrite Hp; apply NoDup_fst_map_to_list).
  rewrite (list_to_map_proper kvs (map_to_list set)), list_to_map_to_list in Hr
    by (done || (rewrite Hp; apply NoDup_fst_map_to_list)).
  assert (Ha : Forall (fun kv => admitted kv.1 kv.2) kvs <-> forall k v, set !! k = Some v -> admitted k v).
  { rewrite Hp, Forall_forall. split.
    - intros Hall k v Hkv. by apply (Hall (k, v)), elem_of_map_to_list.
    - intros Hall [k v] Hkv%elem_of_map_to_list. by apply Hall. }
  setoid_rewrite Ha in Hr. clear Ha.
  destruct r as [e|next].
  { eexists. split; [done|]. intros next. split; [done|]. intros (-> & _ & Hall & _).
    pose proof (proj2 (Hr _) (conj Hall eq_refl)) as Heq. discriminate Heq. }
  destruct (proj1 (Hr next) eq_refl) as [Hall ->].
  case_decide as Hsz.
  { eexists. split; [done|]. intros next'. split; [done|]. intros (-> & _ & _ & Hle & _). lia. }
  destruct allowLoosen.
  { eexists. split; [done|]. intros next'. split; [|naive_solver].
    intros; simplify_eq. split_and!; try done; lia. }
  destruct (loosened current _) as [h|] eqn:Hl; (eexists; split; [done|]); intros next'.
  - split; [done|]. intros (-> & _ & _ & _ & Hh). specialize (Hh eq_refl). apply loosened_None in Hh. congruence.
  - split; [|naive_solver]. intros; simplify_eq. split_and!; [done..|lia|]. intros _. by apply loosened_None.
Qed.

(** The managed keys, one by one. *)
Lemma Managed_keys k :
  Managed k = true <-> k ∈ ["proxy.weight"; "proxy.health"; "proxy.strip"; "proxy.name"; "proxy.ratelimit";
    "proxy.ratelimit.rpm"; "proxy.sticky"; "proxy.cache"; "proxy.cache.paths"; "proxy.drop_headers";
    "proxy.autoupdate"; "proxy.unscalable"; "proxy.drain"; "proxy.group"; "proxy.maintenance"; "proxy.overlap"].
Proof.
  split.
  - unfold Managed. destruct (find_spec k) as [s|] eqn:Hs; [|done]. intros Hc.
    apply find_first_elem in Hs as [Hs Hk]. apply bool_decide_eq_true in Hk. subst k.
    unfold registry in Hs.
    repeat (apply elem_of_cons in Hs as [->|Hs];
      [first [by vm_compute in Hc | apply (bool_decide_eq_true_1 _); by vm_compute]|]).
    by apply not_elem_of_nil in Hs.
  - intros Hk. repeat (apply elem_of_cons in Hk as [->|Hk]; [by vm_compute|]). by apply not_elem_of_nil in Hk.
Qed.

Lemma elem_of_ManagedKeys k : k ∈ ManagedKeys <-> Managed k = true.
Proof.
  unfold ManagedKeys. rewrite merge_sort_Permutation, list_elem_of_filter. split; [tauto|].
  intros Hm. split; [done|]. unfold Managed in Hm. destruct (find_spec k) as [s|] eqn:Hs; [|done].
  apply find_first_elem in Hs as [Hs Hk]. apply bool_decide_eq_true in Hk. subst k. by apply list_elem_of_fmap_2.
Qed.

Lemma TrimSpace_id s : all_bytes (fun c => negb (is_space c)) s = true -> TrimSpace s = s.
Proof.
  intros Hs. unfold TrimSpace.
  assert (trim_left s = s) as ->.
  { destruct s as [|c s]; [done|]. cbn in *. by destruct (is_space c). }
  induction s as [|c s IH]; [done|]. cbn in Hs. apply andb_true_iff in Hs as [Hc Hs]. cbn [trim_right].
  rewrite IH by done. apply negb_true_iff in Hc. rewrite Hc. by destruct s.
Qed.

Lemma digits_not_space s : all_bytes is_digit s = true -> all_bytes (fun c => negb (is_space c)) s = true.
Proof.
  induction s as [|c s IH]; [done|]. cbn. intros [Hc Hs]%andb_true_iff. rewrite IH, andb_true_r by done.
  pose proof (byte_check (fun c => negb (is_digit c) || negb (is_space c)) eq_refl c) as Hb. cbn in Hb. by rewrite Hc in Hb.
Qed.

Lemma FormatInt_digits n : 0 <= n -> all_bytes is_digit (FormatInt n) = true.
Proof.
  intros Hn. unfold FormatInt. rewrite decide_False by lia.
  enough (forall fuel n acc, 0 <= n -> all_bytes is_digit acc = true ->
            all_bytes is_digit (fmt_digits fuel n acc) = true) as Hf by (by apply Hf).
  clear n Hn. induction fuel as [|fuel IH]; intros n acc Hn Ha; cbn [fmt_digits]; [done|].
  assert (all_bytes is_digit (String (digit (n mod 10)) acc) = true) as Ha'.
  { cbn. rewrite Ha, andb_true_r. by apply is_digit_digit, Z.mod_pos_bound. }
  case_decide; [done|]. apply IH; [by apply Z.div_pos|done].
Qed.

Lemma TrimSpace_seconds n : 0 <= n -> TrimSpace (FormatInt n +:+ "s") = (FormatInt n +:+ "s")%string.
Proof.
  intros Hn. apply TrimSpace_id. rewrite all_bytes_app. by rewrite digits_not_space by by apply FormatInt_digits.
Qed.

Lemma digit_lower c : is_digit c = true -> lower_byte c = c.
Proof.
  intros Hc. pose proof (byte_check (fun c => negb (is_digit c) || Ascii.eqb (lower_byte c) c) eq_refl c) as Hb.
  cbn beta in Hb. rewrite Hc in Hb. by apply Ascii.eqb_eq.
Qed.

Lemma seconds_not_off n : 0 <= n -> ToLower (FormatInt n +:+ "s") ∉ [""; "0"; "false"; "off"].
Proof.
  intros Hn. unfold FormatInt. rewrite decide_False by lia.
  destruct (fmt_digits_first 20 n "") as (c & r & -> & Hc); [lia|lia|]. unfold ToLower. cbn.
  intros Hin. repeat (apply elem_of_cons in Hin as [Hin|Hin]); [done| | | |by apply not_elem_of_nil in Hin];
    injection Hin as Hlc Hr; [by destruct r| |]; rewrite (digit_lower c Hc) in Hlc; by subst c.
Qed.

(** Cache lifetimes are read as configured. The off spellings and a blank
    value give no caching, a whole number of seconds up to the int64 range gives
    exactly that many nanoseconds, and every accepted value is a non-negative
    duration. *)
Theorem cache_ttl_values :
  (forall s d, ParseCacheTTL s = Some d -> 0 <= d <= maxInt64) /\
  (forall s, ToLower (TrimSpace s) ∈ [""; "0"; "false"; "off"] -> ParseCacheTTL s = Some 0) /\
  (forall n, 0 <= n <= 9223372036 -> ParseCacheTTL (FormatInt n +:+ "s") = Some (n * Second)).
Proof.
  split_and!.
  - intros s d. unfold ParseCacheTTL. case_decide; [intros; simplify_eq; unfold maxInt64; lia|].
    destruct (ParseDuration (TrimSpace s)) as [x|] eqn:Hx; cbn; [|done]. case_decide; [done|].
    intros; simplify_eq. apply ParseDuration_range in Hx. lia.
  - intros s Hs. unfold ParseCacheTTL. by rewrite decide_True.
  - intros n Hn. unfold ParseCacheTTL. rewrite TrimSpace_seconds by lia.
    rewrite ParseDuration_seconds by done. cbn.
    case_decide as Hd; [|rewrite decide_False; [done|unfold Second; lia]].
    exfalso. apply (seconds_not_off n); [lia|done].
Qed.

Lemma cache_ttl_values_witness : ParseCacheTTL "30s" = Some (30 * Second).
Proof. apply (proj2 (proj2 cache_ttl_values) 30). lia. Defined.
