(* ===== verification/LabelOverlay.v ===== *)
(** * The central-label overlay: cmd/proxy/labeloverlay.go

    How labels stored in Redis replace container labels, and the manager that
    keeps the last good overlay through any Redis failure. *)
From S2P Require Import Prelude GoString Duration Http Labels.
Open Scope string_scope.

(** ** Containers (docker.go) *)

Record dockerContainer := mkContainer {
  c_ID : string;
  c_Names : list string;
  c_State : string;
  c_Status : string;
  c_Labels : gmap string string;
  c_Networks : gmap string string;   (* network name to IP address *)
}.

Definition set_Labels (l : gmap string string) (c : dockerContainer) : dockerContainer :=
  mkContainer (c_ID c) (c_Names c) (c_State c) (c_Status c) l (c_Networks c).

(** A label read from a Go map: absent is empty. *)
Definition label (c : dockerContainer) (k : string) : string := default "" (c_Labels c !! k).

(** ** The overlay *)

Inductive source := SrcRedis | SrcDisk | SrcNone.
#[export] Instance source_eq_dec : EqDecision source.
Proof. solve_decision. Defined.

Record labelOverlay := mkOverlay {
  o_Version : Z;                                       (* uint64 *)
  o_Source : source;
  o_LoadedAt : Z;
  o_Services : gmap string (gmap string string);
}.

(** The loop over the managed keys, for one container of an adopted service. *)
Fixpoint overlay_keys (ks : list string) (m nl : gmap string string) : gmap string string :=
  match ks with
  | [] => nl
  | k :: ks => overlay_keys ks m (match m !! k with Some v => <[k := v]> nl | None => delete k nl end)
  end.

Definition overlay_container (ov : labelOverlay) (c : dockerContainer) : dockerContainer :=
  let svc := label c ServiceKey in
  match o_Services ov !! svc with
  | Some m => if decide (svc = "") then c else set_Labels (overlay_keys ManagedKeys m (c_Labels c)) c
  | None => c
  end.

Definition applyLabelOverlay (cs : list dockerContainer) (ov : option labelOverlay) : list dockerContainer :=
  match ov with
  | None => cs
  | Some ov => if decide (o_Services ov = ∅) then cs else overlay_container ov <$> cs
  end.

(** The registry is checked by [ValidateValue], whose panic is impossible. *)
Definition valid_pair (kv : string * string) : Prop := ValidateValue (fst kv) (snd kv) = Ret None.
#[export] Instance error_eq_dec : EqDecision error.
Proof. solve_decision. Defined.
#[export] Instance go_error_eq_dec : EqDecision (go (option error)).
Proof. solve_decision. Defined.
#[export] Instance valid_pair_dec kv : Decision (valid_pair kv).
Proof. unfold valid_pair. apply _. Defined.

Definition sanitizeOverlayServices (services : gmap string (gmap string string)) : gmap string (gmap string string) :=
  filter valid_pair <$> filter (fun kv => ValidService (fst kv) = true) services.

(** ** The Redis source

    One load is three round trips; each reply is an argument, so that other
    writers may act in between. *)

Inductive version_reply := VErr | VNone | VSome (v : Z).
Inductive load_reply := LErr | LWiped | LOk (ov : labelOverlay).

(** [hashes] is the pipelined HGETALL of the valid members: a missing hash
    reads as empty. *)
Definition Load (v : version_reply) (members : option (list string))
    (hashes : option (gmap string (gmap string string))) (now : Z) : load_reply :=
  match v with
  | VErr => LErr
  | VNone => LWiped
  | VSome v =>
      match members with
      | None => LErr
      | Some members =>
          let valid := filter (fun svc => ValidService svc = true) members in
          let raw h := list_to_map ((fun svc => (svc, default ∅ (h !! svc))) <$> valid) : gmap string (gmap string string) in
          match valid, hashes with
          | [], _ => LOk (mkOverlay v SrcRedis now ∅)
          | _, None => LErr
          | _, Some h => LOk (mkOverlay v SrcRedis now (sanitizeOverlayServices (raw h)))
          end
      end
  end.

(** ** The manager *)

(** [m_disk] is the cache file: the last overlay saved, as JSON reads it back.
    [None] when there is none or it cannot be read or parsed. *)
Record overlayManager := mkManager {
  cur : option labelOverlay;
  redisOK : bool;
  wipedLogged : bool;
  disk : option labelOverlay;
}.

Definition newOverlayManager (d : option labelOverlay) : overlayManager := mkManager None false false d.

Definition set_redisOK (ok : bool) (m : overlayManager) : overlayManager :=
  mkManager (cur m) ok (wipedLogged m) (disk m).
Definition set_cur (ov : option labelOverlay) (m : overlayManager) : overlayManager :=
  mkManager ov (redisOK m) (wipedLogged m) (disk m).
Definition set_wipedLogged (w : bool) (m : overlayManager) : overlayManager :=
  mkManager (cur m) (redisOK m) w (disk m).
Definition set_disk (d : option labelOverlay) (m : overlayManager) : overlayManager :=
  mkManager (cur m) (redisOK m) (wipedLogged m) d.

Definition set_Source (s : source) (ov : labelOverlay) : labelOverlay :=
  mkOverlay (o_Version ov) s (o_LoadedAt ov) (o_Services ov).

Definition loadOverlayCache (d : option labelOverlay) : option labelOverlay :=
  (fun ov => mkOverlay (o_Version ov) SrcDisk (o_LoadedAt ov) (sanitizeOverlayServices (o_Services ov))) <$> d.

Definition handleWipedLocked (now : Z) (m : overlayManager) : bool * overlayManager :=
  match cur m with
  | Some c =>
      if decide (o_Services c <> ∅) then
        let m := set_wipedLogged true m in
        (false, if decide (o_Source c <> SrcDisk) then set_cur (Some (set_Source SrcDisk c)) m else m)
      else if decide (o_Source c <> SrcRedis \/ o_Version c <> 0)
      then (false, set_cur (Some (mkOverlay 0 SrcRedis now ∅)) m)
      else (false, m)
  | None => (false, set_cur (Some (mkOverlay 0 SrcRedis now ∅)) m)
  end.

(** [check]: [None] is an error, [Some] whether routing changed. [saved] is
    whether the disk cache could be written. *)
Definition check (v : version_reply) (l : load_reply) (saved : bool) (now : Z) (m : overlayManager)
  : option bool * overlayManager :=
  let load m :=
    match l with
    | LErr => (None, set_redisOK false m)
    | LWiped => let '(c, m) := handleWipedLocked now (set_redisOK true m) in (Some c, m)
    | LOk ov =>
        let m := set_cur (Some ov) (set_redisOK true m) in
        (Some true, if saved : bool then set_disk (Some ov) m else m)
    end in
  match v with
  | VErr => (None, set_redisOK false m)
  | VNone => let '(c, m) := handleWipedLocked now (set_redisOK true m) in (Some c, m)
  | VSome v =>
      let m := set_wipedLogged false m in
      match cur m with
      | Some c => if decide (o_Source c = SrcRedis /\ o_Version c = v)
                  then (Some false, set_redisOK true m) else load m
      | None => load m
      end
  end.

Definition Init (v : version_reply) (l : load_reply) (saved : bool) (now : Z) (m : overlayManager) : overlayManager :=
  let m := match loadOverlayCache (disk m) with Some ov => set_cur (Some ov) m | None => m end in
  (check v l saved now m).2.

(** One turn of [Run]: the next delay, and whether [refresh] is called. *)
Definition overlayPollInterval : Z := 5 * Second.
Definition overlayMaxBackoff : Z := 30 * Second.
Definition run_turn (delay : Z) (v : version_reply) (l : load_reply) (saved : bool) (now : Z) (m : overlayManager)
  : Z * bool * overlayManager :=
  match check v l saved now m with
  | (None, m) => (Z.min (delay * 2) overlayMaxBackoff, false, m)
  | (Some changed, m) => (overlayPollInterval, changed, m)
  end.

Record labelsStatus := mkStatus {
  ls_Version : Z;
  ls_Source : source;
  ls_LoadedAt : option Z;
  ls_RedisOK : bool;
  ls_Services : gmap string (gmap string string);
}.

Definition status (m : option overlayManager) : labelsStatus :=
  match m with
  | None => mkStatus 0 SrcNone None false ∅
  | Some m =>
      match cur m with
      | None => mkStatus 0 SrcNone None (redisOK m) ∅
      | Some ov => mkStatus (o_Version ov) (o_Source ov) (Some (o_LoadedAt ov)) (redisOK m) (o_Services ov)
      end
  end.

(** * Properties *)

#[local] Opaque ManagedKeys Managed.

Lemma overlay_keys_lookup ks m nl k :
  overlay_keys ks m nl !! k = if decide (k ∈ ks) then m !! k else nl !! k.
Proof.
  revert nl. induction ks as [|k' ks IH]; intros nl; cbn [overlay_keys]; [done|].
  rewrite IH. destruct (decide (k ∈ ks)) as [Hk|Hk].
  - by rewrite decide_True by set_solver.
  - destruct (decide (k = k')) as [->|Hne].
    + rewrite decide_True by set_solver. destruct (m !! k'); [apply lookup_insert_eq|apply lookup_delete_eq].
    + rewrite decide_False by set_solver.
      destruct (m !! k'); [by rewrite lookup_insert_ne|by rewrite lookup_delete_ne].
Qed.

(** What the overlay makes of one label. *)
Definition effective (ov : labelOverlay) (c : dockerContainer) (k : string) : option string :=
  match o_Services ov !! label c ServiceKey with
  | Some m => if negb (bool_decide (label c ServiceKey = "")) && Managed k then m !! k else c_Labels c !! k
  | None => c_Labels c !! k
  end.

(** The overlay is authoritative for managed keys and touches nothing else.
    Applied to a list of containers it returns them in order with every field but
    the labels equal; for a container of an adopted service each managed key has
    the overlay's value, or none when the overlay has none; every other label
    (identity, auth, per-replica) and every container of another service is as it
    was. *)
Theorem overlay_authoritative (cs : list dockerContainer) (ov : labelOverlay) :
  Forall2 (fun c c' => set_Labels ∅ c' = set_Labels ∅ c /\ forall k, c_Labels c' !! k = effective ov c k)
    cs (applyLabelOverlay cs (Some ov)).
Proof.
  assert (Hc : forall c, set_Labels ∅ (overlay_container ov c) = set_Labels ∅ c /\
            forall k, c_Labels (overlay_container ov c) !! k = effective ov c k).
  { intros c. unfold overlay_container, effective. destruct (o_Services ov !! label c ServiceKey) as [m|]; [|done].
    case_decide as Hs; [by rewrite bool_decide_true|]. rewrite bool_decide_false by done.
    split; [reflexivity|]. intros k. cbn [set_Labels c_Labels]. rewrite overlay_keys_lookup.
    destruct (Managed k) eqn:Hm; [rewrite decide_True|rewrite decide_False]; try done;
      rewrite elem_of_ManagedKeys; congruence. }
  unfold applyLabelOverlay. case_decide as He.
  - apply Forall2_same_length_lookup_2; [done|]. intros i c c' Hi Hi'. simplify_eq. split; [done|].
    intros k. unfold effective. by rewrite He, lookup_empty.
  - induction cs as [|c cs IH]; cbn; constructor; auto.
Qed.

(** Only valid services, managed keys and admitted values. *)
Definition clean (services : gmap string (gmap string string)) : Prop :=
  forall svc m, services !! svc = Some m ->
    ValidService svc = true /\ forall k v, m !! k = Some v -> admitted k v.

Lemma sanitize_clean services : clean (sanitizeOverlayServices services).
Proof.
  intros svc m Hm. unfold sanitizeOverlayServices in Hm. rewrite lookup_fmap in Hm.
  destruct (filter (fun kv => ValidService (fst kv) = true) services !! svc) as [m0|] eqn:Hf; [|done]. cbn in Hm.
  simplify_eq. apply map_lookup_filter_Some in Hf as [_ Hv]. split; [done|].
  intros k v [_ Hkv]%map_lookup_filter_Some. unfold valid_pair in Hkv. cbn in Hkv.
  destruct (ValidateValue_spec k v) as (e & He & Ha). rewrite He in Hkv. simplify_eq. by apply Ha.
Qed.

Lemma empty_clean : clean ∅.
Proof. intros svc m. by rewrite lookup_empty. Qed.

(** One poll: the replies of its version check and of its load. *)
Record turn := mkTurn {
  tn_version : version_reply;
  tn_load_version : version_reply;
  tn_members : option (list string);
  tn_hashes : option (gmap string (gmap string string));
  tn_saved : bool;
  tn_now : Z;
}.

Definition turn_load (t : turn) : load_reply := Load (tn_load_version t) (tn_members t) (tn_hashes t) (tn_now t).
Definition turn_check (t : turn) (m : overlayManager) : option bool * overlayManager :=
  check (tn_version t) (turn_load t) (tn_saved t) (tn_now t) m.

(** The manager after [Init] and then a run of polls. *)
Definition polls (ts : list turn) (m : overlayManager) : overlayManager :=
  fold_left (fun m t => (turn_check t m).2) ts m.

Definition started (d : option labelOverlay) (t : turn) (ts : list turn) : overlayManager :=
  polls ts (Init (tn_version t) (turn_load t) (tn_saved t) (tn_now t) (newOverlayManager d)).

Definition current_clean (m : overlayManager) : Prop :=
  match cur m with Some ov => clean (o_Services ov) | None => True end.

Lemma Load_clean v ms hs now ov : Load v ms hs now = LOk ov -> clean (o_Services ov) /\ o_Source ov = SrcRedis.
Proof.
  unfold Load. destruct v; [done..|]. destruct ms as [ms|]; [|done].
  destruct (filter _ ms), hs; intros; simplify_eq; split; cbn; try done; apply empty_clean || apply sanitize_clean.
Qed.

Lemma wiped_clean now m : current_clean m -> current_clean (handleWipedLocked now m).2.
Proof.
  unfold current_clean, handleWipedLocked. destruct (cur m) as [c|] eqn:Hc; [|intros _; apply empty_clean].
  case_decide; cbn; [|case_decide; cbn; [intros _; apply empty_clean|by rewrite Hc]].
  case_decide; cbn; [done|by rewrite Hc].
Qed.

Lemma check_clean t m : current_clean m -> current_clean (turn_check t m).2.
Proof.
  intros Hm. unfold turn_check, check. destruct (tn_version t) as [| |v].
  - exact Hm.
  - pose proof (wiped_clean (tn_now t) (set_redisOK true m) Hm) as Hw.
    by destruct (handleWipedLocked (tn_now t) (set_redisOK true m)).
  - assert (current_clean match turn_load t with
       | LErr => (None : option bool, set_redisOK false (set_wipedLogged false m))
       | LWiped => let '(c, m) := handleWipedLocked (tn_now t) (set_redisOK true (set_wipedLogged false m)) in (Some c, m)
       | LOk ov => (Some true, if tn_saved t
                               then set_disk (Some ov) (set_cur (Some ov) (set_redisOK true (set_wipedLogged false m)))
                               else set_cur (Some ov) (set_redisOK true (set_wipedLogged false m)))
       end.2) as Hl.
    { destruct (turn_load t) as [| |ov] eqn:Hl; [exact Hm| |].
      - pose proof (wiped_clean (tn_now t) (set_redisOK true (set_wipedLogged false m)) Hm) as Hw.
        by destruct (handleWipedLocked (tn_now t) (set_redisOK true (set_wipedLogged false m))).
      - apply Load_clean in Hl as [Hl _]. by destruct (tn_saved t). }
    cbn zeta. destruct (cur (set_wipedLogged false m)) as [c|]; [|exact Hl]. case_decide; [exact Hm|exact Hl].
Qed.

(** The live overlay is always clean. Whatever the cache file held at start
    and whatever Redis answers in any sequence of polls, the overlay applied to
    containers names only valid services, and in them only managed keys with
    admitted values: corrupt or hostile data never reaches routing, so no Redis
    content can set an auth or identity label. *)
Theorem overlay_always_clean (d : option labelOverlay) (t : turn) (ts : list turn) (ov : labelOverlay) :
  cur (started d t ts) = Some ov -> clean (o_Services ov).
Proof.
  intros Hov. enough (current_clean (started d t ts)) as Hc by (unfold current_clean in Hc; by rewrite Hov in Hc).
  unfold started, polls.
  assert (current_clean (Init (tn_version t) (turn_load t) (tn_saved t) (tn_now t) (newOverlayManager d))) as H0.
  { apply (check_clean t). cbn. destruct d as [o|]; cbn; [apply sanitize_clean|done]. }
  revert H0. generalize (Init (tn_version t) (turn_load t) (tn_saved t) (tn_now t) (newOverlayManager d)).
  clear. induction ts as [|t ts IH]; intros m Hm; cbn; [done|]. by apply IH, check_clean.
Qed.

(** A poll that gets no data: an error or a missing version key, at either step. *)
Definition no_data (t : turn) : Prop :=
  match tn_version t with
  | VSome _ => match turn_load t with LOk _ => False | _ => True end
  | _ => True
  end.

Lemma wiped_keeps now m c :
  cur m = Some c -> o_Services c <> ∅ ->
  (handleWipedLocked now m).1 = false /\
  exists c', cur (handleWipedLocked now m).2 = Some c' /\ o_Services c' = o_Services c /\ o_Version c' = o_Version c.
Proof.
  intros Hc Hne. unfold handleWipedLocked. rewrite Hc. rewrite decide_True by done.
  split; [done|]. cbn. case_decide; cbn; [by eexists|]. by exists c.
Qed.

Lemma check_keeps t m c :
  no_data t -> cur m = Some c -> o_Services c <> ∅ ->
  (turn_check t m).1 <> Some true /\
  exists c', cur (turn_check t m).2 = Some c' /\ o_Services c' = o_Services c /\ o_Version c' = o_Version c.
Proof.
  intros Hnd Hc Hne. unfold turn_check, check, no_data in *. destruct (tn_version t) as [| |v].
  - cbn. split; [done|]. by exists c.
  - destruct (wiped_keeps (tn_now t) (set_redisOK true m) c Hc Hne) as [Hf Hk].
    destruct (handleWipedLocked (tn_now t) (set_redisOK true m)) as [b m']. cbn in *. by subst b.
  - cbn. rewrite Hc. case_decide; [cbn; split; [done|]; by exists c|].
    destruct (turn_load t); [cbn; split; [done|]; by exists c| |done].
    destruct (wiped_keeps (tn_now t) (set_redisOK true (set_wipedLogged false m)) c Hc Hne) as [Hf Hk].
    destruct (handleWipedLocked (tn_now t) (set_redisOK true (set_wipedLogged false m))) as [b m']. cbn in *. by subst b.
Qed.

(** The overlay fails static. Once services are adopted, however long Redis
    stays unreachable, errors half-way through a load, or has lost its data, every
    poll leaves the services of the live overlay and its version exactly as they
    were and never asks for a refresh. *)
Theorem overlay_fails_static (m : overlayManager) (c : labelOverlay) (ts : list turn) (t : turn) :
  cur m = Some c -> o_Services c <> ∅ -> Forall no_data (ts ++ [t])%list ->
  (turn_check t (polls ts m)).1 <> Some true /\
  exists c', cur (turn_check t (polls ts m)).2 = Some c' /\
    o_Services c' = o_Services c /\ o_Version c' = o_Version c.
Proof.
  intros Hc Hne Hnd. apply Forall_app in Hnd as [Hts Ht]. apply (proj1 (Forall_singleton _ _)) in Ht. unfold polls.
  revert m c Hc Hne. induction Hts as [|t' ts Ht' Hts IH]; intros m c Hc Hne; cbn [fold_left].
  - exact (check_keeps t m c Ht Hc Hne).
  - destruct (check_keeps t' m c Ht' Hc Hne) as [_ (c' & Hc' & Hs' & Hv')].
    rewrite <- Hs', <- Hv'. apply IH; [done|]. by rewrite Hs'.
Qed.

(** * Witnesses *)

Definition ex_overlay : labelOverlay :=
  mkOverlay 3 SrcRedis 10 {["shop" := {["proxy.sticky" := "true"]}]}.
Definition ex_manager : overlayManager := mkManager (Some ex_overlay) true false None.
Definition ex_turn : turn :=
  mkTurn (VSome 4) (VSome 4) (Some ["shop"]) (Some {["shop" := {["proxy.auth" := "false"; "proxy.strip" := "true"]}]}) true 20.

Lemma overlay_always_clean_witness :
  exists ov, cur (started (Some ex_overlay) ex_turn []) = Some ov /\ clean (o_Services ov) /\
    o_Services ov !! "shop" = Some {["proxy.strip" := "true"]}.
Proof.
  destruct (cur (started (Some ex_overlay) ex_turn [])) as [ov|] eqn:Hov; [|by vm_compute in Hov].
  exists ov. split_and!; [done|by apply (overlay_always_clean (Some ex_overlay) ex_turn [])|].
  vm_compute in Hov. simplify_eq. by vm_compute.
Defined.

Lemma overlay_fails_static_witness :
  exists c', cur (turn_check (mkTurn VNone VErr None None false 30)
    (polls [mkTurn VErr VErr None None false 20; mkTurn (VSome 7) VNone None None false 25] ex_manager)).2 = Some c' /\
    o_Services c' = o_Services ex_overlay.
Proof.
  destruct (overlay_fails_static ex_manager ex_overlay
    [mkTurn VErr VErr None None false 20; mkTurn (VSome 7) VNone None None false 25]
    (mkTurn VNone VErr None None false 30)) as [_ (c' & Hc & Hs & _)].
  - done.
  - by vm_compute.
  - repeat (apply Forall_cons_2; [by vm_compute|]). apply Forall_nil_2.
  - by exists c'.
Defined.
