(* ===== verification/Json.v ===== *)
(** * JSON as encoding/json reads and writes it

    The encoder of strings and integers used by the token payloads, the parser
    of JSON values, and the decoding of an object's fields into a struct. *)
From S2P Require Import Prelude GoString Duration Sha256.
Open Scope string_scope.

Definition quote : ascii := chr 34.
Definition backslash : ascii := chr 92.

(** ** Encoding *)

(** The first rune of a string: its bytes when they are valid UTF-8, and the
    rest. *)
Fixpoint prefix_bytes (n : nat) (s : string) : string :=
  match n, s with
  | S n, String c s => String c (prefix_bytes n s)
  | _, _ => ""
  end.
Definition rune_bytes (c : ascii) (s : string) : option string :=
  if in_N c 0 127 then Some (String c "")
  else let k := (String.length s - String.length (after_rune c s))%nat in
       if decide (k = 0)%nat then None else Some (String c (prefix_bytes k s)).

Definition u_escape (hi lo : string) : string := String backslash ("u" +:+ hi +:+ lo).

(** One ASCII byte inside a string, with the HTML-safe escapes. *)
Definition enc_byte (c : ascii) : string :=
  if Ascii.eqb c quote then String backslash (String quote "")
  else if Ascii.eqb c backslash then String backslash (String backslash "")
  else if Ascii.eqb c (chr 8) then String backslash "b"
  else if Ascii.eqb c (chr 12) then String backslash "f"
  else if Ascii.eqb c (chr 10) then String backslash "n"
  else if Ascii.eqb c (chr 13) then String backslash "r"
  else if Ascii.eqb c (chr 9) then String backslash "t"
  else if in_N c 0 31 || has_byte c "<>&" then u_escape "00" (hex (String c ""))
  else String c "".

Definition line_sep : string := String (chr 226) (String (chr 128) (String (chr 168) "")).   (* U+2028 *)
Definition para_sep : string := String (chr 226) (String (chr 128) (String (chr 169) "")).   (* U+2029 *)

Fixpoint enc_chars (fuel : nat) (s : string) : string :=
  match fuel, s with
  | S fuel, String c s =>
      if in_N c 0 127 then enc_byte c +:+ enc_chars fuel s
      else match rune_bytes c s with
           | None => u_escape "ff" "fd" +:+ enc_chars fuel s
           | Some r =>
               (if decide (r = line_sep) then u_escape "20" "28"
                else if decide (r = para_sep) then u_escape "20" "29" else r)
               +:+ enc_chars fuel (after_rune c s)
           end
  | _, _ => ""
  end.

Definition enc_string (s : string) : string :=
  String quote (enc_chars (String.length s) s) +:+ String quote "".

(** ** Parsing *)

Inductive json :=
| JNull
| JBool (b : bool)
| JNum (lit : string)
| JStr (s : string)
| JArr (l : list json)
| JObj (l : list (string * json)).

Definition is_ws (c : ascii) : bool :=
  Ascii.eqb c " " || Ascii.eqb c (chr 9) || Ascii.eqb c (chr 10) || Ascii.eqb c (chr 13).
Fixpoint skip_ws (s : string) : string :=
  match s with
  | String c s' => if is_ws c then skip_ws s' else s
  | EmptyString => s
  end.

Definition hex_val (c : ascii) : option Z :=
  if is_digit c then Some (digit_val c)
  else if in_range c "a" "f" then Some (Z.of_N (ascii_N c) - 87)
  else if in_range c "A" "F" then Some (Z.of_N (ascii_N c) - 55)
  else None.

Definition hex4 (s : string) : option (Z * string) :=
  match s with
  | String a (String b (String c (String d r))) =>
      a ← hex_val a; b ← hex_val b; c ← hex_val c; d ← hex_val d;
      Some (((a * 16 + b) * 16 + c) * 16 + d, r)
  | _ => None
  end.

(** [utf8.AppendRune]. *)
Definition byte_of (z : Z) : ascii := chr (Z.to_N z).
Definition utf8 (r : Z) : string :=
  if decide (r < 128) then String (byte_of r) ""
  else if decide (r < 2048) then String (byte_of (192 + r / 64)) (String (byte_of (128 + r mod 64)) "")
  else if decide (r < 65536) then
    String (byte_of (224 + r / 4096)) (String (byte_of (128 + r / 64 mod 64)) (String (byte_of (128 + r mod 64)) ""))
  else String (byte_of (240 + r / 262144)) (String (byte_of (128 + r / 4096 mod 64))
         (String (byte_of (128 + r / 64 mod 64)) (String (byte_of (128 + r mod 64)) ""))).

Definition replacement : string := utf8 65533.

(** The code point after [\u], pairing surrogates; one left alone is replaced. *)
Definition unicode_escape (s : string) : option (string * string) :=
  '(r, s1) ← hex4 s;
  if decide (55296 <= r < 56320) then
    match s1 with
    | String b (String u s2) =>
        match (if Ascii.eqb b backslash && Ascii.eqb u "u" then hex4 s2 else None) with
        | Some (r2, s3) =>
            if decide (56320 <= r2 < 57344)
            then Some (utf8 ((r - 55296) * 1024 + (r2 - 56320) + 65536), s3)
            else Some (replacement, s1)
        | None => Some (replacement, s1)
        end
    | _ => Some (replacement, s1)
    end
  else if decide (56320 <= r < 57344) then Some (replacement, s1) else Some (utf8 r, s1).

Definition simple_escape (c : ascii) : option ascii :=
  if Ascii.eqb c quote || Ascii.eqb c backslash || Ascii.eqb c "/" then Some c
  else if Ascii.eqb c "b" then Some (chr 8)
  else if Ascii.eqb c "f" then Some (chr 12)
  else if Ascii.eqb c "n" then Some (chr 10)
  else if Ascii.eqb c "r" then Some (chr 13)
  else if Ascii.eqb c "t" then Some (chr 9)
  else None.

(** The body of a string up to its closing quote, unescaped. Each step consumes
    a byte at least. *)
Fixpoint parse_chars (fuel : nat) (s : string) : option (string * string) :=
  match fuel, s with
  | S fuel, String c s' =>
      if Ascii.eqb c quote then Some ("", s')
      else if Ascii.eqb c backslash then
        match s' with
        | String e s2 =>
            if Ascii.eqb e "u" then
              '(r, s3) ← unicode_escape s2; '(t, rest) ← parse_chars fuel s3; Some (r +:+ t, rest)
            else
              d ← simple_escape e; '(t, rest) ← parse_chars fuel s2; Some (String d t, rest)
        | EmptyString => None
        end
      else if in_N c 0 31 then None
      else
        match rune_bytes c s' with
        | Some r => '(t, rest) ← parse_chars fuel (after_rune c s'); Some (r +:+ t, rest)
        | None => '(t, rest) ← parse_chars fuel s'; Some (replacement +:+ t, rest)
        end
  | _, _ => None
  end.

Definition parse_string (s : string) : option (string * string) := parse_chars (String.length s) s.

(** The characters of a number and the check of its grammar. *)
Fixpoint take_while (p : ascii -> bool) (s : string) : string * string :=
  match s with
  | String c s' => if p c then let '(a, b) := take_while p s' in (String c a, b) else ("", s)
  | EmptyString => ("", "")
  end.

Definition digits1 (s : string) : option string :=
  let '(d, r) := take_while is_digit s in if decide (d = "") then None else Some r.

Definition number_ok (s : string) : bool :=
  let s := match s with String c r => if Ascii.eqb c "-" then r else s | EmptyString => s end in
  let int := match s with
             | String c r => if Ascii.eqb c "0" then Some r else if is_digit c then digits1 s else None
             | EmptyString => None
             end in
  let frac s := match s with
                | String c r => if Ascii.eqb c "." then digits1 r else Some s
                | EmptyString => Some s
                end in
  let exp s := match s with
               | String c r =>
                   if Ascii.eqb c "e" || Ascii.eqb c "E" then
                     digits1 match r with
                             | String d r' => if Ascii.eqb d "+" || Ascii.eqb d "-" then r' else r
                             | EmptyString => r
                             end
                   else Some s
               | EmptyString => Some s
               end in
  bool_decide ((s ← int; s ← frac s; exp s) = Some "").

Definition num_char (c : ascii) : bool := is_digit c || has_byte c "+-.eE".

(** The parser; every nested call is on a shorter string, so the length is fuel
    enough. *)
Fixpoint parse_value (fuel : nat) (s : string) : option (json * string) :=
  match fuel with
  | O => None
  | S fuel =>
      match skip_ws s with
      | EmptyString => None
      | String c r =>
          if Ascii.eqb c quote then '(t, rest) ← parse_string r; Some (JStr t, rest)
          else if Ascii.eqb c "{" then
            match skip_ws r with
            | String d r' => if Ascii.eqb d "}" then Some (JObj [], r')
                             else '(l, rest) ← parse_members fuel r; Some (JObj l, rest)
            | EmptyString => None
            end
          else if Ascii.eqb c "[" then
            match skip_ws r with
            | String d r' => if Ascii.eqb d "]" then Some (JArr [], r')
                             else '(l, rest) ← parse_elements fuel r; Some (JArr l, rest)
            | EmptyString => None
            end
          else match CutPrefix (String c r) "true", CutPrefix (String c r) "false", CutPrefix (String c r) "null" with
               | Some rest, _, _ => Some (JBool true, rest)
               | _, Some rest, _ => Some (JBool false, rest)
               | _, _, Some rest => Some (JNull, rest)
               | None, None, None =>
                   let '(n, rest) := take_while num_char (String c r) in
                   if number_ok n then Some (JNum n, rest) else None
               end
      end
  end
with parse_members (fuel : nat) (s : string) : option (list (string * json) * string) :=
  match fuel with
  | O => None
  | S fuel =>
      match skip_ws s with
      | String q r =>
          if Ascii.eqb q quote then
            '(k, r1) ← parse_string r;
            match skip_ws r1 with
            | String c r2 =>
                if Ascii.eqb c ":" then
                  '(v, r3) ← parse_value fuel r2;
                  match skip_ws r3 with
                  | String d r4 =>
                      if Ascii.eqb d "," then '(l, rest) ← parse_members fuel r4; Some ((k, v) :: l, rest)
                      else if Ascii.eqb d "}" then Some ([(k, v)], r4)
                      else None
                  | EmptyString => None
                  end
                else None
            | EmptyString => None
            end
          else None
      | EmptyString => None
      end
  end
with parse_elements (fuel : nat) (s : string) : option (list json * string) :=
  match fuel with
  | O => None
  | S fuel =>
      '(v, r) ← parse_value fuel s;
      match skip_ws r with
      | String d r' =>
          if Ascii.eqb d "," then '(l, rest) ← parse_elements fuel r'; Some (v :: l, rest)
          else if Ascii.eqb d "]" then Some ([v], r')
          else None
      | EmptyString => None
      end
  end.

(** A whole document: one value and nothing after it. *)
Definition parse (s : string) : option json :=
  '(v, rest) ← parse_value (S (String.length s)) s;
  if decide (skip_ws rest = "") then Some v else None.

(** ** Decoding into a struct *)

(** The values given for a field, in order: keys match exactly or, failing any
    exact field, up to case. [names] are all the struct's field names. *)
Definition field_matches (names : list string) (name key : string) : bool :=
  bool_decide (key = name) || (negb (bool_decide (key ∈ names)) && EqualFold key name).

Definition field_values (names : list string) (name : string) (l : list (string * json)) : list json :=
  snd <$> filter (fun kv => field_matches names name (fst kv) = true) l.

(** Decoding each value in turn: null leaves the field, a value of another type
    is an error. *)
Fixpoint decode_all {A} (dec : json -> option A) (vs : list json) (x : A) : option A :=
  match vs with
  | [] => Some x
  | JNull :: vs => decode_all dec vs x
  | v :: vs => y ← dec v; decode_all dec vs y
  end.

Definition dec_string (j : json) : option string := match j with JStr s => Some s | _ => None end.
Definition dec_int64 (j : json) : option Z := match j with JNum n => ParseInt n | _ => None end.

Definition get_string (names : list string) (name : string) (l : list (string * json)) : option string :=
  decode_all dec_string (field_values names name l) "".
Definition get_int64 (names : list string) (name : string) (l : list (string * json)) : option Z :=
  decode_all dec_int64 (field_values names name l) 0.

(** ** Flat objects are read back *)

Definition ascii_string (s : string) : Prop := all_bytes (fun c => in_N c 0 127) s = true.

(** The values of a flat object: a string or an integer. *)
Definition enc_flat (v : string + Z) : string :=
  match v with inl s => enc_string s | inr n => FormatInt n end.
Definition json_flat (v : string + Z) : json :=
  match v with inl s => JStr s | inr n => JNum (FormatInt n) end.
Definition enc_field (kv : string * (string + Z)) : string := enc_string (fst kv) +:+ ":" +:+ enc_flat (snd kv).
Definition enc_object (l : list (string * (string + Z))) : string := "{" +:+ Join (enc_field <$> l) "," +:+ "}".

Definition flat_ok (v : string + Z) : Prop :=
  match v with inl s => ascii_string s | inr n => minInt64 <= n <= maxInt64 end.

Lemma parse_chars_step fuel c rest :
  in_N c 0 127 = true ->
  parse_chars (S fuel) (enc_byte c +:+ rest) = ('(t, r) ← parse_chars fuel rest; Some (String c t, r)).
Proof.
  intros Hc. destruct c as [[] [] [] [] [] [] [] []]; try discriminate Hc; clear Hc;
    (reflexivity || (cbn -[parse_chars]; reflexivity)).
Qed.

Lemma parse_chars_enc s fuel rest :
  ascii_string s -> (String.length s < fuel)%nat ->
  parse_chars fuel (enc_chars (String.length s) s +:+ String quote rest) = Some (s, rest).
Proof.
  unfold ascii_string. revert fuel. induction s as [|c s IH]; intros fuel Ha Hf.
  - destruct fuel; [cbn in Hf; lia|]. reflexivity.
  - destruct fuel as [|fuel]; [lia|]. cbn [all_bytes] in Ha. apply andb_true_iff in Ha as [Hc Ha].
    cbn [String.length enc_chars]. rewrite Hc, append_assoc, parse_chars_step by done.
    cbn [String.length] in Hf. rewrite IH by (done || lia). done.
Qed.

Lemma enc_chars_length s : ascii_string s -> (String.length s <= String.length (enc_chars (String.length s) s))%nat.
Proof.
  unfold ascii_string. induction s as [|c s IH]; intros Ha; [cbn; lia|]. cbn [all_bytes] in Ha.
  apply andb_true_iff in Ha as [Hc Ha]. cbn [String.length enc_chars]. rewrite Hc, length_append.
  specialize (IH Ha). enough (1 <= String.length (enc_byte c))%nat by lia.
  destruct c as [[] [] [] [] [] [] [] []]; apply Nat.leb_le; reflexivity.
Qed.

Lemma parse_string_enc s rest :
  ascii_string s -> parse_string (enc_chars (String.length s) s +:+ String quote rest) = Some (s, rest).
Proof.
  intros Ha. apply parse_chars_enc; [done|]. rewrite length_append. cbn.
  pose proof (enc_chars_length s Ha). lia.
Qed.

Lemma take_while_all p a c r : all_bytes p a = true -> p c = false -> take_while p (a +:+ String c r) = (a, String c r).
Proof.
  induction a as [|d a IH]; cbn; [by intros _ ->|]. intros [-> Ha]%andb_true_iff Hc. by rewrite IH.
Qed.
Lemma take_while_end p a : all_bytes p a = true -> take_while p a = (a, "").
Proof. induction a as [|d a IH]; cbn; [done|]. intros [-> Ha]%andb_true_iff. by rewrite IH. Qed.

Lemma fmt_digits_lead fuel n acc :
  0 < n < 10 ^ Z.of_nat fuel ->
  exists c a, fmt_digits fuel n acc = String c (a +:+ acc) /\ is_digit c = true /\ c <> "0"%char /\
    all_bytes is_digit a = true.
Proof.
  revert n acc. induction fuel as [|fuel IH]; intros n acc Hn; [cbn in Hn; lia|]. cbn [fmt_digits].
  destruct (is_digit_digit (n mod 10)) as [Hd Hv]; [by apply Z.mod_pos_bound|].
  pose proof (Z.div_mod n 10 ltac:(lia)) as Hdm. case_decide as Hz.
  - exists (digit (n mod 10)), "". split_and!; [done|done| |done]. intros Heq. rewrite Heq in Hv.
    change (digit_val "0") with 0 in Hv. lia.
  - destruct (IH (n / 10) (String (digit (n mod 10)) acc)) as (c & a & Heq & Hc & Hc0 & Ha).
    { split; [assert (0 <= n / 10) by (apply Z.div_pos; lia); lia|]. apply Z.div_lt_upper_bound; [lia|].
      rewrite <- Z.pow_succ_r by lia. replace (Z.succ _) with (Z.of_nat (S fuel)) by lia. lia. }
    exists c, (a +:+ String (digit (n mod 10)) ""). rewrite append_assoc. split_and!; try done.
    clear -Ha Hd. induction a as [|x a IHa]; cbn in *; [by rewrite Hd|].
    apply andb_true_iff in Ha as [-> Ha]. by apply IHa.
Qed.

(** A formatted integer is an optional sign and digits without a leading zero. *)
Lemma FormatInt_shape n :
  minInt64 <= n <= maxInt64 ->
  exists c a, is_digit c = true /\ all_bytes is_digit a = true /\ (c = "0"%char -> a = "") /\
    (FormatInt n = String c a \/ FormatInt n = String "-" (String c a)).
Proof.
  unfold minInt64, maxInt64, FormatInt. intros Hn. destruct (decide (n = 0)) as [->|Hz].
  { exists "0"%char, "". split_and!; try done. by left. }
  case_decide.
  - destruct (fmt_digits_lead 20 (- n) "") as (c & a & -> & Hc & Hc0 & Ha); [cbn; lia|].
    exists c, a. rewrite append_nil_r. split_and!; try done. by right.
  - destruct (fmt_digits_lead 20 n "") as (c & a & -> & Hc & Hc0 & Ha); [cbn; lia|].
    exists c, a. rewrite append_nil_r. split_and!; try done. by left.
Qed.

Lemma digit_facts c : is_digit c = true ->
  is_ws c = false /\ Ascii.eqb c quote = false /\ Ascii.eqb c "{" = false /\ Ascii.eqb c "[" = false /\
  Ascii.eqb c "t" = false /\ Ascii.eqb c "f" = false /\ Ascii.eqb c "n" = false /\ Ascii.eqb c "-" = false /\
  num_char c = true.
Proof. destruct c as [[] [] [] [] [] [] [] []]; intros Hc; try discriminate Hc; by vm_compute. Qed.

Lemma digits_num a : all_bytes is_digit a = true -> all_bytes num_char a = true.
Proof.
  induction a as [|c a IH]; [done|]. cbn. intros [Hc Ha]%andb_true_iff. rewrite IH, andb_true_r by done.
  by apply digit_facts.
Qed.

Lemma number_ok_digits c a :
  is_digit c = true -> all_bytes is_digit a = true -> (c = "0"%char -> a = "") ->
  number_ok (String c a) = true /\ number_ok (String "-" (String c a)) = true.
Proof.
  intros Hc Ha Hz. unfold number_ok. pose proof (digit_facts c Hc) as (_ & _ & _ & _ & _ & _ & _ & Hm & _).
  rewrite Hm. change (Ascii.eqb "-" "-") with true. cbv iota.
  destruct (Ascii.eqb_spec c "0") as [->|Hne].
  - by rewrite Hz.
  - rewrite Hc. unfold digits1. rewrite take_while_end by (cbn; by rewrite Hc, Ha). by rewrite decide_False.
Qed.

Lemma CutPrefix_head c r d p : Ascii.eqb c d = false -> CutPrefix (String c r) (String d p) = None.
Proof. intros Hcd. cbn. by rewrite Ascii.eqb_sym, Hcd. Qed.

Lemma parse_value_flat v fuel d rest :
  flat_ok v -> num_char d = false ->
  parse_value (S fuel) (enc_flat v +:+ String d rest) = Some (json_flat v, String d rest).
Proof.
  intros Hok Hd. destruct v as [s|n]; cbn [enc_flat json_flat].
  - unfold enc_string. cbn [flat_ok] in Hok.
    change ((String quote (enc_chars (String.length s) s) +:+ String quote "") +:+ String d rest)
      with (String quote ((enc_chars (String.length s) s +:+ String quote "") +:+ String d rest)).
    rewrite append_assoc. cbn [parse_value skip_ws]. change (is_ws quote) with false. cbv iota.
    change (Ascii.eqb quote quote) with true. cbv iota.
    change (String quote "" +:+ String d rest)%string with (String quote (String d rest)).
    by rewrite parse_string_enc.
  - destruct (FormatInt_shape n Hok) as (c & a & Hc & Ha & Hz & Hf).
    destruct (number_ok_digits c a Hc Ha Hz) as [Hn1 Hn2].
    pose proof (digit_facts c Hc) as (Hws & Hq & Hb & Hbr & Ht & Hff & Hnn & Hm & Hnum).
    destruct Hf as [-> | ->].
    + change (String c a +:+ String d rest)%string with (String c (a +:+ String d rest)).
      cbn [parse_value skip_ws]. rewrite Hws, Hq, Hb, Hbr, !CutPrefix_head by done.
      change (String c (a +:+ String d rest)) with (String c a +:+ String d rest)%string.
      rewrite take_while_all by (cbn; rewrite ?Hnum, ?digits_num; done). by rewrite Hn1.
    + change (String "-" (String c a) +:+ String d rest)%string with (String "-" (String c a +:+ String d rest)).
      cbn [parse_value skip_ws]. change (is_ws "-") with false. change (Ascii.eqb "-" quote) with false.
      change (Ascii.eqb "-" "{") with false. change (Ascii.eqb "-" "[") with false. cbv iota.
      rewrite !CutPrefix_head by done.
      change (String "-" (String c a +:+ String d rest)) with (String "-" (String c a) +:+ String d rest)%string.
      rewrite take_while_all by (cbn; rewrite ?Hnum, ?digits_num; done). by rewrite Hn2.
Qed.

(** A text that is read as a value of nesting at most [n], whatever follows it. *)
Definition prints (n : nat) (text : string) (j : json) : Prop :=
  forall fuel d rest, (n < fuel)%nat -> num_char d = false -> parse_value fuel (text +:+ String d rest) = Some (j, String d rest).

Lemma prints_flat n v : flat_ok v -> prints n (enc_flat v) (json_flat v).
Proof. intros Hv [|fuel] d rest Hn Hd; [lia|]. by apply parse_value_flat. Qed.
Lemma prints_string n s : ascii_string s -> prints n (enc_string s) (JStr s).
Proof. apply (prints_flat n (inl s)). Qed.

(** *** Arrays of strings *)

Lemma Join_more (x y : string) l rest :
  (Join (x :: y :: l) "," +:+ rest)%string = (x +:+ String "," (Join (y :: l) "," +:+ rest))%string.
Proof. change (Join (x :: y :: l) ",") with (x +:+ "," +:+ Join (y :: l) ",")%string. by rewrite !append_assoc. Qed.

Lemma parse_elements_strings s l fuel rest :
  Forall ascii_string (s :: l) -> (S (length l) < fuel)%nat ->
  parse_elements fuel (Join (enc_string <$> (s :: l)) "," +:+ String "]" rest) = Some (JStr <$> (s :: l), rest).
Proof.
  revert s fuel. induction l as [|s' l IH]; intros s fuel [Hs Hall]%Forall_cons Hf; (destruct fuel as [|fuel]; [cbn in Hf; lia|]).
  - cbn [fmap list_fmap Join parse_elements]. rewrite (prints_string 0) by (done || lia). reflexivity.
  - rewrite !fmap_cons, Join_more. cbn [parse_elements]. rewrite (prints_string 0) by (done || (cbn in Hf; lia)). cbn [mbind option_bind].
    change (skip_ws (String "," ?x)) with (String "," x). cbv iota. change (Ascii.eqb "," ",") with true. cbv iota.
    rewrite <- fmap_cons, IH; [done|done|]. cbn [length] in Hf. lia.
Qed.

Lemma prints_strings s l :
  Forall ascii_string (s :: l) -> prints (S (S (length l))) ("[" +:+ Join (enc_string <$> (s :: l)) "," +:+ "]") (JArr (JStr <$> (s :: l))).
Proof.
  intros Hall [|fuel] d rest Hf Hd; [lia|]. rewrite !append_assoc. cbn [String.append].
  set (body := (Join (enc_string <$> s :: l) "," +:+ String "]" (String d rest))%string).
  assert (exists r, body = String quote r) as [r Hr] by (unfold body; rewrite fmap_cons; destruct (enc_string <$> l); eexists; cbn; reflexivity).
  cbn [parse_value skip_ws]. change (is_ws "[") with false. change (Ascii.eqb "[" quote) with false. change (Ascii.eqb "[" "{") with false.
  change (Ascii.eqb "[" "[") with true. cbv iota. rewrite Hr. cbn [skip_ws]. change (is_ws quote) with false. change (Ascii.eqb quote "]") with false.
  cbv iota. rewrite <- Hr. unfold body. by rewrite parse_elements_strings by (done || lia).
Qed.

(** *** Objects *)

(** A member: its key, the text of its value, and what it is read as. *)
Definition member : Type := string * string * json.
Definition member_text (m : member) : string := enc_string (fst (fst m)) +:+ ":" +:+ snd (fst m).
Definition member_json (m : member) : string * json := (fst (fst m), snd m).
Definition member_ok (n : nat) (m : member) : Prop := ascii_string (fst (fst m)) /\ prints n (snd (fst m)) (snd m).

Lemma member_text_app k v j rest :
  (member_text (k, v, j) +:+ rest)%string
  = String quote (enc_chars (String.length k) k +:+ String quote (String ":" (v +:+ rest))).
Proof. unfold member_text, enc_string. cbn [fst snd String.append]. rewrite !append_assoc. done. Qed.

Lemma parse_members_ok n l m fuel rest :
  Forall (member_ok n) (m :: l) -> (S (length l) + n < fuel)%nat ->
  parse_members fuel (Join (member_text <$> (m :: l)) "," +:+ String "}" rest) = Some (member_json <$> (m :: l), rest).
Proof.
  revert m fuel. induction l as [|m' l IH]; intros [[k v] j] fuel [[Hk Hv] Hall]%Forall_cons Hf; cbn [fst snd] in *;
    (destruct fuel as [|fuel]; [cbn in Hf; lia|]).
  - cbn [fmap list_fmap Join]. rewrite member_text_app.
    cbn [parse_members skip_ws]. change (is_ws quote) with false. cbv iota.
    change (Ascii.eqb quote quote) with true. cbv iota. rewrite parse_string_enc by done. cbn [mbind option_bind].
    change (skip_ws (String ":" ?x)) with (String ":" x). cbv iota.
    change (Ascii.eqb ":" ":") with true. cbv iota. rewrite Hv by (done || cbn in Hf; lia). done.
  - rewrite !fmap_cons, Join_more, member_text_app.
    cbn [parse_members skip_ws]. change (is_ws quote) with false. cbv iota.
    change (Ascii.eqb quote quote) with true. cbv iota. rewrite parse_string_enc by done. cbn [mbind option_bind].
    change (skip_ws (String ":" ?x)) with (String ":" x). cbv iota.
    change (Ascii.eqb ":" ":") with true. cbv iota. rewrite Hv by (done || cbn in Hf; lia).
    cbn [mbind option_bind]. change (skip_ws (String "," ?x)) with (String "," x). cbv iota.
    change (Ascii.eqb "," ",") with true. cbv iota. rewrite <- fmap_cons, IH; [done|done|]. cbn [length] in Hf. lia.
Qed.

Lemma Join_length (l : list string) : (length l <= S (String.length (Join l ",")))%nat.
Proof.
  induction l as [|x l IH]; [cbn; lia|]. destruct l as [|y l]; [cbn; lia|].
  change (Join (x :: y :: l) ",") with (x +:+ "," +:+ Join (y :: l) ",")%string.
  rewrite !length_append. cbn [String.length]. cbn [length] in *. lia.
Qed.

Lemma parse_members_object n m l :
  Forall (member_ok n) (m :: l) -> (n < String.length (Join (member_text <$> (m :: l)) ","))%nat ->
  (S (length l) + n < S (S (String.length (Join (member_text <$> (m :: l)) ","))))%nat ->
  parse ("{" +:+ Join (member_text <$> (m :: l)) "," +:+ "}") = Some (JObj (member_json <$> (m :: l))).
Proof.
  intros Hall Hn Hl. unfold parse. set (body := Join (member_text <$> m :: l) ",") in *.
  assert (exists r, (body +:+ "}")%string = String quote r) as [r Hr].
  { unfold body. rewrite fmap_cons. destruct (member_text <$> l); eexists; cbn; reflexivity. }
  change ("{" +:+ body +:+ "}")%string with (String "{" (body +:+ "}")).
  cbn [String.length]. remember (S (String.length (body +:+ "}"))) as f. cbn [parse_value skip_ws].
  change (is_ws "{") with false. change (Ascii.eqb "{" quote) with false. change (Ascii.eqb "{" "{") with true.
  cbv iota. rewrite Hr. cbn [skip_ws]. change (is_ws quote) with false. change (Ascii.eqb quote "}") with false. cbv iota.
  rewrite <- Hr. change "}"%string with (String "}" "").
  unfold body. rewrite (parse_members_ok n); [done|done|]. subst f. rewrite length_append. cbn [String.length]. fold body. lia.
Qed.

(** *** Flat objects *)

Definition json_field (kv : string * (string + Z)) : string * json := (fst kv, json_flat (snd kv)).
Definition flat_member (kv : string * (string + Z)) : member := (fst kv, enc_flat (snd kv), json_flat (snd kv)).

Lemma parse_object kv l :
  Forall (fun kv => ascii_string (fst kv) /\ flat_ok (snd kv)) (kv :: l) ->
  parse (enc_object (kv :: l)) = Some (JObj (json_field <$> (kv :: l))).
Proof.
  intros Hall. unfold enc_object.
  replace (enc_field <$> kv :: l) with (member_text <$> (flat_member <$> kv :: l)) by (by rewrite <- list_fmap_compose).
  replace (json_field <$> kv :: l) with (member_json <$> (flat_member <$> kv :: l)) by (by rewrite <- list_fmap_compose).
  rewrite (fmap_cons flat_member). pose proof (Join_length (member_text <$> flat_member kv :: (flat_member <$> l))) as Hj.
  rewrite length_fmap in Hj. cbn [length] in Hj. rewrite length_fmap in *.
  apply (parse_members_object 0); [|..].
  - rewrite <- fmap_cons. apply Forall_fmap. eapply Forall_impl; [exact Hall|]. intros [k v] [Hk Hv]. split; [done|]. by apply prints_flat.
  - rewrite fmap_cons. destruct (member_text <$> (flat_member <$> l)); cbn; lia.
  - rewrite length_fmap. lia.
Qed.

(** *** Arrays and objects of any values *)

(** A text that is read as a value whatever follows it, or whatever follows it
    but a character of a number; its length is fuel enough. *)
Definition closed (text : string) (j : json) : Prop :=
  forall fuel rest, (String.length text < fuel)%nat -> parse_value fuel (text +:+ rest) = Some (j, rest).
Definition readable (text : string) (j : json) : Prop := prints (String.length text) text j.

Lemma closed_readable text j : closed text j -> readable text j.
Proof. intros Hc fuel d rest Hf _. by apply Hc. Qed.
Lemma prints_mono n m text j : prints n text j -> (n <= m)%nat -> prints m text j.
Proof. intros Hp Hm fuel d rest Hf Hd. apply Hp; [lia|done]. Qed.
Lemma parse_closed text j : closed text j -> parse text = Some j.
Proof. intros Hc. unfold parse. pose proof (Hc (S (String.length text)) "" ltac:(lia)) as Hp. rewrite append_nil_r in Hp. by rewrite Hp. Qed.
Lemma readable_flat v : flat_ok v -> readable (enc_flat v) (json_flat v).
Proof. apply prints_flat. Qed.
Lemma readable_true : readable "true" (JBool true).
Proof. intros [|fuel] d rest Hf Hd; [lia|]. reflexivity. Qed.
Lemma readable_false : readable "false" (JBool false).
Proof. intros [|fuel] d rest Hf Hd; [lia|]. reflexivity. Qed.
Lemma readable_null : readable "null" JNull.
Proof. intros [|fuel] d rest Hf Hd; [lia|]. reflexivity. Qed.

Definition sum_lengths (l : list string) : nat := foldr (fun s n => String.length s + n)%nat 0%nat l.
Lemma Join_sum x l : String.length (Join (x :: l) ",") = (sum_lengths (x :: l) + length l)%nat.
Proof.
  revert x. induction l as [|y l IH]; intros x; [cbn; lia|]. change (Join (x :: y :: l) ",") with (x +:+ "," +:+ Join (y :: l) ",")%string.
  rewrite !length_append, IH. cbn [String.length sum_lengths foldr length]. fold (sum_lengths l). lia.
Qed.
Lemma sum_lengths_elem x l : x ∈ l -> (String.length x <= sum_lengths l)%nat.
Proof. induction 1; cbn [sum_lengths foldr]; fold (sum_lengths l); lia. Qed.

(** An element: its text and what it is read as. *)
Lemma parse_elements_ok n (l : list (string * json)) m fuel rest :
  Forall (fun e => prints n (fst e) (snd e)) (m :: l) -> (S (length l) + n < fuel)%nat ->
  parse_elements fuel (Join (fst <$> (m :: l)) "," +:+ String "]" rest) = Some (snd <$> (m :: l), rest).
Proof.
  revert m fuel. induction l as [|m' l IH]; intros [t j] fuel [Hm Hall]%Forall_cons Hf; cbn [fst snd] in *; (destruct fuel as [|fuel]; [cbn in Hf; lia|]).
  - cbn [fmap list_fmap Join parse_elements fst snd]. rewrite Hm by (done || cbn in Hf; lia). reflexivity.
  - rewrite !fmap_cons, Join_more. cbn [parse_elements fst snd]. rewrite Hm by (done || cbn in Hf; lia). cbn [mbind option_bind].
    change (skip_ws (String "," ?x)) with (String "," x). cbv iota. change (Ascii.eqb "," ",") with true. cbv iota.
    rewrite <- fmap_cons, IH; [done|done|]. cbn [length] in Hf. lia.
Qed.

Lemma value_not_bracket fuel s r x : parse_value fuel s = Some x -> skip_ws s <> String "]" r.
Proof. destruct fuel as [|fuel]; [done|]. cbn [parse_value]. intros Hp Hs. by rewrite Hs in Hp. Qed.

Lemma closed_array (l : list (string * json)) :
  Forall (fun e => readable (fst e) (snd e)) l -> closed ("[" +:+ Join (fst <$> l) "," +:+ "]") (JArr (snd <$> l)).
Proof.
  intros Hall [|fuel] rest Hf; [lia|]. rewrite !append_assoc. cbn [String.append].
  change (String "[" (Join (fst <$> l) "," +:+ String "]" rest)) with (String "[" (Join (fst <$> l) "," +:+ String "]" rest)%string).
  destruct l as [|m l]; [reflexivity|].
  set (n := sum_lengths (fst <$> m :: l)).
  assert (Forall (fun e => prints n (fst e) (snd e)) (m :: l)) as Hn.
  { rewrite Forall_forall in Hall |- *. intros e He. eapply prints_mono; [by apply Hall|]. apply sum_lengths_elem. by apply list_elem_of_fmap_2. }
  rewrite !length_append, fmap_cons, Join_sum, length_fmap, <- fmap_cons in Hf. fold n in Hf. cbn [String.length] in Hf.
  set (body := (Join (fst <$> m :: l) "," +:+ String "]" rest)%string).
  assert (forall r, skip_ws body <> String "]" r) as Hbr.
  { intros r. pose proof (parse_elements_ok n l m fuel rest Hn ltac:(lia)) as Hp. fold body in Hp. destruct fuel as [|fuel']; [done|]. cbn [parse_elements] in Hp.
    destruct (parse_value fuel' body) as [x|] eqn:Hv; [|done]. by eapply value_not_bracket. }
  cbn [parse_value skip_ws]. change (is_ws "[") with false. change (Ascii.eqb "[" quote) with false. change (Ascii.eqb "[" "{") with false.
  change (Ascii.eqb "[" "[") with true. cbv iota.
  destruct (skip_ws body) as [|c r] eqn:Hsk.
  - exfalso. pose proof (parse_elements_ok n l m fuel rest Hn ltac:(lia)) as Hp. fold body in Hp. destruct fuel as [|[|fuel']]; [done..|].
    cbn [parse_elements parse_value] in Hp. by rewrite Hsk in Hp.
  - destruct (Ascii.eqb_spec c "]") as [->|Hc]; [by destruct (Hbr r)|]. unfold body. by rewrite (parse_elements_ok n) by (done || lia).
Qed.

Definition member_readable (m : member) : Prop := ascii_string (fst (fst m)) /\ readable (snd (fst m)) (snd m).

Lemma closed_object l : Forall member_readable l -> closed ("{" +:+ Join (member_text <$> l) "," +:+ "}") (JObj (member_json <$> l)).
Proof.
  intros Hall [|fuel] rest Hf; [lia|]. rewrite !append_assoc. cbn [String.append]. destruct l as [|m l]; [reflexivity|].
  set (n := sum_lengths (member_text <$> m :: l)).
  assert (Forall (member_ok n) (m :: l)) as Hn.
  { rewrite Forall_forall in Hall |- *. intros e He. destruct (Hall e He) as [Hk Hr]. split; [done|]. eapply prints_mono; [exact Hr|].
    etransitivity; [|apply sum_lengths_elem, list_elem_of_fmap_2, He]. unfold member_text. rewrite !length_append. lia. }
  rewrite !length_append, fmap_cons, Join_sum, length_fmap, <- fmap_cons in Hf. fold n in Hf. cbn [String.length] in Hf.
  assert (exists r, (Join (member_text <$> m :: l) "," +:+ String "}" rest)%string = String quote r) as [r Hr].
  { rewrite fmap_cons. destruct (member_text <$> l); eexists; cbn; reflexivity. }
  cbn [parse_value skip_ws]. change (is_ws "{") with false. change (Ascii.eqb "{" quote) with false. change (Ascii.eqb "{" "{") with true. cbv iota.
  rewrite Hr. cbn [skip_ws]. change (is_ws quote) with false. change (Ascii.eqb quote "}") with false. cbv iota. rewrite <- Hr.
  by rewrite (parse_members_ok n) by (done || lia).
Qed.
