(* ===== verification/Sso.v ===== *)
(** * internal/sso: the signed cookie and the OAuth blobs

    The cookie [username|expiry|hex(mac)] and the blobs
    [prefix + base64url(payload) + "." + base64url(mac)] that the auth binary
    signs and the proxy verifies. HMAC-SHA-256 is the one of [Sha256]; the
    clock is an argument, in Unix seconds. *)
From S2P Require Import Prelude GoString Duration Sha256 Json.
Open Scope string_scope.

(** ** Text encodings *)

(** [hex.DecodeString]. *)
Fixpoint hex_decode (s : string) : option string :=
  match s with
  | EmptyString => Some ""
  | String a (String b r) =>
      x ← hex_val a; y ← hex_val b; t ← hex_decode r; Some (String (Z_byte (x * 16 + y)) t)
  | String _ EmptyString => None
  end.

(** [base64.RawURLEncoding]. *)
Definition b64_digit (n : Z) : ascii :=
  if decide (n < 26) then byte_of (65 + n)
  else if decide (n < 52) then byte_of (71 + n)
  else if decide (n < 62) then byte_of (n - 4)
  else if decide (n = 62) then "-"%char else "_"%char.

Definition b64_val (c : ascii) : option Z :=
  if in_range c "A" "Z" then Some (byte_Z c - 65)
  else if in_range c "a" "z" then Some (byte_Z c - 71)
  else if is_digit c then Some (byte_Z c + 4)
  else if Ascii.eqb c "-" then Some 62
  else if Ascii.eqb c "_" then Some 63
  else None.

Fixpoint b64_encode (s : string) : string :=
  match s with
  | EmptyString => ""
  | String a EmptyString =>
      String (b64_digit (byte_Z a / 4)) (String (b64_digit (byte_Z a mod 4 * 16)) "")
  | String a (String b EmptyString) =>
      String (b64_digit (byte_Z a / 4)) (String (b64_digit (byte_Z a mod 4 * 16 + byte_Z b / 16))
        (String (b64_digit (byte_Z b mod 16 * 4)) ""))
  | String a (String b (String c r)) =>
      String (b64_digit (byte_Z a / 4)) (String (b64_digit (byte_Z a mod 4 * 16 + byte_Z b / 16))
        (String (b64_digit (byte_Z b mod 16 * 4 + byte_Z c / 64))
          (String (b64_digit (byte_Z c mod 64)) (b64_encode r))))
  end.

(** The decoder skips line breaks, and ignores the bits left over in a last
    incomplete group, which must have two characters at least. *)
Fixpoint b64_values (s : string) : option (list Z) :=
  match s with
  | EmptyString => Some []
  | String c r =>
      if Ascii.eqb c (chr 10) || Ascii.eqb c (chr 13) then b64_values r
      else v ← b64_val c; l ← b64_values r; Some (v :: l)
  end.

Fixpoint b64_bytes (l : list Z) : option string :=
  match l with
  | [] => Some ""
  | [_] => None
  | [a; b] => Some (String (Z_byte (a * 4 + b / 16)) "")
  | [a; b; c] => Some (String (Z_byte (a * 4 + b / 16)) (String (Z_byte (b mod 16 * 16 + c / 4)) ""))
  | a :: b :: c :: d :: l =>
      t ← b64_bytes l;
      Some (String (Z_byte (a * 4 + b / 16)) (String (Z_byte (b mod 16 * 16 + c / 4))
              (String (Z_byte (c mod 4 * 64 + d)) t)))
  end.

Definition b64_decode (s : string) : option string := l ← b64_values s; b64_bytes l.

(** ** The cookie *)

Definition CookieName : string := "pmgr_sso".
Definition bar : ascii := "|".

Definition Sign (username : string) (exp : Z) (secret : string) : string :=
  let payload := username +:+ "|" +:+ FormatInt exp in
  payload +:+ "|" +:+ hex (hmac_sha256 secret payload).

Definition Verify (raw secret : string) (now : Z) : option string :=
  match Split raw bar with
  | [user; exp; sig] =>
      if decide (user = "") then None else
      expUnix ← ParseInt exp;
      sig ← hex_decode sig;
      if negb (bool_decide (hmac_sha256 secret (user +:+ "|" +:+ exp) = sig)) then None
      else if decide (now > expUnix) then None
      else Some user
  | _ => None
  end.

(** ** Blobs *)

Definition ClientIDPrefix : string := "pmgcl_".
Definition AuthCodePrefix : string := "pmgc_".
Definition AccessTokenPrefix : string := "pmga_".
Definition RefreshTokenPrefix : string := "pmgf_".
Definition ActorPrefix : string := "pmgact_".

Definition tagClient : string := "pmgr-oauth-client-v1".
Definition tagCode : string := "pmgr-oauth-code-v1".
Definition tagAccess : string := "pmgr-oauth-at-v1".
Definition tagRefresh : string := "pmgr-oauth-rt-v1".
Definition tagActor : string := "pmgr-actor-v1".

Definition mac_input (tag payload : string) : string := tag +:+ String (chr 0) payload.
Definition blobMAC (tag payload secret : string) : string := hmac_sha256 secret (mac_input tag payload).

Definition signBlob (prefix tag payload secret : string) : string :=
  prefix +:+ b64_encode payload +:+ "." +:+ b64_encode (blobMAC tag payload secret).

Definition verifyBlob (raw prefix tag secret : string) : option string :=
  body ← CutPrefix raw prefix;
  '(payB64, macB64) ← Cut body ".";
  payload ← b64_decode payB64;
  sig ← b64_decode macB64;
  if bool_decide (blobMAC tag payload secret = sig) then Some payload else None.

Definition expired (exp now : Z) : bool := bool_decide (now > exp).

(** ** Claims *)

Record CodeClaims := mkCode {
  co_Username : string; co_ClientID : string; co_Audience : string; co_Scope : string;
  co_RedirectURI : string; co_CodeChallenge : string; co_JTI : string; co_Exp : Z }.
Record AccessClaims := mkAccess {
  ac_Username : string; ac_ClientID : string; ac_Audience : string; ac_Scope : string; ac_Exp : Z }.
Record RefreshClaims := mkRefresh {
  rf_Username : string; rf_ClientID : string; rf_Audience : string; rf_Scope : string;
  rf_JTI : string; rf_Exp : Z }.
Record ActorClaims := mkActor { av_Username : string; av_IP : string; av_Exp : Z }.

(** The fields [json.Marshal] writes, in the struct's order. *)
Definition code_fields (c : CodeClaims) : list (string * (string + Z)) :=
  [("u", inl (co_Username c)); ("cid", inl (co_ClientID c)); ("aud", inl (co_Audience c));
   ("scope", inl (co_Scope c)); ("ru", inl (co_RedirectURI c)); ("cc", inl (co_CodeChallenge c));
   ("jti", inl (co_JTI c)); ("exp", inr (co_Exp c))].
Definition access_fields (c : AccessClaims) : list (string * (string + Z)) :=
  [("u", inl (ac_Username c)); ("cid", inl (ac_ClientID c)); ("aud", inl (ac_Audience c));
   ("scope", inl (ac_Scope c)); ("exp", inr (ac_Exp c))].
Definition refresh_fields (c : RefreshClaims) : list (string * (string + Z)) :=
  [("u", inl (rf_Username c)); ("cid", inl (rf_ClientID c)); ("aud", inl (rf_Audience c));
   ("scope", inl (rf_Scope c)); ("jti", inl (rf_JTI c)); ("exp", inr (rf_Exp c))].
(** [ip] is [omitempty]. *)
Definition actor_fields (c : ActorClaims) : list (string * (string + Z)) :=
  ([("u", inl (av_Username c))] ++ (if decide (av_IP c = "") then [] else [("ip", inl (av_IP c))]) ++
   [("exp", inr (av_Exp c))])%list.

(** [json.Unmarshal] into a struct: [null] leaves it zero. *)
Definition object_fields (payload : string) : option (list (string * json)) :=
  match parse payload with
  | Some (JObj l) => Some l
  | Some JNull => Some []
  | _ => None
  end.

Definition code_names : list string := ["u"; "cid"; "aud"; "scope"; "ru"; "cc"; "jti"; "exp"].
Definition decode_code (payload : string) : option CodeClaims :=
  l ← object_fields payload;
  u ← get_string code_names "u" l; cid ← get_string code_names "cid" l; aud ← get_string code_names "aud" l;
  scope ← get_string code_names "scope" l; ru ← get_string code_names "ru" l; cc ← get_string code_names "cc" l;
  jti ← get_string code_names "jti" l; exp ← get_int64 code_names "exp" l;
  Some (mkCode u cid aud scope ru cc jti exp).

Definition access_names : list string := ["u"; "cid"; "aud"; "scope"; "exp"].
Definition decode_access (payload : string) : option AccessClaims :=
  l ← object_fields payload;
  u ← get_string access_names "u" l; cid ← get_string access_names "cid" l;
  aud ← get_string access_names "aud" l; scope ← get_string access_names "scope" l;
  exp ← get_int64 access_names "exp" l;
  Some (mkAccess u cid aud scope exp).

Definition refresh_names : list string := ["u"; "cid"; "aud"; "scope"; "jti"; "exp"].
Definition decode_refresh (payload : string) : option RefreshClaims :=
  l ← object_fields payload;
  u ← get_string refresh_names "u" l; cid ← get_string refresh_names "cid" l;
  aud ← get_string refresh_names "aud" l; scope ← get_string refresh_names "scope" l;
  jti ← get_string refresh_names "jti" l; exp ← get_int64 refresh_names "exp" l;
  Some (mkRefresh u cid aud scope jti exp).

Definition actor_names : list string := ["u"; "ip"; "exp"].
Definition decode_actor (payload : string) : option ActorClaims :=
  l ← object_fields payload;
  u ← get_string actor_names "u" l; ip ← get_string actor_names "ip" l; exp ← get_int64 actor_names "exp" l;
  Some (mkActor u ip exp).

Definition SignCode (c : CodeClaims) (secret : string) : string :=
  signBlob AuthCodePrefix tagCode (enc_object (code_fields c)) secret.
Definition VerifyCode (raw secret : string) (now : Z) : option CodeClaims :=
  payload ← verifyBlob raw AuthCodePrefix tagCode secret;
  c ← decode_code payload;
  if expired (co_Exp c) now then None else Some c.

Definition SignAccess (c : AccessClaims) (secret : string) : string :=
  signBlob AccessTokenPrefix tagAccess (enc_object (access_fields c)) secret.
Definition VerifyAccess (raw secret : string) (now : Z) : option AccessClaims :=
  payload ← verifyBlob raw AccessTokenPrefix tagAccess secret;
  c ← decode_access payload;
  if expired (ac_Exp c) now then None else Some c.

Definition SignRefresh (c : RefreshClaims) (secret : string) : string :=
  signBlob RefreshTokenPrefix tagRefresh (enc_object (refresh_fields c)) secret.
Definition VerifyRefresh (raw secret : string) (now : Z) : option RefreshClaims :=
  payload ← verifyBlob raw RefreshTokenPrefix tagRefresh secret;
  c ← decode_refresh payload;
  if expired (rf_Exp c) now then None else Some c.

Definition SignActor (c : ActorClaims) (secret : string) : string :=
  signBlob ActorPrefix tagActor (enc_object (actor_fields c)) secret.
Definition VerifyActor (raw secret : string) (now : Z) : option ActorClaims :=
  payload ← verifyBlob raw ActorPrefix tagActor secret;
  c ← decode_actor payload;
  if expired (av_Exp c) now then None else Some c.

Example signed_cookie_ex :
  Verify (Sign "alice" 100 "k") "k" 100 = Some "alice" /\ Verify (Sign "alice" 100 "k") "k" 101 = None /\
  Verify (Sign "alice" 100 "k") "K" 100 = None /\ Verify (Sign "a|b" 100 "k") "k" 100 = None.
Proof. vm_compute. done. Qed.
Example actor_ex :
  VerifyActor (SignActor (mkActor "bob" "" 100) "k") "k" 100 = Some (mkActor "bob" "" 100) /\
  VerifyActor (SignActor (mkActor "bob" "10.0.0.1" 100) "k") "k" 100 = Some (mkActor "bob" "10.0.0.1" 100).
Proof. vm_compute. done. Qed.

#[global] Arguments hmac_sha256 : simpl never.

(** ** The encodings are inverted *)

Lemma byte_Z_range c : 0 <= byte_Z c < 256.
Proof.
  unfold byte_Z, ascii_N. pose proof (N_ascii_bounded c). lia.
Qed.
Lemma Z_byte_byte c : Z_byte (byte_Z c) = c.
Proof. destruct c as [[] [] [] [] [] [] [] []]; reflexivity. Qed.

Lemma small_Z (P : Z -> Prop) `{!forall z, Decision (P z)} (n : nat) :
  forallb (fun k => bool_decide (P (Z.of_nat k))) (seq 0 n) = true -> forall z, 0 <= z < Z.of_nat n -> P z.
Proof.
  rewrite forallb_forall. intros HP z Hz. specialize (HP (Z.to_nat z)). rewrite Z2Nat.id in HP by lia.
  apply bool_decide_eq_true in HP; [done|]. apply in_seq. lia.
Qed.

Lemma hex_val_digit n : 0 <= n < 16 -> hex_val (hex_digit n) = Some n /\ hex_digit n <> bar.
Proof.
  intros Hn.
  revert n Hn. apply (small_Z (fun n => hex_val (hex_digit n) = Some n /\ hex_digit n <> bar) 16). by vm_compute.
Qed.

Lemma hex_digits c :
  (0 <= byte_Z c / 16 < 16 /\ 0 <= byte_Z c mod 16 < 16) /\ byte_Z c / 16 * 16 + byte_Z c mod 16 = byte_Z c.
Proof.
  pose proof (byte_Z_range c). pose proof (Z.div_mod (byte_Z c) 16 ltac:(lia)).
  pose proof (Z.mod_pos_bound (byte_Z c) 16 ltac:(lia)).
  assert (0 <= byte_Z c / 16) by (apply Z.div_pos; lia). lia.
Qed.

Lemma hex_decode_hex s : hex_decode (hex s) = Some s.
Proof.
  induction s as [|c s IH]; [done|]. cbn [hex hex_decode]. destruct (hex_digits c) as [[H1 H2] H3].
  destruct (hex_val_digit _ H1) as [-> _], (hex_val_digit _ H2) as [-> _]. cbn [mbind option_bind].
  rewrite IH. cbn [mbind option_bind]. by rewrite H3, Z_byte_byte.
Qed.

Lemma append_inj_l a b c : (a +:+ b = a +:+ c)%string -> b = c.
Proof. induction a as [|x a IH]; [done|]. cbn. intros [= H]. by apply IH. Qed.

Lemma hex_free s : has_byte bar (hex s) = false.
Proof.
  induction s as [|c s IH]; [done|]. cbn [hex]. destruct (hex_digits c) as [[H1 H2] _].
  destruct (hex_val_digit _ H1) as [_ H3], (hex_val_digit _ H2) as [_ H4].
  rewrite !has_byte_cons, IH. apply Ascii.eqb_neq in H3, H4. by rewrite H3, H4.
Qed.

Lemma b64_val_digit n :
  0 <= n < 64 ->
  b64_val (b64_digit n) = Some n /\ b64_digit n <> "."%char /\
  Ascii.eqb (b64_digit n) (chr 10) || Ascii.eqb (b64_digit n) (chr 13) = false.
Proof.
  intros Hn.
  revert n Hn. apply (small_Z (fun n => b64_val (b64_digit n) = Some n /\ b64_digit n <> "."%char /\
    Ascii.eqb (b64_digit n) (chr 10) || Ascii.eqb (b64_digit n) (chr 13) = false) 64). by vm_compute.
Qed.

Lemma b64_values_digit n r : 0 <= n < 64 -> b64_values (String (b64_digit n) r) = (l ← b64_values r; Some (n :: l)).
Proof. intros Hn. destruct (b64_val_digit n Hn) as (H1 & _ & H2). cbn [b64_values]. by rewrite H2, H1. Qed.

(** The six-bit values of one, two and three bytes. *)
Lemma sextets a b c :
  0 <= a < 256 -> 0 <= b < 256 -> 0 <= c < 256 ->
  (0 <= a / 4 < 64 /\ 0 <= a mod 4 * 16 < 64 /\ 0 <= a mod 4 * 16 + b / 16 < 64 /\
   0 <= b mod 16 * 4 < 64 /\ 0 <= b mod 16 * 4 + c / 64 < 64 /\ 0 <= c mod 64 < 64) /\
  a / 4 * 4 + (a mod 4 * 16) / 16 = a /\
  a / 4 * 4 + (a mod 4 * 16 + b / 16) / 16 = a /\
  (a mod 4 * 16 + b / 16) mod 16 * 16 + (b mod 16 * 4) / 4 = b /\
  (a mod 4 * 16 + b / 16) mod 16 * 16 + (b mod 16 * 4 + c / 64) / 4 = b /\
  (b mod 16 * 4 + c / 64) mod 4 * 64 + c mod 64 = c.
Proof. intros Ha Hb Hc. Z.to_euclidean_division_equations. lia. Qed.

Lemma string3_ind (P : string -> Prop) :
  P "" -> (forall a, P (String a "")) -> (forall a b, P (String a (String b ""))) ->
  (forall a b c r, P r -> P (String a (String b (String c r)))) -> forall s, P s.
Proof.
  intros H0 H1 H2 H3. fix IH 1. intros [|a [|b [|c r]]]; [exact H0|apply H1|apply H2|apply H3, IH].
Qed.

Lemma b64_decode_encode s : b64_decode (b64_encode s) = Some s.
Proof.
  unfold b64_decode. induction s as [|a|a b|a b c r IH] using string3_ind; [done|..]; cbn [b64_encode].
  - destruct (sextets _ _ _ (byte_Z_range a) (byte_Z_range a) (byte_Z_range a)) as [(H1&H2&_) (E&_)].
    rewrite !b64_values_digit by done. cbn. by rewrite E, Z_byte_byte.
  - destruct (sextets _ _ _ (byte_Z_range a) (byte_Z_range b) (byte_Z_range b)) as [(H1&_&H2&H3&_) (_&E1&E2&_)].
    rewrite !b64_values_digit by done. cbn. by rewrite E1, E2, !Z_byte_byte.
  - destruct (sextets _ _ _ (byte_Z_range a) (byte_Z_range b) (byte_Z_range c))
      as [(H1&_&H2&_&H3&H4) (_&E1&_&E2&E3)].
    rewrite !b64_values_digit by done. destruct (b64_values (b64_encode r)) as [l|]; [|done].
    cbn [mbind option_bind b64_bytes] in *. rewrite IH. cbn. by rewrite E1, E2, E3, !Z_byte_byte.
Qed.

Lemma b64_dot_free s : has_byte "." (b64_encode s) = false.
Proof.
  induction s as [|a|a b|a b c r IH] using string3_ind; [done|..]; cbn [b64_encode].
  - destruct (sextets _ _ _ (byte_Z_range a) (byte_Z_range a) (byte_Z_range a)) as [(H1&H2&_) _].
    apply b64_val_digit in H1 as (_ & H1%Ascii.eqb_neq & _), H2 as (_ & H2%Ascii.eqb_neq & _).
    by rewrite !has_byte_cons, H1, H2.
  - destruct (sextets _ _ _ (byte_Z_range a) (byte_Z_range b) (byte_Z_range b)) as [(H1&_&H2&H3&_) _].
    apply b64_val_digit in H1 as (_ & H1%Ascii.eqb_neq & _), H2 as (_ & H2%Ascii.eqb_neq & _),
      H3 as (_ & H3%Ascii.eqb_neq & _).
    by rewrite !has_byte_cons, H1, H2, H3.
  - destruct (sextets _ _ _ (byte_Z_range a) (byte_Z_range b) (byte_Z_range c)) as [(H1&_&H2&_&H3&H4) _].
    apply b64_val_digit in H1 as (_ & H1%Ascii.eqb_neq & _), H2 as (_ & H2%Ascii.eqb_neq & _),
      H3 as (_ & H3%Ascii.eqb_neq & _), H4 as (_ & H4%Ascii.eqb_neq & _).
    by rewrite !has_byte_cons, H1, H2, H3, H4, IH.
Qed.

(** Whatever decodes has no bar in it. *)
Lemma b64_values_no_bar s l : b64_values s = Some l -> has_byte bar s = false.
Proof.
  revert l. induction s as [|c s IH]; intros l; [done|]. cbn [b64_values]. rewrite has_byte_cons.
  destruct (Ascii.eqb_spec c bar) as [->|_]; [done|]. destruct (_ || _); [apply IH|].
  destruct (b64_val c); cbn; [|done]. destruct (b64_values s) eqn:E; cbn; [|done]. intros _. by eapply IH.
Qed.

Lemma b64_decode_no_bar s p : b64_decode s = Some p -> has_byte bar s = false.
Proof.
  unfold b64_decode. destruct (b64_values s) eqn:E; cbn; [|done]. intros _. by eapply b64_values_no_bar.
Qed.

(** ** The cookie *)

Lemma Verify_spec raw secret now u :
  Verify raw secret now = Some u <->
  exists e n, ParseInt e = Some n /\ now <= n /\ u <> "" /\ has_byte bar u = false /\ has_byte bar e = false /\
    exists sig, raw = u +:+ "|" +:+ e +:+ "|" +:+ sig /\ has_byte bar sig = false /\
      hex_decode sig = Some (hmac_sha256 secret (u +:+ "|" +:+ e)).
Proof.
  unfold Verify. split.
  - pose proof (Split_parts_free raw bar) as Hfree. pose proof (Join_Split raw bar) as Hj.
    destruct (Split raw bar) as [|p [|e [|sig [|? ?]]]]; try done.
    apply Forall_cons in Hfree as [Hp [He [Hs _]%Forall_cons]%Forall_cons].
    case_decide as Hu; [done|]. destruct (ParseInt e) as [n|] eqn:Hn; cbn; [|done].
    destruct (hex_decode sig) as [m|] eqn:Hm; cbn; [|done]. case_bool_decide as Hmac; cbn; [|done].
    case_decide; [done|]. intros [= <-]. exists e, n. split_and!; try done.
    exists sig. split_and!; [by rewrite <- Hj|done|]. by rewrite Hm, Hmac.
  - intros (e & n & Hn & Hle & Hu & Hub & Heb & sig & -> & Hsb & Hsig).
    change (u +:+ "|" +:+ e +:+ "|" +:+ sig)%string with (u +:+ String bar (e +:+ String bar sig))%string.
    rewrite !Split_app_sep, Split_free by done. rewrite decide_False by done. rewrite Hn. cbn [mbind option_bind].
    rewrite Hsig. cbn [mbind option_bind]. rewrite bool_decide_true by done. cbn [negb].
    rewrite decide_False by lia. done.
Qed.

(** A cookie is read back until it expires. *)
Lemma Verify_Sign u exp secret now :
  minInt64 <= exp <= maxInt64 -> u <> "" -> has_byte bar u = false -> now <= exp -> Verify (Sign u exp secret) secret now = Some u.
Proof.
  intros Hexp Hu Hub Hle. apply Verify_spec. exists (FormatInt exp), exp. split_and!; try done.
  { by apply ParseInt_FormatInt. } { by apply FormatInt_free. }
  eexists. split_and!; [unfold Sign; rewrite !append_assoc; reflexivity|apply hex_free|apply hex_decode_hex].
Qed.

(** For a 64-bit expiry, a cookie signed for a user verifies under the same secret, as that
    user, exactly when the user name is not empty and has no bar and the
    expiry has not passed. *)
Theorem cookie_roundtrip u exp secret now :
  minInt64 <= exp <= maxInt64 ->
  Verify (Sign u exp secret) secret now = Some u <-> u <> "" /\ has_byte bar u = false /\ now <= exp.
Proof.
  intros Hexp. split.
  - pose proof (ParseInt_FormatInt exp Hexp) as Hpi. rewrite Verify_spec. intros (e & n & Hn & Hle & Hu & Hub & Heb & sig & Heq & _). split_and!; try done.
    unfold Sign in Heq. rewrite !append_assoc in Heq.
    set (h := hex _) in Heq. apply append_inj_l in Heq. cbn [String.append] in Heq. injection Heq as Heq.
    assert (Some (FormatInt exp, h) = Some (e, sig)) as [= He _]; [|congruence].
    transitivity (Cut (FormatInt exp +:+ String "|" h) bar); [symmetry|rewrite Heq]; apply Cut_Some; [|done].
    split; [done|by apply FormatInt_free].
  - intros (Hu & Hub & Hle). by apply Verify_Sign.
Qed.

Lemma cookie_roundtrip_witness :
  Verify (Sign "alice" 1700000000 "secret") "secret" 1699999999 = Some "alice" <->
  "alice" <> "" /\ has_byte bar "alice" = false /\ 1699999999 <= 1700000000.
Proof. apply (cookie_roundtrip "alice" 1700000000 "secret" 1699999999). split; by vm_compute. Defined.

(** ** Blobs *)

Inductive kind := KClient | KCode | KAccess | KRefresh | KActor.
#[export] Instance kind_eq_dec : EqDecision kind.
Proof. solve_decision. Defined.

Definition blob_prefix (k : kind) : string :=
  match k with
  | KClient => ClientIDPrefix | KCode => AuthCodePrefix | KAccess => AccessTokenPrefix
  | KRefresh => RefreshTokenPrefix | KActor => ActorPrefix
  end.
Definition blob_tag (k : kind) : string :=
  match k with
  | KClient => tagClient | KCode => tagCode | KAccess => tagAccess
  | KRefresh => tagRefresh | KActor => tagActor
  end.

Lemma verifyBlob_spec raw prefix tag secret p :
  verifyBlob raw prefix tag secret = Some p <->
  exists a b, raw = prefix +:+ a +:+ "." +:+ b /\ has_byte "." a = false /\
    b64_decode a = Some p /\ b64_decode b = Some (blobMAC tag p secret).
Proof.
  unfold verifyBlob. split.
  - destruct (CutPrefix raw prefix) as [body|] eqn:Hp; cbn [mbind option_bind]; [|done].
    apply CutPrefix_Some in Hp as ->. destruct (Cut body ".") as [[a b]|] eqn:Hc; cbn [mbind option_bind]; [|done].
    apply Cut_Some in Hc as [-> Hfree].
    destruct (b64_decode a) as [q|] eqn:Ha; cbn [mbind option_bind]; [|done].
    destruct (b64_decode b) as [m|] eqn:Hb; cbn [mbind option_bind]; [|done].
    case_bool_decide as Hm; [|done]. intros [= <-]. exists a, b. by subst m.
  - intros (a & b & -> & Hfree & Ha & Hb). rewrite CutPrefix_app. cbn [mbind option_bind].
    change (a +:+ "." +:+ b)%string with (a +:+ String "." b)%string.
    rewrite (proj2 (Cut_Some (a +:+ String "." b) "." a b)) by done. cbn [mbind option_bind].
    rewrite Ha. cbn [mbind option_bind]. rewrite Hb. cbn [mbind option_bind]. by rewrite bool_decide_true.
Qed.

Lemma verifyBlob_signBlob prefix tag p secret : verifyBlob (signBlob prefix tag p secret) prefix tag secret = Some p.
Proof.
  apply verifyBlob_spec. exists (b64_encode p), (b64_encode (blobMAC tag p secret)).
  split_and!; [done|apply b64_dot_free|apply b64_decode_encode|apply b64_decode_encode].
Qed.

Lemma verifyBlob_no_bar raw k tag secret p :
  verifyBlob raw (blob_prefix k) tag secret = Some p -> has_byte bar raw = false.
Proof.
  rewrite verifyBlob_spec. intros (a & b & -> & _ & Ha & Hb). rewrite !has_byte_app.
  apply b64_decode_no_bar in Ha, Hb. rewrite Ha, Hb. by destruct k.
Qed.

(** The token formats are exclusive: a string accepted as a blob of one
    kind, under whatever secret and at whatever time, is accepted neither as a
    blob of another kind nor as a cookie. In particular what [signBlob] issues
    for one kind is refused by every other verifier. *)
Theorem token_kinds_exclusive k k' raw p p' secret secret' now :
  verifyBlob raw (blob_prefix k) (blob_tag k) secret = Some p ->
  Verify raw secret' now = None /\
  (verifyBlob raw (blob_prefix k') (blob_tag k') secret' = Some p' -> k' = k).
Proof.
  intros Hv. split.
  - apply verifyBlob_no_bar in Hv. unfold Verify. by rewrite Split_free.
  - apply verifyBlob_spec in Hv as (a & b & -> & _). rewrite verifyBlob_spec. intros (a' & b' & Heq & _).
    by destruct k, k'.
Qed.

Lemma token_kinds_exclusive_witness :
  let raw := signBlob (blob_prefix KAccess) (blob_tag KAccess) "{}" "key" in
  verifyBlob raw (blob_prefix KAccess) (blob_tag KAccess) "key" = Some "{}" /\
  Verify raw "other" 0 = None /\
  (verifyBlob raw (blob_prefix KRefresh) (blob_tag KRefresh) "other" = Some "{}" -> KRefresh = KAccess).
Proof.
  intros raw. split; [by vm_compute|].
  apply (token_kinds_exclusive KAccess KRefresh raw "{}" "{}" "key" "other" 0). by vm_compute.
Defined.

Lemma mac_input_inj t t' p p' :
  has_byte (chr 0) t = false -> has_byte (chr 0) t' = false ->
  mac_input t p = mac_input t' p' -> t = t' /\ p = p'.
Proof.
  intros Ht Ht' Heq. assert (Cut (mac_input t p) (chr 0) = Some (t, p)) as H1 by by apply Cut_Some.
  rewrite Heq in H1. assert (Cut (mac_input t' p') (chr 0) = Some (t', p')) as H2 by by apply Cut_Some.
  rewrite H1 in H2. by injection H2.
Qed.

(** Rewriting the prefix of a signed blob to pass it off as another kind
    does not work either, short of an HMAC collision: the body of a blob signed
    as one kind is refused under another kind's prefix, unless two different
    inputs have the same HMAC-SHA-256 under the secret. *)
Theorem relabelled_token_needs_collision k k' p secret :
  k <> k' ->
  verifyBlob (blob_prefix k' +:+ b64_encode p +:+ "." +:+ b64_encode (blobMAC (blob_tag k) p secret))
    (blob_prefix k') (blob_tag k') secret = None \/
  exists m m', m <> m' /\ hmac_sha256 secret m = hmac_sha256 secret m'.
Proof.
  intros Hk. destruct (verifyBlob _ _ _ _) as [q|] eqn:Hv; [right|by left]. revert Hv.
  rewrite verifyBlob_spec. intros (a & b & Heq & Hfree & Ha & Hb). apply append_inj_l in Heq.
  assert (Some (a, b) = Some (b64_encode p, b64_encode (blobMAC (blob_tag k) p secret))) as [-> ->]%(inj Some)%pair_equal_spec.
  { rewrite <- (proj2 (Cut_Some (a +:+ "." +:+ b) "." a b)) by done. rewrite <- Heq.
    apply Cut_Some. split; [done|apply b64_dot_free]. }
  rewrite b64_decode_encode in Ha. injection Ha as <-. rewrite b64_decode_encode in Hb. apply (inj Some) in Hb.
  exists (mac_input (blob_tag k) p), (mac_input (blob_tag k') p). split; [|exact Hb].
  intros [Ht _]%mac_input_inj; [|by destruct k|by destruct k']. by destruct k, k'.
Qed.

Lemma relabelled_token_needs_collision_witness :
  KAccess <> KRefresh /\
  (verifyBlob (blob_prefix KRefresh +:+ b64_encode "{}" +:+ "." +:+ b64_encode (blobMAC (blob_tag KAccess) "{}" "key"))
    (blob_prefix KRefresh) (blob_tag KRefresh) "key" = None \/
  exists m m', m <> m' /\ hmac_sha256 "key" m = hmac_sha256 "key" m').
Proof. split; [done|]. by apply (relabelled_token_needs_collision KAccess KRefresh "{}" "key"). Defined.

(** ** Claims *)

Lemma get_string_one names name l s : field_values names name l = [JStr s] -> get_string names name l = Some s.
Proof. unfold get_string. by intros ->. Qed.
Lemma get_string_absent names name l : field_values names name l = [] -> get_string names name l = Some "".
Proof. unfold get_string. by intros ->. Qed.
Lemma get_int64_one names name l n :
  minInt64 <= n <= maxInt64 -> field_values names name l = [JNum (FormatInt n)] -> get_int64 names name l = Some n.
Proof.
  intros Hn. unfold get_int64. intros ->. cbn [decode_all dec_int64]. by rewrite ParseInt_FormatInt.
Qed.

Definition int64 (n : Z) : Prop := minInt64 <= n <= maxInt64.

Lemma object_fields_enc kv l :
  Forall (fun kv => ascii_string (fst kv) /\ flat_ok (snd kv)) (kv :: l) ->
  object_fields (enc_object (kv :: l)) = Some (json_field <$> (kv :: l))%list.
Proof. intros H. unfold object_fields. by rewrite parse_object. Qed.

#[local] Ltac read_fields :=
  repeat (match goal with
          | |- context [get_string ?n ?k ?l] =>
              first [erewrite (get_string_one n k l) by reflexivity | rewrite (get_string_absent n k l) by reflexivity]
          | |- context [get_int64 ?n ?k ?l] => erewrite (get_int64_one n k l) by (eassumption || reflexivity)
          end; cbn [mbind option_bind]).

#[local] Ltac fields_ok := repeat (apply Forall_cons; split; [split; [done|cbn [snd flat_ok]; assumption]|]); apply Forall_nil_2.

Lemma decode_code_enc c :
  ascii_string (co_Username c) -> ascii_string (co_ClientID c) -> ascii_string (co_Audience c) ->
  ascii_string (co_Scope c) -> ascii_string (co_RedirectURI c) -> ascii_string (co_CodeChallenge c) ->
  ascii_string (co_JTI c) -> int64 (co_Exp c) -> decode_code (enc_object (code_fields c)) = Some c.
Proof.
  destruct c as [u cid aud sc ru cc jti e].
  cbn [co_Username co_ClientID co_Audience co_Scope co_RedirectURI co_CodeChallenge co_JTI co_Exp]. intros.
  unfold decode_code, code_fields. rewrite object_fields_enc by fields_ok. cbn [mbind option_bind]. by read_fields.
Qed.

Lemma decode_access_enc c :
  ascii_string (ac_Username c) -> ascii_string (ac_ClientID c) -> ascii_string (ac_Audience c) ->
  ascii_string (ac_Scope c) -> int64 (ac_Exp c) -> decode_access (enc_object (access_fields c)) = Some c.
Proof.
  destruct c as [u cid aud sc e]. cbn [ac_Username ac_ClientID ac_Audience ac_Scope ac_Exp]. intros.
  unfold decode_access, access_fields. rewrite object_fields_enc by fields_ok. cbn [mbind option_bind].
  by read_fields.
Qed.

Lemma decode_refresh_enc c :
  ascii_string (rf_Username c) -> ascii_string (rf_ClientID c) -> ascii_string (rf_Audience c) ->
  ascii_string (rf_Scope c) -> ascii_string (rf_JTI c) -> int64 (rf_Exp c) ->
  decode_refresh (enc_object (refresh_fields c)) = Some c.
Proof.
  destruct c as [u cid aud sc jti e]. cbn [rf_Username rf_ClientID rf_Audience rf_Scope rf_JTI rf_Exp]. intros.
  unfold decode_refresh, refresh_fields. rewrite object_fields_enc by fields_ok. cbn [mbind option_bind].
  by read_fields.
Qed.

Lemma decode_actor_enc c :
  ascii_string (av_Username c) -> ascii_string (av_IP c) -> int64 (av_Exp c) ->
  decode_actor (enc_object (actor_fields c)) = Some c.
Proof.
  destruct c as [u ip e]. cbn [av_Username av_IP av_Exp]. intros. unfold decode_actor, actor_fields.
  cbn [av_Username av_IP av_Exp]. case_decide; subst; cbn [app];
    (rewrite object_fields_enc by fields_ok; cbn [mbind option_bind]; by read_fields).
Qed.

(** The claims the encoder and decoder carry through: ASCII text and a 64-bit
    expiry. *)
Definition code_ok (c : CodeClaims) : Prop :=
  ascii_string (co_Username c) /\ ascii_string (co_ClientID c) /\ ascii_string (co_Audience c) /\
  ascii_string (co_Scope c) /\ ascii_string (co_RedirectURI c) /\ ascii_string (co_CodeChallenge c) /\
  ascii_string (co_JTI c) /\ int64 (co_Exp c).
Definition access_ok (c : AccessClaims) : Prop :=
  ascii_string (ac_Username c) /\ ascii_string (ac_ClientID c) /\ ascii_string (ac_Audience c) /\
  ascii_string (ac_Scope c) /\ int64 (ac_Exp c).
Definition refresh_ok (c : RefreshClaims) : Prop :=
  ascii_string (rf_Username c) /\ ascii_string (rf_ClientID c) /\ ascii_string (rf_Audience c) /\
  ascii_string (rf_Scope c) /\ ascii_string (rf_JTI c) /\ int64 (rf_Exp c).
Definition actor_ok (c : ActorClaims) : Prop :=
  ascii_string (av_Username c) /\ ascii_string (av_IP c) /\ int64 (av_Exp c).

Lemma VerifyAccess_Sign c secret now :
  access_ok c -> VerifyAccess (SignAccess c secret) secret now = if expired (ac_Exp c) now then None else Some c.
Proof.
  intros (?&?&?&?&?). unfold VerifyAccess, SignAccess. rewrite verifyBlob_signBlob. cbn [mbind option_bind].
  by rewrite decode_access_enc.
Qed.
Lemma VerifyActor_Sign c secret now :
  actor_ok c -> VerifyActor (SignActor c secret) secret now = if expired (av_Exp c) now then None else Some c.
Proof.
  intros (?&?&?). unfold VerifyActor, SignActor. rewrite verifyBlob_signBlob. cbn [mbind option_bind].
  by rewrite decode_actor_enc.
Qed.

(** The four kinds of claims survive the trip: for ASCII fields (whatever
    quotes, control bytes or HTML characters they hold) and a 64-bit expiry, a
    signed code, access token, refresh token or actor assertion verifies under
    its secret to the very claims it was signed with, until it expires, and to
    nothing afterwards. *)
Theorem tokens_roundtrip co ac rf av secret now :
  code_ok co -> access_ok ac -> refresh_ok rf -> actor_ok av ->
  VerifyCode (SignCode co secret) secret now = (if expired (co_Exp co) now then None else Some co) /\
  VerifyAccess (SignAccess ac secret) secret now = (if expired (ac_Exp ac) now then None else Some ac) /\
  VerifyRefresh (SignRefresh rf secret) secret now = (if expired (rf_Exp rf) now then None else Some rf) /\
  VerifyActor (SignActor av secret) secret now = (if expired (av_Exp av) now then None else Some av).
Proof.
  intros (?&?&?&?&?&?&?&?) Hac (?&?&?&?&?&?) Hav. split_and!.
  - unfold VerifyCode, SignCode. rewrite verifyBlob_signBlob. cbn [mbind option_bind]. by rewrite decode_code_enc.
  - by apply VerifyAccess_Sign.
  - unfold VerifyRefresh, SignRefresh. rewrite verifyBlob_signBlob. cbn [mbind option_bind].
    by rewrite decode_refresh_enc.
  - by apply VerifyActor_Sign.
Qed.

Definition ex_code : CodeClaims := mkCode "al" "pmgcl_x" "https://h/mcp" "mcp" "https://c/cb" "ch" "j1" 90.
Definition ex_access : AccessClaims := mkAccess "al<&>" "pmgcl_x" "https://h/mcp" "mcp" 100.
Definition ex_refresh : RefreshClaims := mkRefresh "al" "pmgcl_x" "https://h/mcp" "mcp" "j2" 200.
Definition ex_actor : ActorClaims := mkActor "al" "" 60.

Lemma tokens_roundtrip_witness :
  VerifyCode (SignCode ex_code "k") "k" 95 = (if expired (co_Exp ex_code) 95 then None else Some ex_code) /\
  VerifyAccess (SignAccess ex_access "k") "k" 95 = (if expired (ac_Exp ex_access) 95 then None else Some ex_access) /\
  VerifyRefresh (SignRefresh ex_refresh "k") "k" 95
    = (if expired (rf_Exp ex_refresh) 95 then None else Some ex_refresh) /\
  VerifyActor (SignActor ex_actor "k") "k" 95 = (if expired (av_Exp ex_actor) 95 then None else Some ex_actor).
Proof.
  apply (tokens_roundtrip ex_code ex_access ex_refresh ex_actor "k" 95);
    repeat split; first [by vm_compute | reflexivity].
Defined.
