(* ===== verification/Net.v ===== *)
(** * IP addresses, networks and host:port strings, as package net reads them

    An address is its 128-bit value; the IPv4 addresses are the ones under
    [::ffff:0:0/96]. *)
From S2P Require Import Prelude GoString Duration Sha256 Json.
Open Scope string_scope.

Notation IP := Z (only parsing).

Definition v4_in_v6 : Z := 65535 * 2 ^ 32.

(** [IP.To4]. *)
Definition To4 (ip : IP) : option Z :=
  if decide (ip / 2 ^ 32 = 65535) then Some (ip mod 2 ^ 32) else None.

(** ** Parsing *)

Definition v4_field (p : string) : option Z :=
  match p with
  | EmptyString => None
  | String c r =>
      if Ascii.eqb c "0" && negb (bool_decide (r = "")) then None
      else v ← parse_digits p 0; if decide (v <= 255) then Some v else None
  end.

(** [netip.parseIPv4Fields]. *)
Definition parseIPv4 (s : string) : option Z :=
  match v4_field <$> Split s "." with
  | [Some a; Some b; Some c; Some d] => Some (((a * 256 + b) * 256 + c) * 256 + d)
  | _ => None
  end.

Definition is_hex (c : ascii) : bool := match hex_val c with Some _ => true | None => false end.
Fixpoint hex_num (s : string) (acc : Z) : Z :=
  match s with
  | String c s => hex_num s (acc * 16 + default 0 (hex_val c))
  | EmptyString => acc
  end.

(** The groups of [netip.parseIPv6], at most [n] more; [ell] is the place of
    the ellipsis among them. *)
Fixpoint v6_groups (n : nat) (s : string) (gs : list Z) (ell : option nat)
  : option (list Z * option nat * string) :=
  match n with
  | O => Some (gs, ell, s)
  | S n =>
      let '(h, r) := take_while is_hex s in
      if decide (String.length h = 0 \/ 4 < String.length h)%nat then None else
      let gs' := (gs ++ [hex_num h 0])%list in
      match r with
      | EmptyString => Some (gs', ell, "")
      | String c r1 =>
          if Ascii.eqb c "." then
            if decide (ell = None /\ length gs <> 6%nat) then None
            else if decide (6 < length gs)%nat then None
            else v ← parseIPv4 s; Some ((gs ++ [v / 65536; v mod 65536])%list, ell, "")
          else if Ascii.eqb c ":" then
            match r1 with
            | EmptyString => None
            | String d r2 =>
                if Ascii.eqb d ":" then
                  match ell with
                  | Some _ => None
                  | None => if decide (r2 = "") then Some (gs', Some (length gs'), "")
                            else v6_groups n r2 gs' (Some (length gs'))
                  end
                else v6_groups n r1 gs' ell
            end
          else None
      end
  end.

Definition v6_value (gs : list Z) : Z := fold_left (fun a g => a * 65536 + g) gs 0.

Definition parseIPv6 (s : string) : option Z :=
  '(s, ell) ← match CutPrefix s "::" with
              | Some r => Some (r, Some O)
              | None => Some (s, None)
              end;
  if decide (ell = Some O /\ s = "") then Some 0 else
  '(gs, ell, rest) ← v6_groups 8 s [] ell;
  if decide (rest <> "") then None
  else if decide (length gs < 8)%nat then
    e ← ell; Some (v6_value (take e gs ++ replicate (8 - length gs) 0 ++ drop e gs))
  else match ell with None => Some (v6_value gs) | Some _ => None end.

Inductive addr := Addr4 (a : Z) | Addr6 (a : Z).

(** [netip.ParseAddr]; an address with a zone is refused by every caller. *)
Fixpoint addr_kind (s : string) : option ascii :=
  match s with
  | String c s => if has_byte c ".:%" then Some c else addr_kind s
  | EmptyString => None
  end.
Definition ParseAddr (s : string) : option addr :=
  c ← addr_kind s;
  if Ascii.eqb c "." then Addr4 <$> parseIPv4 s
  else if Ascii.eqb c ":" && negb (has_byte "%" s) then Addr6 <$> parseIPv6 s
  else None.

Definition As16 (a : addr) : IP := match a with Addr4 v => v4_in_v6 + v | Addr6 v => v end.
Definition BitLen (a : addr) : Z := match a with Addr4 _ => 32 | Addr6 _ => 128 end.

(** [net.ParseIP]. *)
Definition ParseIP (s : string) : option IP := As16 <$> ParseAddr s.

(** ** Networks *)

(** A network: of IPv4 or IPv6 addresses, the prefix length, the prefix. *)
Record IPNet := mkIPNet { n_four : bool; n_ones : Z; n_prefix : Z }.

Definition dtoi (s : string) : option Z :=
  if decide (s = "") then None
  else v ← parse_digits s 0; if decide (v < 16777215) then Some v else None.

Definition prefix_of (width ones a : Z) : Z := a / 2 ^ (width - ones).

(** [net.ParseCIDR]. A masked address that is still v4-mapped is an IPv4
    network. *)
Definition ParseCIDR (s : string) : option IPNet :=
  '(a, m) ← Cut s "/";
  a ← ParseAddr a;
  n ← dtoi m;
  if decide (BitLen a < n) then None
  else match a with
       | Addr4 v => Some (mkIPNet true n (prefix_of 32 n v))
       | Addr6 v =>
           let masked := prefix_of 128 n v * 2 ^ (128 - n) in
           match To4 masked with
           | Some x => Some (mkIPNet true (n - 96) (prefix_of 32 (n - 96) x))
           | None => Some (mkIPNet false n (prefix_of 128 n v))
           end
       end.

(** [IPNet.Contains]. *)
Definition Contains (n : IPNet) (ip : IP) : bool :=
  match To4 ip, n_four n with
  | Some x, true => bool_decide (prefix_of 32 (n_ones n) x = n_prefix n)
  | None, false => bool_decide (prefix_of 128 (n_ones n) ip = n_prefix n)
  | _, _ => false
  end.

(** ** Printing *)

Definition v4_string (x : Z) : string :=
  Join (FormatInt <$> [x / 2 ^ 24; x / 2 ^ 16 mod 256; x / 2 ^ 8 mod 256; x mod 256]) ".".

Fixpoint strip_zeros (s : string) : string :=
  match s with
  | String c (String _ _ as r) => if Ascii.eqb c "0" then strip_zeros r else s
  | _ => s
  end.
Definition hex_group (g : Z) : string :=
  strip_zeros (String (hex_digit (g / 4096)) (String (hex_digit (g / 256 mod 16))
    (String (hex_digit (g / 16 mod 16)) (String (hex_digit (g mod 16)) "")))).

Definition group_at (ip : Z) (i : nat) : Z := ip / 2 ^ (112 - 16 * Z.of_nat i) mod 65536.

Fixpoint zero_run (gs : list Z) : nat :=
  match gs with
  | g :: gs => if decide (g = 0) then S (zero_run gs) else O
  | [] => O
  end.
(** The leftmost longest run of at least two zero groups: its start and end. *)
Definition longest_run (gs : list Z) : option (nat * nat) :=
  fold_left (fun best i =>
    let l := zero_run (drop i gs) in
    match best with
    | Some (a, b) => if decide (b - a < l)%nat then Some (i, i + l)%nat else best
    | None => if decide (2 <= l)%nat then Some (i, i + l)%nat else None
    end) (seq 0 (length gs)) None.

Definition v6_string (ip : Z) : string :=
  let gs := group_at ip <$> seq 0 8 in
  match longest_run gs with
  | None => Join (hex_group <$> gs) ":"
  | Some (a, b) => Join (hex_group <$> take a gs) ":" +:+ "::" +:+ Join (hex_group <$> drop b gs) ":"
  end.

(** [IP.String]. *)
Definition IP_String (ip : IP) : string :=
  match To4 ip with Some x => v4_string x | None => v6_string ip end.

Example parse_ip_ex :
  ParseIP "10.0.0.1" = Some (v4_in_v6 + 10 * 2 ^ 24 + 1) /\ ParseIP "::1" = Some 1 /\ ParseIP "::" = Some 0 /\
  ParseIP "2001:db8::8:800:200c:417a" = Some 42540766411282592856906245548098208122 /\
  ParseIP "::ffff:1.2.3.4" = ParseIP "1.2.3.4" /\ ParseIP "1.2.3" = None /\ ParseIP "01.2.3.4" = None /\
  ParseIP "1::2::3" = None /\ ParseIP "fe80::1%eth0" = None /\ ParseIP "256.1.1.1" = None /\
  ParseIP "1:2:3:4:5:6:7::" <> None /\ ParseIP "1:2:3:4:5:6:7:8::" = None /\ ParseIP "" = None.
Proof. by vm_compute. Qed.
Example print_ip_ex :
  IP_String <$> ParseIP "10.0.0.1" = Some "10.0.0.1" /\ IP_String 1 = "::1" /\ IP_String 0 = "::" /\
  IP_String <$> ParseIP "2001:DB8:0:0:8:800:200c:417a" = Some "2001:db8::8:800:200c:417a" /\
  IP_String <$> ParseIP "1:0:2:0:0:3:0:0" = Some "1:0:2::3:0:0" /\
  IP_String <$> ParseIP "1:2:3:4:5:6:0:0" = Some "1:2:3:4:5:6::".
Proof. by vm_compute. Qed.
Example cidr_ex :
  let net := ParseCIDR "192.168.0.0/16" in
  (fun n => Contains n <$> ParseIP "192.168.7.9") <$> net = Some (Some true) /\
  (fun n => Contains n <$> ParseIP "192.169.7.9") <$> net = Some (Some false) /\
  ParseCIDR "10.0.0.0/33" = None /\ ParseCIDR "10.0.0.0" = None /\
  (fun n => Contains n <$> ParseIP "1.2.3.4") <$> ParseCIDR "::/0" = Some (Some false).
Proof. by vm_compute. Qed.

(** ** host:port *)

(** [net.SplitHostPort]: the host, or [None] for an error. *)
Fixpoint split_last (s : string) (sep : ascii) : option (string * string) :=
  match s with
  | EmptyString => None
  | String c r =>
      match split_last r sep with
      | Some (a, b) => Some (String c a, b)
      | None => if Ascii.eqb c sep then Some ("", r) else None
      end
  end.

Definition SplitHostPort (hostport : string) : option string :=
  '(before, port) ← split_last hostport ":";
  '(host, j, k) ← match hostport with
                  | String "[" r =>
                      '(h, after) ← Cut r "]";
                      match after with
                      | String ":" p => if has_byte ":" p then None else Some (h, r, after)
                      | _ => None
                      end
                  | _ => if has_byte ":" before then None else Some (before, hostport, hostport)
                  end;
  if has_byte "[" j || has_byte "]" k then None else Some host.

(** The host of a [RemoteAddr], which is the whole string when it has no port. *)
Definition remote_host (addr : string) : string := default addr (SplitHostPort addr).

Example hostport_ex :
  SplitHostPort "10.0.0.1:80" = Some "10.0.0.1" /\ SplitHostPort "[::1]:80" = Some "::1" /\
  SplitHostPort "::1" = None /\ SplitHostPort "host" = None /\ SplitHostPort "[::1]" = None.
Proof. by vm_compute. Qed.

(** ** IPv4 addresses print differently *)

Lemma Join_inj_dot l l' :
  Forall (fun p => has_byte "." p = false) l -> Forall (fun p => has_byte "." p = false) l' ->
  l <> [] -> l' <> [] -> Join l "." = Join l' "." -> l = l'.
Proof.
  intros Hl Hl' Hn Hn' Heq.
  assert (forall l, Forall (fun p => has_byte "." p = false) l -> l <> [] -> Split (Join l ".") "." = l) as Hs.
  { clear. induction l as [|x l IH]; intros Hl Hn; [done|]. apply Forall_cons in Hl as [Hx Hl].
    destruct (decide (l = [])) as [->|Hne]; [by apply Split_free|].
    rewrite Join_cons by done. change (x +:+ "." +:+ Join l ".")%string with (x +:+ String "." (Join l ".")).
    by rewrite Split_app_sep, IH. }
  rewrite <- (Hs l), <- (Hs l') by done. by rewrite Heq.
Qed.

Lemma FormatInt_inj n m : minInt64 <= n <= maxInt64 -> minInt64 <= m <= maxInt64 -> FormatInt n = FormatInt m -> n = m.
Proof. intros Hn Hm Heq. apply (inj Some). by rewrite <- (ParseInt_FormatInt n), Heq, ParseInt_FormatInt. Qed.

Lemma v4_string_inj x y : 0 <= x < 2 ^ 32 -> 0 <= y < 2 ^ 32 -> v4_string x = v4_string y -> x = y.
Proof.
  change (2 ^ 32) with 4294967296. unfold v4_string. change (2 ^ 24) with 16777216. change (2 ^ 16) with 65536.
  change (2 ^ 8) with 256. intros Hx Hy Heq.
  apply Join_inj_dot in Heq; [|apply Forall_forall; intros ? (? & -> & ?)%list_elem_of_fmap; by apply FormatInt_free..|done|done].
  cbn [fmap list_fmap] in Heq. injection Heq as H1 H2 H3 H4.
  assert (forall z, 0 <= z < 4294967296 -> minInt64 <= z <= maxInt64) as Hr.
  { unfold minInt64, maxInt64. intros z Hz. change (2 ^ 63) with 9223372036854775808. lia. }
  apply FormatInt_inj in H1, H2, H3, H4; try apply Hr; Z.to_euclidean_division_equations; lia.
Qed.
