(* ===== verification/AuthGate.v ===== *)
(** * The auth gate: cmd/proxy/auth.go, cmd/proxy/oauth.go and the client
    address of cmd/proxy/router.go

    [realClientIP] and the rate-limit key, the bearer-token cache, [authorize]
    for cookie hosts and OAuth hosts, and the OAuth metadata endpoints. The
    dashboard that verifies [pmt_] tokens is the argument [post]; the clock is
    in nanoseconds. *)
From S2P Require Import Prelude GoString Duration Http Sha256 Json Url Sso Net Balancer.
Open Scope string_scope.

(** ** Responses *)

(** The body of a response: text, the page of [serveUnavailableRetry] with the
    values it prints, or the link of [http.Redirect]. *)
Inductive body :=
| Text (s : string)
| Page (retryAfter status : Z) (host reason : string)
| Link (url : string).

Record response := mkResponse { rs_Status : Z; rs_Header : header; rs_Body : body }.

Definition newline : string := String (chr 10) "".

(** [httpx.WriteJSON]. *)
Definition WriteJSON (w : header) (status : Z) (json : string) : response :=
  mkResponse status (Set_ "Content-Type" "application/json" w) (Text (json +:+ newline)).
Definition error_json (msg : string) : string := enc_object [("error", inl msg)].

Definition serveUnavailableRetry (w : header) (status : Z) (host reason : string) (retryAfter : Z) : response :=
  mkResponse status
    (Set_ "Retry-After" (FormatInt retryAfter)
      (Set_ "Cache-Control" "no-store" (Set_ "Content-Type" "text/html; charset=utf-8" w)))
    (Page retryAfter status host reason).
Definition serveUnavailable (w : header) (status : Z) (host reason : string) : response :=
  serveUnavailableRetry w status host reason 300.
Definition unavailable_reason : string := "Service unavailable at this time, try again later.".

(** [http.Error], [http.NotFound]. *)
Definition http_Error (w : header) (msg : string) (status : Z) : response :=
  mkResponse status
    (Set_ "X-Content-Type-Options" "nosniff" (Set_ "Content-Type" "text/plain; charset=utf-8"
      (Del "Content-Length" w)))
    (Text (msg +:+ newline)).

(** [http.Redirect] to an absolute URL. *)
Fixpoint escape_non_ascii (s : string) : string :=
  match s with
  | EmptyString => ""
  | String c s => (if in_N c 0 127 then String c "" else "%" +:+ hex (String c "")) +:+ escape_non_ascii s
  end.
Definition http_Redirect (w : header) (method url : string) (status : Z) : response :=
  let h := Set_ "Location" (escape_non_ascii url) w in
  if decide (w !! "Content-Type" = None /\ (method = "GET" \/ method = "HEAD")) then
    mkResponse status (Set_ "Content-Type" "text/html; charset=utf-8" h)
      (if decide (method = "GET") then Link url else Text "")
  else mkResponse status h (Text "").

(** [strconv.Quote] of printable text. *)
Definition q_escape (c : ascii) : string :=
  if Ascii.eqb c quote || Ascii.eqb c backslash then String backslash (String c "")
  else if Ascii.eqb c (chr 7) then String backslash "a"
  else if Ascii.eqb c (chr 8) then String backslash "b"
  else if Ascii.eqb c (chr 12) then String backslash "f"
  else if Ascii.eqb c (chr 10) then String backslash "n"
  else if Ascii.eqb c (chr 13) then String backslash "r"
  else if Ascii.eqb c (chr 9) then String backslash "t"
  else if Ascii.eqb c (chr 11) then String backslash "v"
  else if in_N c 0 31 || in_N c 127 127 then String backslash ("x" +:+ hex (String c ""))
  else String c "".
Fixpoint q_bytes (s : string) : string :=
  match s with String c s => q_escape c +:+ q_bytes s | EmptyString => "" end.
Definition Quote (s : string) : string := String quote (q_bytes s) +:+ String quote "".

(** ** The client's address *)

Definition parseCIDRList (csv : string) : list IPNet := omap ParseCIDR (trimmed_parts csv).

Definition ipInAny (ip : IP) (nets : list IPNet) : bool := existsb (fun n => Contains n ip) nets.

Definition last_hop (xff : string) : string := TrimSpace (List.last (Split xff ",") "").

Definition realClientIP (r : request) (xffTrusted : list IPNet) : option IP :=
  match ParseIP (remote_host (req_RemoteAddr r)) with
  | None => None
  | Some peer =>
      if negb (ipInAny peer xffTrusted) then Some peer else
      let xff := Get (req_Header r) "X-Forwarded-For" in
      if decide (xff = "") then Some peer else
      match ParseIP (last_hop xff) with
      | Some ip => Some ip
      | None => Some peer
      end
  end.

Definition mask64 (ip : IP) : IP := prefix_of 128 64 ip * 2 ^ 64.
Definition maskRLKey (ip : IP) : string :=
  match To4 ip with
  | Some v4 => v4_string v4
  | None => IP_String (mask64 ip)
  end.

Definition rlKey (r : request) (xffTrusted : list IPNet) : string :=
  match realClientIP r xffTrusted with
  | Some ip => maskRLKey ip
  | None =>
      let host := remote_host (req_RemoteAddr r) in
      match ParseIP host with Some ip => maskRLKey ip | None => host end
  end.

(** ** The gate *)

Definition bearerPrefix : string := "Bearer ".
Definition bearerPositiveTTL : Z := 5 * Minute.
Definition bearerNegativeTTL : Z := 30 * Second.
Definition maxBearerCache : nat := N.to_nat 4096.

Record bearerEntry := mkBearer { be_username : string; be_expires : Z }.

Record authGate := mkGate {
  a_secret : string;
  a_actorSecret : string;
  a_domains : list string;
  a_trusted : list IPNet;
  a_xffTrusted : list IPNet;
  a_bearers : gmap string bearerEntry;   (* by the SHA-256 of the token *)
}.

Definition newAuthGate (secret actorSecret domainsCSV trustedCSV xffTrustedCSV : string) : authGate :=
  mkGate secret actorSecret (ToLower <$> trimmed_parts domainsCSV)
    (parseCIDRList trustedCSV) (parseCIDRList xffTrustedCSV) ∅.

Definition set_bearers (m : gmap string bearerEntry) (a : authGate) : authGate :=
  mkGate (a_secret a) (a_actorSecret a) (a_domains a) (a_trusted a) (a_xffTrusted a) m.

Definition ActorHeader : string := "X-Pmgr-Actor".
Definition actorTTL : Z := 2 * Minute.
Definition unix (now : Z) : Z := now / Second.

(** The header of the request after [stampActor]. *)
Definition stampActor (a : authGate) (r : request) (user : string) (now : Z) : header :=
  if decide (a_actorSecret a = "" \/ user = "") then req_Header r else
  let ip := match realClientIP r (a_xffTrusted a) with Some v => IP_String v | None => "" end in
  Set_ ActorHeader (SignActor (mkActor user ip (unix (now + actorTTL))) (a_actorSecret a)) (req_Header r).

Definition userAllowed (g : RouteGroup) (user : string) : bool :=
  match g_AuthUsers g with
  | [] => true
  | us => existsb (fun u => EqualFold u user) us
  end.

(** The [-auth-domains] entry a host belongs to. *)
Definition under_domain (host d : string) : bool := EqualFold host d || HasSuffix (ToLower host) ("." +:+ d).
Definition find_domain (a : authGate) (host : string) : option string := find_first (under_domain host) (a_domains a).
Definition parentDomain (a : authGate) (host : string) : string := default "" (find_domain a host).

Definition deny_json (w : header) : response :=
  WriteJSON (Set_ "WWW-Authenticate" "Bearer" w) 401 (error_json "authentication required").

(** [uri] is the request's [URL.RequestURI()]. *)
Definition deny (a : authGate) (w : header) (r : request) (uri reqHost : string) : response :=
  if StrContains (Get (req_Header r) "Accept") "text/html" then
    match find_domain a reqHost with
    | Some d =>
        let target := "https://" +:+ req_Host r +:+ uri in
        http_Redirect w (req_Method r) ("https://auth." +:+ d +:+ "/login?redirect=" +:+ QueryEscape target) 302
    | None => deny_json w
    end
  else deny_json w.

(** ** Bearer tokens *)

(** The dashboard's reply to a token: [None] when the call failed, else the
    status and the body. *)
Section bearer.
Context (post : string -> option (Z * string)).

Definition decode_username (b : string) : option string :=
  '(v, _) ← parse_value (S (String.length b)) b;
  match v with
  | JObj l => get_string ["username"] "username" l
  | JNull => Some ""
  | _ => None
  end.

Definition ask_dashboard (token : string) : string :=
  match post token with
  | Some (200, b) => default "" (decode_username b)
  | _ => ""
  end.

Definition bearer_hit (key : string) (now : Z) (m : gmap string bearerEntry) : option string :=
  match m !! key with
  | Some e => if time_before now (be_expires e) then Some (be_username e) else None
  | None => None
  end.

(** The second critical section: at capacity expired entries are swept, and the
    cache wiped when that frees nothing. *)
Definition bearer_store (key user : string) (now : Z) (m : gmap string bearerEntry) : gmap string bearerEntry :=
  let ttl := if decide (user = "") then bearerNegativeTTL else bearerPositiveTTL in
  let m := if decide (maxBearerCache <= size m)%nat then
             let swept := filter (fun ke => time_after now (be_expires (snd ke)) = false) m in
             if decide (maxBearerCache <= size swept)%nat then ∅ else swept
           else m in
  <[key := mkBearer user (now + ttl)]> m.

Definition verifyBearer (token : string) (now : Z) (a : authGate) : string * authGate :=
  let key := Sum256 token in
  match bearer_hit key now (a_bearers a) with
  | Some u => (u, a)
  | None =>
      let user := ask_dashboard token in
      (user, set_bearers (bearer_store key user now (a_bearers a)) a)
  end.

(** ** OAuth *)

Definition protectedResourcePath : string := "/.well-known/oauth-protected-resource".

Definition oauthResource (reqHost pathPrefix : string) : string := ToLower reqHost +:+ TrimSuffix pathPrefix "/".

Definition verifyOAuthBearer (a : authGate) (token reqHost pathPrefix : string) (now : Z) : option string :=
  claims ← VerifyAccess token (a_secret a) (unix now);
  let want := oauthResource reqHost pathPrefix in
  if decide (pathPrefix <> "") then
    if EqualFold (ac_Audience claims) want then Some (ac_Username claims) else None
  else if negb (bool_decide (ac_Audience claims = "*")) && negb (EqualFold (ac_Audience claims) want) then None
  else Some (ac_Username claims).

Definition denyOAuth (w : header) (reqHost pathPrefix : string) (hadBearer : bool) : response :=
  let metaURL := "https://" +:+ reqHost +:+ protectedResourcePath +:+ TrimSuffix pathPrefix "/" in
  let challenge := "Bearer resource_metadata=" +:+ Quote metaURL +:+
                   (if hadBearer then ", error=" +:+ Quote "invalid_token" else "") in
  WriteJSON (Set_ "WWW-Authenticate" challenge w) 401 (error_json "authentication required").

(** What a gate does with a request: let it through, with the headers it now
    has, or answer it. *)
Inductive verdict :=
| Pass (h : header)
| Refuse (resp : response).

Definition forbidden (w : header) : response := WriteJSON w 403 (error_json "forbidden").

(** A user was identified: stamped and let through, or forbidden. *)
Definition admit_user (a : authGate) (w : header) (r : request) (g : RouteGroup) (user : string) (now : Z) : verdict :=
  if userAllowed g user then Pass (stampActor a r user now) else Refuse (forbidden w).

Definition authorizeOAuth (a : authGate) (w : header) (r : request) (g : RouteGroup) (reqHost : string) (now : Z)
  : verdict * authGate :=
  let authz := Get (req_Header r) "Authorization" in
  let hadBearer := HasPrefix authz bearerPrefix in
  let challenge := Refuse (denyOAuth w reqHost (g_PathPrefix g) hadBearer) in
  if HasPrefix authz (bearerPrefix +:+ "pmt_") then
    let '(user, a) := verifyBearer (TrimPrefix authz bearerPrefix) now a in
    if decide (user = "") then (challenge, a) else (admit_user a w r g user now, a)
  else if HasPrefix authz (bearerPrefix +:+ AccessTokenPrefix) then
    match verifyOAuthBearer a (TrimPrefix authz bearerPrefix) reqHost (g_PathPrefix g) now with
    | Some user => (admit_user a w r g user now, a)
    | None => (challenge, a)
    end
  else (challenge, a).

Definition is_login_host (a : authGate) (reqHost : string) : bool :=
  existsb (fun d => EqualFold reqHost ("auth." +:+ d)) (a_domains a).

Definition lan_bypass (a : authGate) (r : request) : bool :=
  match realClientIP r (a_xffTrusted a) with
  | Some ip => ipInAny ip (a_trusted a)
  | None => false
  end.

Definition cookie_user (a : authGate) (r : request) (now : Z) : option string :=
  v ← Cookie r CookieName; Verify v (a_secret a) (unix now).

Definition authorize (a : authGate) (w : header) (r : request) (uri : string) (g : RouteGroup) (now : Z)
  : verdict * authGate :=
  let reqHost := hostOnly (req_Host r) in
  let oauth := bool_decide (g_AuthMode g = "oauth") in
  if is_login_host a reqHost then (Pass (req_Header r), a)
  else if negb oauth && lan_bypass a r then (Pass (req_Header r), a)
  else if decide (a_secret a = "") then (Refuse (serveUnavailable w 503 reqHost unavailable_reason), a)
  else if oauth then authorizeOAuth a w r g reqHost now
  else
    match cookie_user a r now with
    | Some user => (admit_user a w r g user now, a)
    | None =>
        let authz := Get (req_Header r) "Authorization" in
        if HasPrefix authz (bearerPrefix +:+ "pmt_") then
          let '(user, a) := verifyBearer (TrimPrefix authz bearerPrefix) now a in
          if decide (user = "") then (Refuse (deny a w r uri reqHost), a) else (admit_user a w r g user now, a)
        else (Refuse (deny a w r uri reqHost), a)
    end.
End bearer.

(** *** Metadata endpoints *)

Definition metadata_json (parent resource : string) : string :=
  "{" +:+ enc_string "authorization_servers" +:+ ":[" +:+ enc_string ("https://auth." +:+ parent) +:+ "]," +:+
  enc_string "bearer_methods_supported" +:+ ":[" +:+ enc_string "header" +:+ "]," +:+
  enc_string "resource" +:+ ":" +:+ enc_string resource +:+ "}".

Definition serveProtectedResourceMetadata (a : authGate) (w : header) (r : request) : response :=
  let host := hostOnly (req_Host r) in
  match find_domain a host with
  | None => http_Error w "404 page not found" 404
  | Some parent =>
      let suffix := TrimPrefix (req_Path r) protectedResourcePath in
      WriteJSON (Set_ "Cache-Control" "max-age=300" (Set_ "Access-Control-Allow-Origin" "*" w)) 200
        (metadata_json parent ("https://" +:+ host +:+ suffix))
  end.

Definition redirectASMetadata (a : authGate) (w : header) (r : request) : response :=
  match find_domain a (hostOnly (req_Host r)) with
  | None => http_Error w "404 page not found" 404
  | Some parent => http_Redirect w (req_Method r) ("https://auth." +:+ parent +:+ req_Path r) 302
  end.

(** [None]: not handled here. *)
Definition handleOAuthWellKnown (auth : option authGate) (w : header) (r : request) (groups : list RouteGroup)
    (reqHost : string) : option response :=
  a ← auth;
  if negb (HasPrefix (req_Path r) "/.well-known/") then None else
  let isPRM := HasPrefix (req_Path r) protectedResourcePath in
  let isLegacyAS := HasPrefix (req_Path r) "/.well-known/oauth-authorization-server" ||
                    HasPrefix (req_Path r) "/.well-known/openid-configuration" in
  if negb isPRM && negb isLegacyAS then None
  else if existsb (fun g => EqualFold reqHost (g_Host g) && bool_decide (g_AuthMode g = "oauth")) groups then
    Some (if isPRM then serveProtectedResourceMetadata a w r else redirectASMetadata a w r)
  else None.

(** * Properties *)

(** ** The client's address *)

Lemma last_app_ne {A} (l l' : list A) d : l' <> [] -> List.last (l ++ l') d = List.last l' d.
Proof.
  intros Hl'. induction l as [|x l IH]; [done|]. cbn [app List.last].
  destruct (l ++ l')%list eqn:E; [|done]. by apply app_nil in E as [_ ->].
Qed.

Lemma last_hop_app p x : has_byte "," x = false -> last_hop (p +:+ "," +:+ x) = last_hop x.
Proof.
  intros Hx. unfold last_hop. f_equal. rewrite (Split_free x) by done. cbn [List.last].
  change (p +:+ "," +:+ x)%string with (p +:+ String "," x).
  induction p as [|c p IH]; cbn [String.append Split].
  - rewrite Ascii.eqb_refl, Split_free by done. done.
  - destruct (Ascii.eqb c ","); [pose proof (Split_nonempty (p +:+ String "," x) ","); by destruct (Split _ _)|].
    pose proof (Split_has (p +:+ String "," x) ",") as Hlen.
    rewrite has_byte_app, has_byte_cons, Ascii.eqb_refl, orb_true_l, orb_true_r in Hlen. specialize (Hlen eq_refl).
    destruct (Split (p +:+ String "," x) ",") as [|q [|q' qs]]; cbn in *; [lia..|]. exact IH.
Qed.

Definition with_xff (v : string) (r : request) : request :=
  set_Header (Set_ "X-Forwarded-For" v (req_Header r)) r.
Definition peer_trusted (r : request) (nets : list IPNet) : bool :=
  match ParseIP (remote_host (req_RemoteAddr r)) with Some peer => ipInAny peer nets | None => false end.

Lemma with_xff_Get v r : Get (req_Header (with_xff v r)) "X-Forwarded-For" = v.
Proof.
  unfold Get, Values, with_xff, Set_. cbn [set_Header req_Header].
  by rewrite lookup_insert_eq.
Qed.

(** A client cannot choose the address it is known by. When the TCP peer is
    not a trusted hop, no header has any effect on [realClientIP]. When it is,
    only the text after the last comma counts: whatever a client put before
    the entry the hop appended (which has no comma), the address, and with it
    the rate-limit bucket, are those of the entry alone. *)
Theorem client_address_not_spoofable r nets :
  (peer_trusted r nets = false -> forall h, realClientIP (set_Header h r) nets = realClientIP r nets) /\
  (forall p x, has_byte "," x = false ->
     realClientIP (with_xff (p +:+ "," +:+ x) r) nets = realClientIP (with_xff x r) nets /\
     rlKey (with_xff (p +:+ "," +:+ x) r) nets = rlKey (with_xff x r) nets).
Proof.
  split.
  - unfold peer_trusted, realClientIP. intros Hp h. cbn [set_Header req_RemoteAddr req_Header].
    destruct (ParseIP _) as [peer|]; [|done]. by rewrite Hp.
  - intros p x Hx.
    assert (realClientIP (with_xff (p +:+ "," +:+ x) r) nets = realClientIP (with_xff x r) nets) as Heq.
    { unfold realClientIP. rewrite !with_xff_Get, last_hop_app by done.
      change (req_RemoteAddr (with_xff ?v r)) with (req_RemoteAddr r).
      destruct (ParseIP (remote_host _)) as [peer|]; [|done]. destruct (negb _); [done|].
      rewrite (decide_False (P := (p +:+ "," +:+ x)%string = "")) by (by destruct p).
      case_decide as He; [|done]. subst x. done. }
    split; [done|]. unfold rlKey. by rewrite Heq.
Qed.

(** Only the first X-Forwarded-For line is read: a hop that appends a line of
    its own, instead of extending the client's, is not heard. *)
Lemma second_xff_line_ignored r nets client hop :
  req_Header r !! "X-Forwarded-For" = Some [client; hop] ->
  realClientIP r nets = realClientIP (with_xff client r) nets.
Proof.
  intros Hh. unfold realClientIP. rewrite with_xff_Get.
  assert (Get (req_Header r) "X-Forwarded-For" = client) as ->; [|done].
  unfold Get, Values. change (CanonicalHeaderKey "X-Forwarded-For") with "X-Forwarded-For". by rewrite Hh.
Qed.

(** The rate-limit key of an IPv4 client is its address, that of an IPv6 client
    its /64. *)
Lemma rate_key_subnet ip ip' :
  (To4 ip = None -> To4 ip' = None -> prefix_of 128 64 ip = prefix_of 128 64 ip' -> maskRLKey ip = maskRLKey ip') /\
  (forall x y, To4 ip = Some x -> To4 ip' = Some y -> maskRLKey ip = maskRLKey ip' <-> x = y).
Proof.
  unfold maskRLKey. split.
  - intros -> -> Heq. unfold mask64. by rewrite Heq.
  - intros x y Hx Hy. rewrite Hx, Hy. split; [|by intros ->].
    assert (forall i z, To4 i = Some z -> 0 <= z < 2 ^ 32) as Hr.
    { unfold To4. intros i z. case_decide; [|done]. intros [= <-]. by apply Z.mod_pos_bound. }
    apply v4_string_inj; by eapply Hr.
Qed.

(** ** Who is let through *)

Section grants.
Context (post : string -> option (Z * string)).

(** The token of an Authorization header. *)
Definition bearer_token (r : request) (tok : string) : Prop :=
  Get (req_Header r) "Authorization" = bearerPrefix +:+ tok.

Definition dashboard_user (a : authGate) (tok : string) (now : Z) (u : string) : Prop :=
  bearer_hit (Sum256 tok) now (a_bearers a) = Some u \/
  (bearer_hit (Sum256 tok) now (a_bearers a) = None /\ ask_dashboard post tok = u).

(** Why a request is let through, and as whom. *)
Inductive grant (a : authGate) (r : request) (g : RouteGroup) (now : Z) : option string -> Prop :=
| G_login : is_login_host a (hostOnly (req_Host r)) = true -> grant a r g now None
| G_lan ip :
    g_AuthMode g <> "oauth" -> realClientIP r (a_xffTrusted a) = Some ip -> ipInAny ip (a_trusted a) = true ->
    grant a r g now None
| G_cookie u v :
    g_AuthMode g <> "oauth" -> a_secret a <> "" -> Cookie r CookieName = Some v ->
    Verify v (a_secret a) (unix now) = Some u -> userAllowed g u = true -> grant a r g now (Some u)
| G_token u tok :
    a_secret a <> "" -> bearer_token r ("pmt_" +:+ tok) -> dashboard_user a ("pmt_" +:+ tok) now u -> u <> "" ->
    userAllowed g u = true -> grant a r g now (Some u)
| G_oauth u tok :
    g_AuthMode g = "oauth" -> a_secret a <> "" -> bearer_token r (AccessTokenPrefix +:+ tok) ->
    verifyOAuthBearer a (AccessTokenPrefix +:+ tok) (hostOnly (req_Host r)) (g_PathPrefix g) now = Some u ->
    userAllowed g u = true -> grant a r g now (Some u).

Lemma verifyBearer_user a tok now : dashboard_user a tok now (fst (verifyBearer post tok now a)).
Proof. unfold verifyBearer, dashboard_user. destruct (bearer_hit _ _ _) as [u|]; [by left|by right]. Qed.

Lemma verifyBearer_gate tok now a :
  exists m, snd (verifyBearer post tok now a) = set_bearers m a.
Proof.
  unfold verifyBearer. destruct (bearer_hit _ _ _) as [u|]; cbn [snd].
  - exists (a_bearers a). by destruct a.
  - eexists. reflexivity.
Qed.

Lemma stampActor_bearers m a r user now : stampActor (set_bearers m a) r user now = stampActor a r user now.
Proof. done. Qed.

Lemma admit_user_Pass a w r g user now h :
  admit_user a w r g user now = Pass h -> userAllowed g user = true /\ h = stampActor a r user now.
Proof. unfold admit_user. destruct (userAllowed g user); [|done]. by intros [= <-]. Qed.

Lemma auth_prefix authz p :
  HasPrefix authz (bearerPrefix +:+ p) = true ->
  exists t, authz = bearerPrefix +:+ p +:+ t /\ TrimPrefix authz bearerPrefix = (p +:+ t)%string.
Proof.
  intros (t & Ht)%HasPrefix_Cut. exists t. rewrite append_assoc in Ht. subst. split; [done|]. apply TrimPrefix_app.
Qed.

(** A dashboard token in either mode. *)
Lemma token_branch a w r g now h a' (no : authGate -> response) :
  a_secret a <> "" -> HasPrefix (Get (req_Header r) "Authorization") (bearerPrefix +:+ "pmt_") = true ->
  (let '(user, a) := verifyBearer post (TrimPrefix (Get (req_Header r) "Authorization") bearerPrefix) now a in
   if decide (user = "") then (Refuse (no a), a) else (admit_user a w r g user now, a)) = (Pass h, a') ->
  exists u, grant a r g now (Some u) /\ h = stampActor a r u now.
Proof.
  intros Hs Hp. apply auth_prefix in Hp as (t & Ha & ->).
  pose proof (verifyBearer_user a ("pmt_" +:+ t) now) as Hu.
  pose proof (verifyBearer_gate ("pmt_" +:+ t) now a) as [m Hm].
  destruct (verifyBearer post ("pmt_" +:+ t) now a) as [u a1]. cbn [fst snd] in *. subst a1.
  case_decide as Hne; [done|]. intros [= [Hal ->]%admit_user_Pass _]. exists u.
  split; [|by rewrite stampActor_bearers]. by eapply G_token.
Qed.

(** Whenever the gate lets a request through there is a reason for it: the
    host is a login host; or the route is not an OAuth one and the client's
    address is in a trusted network; or the request carries a cookie that
    verifies for a user the route allows; or a [pmt_] token that the dashboard
    (or a live cache entry) maps to such a user; or, on an OAuth route, an
    access token of such a user for this very resource. The request goes on
    with its headers unchanged in the first two cases, and with the attribution
    header of that user in the others. *)
Lemma authorize_granted a w r uri g now h a' :
  authorize post a w r uri g now = (Pass h, a') ->
  exists who, grant a r g now who /\
    h = match who with Some u => stampActor a r u now | None => req_Header r end.
Proof.
  unfold authorize. destruct (is_login_host _ _) eqn:Hl.
  { intros [= <- _]. exists None. split; [by apply G_login|done]. }
  destruct (negb _ && lan_bypass a r) eqn:Hlan.
  { apply andb_true_iff in Hlan as [Ho Hlan]. apply negb_true_iff, bool_decide_eq_false in Ho.
    intros [= <- _]. exists None. unfold lan_bypass in Hlan. destruct (realClientIP _ _) eqn:Hip; [|done].
    split; [by eapply G_lan|done]. }
  clear Hlan. case_decide as Hs; [done|]. case_bool_decide as Ho.
  - unfold authorizeOAuth. destruct (HasPrefix _ (bearerPrefix +:+ "pmt_")) eqn:Hp.
    { intros H. eapply (token_branch _ _ _ _ _ _ _ (fun _ => denyOAuth _ _ _ _)) in H as (u & ? & ->); [|done..].
      by exists (Some u). }
    clear Hp. destruct (HasPrefix _ _) eqn:Hp; [|done].
    apply auth_prefix in Hp as (t & Ha & ->). destruct (verifyOAuthBearer _ _ _ _ _) as [u|] eqn:Hv; [|done].
    intros [= [Hal ->]%admit_user_Pass _]. exists (Some u). split; [by eapply G_oauth|done].
  - destruct (cookie_user a r now) as [u|] eqn:Hc.
    + intros [= [Hal ->]%admit_user_Pass _]. exists (Some u). split; [|done].
      unfold cookie_user in Hc. destruct (Cookie r CookieName) as [v|] eqn:Hv; [|done]. by eapply G_cookie.
    + destruct (HasPrefix _ _) eqn:Hp; [|done]. intros H.
      eapply (token_branch _ _ _ _ _ _ _ (fun a => deny a _ _ _ _)) in H as (u & ? & ->); [|done..]. by exists (Some u).
Qed.

(** Without the shared secret a protected route fails closed: whatever
    cookie or token the request carries, unless its host is a login host or its
    address is trusted (which an OAuth route does not look at), the answer is
    503 and the gate does not change. *)
Theorem auth_fails_closed a w r uri g now :
  a_secret a = "" -> is_login_host a (hostOnly (req_Host r)) = false ->
  g_AuthMode g = "oauth" \/ lan_bypass a r = false ->
  authorize post a w r uri g now = (Refuse (serveUnavailable w 503 (hostOnly (req_Host r)) unavailable_reason), a).
Proof.
  intros Hs Hl Ho. unfold authorize. rewrite Hl, Hs.
  assert (negb (bool_decide (g_AuthMode g = "oauth")) && lan_bypass a r = false) as ->; [|done].
  destruct Ho as [->| ->]; [done|]. apply andb_false_r.
Qed.
End grants.

Definition ex_gate : authGate := newAuthGate "secret" "actor-key" "Example.com" "192.168.0.0/16" "127.0.0.0/8".
Definition ex_request : request :=
  {| req_Method := "GET"; req_Host := "app.example.com"; req_Path := "/x"; req_RawQuery := "";
     req_Header := {[ "Cookie" := [("pmgr_sso=" +:+ Sign "alice" 2000 "secret")%string];
                      "X-Forwarded-For" := ["192.168.1.1, 8.8.8.8"] ]};
     req_RemoteAddr := "127.0.0.1:5000" |}.
Definition ex_protected : RouteGroup := set_g_AuthUsers ["Alice"] (new_group "app.example.com" "" "app" "app" false).

Lemma authorize_granted_ex :
  let h := stampActor ex_gate ex_request "alice" (1000 * Second) in
  authorize (fun _ => None) ex_gate ∅ ex_request "/x" ex_protected (1000 * Second) = (Pass h, ex_gate) /\
  exists who, grant (fun _ => None) ex_gate ex_request ex_protected (1000 * Second) who /\
    h = match who with
        | Some u => stampActor ex_gate ex_request u (1000 * Second)
        | None => req_Header ex_request
        end.
Proof.
  intros h.
  assert (authorize (fun _ => None) ex_gate ∅ ex_request "/x" ex_protected (1000 * Second) = (Pass h, ex_gate)) as H.
  { vm_compute. reflexivity. }
  split; [exact H|]. exact (authorize_granted _ _ _ _ _ _ _ _ _ H).
Defined.

Lemma auth_fails_closed_witness :
  let a := newAuthGate "" "" "example.com" "192.168.0.0/16" "127.0.0.0/8" in
  authorize (fun _ => None) a ∅ ex_request "/x" ex_protected 0
  = (Refuse (serveUnavailable ∅ 503 "app.example.com" unavailable_reason), a).
Proof.
  intros a. apply (auth_fails_closed (fun _ => None) a ∅ ex_request "/x" ex_protected 0);
    [reflexivity|vm_compute; reflexivity|right; vm_compute; reflexivity].
Defined.

(** ** Audiences *)

(** A path-mounted route takes the tokens whose audience is its resource. *)
Lemma verifyOAuthBearer_path a tok host p now u :
  p <> "" ->
  verifyOAuthBearer a tok host p now = Some u <->
  exists c, VerifyAccess tok (a_secret a) (unix now) = Some c /\ u = ac_Username c /\
    EqualFold (ac_Audience c) (oauthResource host p) = true.
Proof.
  intros Hp. unfold verifyOAuthBearer.
  destruct (VerifyAccess _ _ _) as [c|]; cbn [mbind option_bind]; [|by split; [|intros (?&?&?)]].
  rewrite decide_True by done. destruct (EqualFold _ _) eqn:He.
  - split; [intros [= <-]; by exists c|]. by intros (c' & [= <-] & -> & _).
  - split; [done|]. intros (c' & [= <-] & -> & He'). congruence.
Qed.

Lemma TrimSuffix_spec p q : TrimSuffix p q = p \/ p = TrimSuffix p q +:+ q.
Proof.
  unfold TrimSuffix. destruct (CutPrefix _ _) as [r|] eqn:Hc; [right|by left]. apply CutPrefix_Some in Hc.
  by rewrite <- (rev_string_rev p), Hc, rev_string_app, rev_string_rev.
Qed.

Lemma has_star_lower s : has_byte "*" (ToLower s) = has_byte "*" s.
Proof.
  unfold ToLower. induction s as [|c s IH]; [done|]. cbn [map_bytes]. rewrite !has_byte_cons, IH. f_equal.
  by destruct c as [[] [] [] [] [] [] [] []].
Qed.

(** On a path-mounted route a token is the key to that one resource. The
    wildcard audience is refused (for a host and prefix without a star in
    them), and a token accepted under two prefixes of a host is accepted under
    one resource: the prefixes agree up to letter case and a trailing slash. *)
Theorem path_token_opens_one_resource a tok host p p' now u u' :
  p <> "" -> p' <> "" -> has_byte "*" host = false -> has_byte "*" p = false ->
  verifyOAuthBearer a tok host p now = Some u -> verifyOAuthBearer a tok host p' now = Some u' ->
  u = u' /\ ToLower (TrimSuffix p "/") = ToLower (TrimSuffix p' "/") /\
  forall c, VerifyAccess tok (a_secret a) (unix now) = Some c -> ac_Audience c <> "*".
Proof.
  intros Hp Hp' Hh Hs (c & Hc & -> & He)%verifyOAuthBearer_path (c' & Hc' & -> & He')%verifyOAuthBearer_path; try done.
  rewrite Hc in Hc'. injection Hc' as <-. unfold EqualFold in He, He'. apply bool_decide_eq_true in He, He'.
  unfold oauthResource in *. rewrite ToLower_app, ToLower_idem in He, He'. split_and!; [done| |].
  - rewrite He in He'. by apply append_inj_l in He'.
  - intros c' Hc'' Ha. rewrite Hc in Hc''. injection Hc'' as <-. rewrite Ha in He.
    assert (has_byte "*" (ToLower host +:+ ToLower (TrimSuffix p "/")) = false) as Hf; [|by rewrite <- He in Hf].
    rewrite has_byte_app, !has_star_lower, Hh. cbn [orb].
    destruct (TrimSuffix_spec p "/") as [->|Heq]; [done|]. rewrite Heq, has_byte_app in Hs.
    by apply orb_false_iff in Hs as [-> _].
Qed.

Lemma path_token_opens_one_resource_witness :
  let tok := SignAccess (mkAccess "alice" "pmgcl_x" "h.example.com/mcp/a" "mcp" 2000) "secret" in
  "alice" = "alice" /\ ToLower (TrimSuffix "/mcp/a" "/") = ToLower (TrimSuffix "/mcp/a/" "/") /\
  forall c, VerifyAccess tok (a_secret ex_gate) (unix 0) = Some c -> ac_Audience c <> "*".
Proof.
  intros tok. apply (path_token_opens_one_resource ex_gate tok "h.example.com" "/mcp/a" "/mcp/a/" 0);
    solve [done | vm_compute; reflexivity].
Defined.

(** ** The token cache *)

Definition store_op : Type := string * string * Z.   (* digest, user, time *)
Definition run_stores (ops : list store_op) : gmap string bearerEntry :=
  fold_left (fun m '(k, u, t) => bearer_store k u t m) ops ∅.

Definition bearer_ttl (user : string) : Z := if decide (user = "") then bearerNegativeTTL else bearerPositiveTTL.

Lemma bearer_store_size k u t m :
  (size m <= maxBearerCache)%nat -> (size (bearer_store k u t m) <= maxBearerCache)%nat.
Proof.
  unfold bearer_store. intros Hm.
  set (m' := if decide (maxBearerCache <= size m)%nat then _ else m).
  assert (size m' < maxBearerCache)%nat as Hm'.
  { unfold m'. repeat case_decide; rewrite ?map_size_empty; try lia. unfold maxBearerCache. lia. }
  destruct (m' !! k) as [e|] eqn:Hk.
  - rewrite map_size_insert_Some by by eexists. lia.
  - rewrite map_size_insert_None by done. lia.
Qed.

Lemma bearer_store_lookup k u t m k' e :
  bearer_store k u t m !! k' = Some e -> (k' = k /\ e = mkBearer u (t + bearer_ttl u)) \/ (k' <> k /\ m !! k' = Some e).
Proof.
  unfold bearer_store. destruct (decide (k' = k)) as [->|Hne].
  - rewrite lookup_insert_eq. intros [= <-]. by left.
  - rewrite lookup_insert_ne by done. intros H. right. split; [done|]. repeat case_decide; try done.
    by apply map_lookup_filter_Some in H as [? _].
Qed.

(** However the token checks of concurrent requests interleave, the cache
    holds at most 4096 entries, and each is what the last check of that digest
    found: the user with five minutes to live, or nobody with thirty seconds. *)
Theorem bearer_cache_bounded (ops : list store_op) :
  (size (run_stores ops) <= maxBearerCache)%nat /\
  forall k e, run_stores ops !! k = Some e ->
    exists ops1 u t ops2, ops = (ops1 ++ (k, u, t) :: ops2)%list /\ k ∉ (ops2.*1).*1 /\
      e = mkBearer u (t + bearer_ttl u).
Proof.
  unfold run_stores. induction ops as [|[[k0 u0] t0] ops [IHs IHl]] using rev_ind.
  { split; [cbn [fold_left]; rewrite map_size_empty; lia|]. intros k e. cbn. by rewrite lookup_empty. }
  rewrite fold_left_app. cbn [fold_left]. split; [by apply bearer_store_size|].
  intros k e [[-> ->]|[Hne H]]%bearer_store_lookup.
  - exists ops, u0, t0, []. split_and!; [done|apply not_elem_of_nil|done].
  - apply IHl in H as (o1 & u & t & o2 & -> & Hk & ->). exists o1, u, t, (o2 ++ [(k0, u0, t0)])%list.
    split_and!; [by rewrite <- app_assoc| |done]. rewrite !fmap_app, not_elem_of_app. split; [done|].
    cbn. rewrite list_elem_of_singleton. done.
Qed.
