(* ===== verification/Login.v ===== *)
(** * The login portal: cmd/auth/login.go, tokenlogin.go and ratelimit.go

    The password login with its two-factor check, the recovery login by API
    token with its rate limiter, logout, the cross-site defences and the
    redirect check. The dashboard and the proxy's [/routes] answer through the
    arguments [post] and [fetch]; the clock and the random bytes are arguments. *)
From S2P Require Import Prelude GoString Duration Http Sha256 Json Url Sso Net Balancer AuthGate.
Open Scope string_scope.

(** ** Answers

    A response of net/http's helpers, or a page: one of the templates of the
    source with the texts printed into it. *)
Inductive template := loginPage | logoutPage | consentPage | oauthErrorPage.
Inductive answer :=
| Plain (r : response)
| Html (status : Z) (h : header) (t : template) (values : list string).
Definition a_Status (a : answer) : Z := match a with Plain r => rs_Status r | Html st _ _ _ => st end.
Definition a_Header (a : answer) : header := match a with Plain r => rs_Header r | Html _ h _ _ => h end.
Definition refuse (w : header) (msg : string) (status : Z) : answer := Plain (http_Error w msg status).

(** ** Forms, cookies and redirects of net/http *)

(** The body of a request, as its form is read: a URL-encoded form, a body of
    another media type (which is not read), or one whose type or bytes cannot be
    read, or are too many. *)
Inductive form_body := FormBody (b : string) | OtherBody | BadBody.

Definition has_form (method : string) : bool := bool_decide (method = "POST" \/ method = "PUT" \/ method = "PATCH").

(** [r.ParseForm]: [r.PostForm], and whether there was no error. *)
Definition ParseForm (r : request) (b : form_body) : values * bool :=
  let query_ok := snd (ParseQuery (req_RawQuery r)) in
  if negb (has_form (req_Method r)) then (∅, query_ok) else
  match b with
  | FormBody b => let '(v, ok) := ParseQuery b in (v, ok && query_ok)
  | OtherBody => (∅, query_ok)
  | BadBody => (∅, false)
  end.

(** A cookie of this program: HttpOnly, Secure and SameSite=Lax. *)
Record http_cookie := mkHCookie { hc_Name : string; hc_Value : string; hc_Path : string; hc_Domain : string; hc_MaxAge : Z }.

Fixpoint keep_bytes (p : ascii -> bool) (s : string) : string :=
  match s with
  | EmptyString => ""
  | String c s => if p c then String c (keep_bytes p s) else keep_bytes p s
  end.
Definition sanitizeCookieValue (v : string) : string :=
  let v := keep_bytes cookie_byte v in
  if has_byte " " v || has_byte "," v then String dquote (v +:+ String dquote "") else v.

(** [isCookieDomainName], byte by byte: the byte before, the length of the label
    so far, and whether a letter was seen. *)
Fixpoint cookie_domain (s : string) (before : ascii) (partlen : nat) (ok : bool) : bool :=
  match s with
  | EmptyString => negb (Ascii.eqb before "-") && bool_decide (partlen <= 63)%nat && ok
  | String c s =>
      if is_alpha c then cookie_domain s c (S partlen) true
      else if is_digit c then cookie_domain s c (S partlen) ok
      else if Ascii.eqb c "-" then if Ascii.eqb before "." then false else cookie_domain s c (S partlen) ok
      else if Ascii.eqb c "." then
        if Ascii.eqb before "." || Ascii.eqb before "-" || bool_decide (63 < partlen \/ partlen = 0)%nat then false
        else cookie_domain s c 0 ok
      else false
  end.
Definition validCookieDomain (d : string) : bool :=
  (bool_decide (0 < len d <= 255) && cookie_domain (TrimPrefix d ".") "." 0 false) ||
  (match ParseIP d with Some _ => negb (has_byte ":" d) | None => false end).

Definition cookie_String (c : http_cookie) : string :=
  hc_Name c +:+ "=" +:+ sanitizeCookieValue (hc_Value c) +:+ "; Path=" +:+ sanitize_path (hc_Path c) +:+
  (if validCookieDomain (hc_Domain c) then "; Domain=" +:+ TrimPrefix (hc_Domain c) "." else "") +:+
  (if decide (0 < hc_MaxAge c) then "; Max-Age=" +:+ FormatInt (hc_MaxAge c)
   else if decide (hc_MaxAge c < 0) then "; Max-Age=0" else "") +:+
  "; HttpOnly; Secure; SameSite=Lax".
Definition SetCookie (w : header) (c : http_cookie) : header := Add_ "Set-Cookie" (cookie_String c) w.

(** [http.Redirect] makes a target without scheme and host absolute: those of
    this program are rooted, and cleaned. *)
Definition clean_target (url : string) : string :=
  let '(p, q) := match Cut url "?" with Some (p, q) => (p, "?" +:+ q) | None => (url, "") end in
  let c := Clean_rooted p in
  (if HasSuffix p "/" && negb (HasSuffix c "/") then c +:+ "/" else c) +:+ q.
Definition redirect_target (url : string) : string :=
  match url_Parse url with
  | Some u => if decide (u_Scheme u = "" /\ u_Host u = "") then clean_target url else url
  | None => url
  end.
Definition Redirect (w : header) (r : request) (url : string) : answer :=
  Plain (http_Redirect w (req_Method r) (redirect_target url) 302).

(** [html.EscapeString]. *)
Fixpoint EscapeString (s : string) : string :=
  match s with
  | EmptyString => ""
  | String c s =>
      (if Ascii.eqb c "&" then "&amp;" else if Ascii.eqb c "<" then "&lt;" else if Ascii.eqb c ">" then "&gt;"
       else if Ascii.eqb c "'" then "&#39;" else if Ascii.eqb c quote then "&#34;" else String c "")
      +:+ EscapeString s
  end.

(** ** Replies in JSON *)

(** The first value of a body, decoded into a struct: its fields. *)
Definition decode_first (b : string) : option (list (string * json)) :=
  match parse_value (S (String.length b)) b with
  | Some (JObj l, _) => Some l
  | Some (JNull, _) => Some []
  | _ => None
  end.

Definition get_bool (names : list string) (name : string) (l : list (string * json)) : option bool :=
  decode_all (fun j => match j with JBool b => Some b | _ => None end) (field_values names name l) false.

(** A [*bool]: null clears it. *)
Fixpoint decode_ptr (vs : list json) (x : option bool) : option (option bool) :=
  match vs with
  | [] => Some x
  | JNull :: vs => decode_ptr vs None
  | JBool b :: vs => decode_ptr vs (Some b)
  | _ :: _ => None
  end.
Definition get_ptr (names : list string) (name : string) (l : list (string * json)) : option (option bool) :=
  decode_ptr (field_values names name l) None.

(** A [[]string]: the array's elements overwrite the slice's backing store, a
    null leaves what was there. *)
Fixpoint decode_elems (vs : list json) (bk : list string) : option (list string) :=
  match vs with
  | [] => Some bk
  | v :: vs =>
      x ← match v with JNull => Some (List.hd "" bk) | JStr s => Some s | _ => None end;
      t ← decode_elems vs (tail bk); Some (x :: t)
  end.
Fixpoint decode_slice (vs : list json) (bk : list string) (n : nat) : option (list string) :=
  match vs with
  | [] => Some (firstn n bk)
  | JNull :: vs => decode_slice vs [] 0
  | JArr [] :: vs => decode_slice vs [] 0
  | JArr l :: vs => bk ← decode_elems l bk; decode_slice vs bk (length l)
  | _ :: _ => None
  end.
Definition get_strings (names : list string) (name : string) (l : list (string * json)) : option (list string) :=
  decode_slice (field_values names name l) [] 0.

(** ** The server *)

Definition csrfCookie : string := "pmgr_csrf".
Definition csrfMaxAge : Z := 10 * Minute.

Record loginServer := mkLogin {
  ls_secret : string;
  ls_domains : list string;              (* lowercased parent domains *)
  ls_dashboardURL : string;
  ls_routesURL : string;
  ls_lifetime : Z;
  ls_accessTTL : Z;
  ls_refreshTTL : Z;
  ls_passkeyEnabled : bool;
  ls_hosts : option (gset string);       (* nil until a fetch succeeds *)
  ls_hostsAt : Z;
  ls_usedJTI : gmap string Z;            (* consumed ids, until when *)
}.

Definition set_routed (h : gset string) (now : Z) (s : loginServer) : loginServer :=
  mkLogin (ls_secret s) (ls_domains s) (ls_dashboardURL s) (ls_routesURL s) (ls_lifetime s) (ls_accessTTL s)
    (ls_refreshTTL s) (ls_passkeyEnabled s) (Some h) now (ls_usedJTI s).
Definition set_usedJTI (m : gmap string Z) (s : loginServer) : loginServer :=
  mkLogin (ls_secret s) (ls_domains s) (ls_dashboardURL s) (ls_routesURL s) (ls_lifetime s) (ls_accessTTL s)
    (ls_refreshTTL s) (ls_passkeyEnabled s) (ls_hosts s) (ls_hostsAt s) m.

(** The [-cookie-domains] entry the host belongs to. *)
Definition belongs (host d : string) : bool := bool_decide (host = d) || HasSuffix host ("." +:+ d).
Definition matchDomain (s : loginServer) (host : string) : string :=
  default "" (find_first (belongs (ToLower host)) (ls_domains s)).

(** *** Cross-site defences *)

Definition sameOriginOK (r : request) : bool :=
  let o := Get (req_Header r) "Origin" in
  if decide (o <> "") then bool_decide (o = "https://" +:+ req_Host r) else
  let ref := Get (req_Header r) "Referer" in
  if decide (ref <> "") then
    match url_Parse ref with
    | Some u => bool_decide (u_Scheme u = "https") && bool_decide (u_Host u = req_Host r)
    | None => false
    end
  else true.

Definition csrfOK (r : request) (form : values) : bool :=
  match Cookie r csrfCookie with
  | None => false
  | Some v => negb (bool_decide (v = "")) && bool_decide (v = form_get form "csrf")
  end.

Definition newCSRFToken (rnd : string) : string := hex rnd.

(** *** Pages *)

Definition page (w : header) (status : Z) (t : template) (values : list string) : answer :=
  Html status (Set_ "Cache-Control" "no-store" (Set_ "Content-Type" "text/html; charset=utf-8" w)) t values.

Definition renderLogin (w : header) (rnd msgHTML redirect : string) : answer :=
  let token := newCSRFToken rnd in
  let w := SetCookie w (mkHCookie csrfCookie token "/login" "" (Z.quot csrfMaxAge Second)) in
  let esc := EscapeString redirect in
  page w 200 loginPage [msgHTML; token; esc; token; esc].

Section outside.
(** The replies of the dashboard (to a URL and a body) and of the proxy's
    [/routes]: the status and the body, or no reply. *)
Context (post : string -> string -> option (Z * string)) (fetch : string -> option (Z * string)).

(** *** Redirects *)

Definition routes_reply (b : string) : option (gset string) :=
  l ← decode_first b; hosts ← get_strings ["hosts"] "hosts" l; Some (list_to_set (ToLower <$> hosts)).

(** The routed hosts, [None] when they are not known. *)
Definition routedHosts (s : loginServer) (now : Z) : option (gset string) * loginServer :=
  if decide (ls_hosts s <> None /\ now - ls_hostsAt s < 30 * Second) then (ls_hosts s, s) else
  match fetch (ls_routesURL s) with
  | Some (200, b) =>
      match routes_reply b with
      | Some h => (Some h, set_routed h now s)
      | None => (ls_hosts s, s)
      end
  | _ => (ls_hosts s, s)
  end.

Definition routed (hosts : option (gset string)) (host : string) : bool :=
  match hosts with Some hs => bool_decide (host ∈ hs) | None => true end.

Definition validRedirect (s : loginServer) (raw domain : string) (now : Z) : bool * loginServer :=
  match url_Parse raw with
  | Some u =>
      if decide (u_Scheme u <> "https" \/ u_Host u = "") then (false, s) else
      let host := ToLower (Hostname u) in
      if negb (belongs host domain) then (false, s) else
      let '(hosts, s) := routedHosts s now in (routed hosts host, s)
  | None => (false, s)
  end.

(** *** The session *)

Definition session_cookie (s : loginServer) (username domain : string) (now : Z) : http_cookie :=
  mkHCookie CookieName (Sign username (unix (now + ls_lifetime s)) (ls_secret s)) "/" domain (Z.quot (ls_lifetime s) Second).

(** The end of the three logins: the cookie, and where to go. *)
Definition start_session (s : loginServer) (w : header) (username domain redirect : string) (now : Z)
  : header * string * loginServer :=
  let w := SetCookie w (session_cookie s username domain now) in
  let '(ok, s) := validRedirect s redirect domain now in
  (w, if ok then redirect else "/login?ok=1", s).

Definition back_to_login (w : header) (r : request) (err : bool) (redirect : string) : answer :=
  Redirect w r ("/login?" +:+ (if err then "err=1&" else "") +:+ "redirect=" +:+ QueryEscape redirect).

(** What the dashboard says of a password: [Some (enrolled, code_valid)] when
    the reply carries the two-factor signal. *)
Definition totp_names : list string := ["totp_enrolled"; "code_valid"].
Definition totp_reply (b : string) : option (bool * bool) :=
  l ← decode_first b; e ← get_ptr totp_names "totp_enrolled" l; v ← get_bool totp_names "code_valid" l;
  enrolled ← e; Some (enrolled, v).

Definition doLogin (s : loginServer) (w : header) (r : request) (body : form_body) (rnd : string) (now : Z)
  : answer * loginServer :=
  if negb (sameOriginOK r) then (refuse w "cross-origin request rejected" 403, s) else
  let '(form, ok) := ParseForm r body in
  if negb ok then (refuse w "bad form" 400, s) else
  let username := form_get form "username" in
  let password := form_get form "password" in
  let code := form_get form "code" in
  let redirect := form_get form "redirect" in
  if negb (csrfOK r form) then (back_to_login w r false redirect, s) else
  let domain := matchDomain s (hostOnly (req_Host r)) in
  if decide (domain = "") then (refuse w "unrecognized host" 400, s) else
  let body := enc_object [("code", inl code); ("password", inl password); ("username", inl username)] in
  match post (ls_dashboardURL s +:+ "/api/auth/login") body with
  | Some (200, b) =>
      match totp_reply b with
      | Some (enrolled, code_valid) =>
          if enrolled && negb code_valid then (back_to_login w r true redirect, s) else
          let '(w, target, s) := start_session s w username domain redirect now in
          (Redirect w r target, s)
      | None => (back_to_login w r true redirect, s)
      end
  | Some (429, _) => (renderLogin w rnd "<p class=msg>Too many attempts, try again shortly.</p>" redirect, s)
  | _ => (back_to_login w r true redirect, s)
  end.

Definition login_msg (s : loginServer) (q : values) : string :=
  if decide (form_get q "err" = "1") then
    "<p class=msg>Invalid credentials. If 2FA is enabled on your account, enter the current 6-digit code as well.</p>"
  else if decide (form_get q "ok" = "1") then
    "<p class=" +:+ Json.enc_string "msg ok" +:+ ">Logged in. You can close this tab.</p>" +:+
    (if ls_passkeyEnabled s then "<p class=msg style=" +:+ Json.enc_string "color:#8a8a8a" +:+ "><a href=" +:+
       Json.enc_string "/passkeys" +:+ ">Manage passkeys</a></p>" else "")
  else "".

Definition method_not_allowed (w : header) : answer := refuse w "method not allowed" 405.

Definition handleLogin (s : loginServer) (w : header) (r : request) (body : form_body) (rnd : string) (now : Z)
  : answer * loginServer :=
  if decide (req_Method r = "GET") then
    let q := query_of (req_RawQuery r) in
    (renderLogin w rnd (login_msg s q) (form_get q "redirect"), s)
  else if decide (req_Method r = "POST") then doLogin s w r body rnd now
  else (method_not_allowed w, s).

Definition handleLogout (s : loginServer) (w : header) (r : request) : answer :=
  let domain := matchDomain s (hostOnly (req_Host r)) in
  if decide (domain = "") then refuse w "unrecognized host" 400
  else page (SetCookie w (mkHCookie CookieName "" "/" domain (-1))) 200 logoutPage [].

(** *** The API token login *)

Definition tokenPrefix : string := "pmt_".
Definition elevated_names : list string := ["username"; "elevated"].

(** The user of an elevated token, [None] when the reply does not vouch for one. *)
Definition elevated_reply (b : string) : option string :=
  l ← decode_first b; u ← get_string elevated_names "username" l; e ← get_ptr elevated_names "elevated" l;
  if decide (u = "" \/ e <> Some true) then None else Some u.

Definition handleTokenLogin (s : loginServer) (w : header) (r : request) (body : form_body) (now : Z)
  : answer * loginServer :=
  let invalid := refuse w "invalid token" 401 in
  if decide (req_Method r <> "POST") then (method_not_allowed w, s) else
  if negb (sameOriginOK r) then (refuse w "cross-origin request rejected" 403, s) else
  let '(form, ok) := ParseForm r body in
  if negb ok then (refuse w "bad form" 400, s) else
  let token := form_get form "token" in
  let redirect := form_get form "redirect" in
  if bool_decide (Cookie r csrfCookie <> None) && negb (csrfOK r form) then (back_to_login w r false redirect, s) else
  let domain := matchDomain s (hostOnly (req_Host r)) in
  if decide (domain = "") then (refuse w "unrecognized host" 400, s) else
  if negb (HasPrefix token tokenPrefix) then (invalid, s) else
  match post (ls_dashboardURL s +:+ "/api/auth/verify-token") (enc_object [("token", inl token)]) with
  | Some (200, b) =>
      match elevated_reply b with
      | Some username =>
          let '(w, target, s) := start_session s w username domain redirect now in
          (Redirect w r target, s)
      | None => (invalid, s)
      end
  | _ => (invalid, s)
  end.
End outside.

(** Who is signed in. *)
Definition ssoUser (s : loginServer) (r : request) (now : Z) : string :=
  match Cookie r CookieName with
  | Some v => default "" (Verify v (ls_secret s) (unix now))
  | None => ""
  end.

(** ** The limiter of the recovery login (ratelimit.go)

    A bucket of whole tokens per client: five at first, one more a minute. *)
Module IntLimit.
Definition rlCapacity : Z := 5.
Definition rlRefillEvery : Z := Minute.
Definition rlIdleEvict : Z := 30 * Minute.

Record bucket := mkBucket { tokens : Z; lastRefill : Z; lastSeen : Z }.

Definition refill (b : bucket) (now : Z) : bucket :=
  let elapsed := now - lastRefill b in
  if decide (rlRefillEvery <= elapsed) then
    let add := Z.quot elapsed rlRefillEvery in
    mkBucket (Z.min (tokens b + add) rlCapacity) (lastRefill b + add * rlRefillEvery) (lastSeen b)
  else b.

Definition Allow (m : gmap string bucket) (key : string) (now : Z) : bool * gmap string bucket :=
  let b := refill (default (mkBucket rlCapacity now now) (m !! key)) now in
  if decide (tokens b <= 0) then (false, <[key := mkBucket (tokens b) (lastRefill b) now]> m)
  else (true, <[key := mkBucket (tokens b - 1) (lastRefill b) now]> m).

Definition gc_tick (m : gmap string bucket) (now : Z) : gmap string bucket :=
  filter (fun kb => ~ lastSeen (snd kb) < now - rlIdleEvict) m.

Definition clientIP (r : request) : string :=
  let fwd := Get (req_Header r) "X-Forwarded-For" in
  if decide (fwd <> "") then before_byte fwd "," else remote_host (req_RemoteAddr r).

(** The handler wrapped by the limiter. *)
Definition limit {S} (h : S -> header -> request -> answer * S) (m : gmap string bucket) (s : S) (w : header) (r : request)
    (now : Z) : answer * S * gmap string bucket :=
  let '(ok, m) := Allow m (clientIP r) now in
  if ok then (h s w r, m)
  else (refuse w ("too many attempts " +:+ utf8 8212 +:+ " wait a few minutes") 429, s, m).
End IntLimit.

(** * Properties *)

(** ** Headers of an answer *)

Lemma Values_Set_ne k v h k' : CanonicalHeaderKey k <> CanonicalHeaderKey k' -> Values (Set_ k v h) k' = Values h k'.
Proof. intros. unfold Values, Set_. by rewrite lookup_insert_ne. Qed.
Lemma Values_Set_eq k v h : Values (Set_ k v h) k = [v].
Proof. unfold Values, Set_. by rewrite lookup_insert_eq. Qed.
Lemma Values_Add_ne k v h k' : CanonicalHeaderKey k <> CanonicalHeaderKey k' -> Values (Add_ k v h) k' = Values h k'.
Proof. intros. unfold Values, Add_. by rewrite lookup_insert_ne. Qed.
Lemma Values_Add_eq k v h : Values (Add_ k v h) k = (Values h k ++ [v])%list.
Proof. unfold Values, Add_. by rewrite lookup_insert_eq. Qed.
Lemma Values_Del_ne k h k' : CanonicalHeaderKey k <> CanonicalHeaderKey k' -> Values (Del k h) k' = Values h k'.
Proof. intros. unfold Values, Del. by rewrite lookup_delete_ne. Qed.

Create HintDb headers.
#[export] Hint Rewrite Values_Set_eq Values_Add_eq : headers.
#[export] Hint Rewrite Values_Set_ne Values_Add_ne Values_Del_ne using (by vm_compute) : headers.

Lemma refuse_Values w msg st k :
  k = "Set-Cookie" \/ k = "Location" -> Values (a_Header (refuse w msg st)) k = Values w k.
Proof. intros [-> | ->]; cbn [refuse a_Header http_Error rs_Header]; by autorewrite with headers. Qed.

Lemma Redirect_Values w r url :
  Values (a_Header (Redirect w r url)) "Location" = [escape_non_ascii (redirect_target url)] /\
  Values (a_Header (Redirect w r url)) "Set-Cookie" = Values w "Set-Cookie".
Proof. unfold Redirect, http_Redirect. case_decide; cbn [a_Header rs_Header]; by autorewrite with headers. Qed.

(** The session cookies an answer sets. *)
Definition session_lines (a : answer) : list string :=
  filter (fun v => HasPrefix v (CookieName +:+ "=") = true) (Values (a_Header a) "Set-Cookie").

Lemma refuse_session w msg st : Values w "Set-Cookie" = [] -> session_lines (refuse w msg st) = [].
Proof. intros Hw. unfold session_lines. by rewrite refuse_Values, Hw by by left. Qed.
Lemma Redirect_session w r url : Values w "Set-Cookie" = [] -> session_lines (Redirect w r url) = [].
Proof. intros Hw. unfold session_lines. by rewrite (proj2 (Redirect_Values _ _ _)), Hw. Qed.
Lemma renderLogin_session w rnd msg red : Values w "Set-Cookie" = [] -> session_lines (renderLogin w rnd msg red) = [].
Proof.
  intros Hw. unfold session_lines, renderLogin, page, SetCookie. cbn [a_Header]. autorewrite with headers. rewrite Hw.
  unfold cookie_String. cbn [hc_Name]. reflexivity.
Qed.
#[export] Hint Resolve refuse_session Redirect_session renderLogin_session : pm.
(** Nothing is a session cookie of an answer that sets none. *)
Ltac sessionless := cbn [fst]; unfold method_not_allowed, back_to_login; rewrite ?refuse_session, ?Redirect_session by done; by intros ?%not_elem_of_nil.

Lemma granted_session s w r user domain target now :
  Values w "Set-Cookie" = [] ->
  session_lines (Redirect (SetCookie w (session_cookie s user domain now)) r target) = [cookie_String (session_cookie s user domain now)].
Proof.
  intros Hw. unfold session_lines. rewrite (proj2 (Redirect_Values _ _ _)). unfold SetCookie. autorewrite with headers.
  rewrite Hw. cbn [app]. set (c := cookie_String _).
  assert (HasPrefix c (CookieName +:+ "=") = true) as Hp.
  { unfold c, cookie_String. cbn [session_cookie hc_Name]. apply HasPrefix_Cut. eexists. by rewrite <- append_assoc. }
  by rewrite filter_cons_True.
Qed.

Section outside.
Context (post : string -> string -> option (Z * string)) (fetch : string -> option (Z * string)).

(** ** Sessions *)

Definition login_body (form : values) : string :=
  enc_object [("code", inl (form_get form "code")); ("password", inl (form_get form "password"));
              ("username", inl (form_get form "username"))].

(** The dashboard accepts the credentials: it says so, says whether the user has
    a second factor, and if so that the code is valid. *)
Definition password_accepted (s : loginServer) (form : values) : Prop :=
  exists b enrolled valid,
    post (ls_dashboardURL s +:+ "/api/auth/login") (login_body form) = Some (200, b) /\
    totp_reply b = Some (enrolled, valid) /\ (enrolled = true -> valid = true).

(** The request is a form of this site, sent from it. *)
Definition own_form (s : loginServer) (r : request) (body : form_body) : Prop :=
  sameOriginOK r = true /\ snd (ParseForm r body) = true /\ csrfOK r (fst (ParseForm r body)) = true /\
  matchDomain s (hostOnly (req_Host r)) <> "".

Lemma start_session_spec s w user domain redirect now :
  exists target s',
    start_session fetch s w user domain redirect now = (SetCookie w (session_cookie s user domain now), target, s') /\
    (target = "/login?ok=1" \/ (target = redirect /\ fst (validRedirect fetch s redirect domain now) = true)).
Proof.
  unfold start_session. destruct (validRedirect fetch s redirect domain now) as [ok s'] eqn:Hv.
  exists (if ok then redirect else "/login?ok=1"), s'. split; [done|]. destruct ok; [by right|by left].
Qed.

(** A session by password: the answer of the login handler sets a session
    cookie exactly when the request is a POST of the portal's own form (origin,
    well-formed form, CSRF pair, a served domain) and the dashboard accepts the
    submitted name and password, with a valid code when the user has a second
    factor. It is then the cookie of that user, signed until the end of the
    lifetime, for that domain. In every other case (the dashboard down, an error
    status, a reply without the two-factor signal) it sets none. *)
Lemma login_sessions s w r body rnd now :
  Values w "Set-Cookie" = [] ->
  let form := fst (ParseForm r body) in
  let resp := fst (handleLogin post fetch s w r body rnd now) in
  (req_Method r = "POST" /\ own_form s r body /\ password_accepted s form /\
   session_lines resp =
     [cookie_String (session_cookie s (form_get form "username") (matchDomain s (hostOnly (req_Host r))) now)]) \/
  (~ (req_Method r = "POST" /\ own_form s r body /\ password_accepted s form) /\ session_lines resp = []).
Proof.
  intros Hw form resp. subst resp form. unfold handleLogin.
  case_decide as Hg; [right; split; [intros (Hp & _); congruence|by apply renderLogin_session]|].
  case_decide as Hp; [|right; split; [by intros (? & _)|by apply refuse_session]].
  unfold doLogin, own_form.
  destruct (sameOriginOK r); cbn [negb]; [|right; split; [by intros (_ & (? & _) & _)|by apply refuse_session]].
  destruct (ParseForm r body) as [form ok] eqn:Hform. cbn [fst snd].
  destruct ok; cbn [negb]; [|right; split; [by intros (_ & (_ & ? & _) & _)|by apply refuse_session]].
  destruct (csrfOK r form); cbn [negb]; [|right; split; [by intros (_ & (_ & _ & ? & _) & _)|by apply Redirect_session]].
  case_decide as Hd; [right; split; [by intros (_ & (_ & _ & _ & ?) & _)|by apply refuse_session]|].
  fold (login_body form). unfold password_accepted.
  destruct (post _ (login_body form)) as [[st b]|] eqn:Hpost;
    [|right; split; [by intros (_ & _ & ? & ? & ? & ? & _)|by apply Redirect_session]].
  destruct (decide (st = 200)) as [->|Hst].
  - destruct (totp_reply b) as [[enr val]|] eqn:Ht.
    + destruct (enr && negb val) eqn:He.
      * right. split; [|by apply Redirect_session]. intros (_ & _ & b' & e & v & Hb & Hr & Hv).
        destruct enr, val; try done. simplify_eq. by specialize (Hv eq_refl).
      * left. destruct (start_session_spec s w (form_get form "username") (matchDomain s (hostOnly (req_Host r))) (form_get form "redirect") now)
          as (target & s' & -> & _). split_and!; try done.
        { exists b, enr, val. split_and!; [done..|]. by destruct enr, val. }
        by apply granted_session.
    + right. split; [|by apply Redirect_session]. intros (_ & _ & b' & e & v & Hb & Hr & _). congruence.
  - right. split; [intros (_ & _ & b' & e & v & [= ? _] & _); congruence|].
    assert (session_lines (back_to_login w r true (form_get form "redirect")) = []) by by apply Redirect_session.
    assert (session_lines (renderLogin w rnd "<p class=msg>Too many attempts, try again shortly.</p>" (form_get form "redirect")) = [])
      by by apply renderLogin_session.
    repeat case_match; simplify_eq/=; done.
Qed.

(** The dashboard vouches for the token as elevated. *)
Definition token_accepted (s : loginServer) (form : values) (user : string) : Prop :=
  HasPrefix (form_get form "token") tokenPrefix = true /\
  exists b, post (ls_dashboardURL s +:+ "/api/auth/verify-token") (enc_object [("token", inl (form_get form "token"))]) = Some (200, b) /\
    elevated_reply b = Some user.

(** The recovery login sets a session cookie only for a POST from this site, with
    a token the dashboard calls elevated, for the user it names; a CSRF cookie,
    when there is one, must match. *)
Lemma token_session s w r body now line :
  Values w "Set-Cookie" = [] ->
  let form := fst (ParseForm r body) in
  line ∈ session_lines (fst (handleTokenLogin post fetch s w r body now)) ->
  exists user, req_Method r = "POST" /\ sameOriginOK r = true /\ (Cookie r csrfCookie <> None -> csrfOK r form = true) /\
    token_accepted s form user /\ line = cookie_String (session_cookie s user (matchDomain s (hostOnly (req_Host r))) now).
Proof.
  intros Hw form. subst form. unfold handleTokenLogin.
  case_decide as Hp; [sessionless|].
  destruct (sameOriginOK r); cbn [negb]; [|sessionless].
  destruct (ParseForm r body) as [form ok]. cbn [fst].
  destruct ok; cbn [negb]; [|sessionless].
  destruct (bool_decide _ && _) eqn:Hc; [sessionless|].
  case_decide as Hd; [sessionless|].
  destruct (HasPrefix (form_get form "token") tokenPrefix) eqn:Ht; cbn [negb]; [|sessionless].
  assert (line ∈ session_lines (refuse w "invalid token" 401) -> False) as Hinv.
  { sessionless. }
  destruct (post _ _) as [[st b]|] eqn:Hpost; [|by intros ?%Hinv].
  destruct (decide (st = 200)) as [->|Hst]; [|by repeat case_match; simplify_eq/=; intros ?%Hinv].
  destruct (elevated_reply b) as [user|] eqn:He; [|by intros ?%Hinv].
  destruct (start_session_spec s w user (matchDomain s (hostOnly (req_Host r))) (form_get form "redirect") now) as (target & s' & -> & _).
  cbn [fst]. rewrite granted_session by done. intros ->%list_elem_of_singleton. exists user. split_and!; try done.
  - intros Hck. rewrite bool_decide_true in Hc by done. cbn in Hc. by apply negb_false_iff in Hc.
  - unfold token_accepted. eauto.
Qed.

(** ** Redirects *)

(** A URL the portal may send a signed-in browser to. *)
Definition safe_target (hosts : option (gset string)) (domain raw : string) : Prop :=
  exists u, url_Parse raw = Some u /\ u_Scheme u = "https" /\ u_Host u <> "" /\
    belongs (ToLower (Hostname u)) domain = true /\ routed hosts (ToLower (Hostname u)) = true.

Lemma validRedirect_spec s raw domain now :
  fst (validRedirect fetch s raw domain now) = true <-> safe_target (fst (routedHosts fetch s now)) domain raw.
Proof.
  unfold validRedirect, safe_target. destruct (url_Parse raw) as [u|]; [|split; [done|by intros (? & ? & _)]].
  case_decide as Hu; [split; [done|]; intros (u' & [= <-] & Hs & Hh & _); by destruct Hu|].
  destruct (belongs _ domain) eqn:Hb; cbn [negb].
  - destruct (routedHosts fetch s now) as [hosts s'] eqn:Hr. cbn [fst]. split.
    + intros Ht. exists u. split_and!; try done; [|by intros ?; apply Hu; right].
      destruct (decide (u_Scheme u = "https")); [done|]. exfalso. apply Hu. by left.
    + by intros (u' & [= <-] & _ & _ & _ & ?).
  - split; [done|]. intros (u' & [= <-] & _ & _ & ? & _). congruence.
Qed.

Lemma redirect_login q : redirect_target ("/login?" +:+ q) = "/login?" +:+ q.
Proof.
  unfold redirect_target. destruct (url_Parse _); [|done]. case_decide; [|done].
  unfold clean_target. change ("/login?" +:+ q)%string with ("/login" +:+ String "?" q)%string.
  rewrite (proj2 (Cut_Some _ "?" "/login" q)) by done. reflexivity.
Qed.
Lemma escape_non_ascii_app a b : escape_non_ascii (a +:+ b) = escape_non_ascii a +:+ escape_non_ascii b.
Proof. induction a as [|c a IH]; [done|]. cbn [String.append escape_non_ascii]. by rewrite IH, append_assoc. Qed.

(** Where an answer sends the browser: nowhere, to the login page of this host,
    or to a safe target. *)
Definition stays (s : loginServer) (now : Z) (r : request) (redirect : string) (a : answer) : Prop :=
  Values (a_Header a) "Location" = [] \/
  (exists q, Values (a_Header a) "Location" = ["/login?" +:+ q]) \/
  (Values (a_Header a) "Location" = [escape_non_ascii redirect] /\
   safe_target (fst (routedHosts fetch s now)) (matchDomain s (hostOnly (req_Host r))) redirect).

Lemma stays_refuse s now r red w msg st : Values w "Location" = [] -> stays s now r red (refuse w msg st).
Proof. intros Hw. left. by rewrite refuse_Values, Hw by by right. Qed.
Lemma stays_login s now r red w q : stays s now r red (Redirect w r ("/login?" +:+ q)).
Proof.
  right. left. rewrite (proj1 (Redirect_Values _ _ _)), redirect_login. exists (escape_non_ascii q). by rewrite escape_non_ascii_app.
Qed.
Lemma stays_render s now r red w rnd msg red' : Values w "Location" = [] -> stays s now r red (renderLogin w rnd msg red').
Proof.
  intros Hw. left. unfold renderLogin, page, SetCookie. cbn [a_Header]. autorewrite with headers. done.
Qed.
Lemma stays_session s w w' r user red now target s' :
  start_session fetch s w user (matchDomain s (hostOnly (req_Host r))) red now = (w', target, s') ->
  stays s now r red (Redirect w' r target).
Proof.
  destruct (start_session_spec s w user (matchDomain s (hostOnly (req_Host r))) red now) as (t & s'' & -> & Ht). intros [= <- <- <-].
  destruct Ht as [->|[-> Hv]]; [apply (stays_login s now r red _ "ok=1")|]. apply validRedirect_spec in Hv.
  right. right. rewrite (proj1 (Redirect_Values _ _ _)). split; [|done].
  destruct Hv as (u & Hu & Hs & Hh & _). unfold redirect_target. rewrite Hu, decide_False; [done|]. by intros [_ ?].
Qed.

(** C18. The portal is no open redirector: the two logins send a browser nowhere,
    back to their own login page, or to the submitted redirect, and the latter
    only if it parses as an https URL whose host lies under the domain the cookie
    was set for and is routed by the proxy, as far as the routes are known. *)
Theorem no_open_redirect s w r body rnd now resp :
  Values w "Location" = [] ->
  resp = fst (handleLogin post fetch s w r body rnd now) \/ resp = fst (handleTokenLogin post fetch s w r body now) ->
  stays s now r (form_get (fst (ParseForm r body)) "redirect") resp.
Proof.
  intros Hw [-> | ->].
  - unfold handleLogin. case_decide; [by apply stays_render|]. case_decide; [|by apply stays_refuse]. unfold doLogin.
    destruct (negb (sameOriginOK r)); [by apply stays_refuse|]. destruct (ParseForm r body) as [form ok]. cbn [fst].
    destruct (negb ok); [by apply stays_refuse|]. destruct (negb (csrfOK r form)); [apply stays_login|].
    case_decide; [by apply stays_refuse|].
    assert (forall red', stays s now r red' (back_to_login w r true (form_get form "redirect"))) as Hback by (intros; apply stays_login).
    repeat (case_match; subst); simplify_eq/=; first [apply Hback | by apply stays_render | by eapply stays_session].
  - unfold handleTokenLogin. case_decide; [by apply stays_refuse|]. destruct (negb (sameOriginOK r)); [by apply stays_refuse|].
    destruct (ParseForm r body) as [form ok]. cbn [fst]. destruct (negb ok); [by apply stays_refuse|].
    destruct (bool_decide _ && _); [apply stays_login|]. case_decide; [by apply stays_refuse|].
    destruct (negb _); [by apply stays_refuse|].
    repeat (case_match; subst); simplify_eq/=; first [by apply stays_refuse | by eapply stays_session].
Qed.
End outside.

(** ** The cookie opens the gate *)

(** The bytes a cookie carries as they are. *)
Definition word_byte (c : ascii) : bool := cookie_byte c && negb (Ascii.eqb c " ") && negb (Ascii.eqb c ",").
Definition safe_user (u : string) : Prop := u <> "" /\ all_bytes word_byte u = true /\ has_byte bar u = false.

Lemma keep_bytes_all p s : all_bytes p s = true -> keep_bytes p s = s.
Proof. induction s as [|c s IH]; [done|]. cbn. intros [-> ?]%andb_true_iff. by rewrite IH. Qed.

Lemma sanitize_word v : all_bytes word_byte v = true -> sanitizeCookieValue v = v.
Proof.
  intros Hv. unfold sanitizeCookieValue. rewrite keep_bytes_all by (by apply (all_bytes_mono word_byte)).
  by rewrite !(all_bytes_free word_byte) by done.
Qed.

Lemma trim_left_word s : all_bytes word_byte s = true -> trim_left_blank s = s.
Proof.
  destruct s as [|c s]; [done|]. cbn. intros [Hc _]%andb_true_iff. destruct (is_blank c) eqn:Hb; [|done].
  assert (negb (word_byte c) || negb (is_blank c) = true) as H
    by (apply (byte_check (fun c => negb (word_byte c) || negb (is_blank c))); reflexivity).
  by rewrite Hc, Hb in H.
Qed.
Lemma trim_word s : all_bytes word_byte s = true -> trim_blank s = s.
Proof.
  intros Hs. unfold trim_blank. rewrite (trim_left_word s) by done. rewrite trim_left_word by by rewrite all_bytes_rev.
  apply rev_string_rev.
Qed.

Lemma unquote_word v : all_bytes word_byte v = true -> unquote v = v.
Proof.
  intros Hv. unfold unquote. destruct (CutPrefix v (String dquote "")) as [r|] eqn:Hr; [|done].
  apply CutPrefix_Some in Hr as ->. done.
Qed.

(** A cookie sent back alone is read back. *)
Lemma Cookie_word r name v :
  all_bytes is_tchar name = true -> name <> "" -> all_bytes word_byte name = true -> has_byte "=" name = false ->
  all_bytes word_byte v = true -> Values (req_Header r) "Cookie" = [name +:+ "=" +:+ v] -> Cookie r name = Some v.
Proof.
  intros Hn Hnn Hnw He Hv Hc. unfold Cookie. rewrite Hc. cbn [flat_map]. rewrite app_nil_r.
  assert (all_bytes word_byte (name +:+ "=" +:+ v) = true) as Hw by (rewrite !all_bytes_app; by rewrite Hnw, Hv).
  rewrite Split_free by by apply (all_bytes_free word_byte). cbn [omap list_omap]. unfold parse_cookie. rewrite trim_word by done.
  assert (Cut (name +:+ "=" +:+ v) "=" = Some (name, v)) as -> by (by apply Cut_Some). cbn [default from_option id].
  rewrite trim_word by done. unfold is_token. rewrite bool_decide_false, Hn by done. cbn [negb andb].
  rewrite unquote_word by done. rewrite (all_bytes_mono word_byte cookie_byte v eq_refl Hv).
  cbn. by rewrite bool_decide_true.
Qed.

Definition hex_byte (c : ascii) : bool := is_digit c || in_range c "a" "f".
Lemma hex_bytes s : all_bytes hex_byte (hex s) = true.
Proof.
  induction s as [|c s IH]; [done|]. cbn [hex all_bytes]. rewrite IH, andb_true_r.
  apply (byte_check (fun c => hex_byte (hex_digit (byte_Z c / 16)) && hex_byte (hex_digit (byte_Z c mod 16)))). by vm_compute.
Qed.

Lemma FormatInt_word n : int64 n -> all_bytes word_byte (FormatInt n) = true.
Proof.
  intros Hn. destruct (FormatInt_shape n Hn) as (c & a & Hc & Ha & _ & Hf).
  assert (all_bytes word_byte (String c a) = true) as Hw.
  { apply (all_bytes_mono is_digit); [reflexivity|cbn; by rewrite Hc, Ha]. }
  destruct Hf as [-> | ->]; [done|]. exact Hw.
Qed.

Lemma Sign_word u exp k : safe_user u -> int64 exp -> all_bytes word_byte (Sign u exp k) = true.
Proof.
  intros (_ & Hu & _) He. unfold Sign. rewrite !all_bytes_app, Hu, (FormatInt_word exp He). cbn.
  apply (all_bytes_mono hex_byte); [reflexivity|apply hex_bytes].
Qed.

(** What a browser sends back for a Set-Cookie line: the text before its first
    attribute. *)
Definition sent_back (line : string) : string := before_byte line ";".

Lemma before_byte_app a b c : has_byte c a = false -> before_byte (a +:+ String c b) c = a.
Proof.
  induction a as [|d a IH]; cbn; [by rewrite Ascii.eqb_refl|]. rewrite has_byte_cons. intros [Hd Ha]%orb_false_iff. by rewrite Hd, IH.
Qed.

Lemma session_sent s user domain now r :
  safe_user user -> int64 (unix (now + ls_lifetime s)) ->
  Values (req_Header r) "Cookie" = [sent_back (cookie_String (session_cookie s user domain now))] ->
  Cookie r CookieName = Some (Sign user (unix (now + ls_lifetime s)) (ls_secret s)).
Proof.
  intros Hu He Hc. assert (all_bytes word_byte (Sign user (unix (now + ls_lifetime s)) (ls_secret s)) = true) as Hw by by apply Sign_word.
  apply Cookie_word; [done..|exact Hw|]. rewrite Hc. f_equal. unfold sent_back, cookie_String. cbn [session_cookie hc_Name hc_Value hc_Path hc_Domain].
  rewrite sanitize_word by done. set (v := Sign _ _ _) in *. rewrite <- !append_assoc. rewrite (append_assoc _ "=" v).
  rewrite !(append_assoc (CookieName +:+ _)). change ("; Path=" +:+ ?x)%string with (String ";" (" Path=" +:+ x)).
  apply before_byte_app. rewrite !has_byte_app, (all_bytes_free word_byte _ _ Hw) by done. done.
Qed.

(** C14. The portal's session opens the proxy's gate: when a browser that was
    given the session cookie of a user sends it back, as its only cookie,
    before the lifetime is over, the portal takes the browser for that user, and
    so does a proxy with the same secret: on a protected host (in cookie mode,
    neither the login host nor exempted by the client's address) the request is
    admitted as that user, stamped when the route lets the user in and forbidden
    when it does not. (The user's name is one that a cookie carries as it is.) *)
Theorem session_opens_gate post s user domain issued r a w uri g now :
  safe_user user -> int64 (unix (issued + ls_lifetime s)) ->
  Values (req_Header r) "Cookie" = [sent_back (cookie_String (session_cookie s user domain issued))] ->
  unix now <= unix (issued + ls_lifetime s) ->
  a_secret a = ls_secret s -> a_secret a <> "" -> g_AuthMode g <> "oauth" ->
  is_login_host a (hostOnly (req_Host r)) = false -> lan_bypass a r = false ->
  ssoUser s r now = user /\ authorize post a w r uri g now = (admit_user a w r g user now, a).
Proof.
  intros Hu He Hc Hle Hs Hne Hg Hl Hb. pose proof (session_sent s user domain issued r Hu He Hc) as Hk.
  assert (Verify (Sign user (unix (issued + ls_lifetime s)) (ls_secret s)) (ls_secret s) (unix now) = Some user) as Hv.
  { destruct Hu as (Hu & _ & Hbar). apply Verify_Sign; done. }
  split; [unfold ssoUser; by rewrite Hk, Hv|].
  unfold authorize, cookie_user. rewrite Hl, (bool_decide_false (g_AuthMode g = "oauth")), Hb, decide_False, Hk, Hs by done.
  cbn [mbind option_bind negb andb]. by rewrite Hv.
Qed.

(** ** Attempts are bounded per key, and the key is the client's choice *)

Module Attempts.
Import IntLimit.

Inductive event := Call (key : string) (t : Z) | Tick (t : Z).
Definition ev_time (e : event) : Z := match e with Call _ t | Tick t => t end.

(** The map after an event, and whether it let a call of the key through. *)
Definition step (key : string) (m : gmap string bucket) (e : event) : gmap string bucket * Z :=
  match e with
  | Call k t => let '(ok, m) := Allow m k t in (m, if ok && bool_decide (k = key) then 1 else 0)
  | Tick t => (gc_tick m t, 0)
  end.
Fixpoint allowed (key : string) (m : gmap string bucket) (es : list event) : Z :=
  match es with [] => 0 | e :: es => let '(m, n) := step key m e in n + allowed key m es end.

Fixpoint in_order (t : Z) (es : list event) : Prop :=
  match es with [] => True | e :: es => t <= ev_time e /\ in_order (ev_time e) es end.

(** [n] calls let through since [t0], at time [t]. *)
Definition books (key : string) (t0 t n : Z) (m : gmap string bucket) : Prop :=
  t0 <= t /\
  match m !! key with
  | Some b => 0 <= tokens b <= rlCapacity /\ t0 <= lastRefill b <= lastSeen b /\ lastSeen b <= t /\
              n + tokens b <= rlCapacity + (lastRefill b - t0) / Minute
  | None => n <= (t - t0) / Minute
  end.

Lemma div_minute_le a b : a <= b -> a / Minute <= b / Minute.
Proof. intros. by apply Z.div_le_mono. Qed.
Lemma div_minute_add a k : (a + k * Minute) / Minute = a / Minute + k.
Proof. by apply Z.div_add. Qed.

Lemma refill_books b t t0 n :
  0 <= tokens b <= rlCapacity -> t0 <= lastRefill b <= t -> n + tokens b <= rlCapacity + (lastRefill b - t0) / Minute ->
  let b' := refill b t in
  0 <= tokens b' <= rlCapacity /\ t0 <= lastRefill b' <= t /\ n + tokens b' <= rlCapacity + (lastRefill b' - t0) / Minute.
Proof.
  intros Ht Hl Hn. unfold refill. case_decide as Hr; [|done]. cbn [tokens lastRefill]. unfold rlRefillEvery in *.
  set (k := Z.quot (t - lastRefill b) Minute).
  assert (0 <= k /\ k * Minute <= t - lastRefill b) as [Hk1 Hk2].
  { unfold k. rewrite Z.quot_div_nonneg by (unfold Minute, Second in *; lia). split; [by apply Z.div_pos; unfold Minute, Second in *; lia|].
    rewrite Z.mul_comm. by apply Z.mul_div_le. }
  replace (lastRefill b + k * Minute - t0) with (lastRefill b - t0 + k * Minute) by lia. rewrite div_minute_add.
  assert (0 <= k * Minute) by (unfold Minute, Second; lia). lia.
Qed.

Lemma books_step key t0 t n m e :
  books key t0 t n m -> t <= ev_time e ->
  let '(m', d) := step key m e in books key t0 (ev_time e) (n + d) m'.
Proof.
  intros [Ht0 Hb] Hle. destruct e as [k u|u]; cbn [ev_time step] in *.
  - unfold Allow. set (b := refill _ u). destruct (decide (k = key)) as [->|Hk].
    + assert (0 <= tokens b <= rlCapacity /\ t0 <= lastRefill b <= u /\ n + tokens b <= rlCapacity + (lastRefill b - t0) / Minute) as (H1 & H2 & H3).
      { unfold b. destruct (m !! key) as [b0|]; cbn [default from_option id].
        - apply refill_books; [lia|lia|lia].
        - apply refill_books; cbn [tokens lastRefill]; [unfold rlCapacity; lia|lia|]. pose proof (div_minute_le (t - t0) (u - t0)). lia. }
      case_decide as Hz; cbn [andb]; rewrite ?bool_decide_true by done; (split; [lia|]); rewrite lookup_insert_eq; cbn [tokens lastRefill lastSeen]; lia.
    + assert (forall b', books key t0 u (n + 0) (<[k := b']> m)) as Hother;
        [|by case_decide; cbn [andb]; rewrite ?bool_decide_false by done; apply Hother].
      intros b'. split; [lia|]. rewrite lookup_insert_ne by done. destruct (m !! key) as [b0|]; [lia|].
      pose proof (div_minute_le (t - t0) (u - t0)). lia.
  - split; [lia|]. unfold gc_tick. destruct (m !! key) as [b|] eqn:Hm.
    + destruct (decide (lastSeen b < u - rlIdleEvict)) as [Hev|Hkeep].
      * assert (filter (fun kb : string * bucket => ~ lastSeen (snd kb) < u - rlIdleEvict) m !! key = None) as ->.
        { apply map_lookup_filter_None. right. intros b' Hb'. cbn. rewrite Hm in Hb'. injection Hb' as <-. tauto. }
        pose proof (div_minute_le (lastRefill b - t0 + 30 * Minute) (u - t0)) as Hd. rewrite div_minute_add in Hd. unfold rlIdleEvict, rlCapacity in *. lia.
      * assert (filter (fun kb : string * bucket => ~ lastSeen (snd kb) < u - rlIdleEvict) m !! key = Some b) as ->.
        { by apply map_lookup_filter_Some. }
        lia.
    + assert (filter (fun kb : string * bucket => ~ lastSeen (snd kb) < u - rlIdleEvict) m !! key = None) as ->.
      { apply map_lookup_filter_None. by left. }
      pose proof (div_minute_le (t - t0) (u - t0)). lia.
Qed.

Lemma books_bound key t0 u t n m : books key t0 u n m -> u <= t -> n <= rlCapacity + (t - t0) / Minute.
Proof.
  intros [H0 Hb] Hu. destruct (m !! key) as [b|].
  - pose proof (div_minute_le (lastRefill b - t0) (t - t0)). lia.
  - pose proof (div_minute_le (u - t0) (t - t0)). unfold rlCapacity. lia.
Qed.

(** Whatever the calls of others and the collector do in between, at most
    five attempts of one key pass the limiter of the recovery login, and one
    more for each minute of the period. *)
Theorem attempts_bounded key t0 t es :
  t0 <= t -> in_order t0 es -> Forall (fun e => ev_time e <= t) es -> allowed key ∅ es <= rlCapacity + (t - t0) / Minute.
Proof.
  intros Ht Ho Hall.
  enough (forall m u n, books key t0 u n m -> u <= t -> in_order u es -> n + allowed key m es <= rlCapacity + (t - t0) / Minute) as H.
  { rewrite <- (Z.add_0_l (allowed _ _ _)). apply (H ∅ t0 0); [|done|done]. split; [lia|]. rewrite lookup_empty. by rewrite Z.sub_diag. }
  clear Ho. induction Hall as [|e es He Hall IH]; intros m u n Hb Hu Ho; cbn [allowed].
  - rewrite Z.add_0_r. by eapply books_bound.
  - destruct Ho as [Hle Ho]. pose proof (books_step key t0 u n m e Hb Hle) as Hs. destruct (step key m e) as [m' d].
    rewrite Z.add_assoc. by apply (IH m' (ev_time e)).
Qed.

Lemma attempts_bounded_witness :
  allowed "1.2.3.4" ∅ (replicate 9 (Call "1.2.3.4" 0) ++ [Tick (40 * Minute); Call "5.6.7.8" (41 * Minute); Call "1.2.3.4" (42 * Minute)])%list
    <= rlCapacity + (42 * Minute - 0) / Minute.
Proof.
  apply (attempts_bounded "1.2.3.4" 0 (42 * Minute)); [by vm_compute|repeat split; by vm_compute|].
  repeat (apply Forall_cons; split; [by vm_compute|]). apply Forall_nil_2.
Defined.

(** But a client behind the proxy writes its own key: the first entry of
    X-Forwarded-For is what it sent, the proxy only appends to it. *)
Lemma key_is_spoofable r x hop :
  x <> "" -> has_byte "," x = false -> clientIP (with_xff (x +:+ ", " +:+ hop) r) = x.
Proof.
  intros Hx Hc. unfold clientIP. rewrite with_xff_Get, decide_True by by destruct x. by apply before_byte_app.
Qed.
End Attempts.

(** * Instances *)

Definition ex_portal : loginServer :=
  mkLogin "k" ["example.org"] "http://dashboard:8093" "http://proxy:8094/routes" (720 * Hour) Hour (720 * Hour) false None 0 ∅.
Definition ex_posted (host : string) : request :=
  mkRequest "POST" host "/login" "" {["Cookie" := ["pmgr_csrf=c0ffee"]; "Origin" := ["https://" +:+ host]]} "10.0.0.9:5000".
Definition ex_login_form : form_body := FormBody "username=al&password=pw&code=123456&csrf=c0ffee&redirect=https%3A%2F%2FApp.example.org%2Fx".
Definition json_string (s : string) : string := String quote (s +:+ String quote "").
(** A dashboard that knows the password, with the second factor valid or not. *)
Definition ex_dashboard (valid : bool) (url body : string) : option (Z * string) :=
  Some (200, "{" +:+ json_string "totp_enrolled" +:+ ":true," +:+ json_string "code_valid" +:+ ":" +:+ (if valid then "true" else "false") +:+ "}").
Definition ex_routes (url : string) : option (Z * string) :=
  Some (200, "{" +:+ json_string "hosts" +:+ ":[" +:+ json_string "APP.example.org" +:+ "]}").

Definition location (a : answer) : string := Get (a_Header a) "Location".

Example login_ex :
  let resp v := fst (handleLogin (ex_dashboard v) ex_routes ex_portal ∅ (ex_posted "auth.example.org") ex_login_form "" 0) in
  (a_Status (resp true), length (session_lines (resp true)), location (resp true)) = (302, 1%nat, "https://App.example.org/x") /\
  (a_Status (resp false), session_lines (resp false), location (resp false))
    = (302, [], "/login?err=1&redirect=https%3A%2F%2FApp.example.org%2Fx") /\
  a_Status (fst (handleLogin (ex_dashboard true) ex_routes ex_portal ∅ (ex_posted "auth.example.com") ex_login_form "" 0)) = 400.
Proof. by vm_compute. Qed.

Lemma no_open_redirect_witness :
  stays ex_routes ex_portal 0 (ex_posted "auth.example.org") "https://App.example.org/x"
    (fst (handleLogin (ex_dashboard true) ex_routes ex_portal ∅ (ex_posted "auth.example.org") ex_login_form "" 0)).
Proof.
  apply (no_open_redirect (ex_dashboard true) ex_routes ex_portal ∅ (ex_posted "auth.example.org") ex_login_form "" 0); [reflexivity|by left].
Defined.

Definition ex_session (issued : Z) : request :=
  mkRequest "GET" "app.example.org" "/" "" {["Cookie" := [sent_back (cookie_String (session_cookie ex_portal "al@h.example" "example.org" issued))]]}
    "203.0.113.7:5000".
Definition ex_private : RouteGroup := set_g_AuthRequired true (new_group "app.example.org" "" "app" "app" false).

Lemma session_opens_gate_witness :
  let a := newAuthGate "k" "" "example.org" "" "" in
  ssoUser ex_portal (ex_session 0) Hour = "al@h.example" /\
  authorize (fun _ => None) a ∅ (ex_session 0) "/" ex_private Hour = (admit_user a ∅ (ex_session 0) ex_private "al@h.example" Hour, a).
Proof.
  apply (session_opens_gate (fun _ => None) ex_portal "al@h.example" "example.org" 0); try reflexivity; try (by vm_compute).
Defined.
