(* ===== verification/OAuth.v ===== *)
(** * The OAuth authorization server: cmd/auth/oauth.go

    Dynamic client registration, the authorize endpoint with its consent page,
    and the token endpoint with single-use codes and refresh tokens. A client's
    registration is its signed [client_id] (internal/sso/token.go). *)
From S2P Require Import Prelude GoString Duration Http Sha256 Json Url Sso Net Balancer AuthGate Login.
Open Scope string_scope.

Definition authCodeTTL : Z := 60 * Second.
Definition maxUsedJTI : nat := N.to_nat 8192.

(** ** The registration blob *)

Record ClientReg := mkReg { cl_RedirectURIs : list string; cl_Name : string; cl_IssuedAt : Z }.

(** [json.Marshal] of a list of strings that is not nil, and of an object whose
    values are already encoded. *)
Definition enc_strings (l : list string) : string := "[" +:+ Join (enc_string <$> l) "," +:+ "]".
Definition enc_values (l : list (string * string)) : string :=
  "{" +:+ Join ((fun kv => enc_string (fst kv) +:+ ":" +:+ snd kv) <$> l) "," +:+ "}".

Definition client_json (c : ClientReg) : string :=
  enc_values [("ru", enc_strings (cl_RedirectURIs c)); ("name", enc_string (cl_Name c)); ("iat", FormatInt (cl_IssuedAt c))].
Definition client_names : list string := ["ru"; "name"; "iat"].
Definition decode_client (payload : string) : option ClientReg :=
  l ← object_fields payload;
  ru ← get_strings client_names "ru" l; name ← get_string client_names "name" l; iat ← get_int64 client_names "iat" l;
  Some (mkReg ru name iat).

Definition SignClient (c : ClientReg) (secret : string) : string := signBlob ClientIDPrefix tagClient (client_json c) secret.
Definition VerifyClient (raw secret : string) : option ClientReg :=
  payload ← verifyBlob raw ClientIDPrefix tagClient secret; decode_client payload.

(** ** Shared answers *)

(** [corsOAuth]: the headers, and the answer to a preflight. *)
Definition cors_headers (w : header) : header :=
  Set_ "Access-Control-Allow-Headers" "Content-Type, Authorization"
    (Set_ "Access-Control-Allow-Methods" "GET, POST, OPTIONS" (Set_ "Access-Control-Allow-Origin" "*" w)).
Definition corsOAuth (w : header) (r : request) : header * option answer :=
  let w := cors_headers w in
  (w, if decide (req_Method r = "OPTIONS") then Some (Plain (mkResponse 204 w (Text ""))) else None).

Definition json_answer (w : header) (status : Z) (json : string) : answer := Plain (WriteJSON w status json).

(** ** Metadata *)

Definition as_metadata (base : string) : string :=
  enc_values
    [("authorization_endpoint", enc_string (base +:+ "/oauth/authorize"));
     ("code_challenge_methods_supported", enc_strings ["S256"]);
     ("grant_types_supported", enc_strings ["authorization_code"; "refresh_token"]);
     ("issuer", enc_string base);
     ("registration_endpoint", enc_string (base +:+ "/oauth/register"));
     ("response_types_supported", enc_strings ["code"]);
     ("scopes_supported", enc_strings []);
     ("token_endpoint", enc_string (base +:+ "/oauth/token"));
     ("token_endpoint_auth_methods_supported", enc_strings ["none"])].

Definition handleASMetadata (s : loginServer) (w : header) (r : request) : answer :=
  match corsOAuth w r with
  | (_, Some a) => a
  | (w, None) =>
      if decide (matchDomain s (hostOnly (req_Host r)) = "") then refuse w "404 page not found" 404
      else json_answer (Set_ "Cache-Control" "max-age=300" w) 200 (as_metadata ("https://" +:+ req_Host r))
  end.

(** ** Registration *)

Definition registerError (w : header) (code desc : string) : answer :=
  json_answer w 400 (enc_object [("error", inl code); ("error_description", inl desc)]).

Definition loopback (h : string) : bool := bool_decide (h = "localhost" \/ h = "127.0.0.1").

(** The reason to reject a redirect URI, empty if there is none. *)
Definition badRedirectURI (raw : string) : string :=
  if decide (512 < len raw) then "redirect_uri exceeds 512 characters" else
  match url_Parse raw with
  | None => "redirect_uri must be an absolute URL"
  | Some u =>
      if negb (IsAbs u) || bool_decide (u_Host u = "") then "redirect_uri must be an absolute URL"
      else if decide (u_Fragment u <> "") then "redirect_uri must not contain a fragment"
      else if decide (u_Scheme u = "https") then ""
      else if decide (u_Scheme u = "http") then
        if loopback (Hostname u) then "" else "http redirect_uri is only allowed for localhost/127.0.0.1"
      else "redirect_uri scheme must be https (or http on loopback)"
  end.

(** [strings.Map] dropping control characters; an invalid byte comes out as the
    replacement character. *)
Fixpoint drop_controls (fuel : nat) (s : string) : string :=
  match fuel, s with
  | S fuel, String c s =>
      if in_N c 0 127 then (if control c then "" else String c "") +:+ drop_controls fuel s
      else match rune_bytes c s with
           | Some r => r +:+ drop_controls fuel (after_rune c s)
           | None => replacement +:+ drop_controls fuel s
           end
  | _, _ => ""
  end.

(** [utf8.ValidString]. *)
Fixpoint valid_runes (fuel : nat) (s : string) : bool :=
  match fuel, s with
  | S fuel, String c s => match rune_bytes c s with Some _ => valid_runes fuel (after_rune c s) | None => false end
  | O, String _ _ => false
  | _, EmptyString => true
  end.
Definition ValidString (s : string) : bool := valid_runes (String.length s) s.

(** The last byte is dropped until the name fits and is valid; each round is on
    a shorter name, so its length is fuel enough. *)
Definition drop_last (s : string) : string := prefix_bytes (String.length s - 1) s.
Fixpoint cut_name (fuel : nat) (name : string) : string :=
  if bool_decide (128 < len name) || (bool_decide (0 < len name) && negb (ValidString name)) then
    match fuel with O => name | S fuel => cut_name fuel (drop_last name) end
  else name.
Definition sanitizeClientName (name : string) : string :=
  let name := TrimSpace (drop_controls (String.length name) name) in cut_name (String.length name) name.

Definition register_names : list string := ["redirect_uris"; "client_name"].
(** The body up to 16 KiB. *)
Definition register_body (b : string) : option (list string * string) :=
  l ← decode_first (take_bytes (N.to_nat 16384) b);
  uris ← get_strings register_names "redirect_uris" l; name ← get_string register_names "client_name" l;
  Some (uris, name).

Definition first_bad (uris : list string) : string :=
  default "" (find_first (fun reason => negb (bool_decide (reason = ""))) (badRedirectURI <$> uris)).

Definition handleRegister (s : loginServer) (w : header) (r : request) (b : string) (now : Z) : answer :=
  match corsOAuth w r with
  | (_, Some a) => a
  | (w, None) =>
      if decide (req_Method r <> "POST") then method_not_allowed w else
      match register_body b with
      | None => registerError w "invalid_client_metadata" "body must be a JSON object under 16KiB"
      | Some (uris, client_name) =>
          if decide (length uris = 0 \/ 10 < length uris)%nat then
            registerError w "invalid_redirect_uri" "redirect_uris must contain 1-10 entries"
          else if decide (first_bad uris <> "") then registerError w "invalid_redirect_uri" (first_bad uris)
          else
            let name := sanitizeClientName client_name in
            let clientID := SignClient (mkReg uris name (unix now)) (ls_secret s) in
            json_answer w 201
              (enc_values
                [("client_id", enc_string clientID); ("client_id_issued_at", FormatInt (unix now)); ("client_name", enc_string name);
                 ("grant_types", enc_strings ["authorization_code"; "refresh_token"]); ("redirect_uris", enc_strings uris);
                 ("response_types", enc_strings ["code"]); ("token_endpoint_auth_method", enc_string "none")])
      end
  end.

(** ** The authorize endpoint *)

Definition redirect_match (pu : URL) (presented reg : string) : bool :=
  bool_decide (reg = presented) ||
  match url_Parse reg with
  | None => false
  | Some ru =>
      bool_decide (u_Scheme ru = "http") && bool_decide (u_Scheme pu = "http") && loopback (Hostname ru) &&
      bool_decide (Hostname pu = Hostname ru) && bool_decide (u_Path pu = u_Path ru)
  end.
Definition redirectURIMatches (registered : list string) (presented : string) : bool :=
  match url_Parse presented with
  | None => false
  | Some pu => existsb (redirect_match pu presented) registered
  end.

Record authzParams := mkAuthz {
  ap_clientID : string; ap_clientName : string; ap_redirectURI : string; ap_state : string; ap_scope : string;
  ap_codeChallenge : string; ap_audience : string (* resource host, or "*" *) }.

Definition normalizeResourcePath (p : string) : string :=
  if decide (p = "" \/ p = "/") then "" else
  let p := if HasPrefix p "/" then p else "/" +:+ p in
  let c := Clean_rooted p in
  if decide (c = "/" \/ c = "." \/ HasPrefix c ".." = true) then "" else c.

Section outside.
Context (fetch : string -> option (Z * string)).

Definition validateResource (s : loginServer) (raw : string) (now : Z) : option string * loginServer :=
  if decide (raw = "") then (Some "*", s) else
  match url_Parse raw with
  | None => (None, s)
  | Some u =>
      if decide (u_Scheme u <> "https" \/ u_Host u = "") then (None, s) else
      let host := ToLower (Hostname u) in
      if decide (matchDomain s host = "") then (None, s) else
      let '(hosts, s) := routedHosts fetch s now in
      (if routed hosts host then Some (host +:+ normalizeResourcePath (u_Path u)) else None, s)
  end.

(** A request in error: not to be redirected, or told to the client at its
    verified URI. *)
Inductive authz_result := Hard (reason : string) | Back (p : authzParams) (err : string) | Valid (p : authzParams).

Definition validateAuthzParams (s : loginServer) (v : values) (now : Z) : authz_result * loginServer :=
  let clientID := form_get v "client_id" in
  match VerifyClient clientID (ls_secret s) with
  | None => (Hard "Unknown or invalid client_id.", s)
  | Some reg =>
      let uri := form_get v "redirect_uri" in
      if negb (redirectURIMatches (cl_RedirectURIs reg) uri) then (Hard "redirect_uri is not registered for this client.", s) else
      let p := mkAuthz clientID (cl_Name reg) uri (form_get v "state") (form_get v "scope") (form_get v "code_challenge") in
      if decide (form_get v "response_type" <> "code") then (Back (p "") "unsupported_response_type", s)
      else if decide (form_get v "code_challenge" = "" \/ form_get v "code_challenge_method" <> "S256") then
        (Back (p "") "invalid_request", s)
      else
        match validateResource s (form_get v "resource") now with
        | (None, s) => (Back (p "") "invalid_target", s)
        | (Some aud, s) => (Valid (p aud), s)
        end
  end.

Definition renderOAuthError (w : header) (reason : string) : answer := page w 400 oauthErrorPage [EscapeString reason].

Definition redirectBack (w : header) (r : request) (redirectURI : string) (extra : string * string) (state : string) : answer :=
  match url_Parse redirectURI with
  | None => renderOAuthError w "Invalid redirect_uri."
  | Some u =>
      let q := form_set (fst extra) (snd extra) (query_of (u_RawQuery u)) in
      let q := if decide (state <> "") then form_set "state" state q else q in
      Redirect w r (URL_String (set_query (Encode q) u))
  end.

Definition hiddenField (name value : string) : string :=
  "<input type=hidden name=" +:+ name +:+ " value=" +:+ String quote (EscapeString value +:+ String quote (">" +:+ newline +:+ "    ")).

Definition echoed : list string :=
  ["client_id"; "redirect_uri"; "response_type"; "code_challenge"; "code_challenge_method"; "state"; "scope"; "resource"].
Definition hidden_fields (token : string) (params : values) : string :=
  hiddenField "csrf" token +:+
  Join ((fun k => let v := form_get params k in if decide (v = "") then "" else hiddenField k v) <$> echoed) "".

Definition renderConsent (w : header) (rnd : string) (p : authzParams) (params : values) (user : string) : answer :=
  let token := newCSRFToken rnd in
  let w := SetCookie w (mkHCookie csrfCookie token "/oauth/authorize" "" (Z.quot csrfMaxAge Second)) in
  let name := if decide (ap_clientName p = "") then "An application" else ap_clientName p in
  let audText := if decide (ap_audience p = "*") then "all protected hosts" else ap_audience p in
  page w 200 consentPage [EscapeString name; EscapeString audText; EscapeString user; hidden_fields token params].

(** [uri] is the request's [URL.RequestURI()]. *)
Definition authorizeGET (s : loginServer) (w : header) (r : request) (uri rnd : string) (now : Z) : answer * loginServer :=
  let q := query_of (req_RawQuery r) in
  match validateAuthzParams s q now with
  | (Hard e, s) => (renderOAuthError w e, s)
  | (Back p e, s) => (redirectBack w r (ap_redirectURI p) ("error", e) (ap_state p), s)
  | (Valid p, s) =>
      let user := ssoUser s r now in
      if decide (user = "") then
        (Redirect w r ("/login?redirect=" +:+ QueryEscape ("https://" +:+ req_Host r +:+ uri)), s)
      else (renderConsent w rnd p q user, s)
  end.

Definition newJTI (rnd : string) : string := hex rnd.

Definition consent_code (s : loginServer) (p : authzParams) (user rnd : string) (now : Z) : string :=
  SignCode (mkCode user (ap_clientID p) (ap_audience p) (ap_scope p) (ap_redirectURI p) (ap_codeChallenge p) (newJTI rnd)
    (unix (now + authCodeTTL))) (ls_secret s).

Definition authorizePOST (s : loginServer) (w : header) (r : request) (body : form_body) (rnd : string) (now : Z)
  : answer * loginServer :=
  if negb (sameOriginOK r) then (refuse w "cross-origin request rejected" 403, s) else
  let '(form, ok) := ParseForm r body in
  if negb ok then (refuse w "bad form" 400, s) else
  if negb (csrfOK r form) then (refuse w "csrf token mismatch" 403, s) else
  let user := ssoUser s r now in
  if decide (user = "") then (refuse w "not signed in" 403, s) else
  match validateAuthzParams s form now with
  | (Hard e, s) => (renderOAuthError w e, s)
  | (Back p e, s) => (redirectBack w r (ap_redirectURI p) ("error", e) (ap_state p), s)
  | (Valid p, s) =>
      if decide (form_get form "decision" <> "approve") then
        (redirectBack w r (ap_redirectURI p) ("error", "access_denied") (ap_state p), s)
      else (redirectBack w r (ap_redirectURI p) ("code", consent_code s p user rnd now) (ap_state p), s)
  end.

Definition handleAuthorize (s : loginServer) (w : header) (r : request) (uri : string) (body : form_body) (rnd : string) (now : Z)
  : answer * loginServer :=
  if decide (req_Method r = "GET") then authorizeGET s w r uri rnd now
  else if decide (req_Method r = "POST") then authorizePOST s w r body rnd now
  else (method_not_allowed w, s).
End outside.

(** ** The token endpoint *)

Definition sweep_used (now : Z) (m : gmap string Z) : gmap string Z := filter (fun ku => ~ snd ku < now) m.

(** Records an id as consumed until [exp]; false when it already was. *)
Definition markJTIUsed (s : loginServer) (jti : string) (exp now : Z) : bool * loginServer :=
  if decide (jti = "") then (false, s) else
  if match ls_usedJTI s !! jti with Some til => time_before now til | None => false end then (false, s) else
  let m := ls_usedJTI s in
  let m := if decide (maxUsedJTI <= size m)%nat then
             let m := sweep_used now m in if decide (maxUsedJTI <= size m)%nat then ∅ else m
           else m in
  (true, set_usedJTI (<[jti := exp]> m) s).

Definition tokenError (w : header) (code : string) : answer := json_answer w 400 (enc_object [("error", inl code)]).
Definition invalid_grant (w : header) : answer := tokenError w "invalid_grant".

Definition token_json (s : loginServer) (access refresh scope : string) : string :=
  enc_object [("access_token", inl access); ("expires_in", inr (Z.quot (ls_accessTTL s) Second)); ("refresh_token", inl refresh);
              ("scope", inl scope); ("token_type", inl "Bearer")].

(** The two tokens issued. *)
Definition access_of (s : loginServer) (username clientID audience scope : string) (now : Z) : AccessClaims :=
  mkAccess username clientID audience scope (unix (now + ls_accessTTL s)).
Definition refresh_of (s : loginServer) (username clientID audience scope rnd : string) (now : Z) : RefreshClaims :=
  mkRefresh username clientID audience scope (newJTI rnd) (unix (now + ls_refreshTTL s)).

Definition issueTokens (s : loginServer) (w : header) (username clientID audience scope rnd : string) (now : Z) : answer :=
  json_answer w 200
    (token_json s (SignAccess (access_of s username clientID audience scope now) (ls_secret s))
      (SignRefresh (refresh_of s username clientID audience scope rnd now) (ls_secret s)) scope).

Definition tokenAuthCode (s : loginServer) (w : header) (form : values) (rnd : string) (now : Z) : answer * loginServer :=
  match VerifyCode (form_get form "code") (ls_secret s) (unix now) with
  | None => (invalid_grant w, s)
  | Some c =>
      let '(fresh, s) := markJTIUsed s (co_JTI c) (co_Exp c * Second) now in
      if negb fresh then (invalid_grant w, s)
      else if negb (bool_decide (form_get form "client_id" = co_ClientID c)) then (invalid_grant w, s)
      else if negb (redirectURIMatches [co_RedirectURI c] (form_get form "redirect_uri")) then (invalid_grant w, s)
      else if negb (bool_decide (b64_encode (Sum256 (form_get form "code_verifier")) = co_CodeChallenge c)) then (invalid_grant w, s)
      else (issueTokens s w (co_Username c) (co_ClientID c) (co_Audience c) (co_Scope c) rnd now, s)
  end.

Definition tokenRefresh (s : loginServer) (w : header) (form : values) (rnd : string) (now : Z) : answer * loginServer :=
  match VerifyRefresh (form_get form "refresh_token") (ls_secret s) (unix now) with
  | None => (invalid_grant w, s)
  | Some c =>
      if negb (bool_decide (form_get form "client_id" = rf_ClientID c)) then (invalid_grant w, s) else
      let '(fresh, s) := markJTIUsed s (rf_JTI c) (rf_Exp c * Second) now in
      if negb fresh then (invalid_grant w, s)
      else (issueTokens s w (rf_Username c) (rf_ClientID c) (rf_Audience c) (rf_Scope c) rnd now, s)
  end.

Definition handleToken (s : loginServer) (w : header) (r : request) (body : form_body) (rnd : string) (now : Z)
  : answer * loginServer :=
  match corsOAuth w r with
  | (_, Some a) => (a, s)
  | (w, None) =>
      let w := Set_ "Pragma" "no-cache" (Set_ "Cache-Control" "no-store" w) in
      if decide (req_Method r <> "POST" \/ HasPrefix (Get (req_Header r) "Content-Type") "application/x-www-form-urlencoded" = false) then
        (tokenError w "invalid_request", s)
      else
        let '(form, ok) := ParseForm r body in
        if negb ok then (tokenError w "invalid_request", s)
        else if decide (form_get form "grant_type" = "authorization_code") then tokenAuthCode s w form rnd now
        else if decide (form_get form "grant_type" = "refresh_token") then tokenRefresh s w form rnd now
        else (tokenError w "unsupported_grant_type", s)
  end.

(** * Properties *)

(** ** Consumed ids *)

Definition consumed (s : loginServer) (jti : string) (now : Z) : Prop := exists til, ls_usedJTI s !! jti = Some til /\ now < til.

Lemma markJTIUsed_spec s jti exp now :
  (fst (markJTIUsed s jti exp now) = true <-> jti <> "" /\ ~ consumed s jti now) /\
  (fst (markJTIUsed s jti exp now) = false -> snd (markJTIUsed s jti exp now) = s /\ (jti = "" \/ consumed s jti now)) /\
  (fst (markJTIUsed s jti exp now) = true -> ls_usedJTI (snd (markJTIUsed s jti exp now)) !! jti = Some exp).
Proof.
  unfold markJTIUsed, consumed, time_before. case_decide as Hj; cbn [fst snd]; [split_and!; [naive_solver|by split; [|left]|done]|].
  destruct (ls_usedJTI s !! jti) as [til|] eqn:Hu.
  - case_bool_decide as Ht; cbn [fst snd]; (split_and!; [split|..]); try done.
    + intros [_ Hn]. exfalso. apply Hn. eauto.
    + intros _. split; [done|]. right. eauto.
    + intros _. split; [done|]. intros (til' & [= <-] & ?). done.
    + intros _. cbn [set_usedJTI ls_usedJTI]. apply lookup_insert_eq.
  - cbn [fst snd]. (split_and!; [split|..]); try done.
    + intros _. split; [done|]. by intros (til & ? & _).
    + intros _. cbn [set_usedJTI ls_usedJTI]. apply lookup_insert_eq.
Qed.

Lemma lookup_sweep now m jti til : sweep_used now m !! jti = Some til <-> m !! jti = Some til /\ now <= til.
Proof.
  unfold sweep_used. rewrite map_lookup_filter_Some. cbn [snd]. split; intros [? ?]; (split; [done|lia]).
Qed.

(** What the set holds after a mark: the new id, and nothing that was not there;
    and as long as it is not full of live entries, everything still live. *)
Lemma mark_lookup s jti exp now j til :
  ls_usedJTI (snd (markJTIUsed s jti exp now)) !! j = Some til -> (j = jti /\ til = exp) \/ ls_usedJTI s !! j = Some til.
Proof.
  unfold markJTIUsed. case_decide; [by right|]. case_match; [by right|]. cbn [snd set_usedJTI ls_usedJTI].
  rewrite lookup_insert_Some. intros [[-> ->]|[_ Hl]]; [by left|right].
  case_decide; [|done]. case_decide; [by rewrite lookup_empty in Hl|]. by apply lookup_sweep in Hl as [? _].
Qed.

Lemma mark_keeps s jti exp now j til :
  ls_usedJTI s !! j = Some til -> now < til -> (size (sweep_used now (ls_usedJTI s)) < maxUsedJTI)%nat ->
  ls_usedJTI (snd (markJTIUsed s jti exp now)) !! j = Some til.
Proof.
  intros Hl Ht Hs. unfold markJTIUsed. case_decide; [done|]. case_match eqn:Hm; [done|]. cbn [snd set_usedJTI ls_usedJTI].
  rewrite lookup_insert_ne.
  - case_decide; [|done]. rewrite decide_False by lia. apply lookup_sweep. split; [done|lia].
  - intros ->. rewrite Hl in Hm. unfold time_before in Hm. by apply bool_decide_eq_false in Hm.
Qed.

(** ** The exchange *)

Lemma issueTokens_status s w u cid aud sc rnd now : a_Status (issueTokens s w u cid aud sc rnd now) = 200.
Proof. done. Qed.
Lemma tokenError_status w e : a_Status (tokenError w e) = 400.
Proof. done. Qed.

(** The proof key, RFC 7636 S256. *)
Definition challenge_of (verifier : string) : string := b64_encode (Sum256 verifier).

Lemma issueTokens_mark s j x t w u cid aud sc rnd now :
  issueTokens (snd (markJTIUsed s j x t)) w u cid aud sc rnd now = issueTokens s w u cid aud sc rnd now.
Proof. unfold markJTIUsed. case_decide; [done|]. by case_match. Qed.

(** One attempt at the exchange: it succeeds exactly under the checks, and a
    code that was not consumed is recorded either way. *)
Lemma exchange_attempt s w form rnd now :
  let '(a, s') := tokenAuthCode s w form rnd now in
  match VerifyCode (form_get form "code") (ls_secret s) (unix now) with
  | None => a_Status a = 400 /\ s' = s
  | Some c =>
      (a_Status a = 200 <->
       co_JTI c <> "" /\ ~ consumed s (co_JTI c) now /\ form_get form "client_id" = co_ClientID c /\
       redirectURIMatches [co_RedirectURI c] (form_get form "redirect_uri") = true /\
       challenge_of (form_get form "code_verifier") = co_CodeChallenge c) /\
      (a_Status a = 200 -> a = issueTokens s w (co_Username c) (co_ClientID c) (co_Audience c) (co_Scope c) rnd now) /\
      (co_JTI c <> "" -> ~ consumed s (co_JTI c) now -> ls_usedJTI s' !! co_JTI c = Some (co_Exp c * Second))
  end.
Proof.
  unfold tokenAuthCode, challenge_of. destruct (VerifyCode _ _ _) as [c|]; [|done].
  destruct (markJTIUsed_spec s (co_JTI c) (co_Exp c * Second) now) as (Hfresh & _ & Hmark).
  pose proof (issueTokens_mark s (co_JTI c) (co_Exp c * Second) now) as Hissue.
  destruct (markJTIUsed s (co_JTI c) (co_Exp c * Second) now) as [fresh s'] eqn:Hm. cbn [fst snd] in *.
  assert (co_JTI c <> "" -> ~ consumed s (co_JTI c) now -> ls_usedJTI s' !! co_JTI c = Some (co_Exp c * Second)) as Hburn by tauto.
  destruct fresh; cbn [negb]; [|split; [|done]; split; [done|]; intros (Hj & Hc & _); discriminate (proj2 Hfresh (conj Hj Hc))].
  destruct (proj1 Hfresh eq_refl) as [Hj Hc].
  case_bool_decide as Hcid; cbn [negb]; [|by split; [split; [|intros (_ & _ & ? & _)]|]].
  destruct (redirectURIMatches _ _); cbn [negb]; [|by split; [split; [|intros (_ & _ & _ & ? & _)]|]].
  case_bool_decide as Hch; cbn [negb]; [|by split; [split; [|intros (_ & _ & _ & _ & ?)]|]].
  by rewrite issueTokens_status, Hissue.
Qed.

(** ** A run of the portal *)

Inductive request_event :=
| EvLogin (r : request) (body : form_body) (rnd : string)
| EvTokenLogin (r : request) (body : form_body)
| EvLogout (r : request)
| EvMetadata (r : request)
| EvRegister (r : request) (b : string)
| EvAuthorize (r : request) (uri : string) (body : form_body) (rnd : string)
| EvToken (r : request) (body : form_body) (rnd : string).

(** The code or refresh token a token request presents, if it verifies: its id
    and when it expires. *)
Definition presented (secret : string) (now : Z) (e : request_event) : option (string * Z) :=
  match e with
  | EvToken r body _ =>
      let '(form, ok) := ParseForm r body in
      if decide (req_Method r <> "POST" \/ HasPrefix (Get (req_Header r) "Content-Type") "application/x-www-form-urlencoded" = false)
      then None
      else if negb ok then None
      else if decide (form_get form "grant_type" = "authorization_code") then
        c ← VerifyCode (form_get form "code") secret (unix now); Some (co_JTI c, co_Exp c * Second)
      else if decide (form_get form "grant_type" = "refresh_token") then
        c ← VerifyRefresh (form_get form "refresh_token") secret (unix now); Some (rf_JTI c, rf_Exp c * Second)
      else None
  | _ => None
  end.

Section run.
Context (post : string -> string -> option (Z * string)) (fetch : string -> option (Z * string)).

Definition handle (s : loginServer) (now : Z) (e : request_event) : answer * loginServer :=
  match e with
  | EvLogin r body rnd => handleLogin post fetch s ∅ r body rnd now
  | EvTokenLogin r body => handleTokenLogin post fetch s ∅ r body now
  | EvLogout r => (handleLogout s ∅ r, s)
  | EvMetadata r => (handleASMetadata s ∅ r, s)
  | EvRegister r b => (handleRegister s ∅ r b now, s)
  | EvAuthorize r uri body rnd => handleAuthorize fetch s ∅ r uri body rnd now
  | EvToken r body rnd => handleToken s ∅ r body rnd now
  end.

Fixpoint after (s : loginServer) (es : list (Z * request_event)) : loginServer :=
  match es with [] => s | (t, e) :: es => after (snd (handle s t e)) es end.

Lemma after_app s es es' : after s (es ++ es') = after (after s es) es'.
Proof. revert s. induction es as [|[t e] es IH]; intros s; cbn; [done|]. apply IH. Qed.

(** *** What a request changes *)

(** The routes cache is the only thing most handlers touch. *)
Definition same_but_routes (s s' : loginServer) : Prop := ls_secret s' = ls_secret s /\ ls_usedJTI s' = ls_usedJTI s.

Lemma routedHosts_frame s now : same_but_routes s (snd (routedHosts fetch s now)).
Proof. unfold routedHosts. case_decide; [done|]. by repeat case_match. Qed.
Lemma validRedirect_frame s raw d now : same_but_routes s (snd (validRedirect fetch s raw d now)).
Proof.
  unfold validRedirect. case_match; [|done]. case_decide; [done|]. case_match; [done|].
  pose proof (routedHosts_frame s now). by destruct (routedHosts fetch s now).
Qed.
Lemma start_session_frame s w u d red now : same_but_routes s (snd (start_session fetch s w u d red now)).
Proof. unfold start_session. pose proof (validRedirect_frame s red d now). by destruct (validRedirect fetch s red d now). Qed.
Lemma validateAuthz_frame s v now : same_but_routes s (snd (validateAuthzParams fetch s v now)).
Proof.
  unfold validateAuthzParams. case_match; [|done]. case_match; [done|]. case_decide; [done|]. case_decide; [done|].
  assert (same_but_routes s (snd (validateResource fetch s (form_get v "resource") now))) as Hv; [|by repeat case_match; simplify_eq/=].
  unfold validateResource. case_decide; [done|]. case_match; [|done]. case_decide; [done|]. case_decide; [done|].
  pose proof (routedHosts_frame s now). by destruct (routedHosts fetch s now).
Qed.

Lemma login_frame s w r body rnd now : same_but_routes s (snd (handleLogin post fetch s w r body rnd now)).
Proof.
  unfold handleLogin, doLogin. pose proof (start_session_frame s w) as Hs.
  repeat (case_decide || case_match); simplify_eq/=; try done; by match goal with H : start_session _ _ _ ?u ?d ?r ?n = _ |- _ => specialize (Hs u d r n); rewrite H in Hs end.
Qed.
Lemma token_login_frame s w r body now : same_but_routes s (snd (handleTokenLogin post fetch s w r body now)).
Proof.
  unfold handleTokenLogin. pose proof (start_session_frame s w) as Hs.
  repeat (case_decide || case_match); simplify_eq/=; try done; by match goal with H : start_session _ _ _ ?u ?d ?r ?n = _ |- _ => specialize (Hs u d r n); rewrite H in Hs end.
Qed.
Lemma authorize_frame s w r uri body rnd now : same_but_routes s (snd (handleAuthorize fetch s w r uri body rnd now)).
Proof.
  unfold handleAuthorize, authorizeGET, authorizePOST. pose proof (validateAuthz_frame s) as Hs.
  repeat (case_decide || case_match); simplify_eq/=; try done; by match goal with H : validateAuthzParams _ _ ?v ?n = _ |- _ => specialize (Hs v n); rewrite H in Hs end.
Qed.

Lemma mark_frame s j x now : ls_secret (snd (markJTIUsed s j x now)) = ls_secret s.
Proof. unfold markJTIUsed. case_decide; [done|]. by case_match. Qed.

Lemma token_presented s w r body rnd now :
  let '(a, s') := handleToken s w r body rnd now in
  match presented (ls_secret s) now (EvToken r body rnd) with
  | None => s' = s /\ a_Status a <> 200
  | Some (j, x) =>
      (s' = s /\ a_Status a <> 200) \/
      (s' = snd (markJTIUsed s j x now) /\ (a_Status a = 200 -> fst (markJTIUsed s j x now) = true))
  end.
Proof.
  unfold handleToken, corsOAuth, presented. destruct (decide (req_Method r = "OPTIONS")) as [Ho|_].
  { destruct (ParseForm r body). rewrite decide_True by by rewrite Ho; left. done. }
  destruct (ParseForm r body) as [form ok]. case_decide; [done|]. destruct ok; cbn [negb]; [|done].
  case_decide; [|case_decide; [|done]].
  - unfold tokenAuthCode. destruct (VerifyCode _ _ _) as [c|]; cbn [mbind option_bind]; [|done].
    destruct (markJTIUsed s _ _ now) as [[] s'']; cbn [negb fst snd]; repeat case_match; simplify_eq/=; by right.
  - unfold tokenRefresh. destruct (VerifyRefresh _ _ _) as [c|]; cbn [mbind option_bind]; [|done].
    destruct (negb _); [by left|]. destruct (markJTIUsed s _ _ now) as [[] s'']; cbn [negb fst snd]; by right.
Qed.

(** One event: ids enter the set only as presented, and live ones stay while the
    set is not full of live ones. *)
Lemma handle_frame s t e : ls_secret (snd (handle s t e)) = ls_secret s.
Proof.
  destruct e; cbn [handle]; try done;
    [apply login_frame|apply token_login_frame|apply authorize_frame|].
  pose proof (token_presented s ∅ r body rnd t) as H. destruct (handleToken s ∅ r body rnd t) as [a s'].
  destruct (presented _ _ _) as [[j x]|]; cbn [snd]; [destruct H as [[-> _]|[-> _]]; [done|apply mark_frame]|by destruct H as [-> _]].
Qed.

Lemma handle_ids s t e :
  ls_usedJTI (snd (handle s t e)) = ls_usedJTI s \/
  exists j x, presented (ls_secret s) t e = Some (j, x) /\ ls_usedJTI (snd (handle s t e)) = ls_usedJTI (snd (markJTIUsed s j x t)).
Proof.
  destruct e; cbn [handle]; try (left; done);
    [left; apply login_frame|left; apply token_login_frame|left; apply authorize_frame|].
  pose proof (token_presented s ∅ r body rnd t) as H. destruct (handleToken s ∅ r body rnd t) as [a s'].
  destruct (presented _ _ _) as [[j x]|]; cbn [snd]; [|by left; destruct H as [-> _]].
  destruct H as [[-> _]|[-> _]]; [by left|right; eauto].
Qed.

Lemma after_secret s es : ls_secret (after s es) = ls_secret s.
Proof. revert s. induction es as [|[t e] es IH]; intros s; cbn; [done|]. by rewrite IH, handle_frame. Qed.

(** All that was presented in a run, and what of it is live. *)
Definition all_presented (secret : string) (es : list (Z * request_event)) : list (string * Z) :=
  omap (fun te => presented secret (fst te) (snd te)) es.
Definition live (t : Z) (l : list (string * Z)) : list (string * Z) := filter (fun jx => t <= snd jx) l.

Lemma size_within (m : gmap string Z) l : (forall j x, m !! j = Some x -> (j, x) ∈ l) -> (size m <= length l)%nat.
Proof.
  intros H. rewrite <- length_map_to_list. apply submseteq_length, NoDup_submseteq; [apply NoDup_map_to_list|].
  intros [j x] Hj%elem_of_map_to_list. by apply H.
Qed.

Lemma ids_presented s es j x :
  ls_usedJTI s = ∅ -> ls_usedJTI (after s es) !! j = Some x -> (j, x) ∈ all_presented (ls_secret s) es.
Proof.
  intros Hs. induction es as [|[t e] es IH] using rev_ind; cbn [after]; [by rewrite Hs, lookup_empty|].
  rewrite after_app. cbn [after]. unfold all_presented. rewrite omap_app, elem_of_app. fold (all_presented (ls_secret s) es).
  destruct (handle_ids (after s es) t e) as [-> | (j' & x' & Hp & ->)]; [intros Hl; left; by apply IH|].
  intros [[-> ->]|Hl]%mark_lookup; [right|left; by apply IH]. rewrite after_secret in Hp. cbn. rewrite Hp. by left.
Qed.

(** Fewer than [maxUsedJTI] live ids at every moment of the run. *)
Definition few_live (secret : string) (es : list (Z * request_event)) : Prop :=
  forall a t e b, (es = a ++ (t, e) :: b)%list -> (length (live t (all_presented secret a)) < maxUsedJTI)%nat.

Lemma live_bound s a t :
  ls_usedJTI s = ∅ -> (size (sweep_used t (ls_usedJTI (after s a))) <= length (live t (all_presented (ls_secret s) a)))%nat.
Proof.
  intros Hs. apply size_within. intros j x [Hl Ht]%lookup_sweep. unfold live. apply list_elem_of_filter. split; [done|].
  by apply ids_presented.
Qed.

Lemma id_stays s a es b j x :
  ls_usedJTI s = ∅ -> few_live (ls_secret s) (a ++ es ++ b) -> Forall (fun te => fst te < x) es ->
  ls_usedJTI (after s a) !! j = Some x -> ls_usedJTI (after s (a ++ es)) !! j = Some x.
Proof.
  intros Hs Hfew Ht Hj. revert b Hfew. induction es as [|[t e] es IH] using rev_ind; intros b Hfew; [by rewrite app_nil_r|].
  apply Forall_app in Ht as [Ht Hx]. apply Forall_cons in Hx as [Hx _]. cbn in Hx.
  assert (ls_usedJTI (after s (a ++ es)) !! j = Some x) as Hl. { apply (IH Ht ([(t, e)] ++ b)%list). by rewrite <- app_assoc in Hfew. }
  rewrite app_assoc, after_app. cbn [after]. destruct (handle_ids (after s (a ++ es)) t e) as [-> | (j' & x' & _ & ->)]; [done|].
  apply mark_keeps; [done|done|]. eapply Nat.le_lt_trans; [by apply live_bound|].
  apply (Hfew (a ++ es)%list t e b). by rewrite <- !app_assoc.
Qed.

(** C12. Codes and refresh tokens are single-use. In any run of the portal that
    starts with no id consumed, whatever else is requested in between, and as long as
    fewer than 8192 presented ids are live at a time: when a token request was
    answered with tokens, no later request that presents the same code or refresh
    token, at a time before its expiry, is. *)
Theorem single_use s a r1 b1 rnd1 t1 mid r2 b2 rnd2 t2 j x :
  ls_usedJTI s = ∅ ->
  few_live (ls_secret s) (a ++ [(t1, EvToken r1 b1 rnd1)] ++ mid ++ [(t2, EvToken r2 b2 rnd2)]) ->
  Forall (fun te => fst te < x) mid -> t2 < x ->
  presented (ls_secret s) t1 (EvToken r1 b1 rnd1) = Some (j, x) ->
  presented (ls_secret s) t2 (EvToken r2 b2 rnd2) = Some (j, x) ->
  a_Status (fst (handle (after s a) t1 (EvToken r1 b1 rnd1))) = 200 ->
  a_Status (fst (handle (after s (a ++ [(t1, EvToken r1 b1 rnd1)] ++ mid)) t2 (EvToken r2 b2 rnd2))) <> 200.
Proof.
  intros Hs Hfew Hmid Hx Hp1 Hp2 H1 H2.
  assert (ls_usedJTI (after s (a ++ [(t1, EvToken r1 b1 rnd1)])) !! j = Some x) as Hj.
  { rewrite after_app. cbn [after handle] in *. pose proof (token_presented (after s a) ∅ r1 b1 rnd1 t1) as Hh.
    destruct (handleToken (after s a) ∅ r1 b1 rnd1 t1) as [ans s']. rewrite after_secret, Hp1 in Hh. cbn [fst snd] in *.
    destruct Hh as [[_ ?]|[-> Hf]]; [done|]. by apply markJTIUsed_spec, Hf. }
  rewrite app_assoc in Hfew, H2. pose proof (id_stays s _ mid [(t2, EvToken r2 b2 rnd2)] j x Hs Hfew Hmid Hj) as Hl.
  clear H1. set (s2 := after s (_ ++ mid)) in *. cbn [handle] in H2. pose proof (token_presented s2 ∅ r2 b2 rnd2 t2) as Hh.
  destruct (handleToken s2 ∅ r2 b2 rnd2 t2) as [ans s']. unfold s2 in Hh. rewrite after_secret, Hp2 in Hh. cbn [fst] in *.
  destruct Hh as [[_ ?]|[_ Hf]]; [done|]. apply (proj1 (markJTIUsed_spec _ j x t2)) in Hf as [_ Hn]; [|done].
  apply Hn. by exists x.
Qed.
(** A token request that presents an authorization code. *)
Definition asks_exchange (r : request) (body : form_body) (form : values) : Prop :=
  req_Method r = "POST" /\ HasPrefix (Get (req_Header r) "Content-Type") "application/x-www-form-urlencoded" = true /\
  ParseForm r body = (form, true) /\ form_get form "grant_type" = "authorization_code".

(** The answer carries an access token and a refresh token with the code's
    user, client, audience and scope, each signed by the portal and good from
    now for its time. *)
Definition issued_for (s : loginServer) (c : CodeClaims) (rnd : string) (now : Z) (a : answer) : Prop :=
  exists w, Get w "Cache-Control" = "no-store" /\
    a = json_answer w 200 (enc_object
      [("access_token", inl (SignAccess
          {| ac_Username := co_Username c; ac_ClientID := co_ClientID c; ac_Audience := co_Audience c; ac_Scope := co_Scope c;
             ac_Exp := (now + ls_accessTTL s) / Second |} (ls_secret s)));
       ("expires_in", inr (Z.quot (ls_accessTTL s) Second));
       ("refresh_token", inl (SignRefresh
          {| rf_Username := co_Username c; rf_ClientID := co_ClientID c; rf_Audience := co_Audience c; rf_Scope := co_Scope c;
             rf_JTI := hex rnd; rf_Exp := (now + ls_refreshTTL s) / Second |} (ls_secret s)));
       ("scope", inl (co_Scope c)); ("token_type", inl "Bearer")]).

#[local] Opaque SignAccess SignRefresh enc_object json_answer.
Lemma issued_code s c w rnd now : Get w "Cache-Control" = "no-store" ->
  issued_for s c rnd now (issueTokens s w (co_Username c) (co_ClientID c) (co_Audience c) (co_Scope c) rnd now).
Proof. intros Hw. exists w. split; [exact Hw|]. unfold issueTokens, token_json, access_of, refresh_of, newJTI, unix. do 3 f_equal. Qed.
#[local] Transparent SignAccess SignRefresh enc_object json_answer.

(** A consumed id gets no tokens. *)
Lemma consumed_refused s r body rnd t j x til :
  presented (ls_secret s) t (EvToken r body rnd) = Some (j, x) -> ls_usedJTI s !! j = Some til -> t < til ->
  a_Status (fst (handle s t (EvToken r body rnd))) <> 200.
Proof.
  intros Hp Hj Ht. cbn [handle]. pose proof (token_presented s ∅ r body rnd t) as Hh.
  destruct (handleToken s ∅ r body rnd t) as [a s']. rewrite Hp in Hh. cbn [fst].
  destruct Hh as [[_ ?]|[_ Hf]]; [done|]. intros H200. apply (proj1 (markJTIUsed_spec s j x t)) in Hf as [_ Hn]; [|done].
  apply Hn. by exists til.
Qed.

Lemma handle_exchange s now r body rnd form :
  asks_exchange r body form ->
  exists w, Get w "Cache-Control" = "no-store" /\ handle s now (EvToken r body rnd) = tokenAuthCode s w form rnd now.
Proof.
  intros (Hm & Hct & Hf & Hg). eexists. split; [|cbn [handle]; unfold handleToken, corsOAuth].
  2:{ rewrite Hm. rewrite decide_False by done. cbv zeta. rewrite Hf, Hct. rewrite decide_False by naive_solver.
      cbn [negb]. rewrite decide_True by done. reflexivity. }
  reflexivity.
Qed.

(** C11. A code is exchanged for tokens exactly when it verifies, was not consumed
    before, and the request repeats the client id, a redirect URI that matches
    and the secret behind the challenge. The two tokens are signed by the portal,
    carry the user, client, audience and scope of the code, and last from now for
    the configured times. An attempt that gets as far as the code spends it, even
    when it fails one of the later checks: whatever is requested afterwards, no
    request that presents the code before its expiry is answered with tokens, as
    long as fewer than 8192 presented ids are live at a time. The portal is in
    any state a run that started with no id consumed can reach. *)
Theorem code_exchange s0 es r body form rnd now :
  ls_usedJTI s0 = ∅ -> asks_exchange r body form ->
  let s := after s0 es in
  let '(a, s') := handle s now (EvToken r body rnd) in
  match VerifyCode (form_get form "code") (ls_secret s0) (unix now) with
  | None => a_Status a = 400 /\ s' = s
  | Some c =>
      (a_Status a = 200 <->
       co_JTI c <> "" /\ ~ consumed s (co_JTI c) now /\ form_get form "client_id" = co_ClientID c /\
       redirectURIMatches [co_RedirectURI c] (form_get form "redirect_uri") = true /\
       challenge_of (form_get form "code_verifier") = co_CodeChallenge c) /\
      (a_Status a = 200 -> issued_for s c rnd now a) /\
      (co_JTI c <> "" -> ~ consumed s (co_JTI c) now ->
       forall mid t2 r2 b2 rnd2 x2,
         few_live (ls_secret s0) (es ++ [(now, EvToken r body rnd)] ++ mid ++ [(t2, EvToken r2 b2 rnd2)]) ->
         Forall (fun te => fst te < co_Exp c * Second) mid -> t2 < co_Exp c * Second ->
         presented (ls_secret s0) t2 (EvToken r2 b2 rnd2) = Some (co_JTI c, x2) ->
         a_Status (fst (handle (after s' mid) t2 (EvToken r2 b2 rnd2))) <> 200)
  end.
Proof.
  intros Hs Hasks s. destruct (handle_exchange s now r body rnd form Hasks) as (w & Hw & Hh). pose proof (exchange_attempt s w form rnd now) as Hx.
  assert (snd (handle s now (EvToken r body rnd)) = after s0 (es ++ [(now, EvToken r body rnd)])) as Hs' by by rewrite after_app.
  rewrite Hh in *. destruct (tokenAuthCode s w form rnd now) as [a s']. cbn [snd] in Hs'. unfold s in Hx at 1. rewrite after_secret in Hx.
  destruct (VerifyCode _ _ _) as [c|]; [|done]. destruct Hx as (Hiff & Hans & Hburn). split_and!; [done| |].
  - intros H200. rewrite (Hans H200). by apply issued_code.
  - intros Hj Hc mid t2 r2 b2 rnd2 x2 Hfew Hmid Ht2 Hp. specialize (Hburn Hj Hc). rewrite Hs' in Hburn |- *. rewrite <- after_app.
    apply (consumed_refused _ r2 b2 rnd2 t2 (co_JTI c) x2 (co_Exp c * Second)); [by rewrite after_secret| |done].
    apply (id_stays s0 _ mid [(t2, EvToken r2 b2 rnd2)]); [done|by rewrite <- app_assoc|done..].
Qed.

End run.

(** In the last second of its life a token can be used again: it verifies until
    the end of that second, but its id is forgotten at the start of it. *)
Lemma last_second_reuse s jti exp now :
  jti <> "" -> ls_usedJTI s !! jti = Some (exp * Second) -> exp * Second <= now ->
  fst (markJTIUsed s jti (exp * Second) now) = true /\ (now < (exp + 1) * Second -> expired exp (unix now) = false).
Proof.
  intros Hj Hu Hn. split.
  - apply markJTIUsed_spec. split; [done|]. intros (til & Ht & Hlt). rewrite Hu in Ht. injection Ht as <-. lia.
  - intros Hlt. unfold expired, unix. apply bool_decide_eq_false. intros Hgt.
    assert (now / Second < exp + 1); [|lia]. apply Z.div_lt_upper_bound; [done|]. lia.
Qed.

(** ** Consent *)

(** The validated parameters are those of the form, its client registered the
    URI, and the resource is the audience. *)
Definition valid_request (fetch : string -> option (Z * string)) (s : loginServer) (v : values) (now : Z) (p : authzParams) : Prop :=
  ap_clientID p = form_get v "client_id" /\ ap_redirectURI p = form_get v "redirect_uri" /\ ap_state p = form_get v "state" /\
  ap_scope p = form_get v "scope" /\ ap_codeChallenge p = form_get v "code_challenge" /\ ap_codeChallenge p <> "" /\
  form_get v "code_challenge_method" = "S256" /\ form_get v "response_type" = "code" /\
  fst (validateResource fetch s (form_get v "resource") now) = Some (ap_audience p).

(** The client verifies, and registered the URI. *)
Definition registered_uri (s : loginServer) (v : values) : Prop :=
  exists reg, VerifyClient (form_get v "client_id") (ls_secret s) = Some reg /\
    redirectURIMatches (cl_RedirectURIs reg) (form_get v "redirect_uri") = true.

Section consent.
Context (fetch : string -> option (Z * string)).

Lemma validateAuthz_spec s v now :
  match fst (validateAuthzParams fetch s v now) with
  | Hard _ => True
  | Back p _ => registered_uri s v /\ ap_redirectURI p = form_get v "redirect_uri" /\ ap_state p = form_get v "state"
  | Valid p => registered_uri s v /\ valid_request fetch s v now p
  end.
Proof.
  unfold validateAuthzParams, registered_uri. destruct (VerifyClient _ _) as [reg|]; [|done].
  destruct (redirectURIMatches _ _) eqn:Hm; cbn [negb]; [|done].
  case_decide as Hr; [naive_solver|]. case_decide as Hc; [naive_solver|].
  pose proof (eq_refl (fst (validateResource fetch s (form_get v "resource") now))) as Ha. revert Ha.
  generalize (fst (validateResource fetch s (form_get v "resource") now)) at 1. intros res Ha.
  destruct (validateResource fetch s (form_get v "resource") now) as [[aud|] s'] eqn:Hv; cbn [fst] in *; [|naive_solver].
  split; [eauto|]. unfold valid_request. rewrite Hv. cbn.
  destruct (decide (form_get v "response_type" = "code")); [|tauto].
  destruct (decide (form_get v "code_challenge" = "")); [tauto|].
  destruct (decide (form_get v "code_challenge_method" = "S256")); [|tauto]. done.
Qed.

(** The resource a request names, and the audience that stands for it: all
    hosts when it names none, else the host and cleaned path of an https URL
    whose host lies under a domain of the portal and is routed. *)
Definition names_resource (s : loginServer) (raw : string) (now : Z) (aud : string) : Prop :=
  (raw = "" /\ aud = "*") \/
  (raw <> "" /\ exists u, url_Parse raw = Some u /\ u_Scheme u = "https" /\ u_Host u <> "" /\
     matchDomain s (ToLower (Hostname u)) <> "" /\
     routed (fst (routedHosts fetch s now)) (ToLower (Hostname u)) = true /\
     aud = ToLower (Hostname u) +:+ normalizeResourcePath (u_Path u)).

(** The browser is redirected to the URL [uri] with one parameter and the state
    set in its query, and nothing else of the URL changed. *)
Definition sent_to (a : answer) (uri key value state : string) : Prop :=
  exists u u' q, url_Parse uri = Some u /\ a_Status a = 302 /\
    Values (a_Header a) "Location" = [escape_non_ascii (redirect_target (URL_String u'))] /\
    (u_Scheme u <> "" -> redirect_target (URL_String u') = URL_String u') /\
    (u_Scheme u', u_Opaque u', u_User u', u_Host u', u_Path u', u_RawPath u', u_Fragment u')
      = (u_Scheme u, u_Opaque u, u_User u, u_Host u, u_Path u, u_RawPath u, u_Fragment u) /\
    u_RawQuery u' = Encode q /\ q !! key = Some [value] /\ (state <> "" -> q !! "state" = Some [state]) /\
    forall k, k <> key -> (k <> "state" \/ state = "") -> q !! k = query_of (u_RawQuery u) !! k.

(** What makes the endpoint issue a code: the user agreed on the consent page,
    its form posted from this site with the CSRF pair and the approval by a
    signed-in browser; and the form names a registered client and URI, asks for
    a code and has an S256 challenge. *)
Definition consented (s : loginServer) (r : request) (body : form_body) (now : Z) (form : values) : Prop :=
  req_Method r = "POST" /\ sameOriginOK r = true /\ ParseForm r body = (form, true) /\ csrfOK r form = true /\
  ssoUser s r now <> "" /\ form_get form "decision" = "approve" /\ registered_uri s form /\
  form_get form "response_type" = "code" /\ form_get form "code_challenge" <> "" /\
  form_get form "code_challenge_method" = "S256".

(** The code for a consented form: signed by the portal, good for a minute. *)
Definition code_for (s : loginServer) (r : request) (form : values) (aud rnd : string) (now : Z) : string :=
  SignCode {| co_Username := ssoUser s r now; co_ClientID := form_get form "client_id"; co_Audience := aud;
              co_Scope := form_get form "scope"; co_RedirectURI := form_get form "redirect_uri";
              co_CodeChallenge := form_get form "code_challenge"; co_JTI := hex rnd;
              co_Exp := (now + 60 * Second) / Second |} (ls_secret s).

(** The parameters a request carries. *)
Definition params_of (r : request) (body : form_body) : values :=
  if decide (req_Method r = "GET") then query_of (req_RawQuery r) else fst (ParseForm r body).

(** What the authorize endpoint may do with a browser. *)
Inductive outcome (s : loginServer) (r : request) (body : form_body) (rnd : string) (now : Z) (a : answer) : Prop :=
| Stays : Values (a_Header a) "Location" = [] -> outcome s r body rnd now a
| Signs_in : (exists q, Values (a_Header a) "Location" = ["/login?" +:+ q]) -> outcome s r body rnd now a
| Told_error v e :
    v = params_of r body -> registered_uri s v ->
    e ∈ ["unsupported_response_type"; "invalid_request"; "invalid_target"; "access_denied"] ->
    sent_to a (form_get v "redirect_uri") "error" e (form_get v "state") -> outcome s r body rnd now a
| Given_code form aud :
    consented s r body now form -> names_resource s (form_get form "resource") now aud ->
    sent_to a (form_get form "redirect_uri") "code" (code_for s r form aud rnd now) (form_get form "state") ->
    outcome s r body rnd now a.

Lemma validateResource_names s raw now aud :
  fst (validateResource fetch s raw now) = Some aud <-> names_resource s raw now aud.
Proof.
  unfold validateResource, names_resource. case_decide as Hr; cbn [fst]; [split; [intros [= <-]; by left|]; intros [[_ ->]|[? _]]; done|].
  destruct (url_Parse raw) as [u|]; cbn [fst]; [|split; [done|]; intros [[? _]|[_ (? & ? & _)]]; done].
  case_decide as Hu; cbn [fst]; [split; [done|]; intros [[? _]|[_ (? & [= <-] & ? & ? & _)]]; [done|tauto]|].
  destruct (decide (u_Scheme u = "https")) as [Hs|]; [|tauto]. destruct (decide (u_Host u = "")) as [|Hh]; [tauto|].
  case_decide as Hd; cbn [fst]; [split; [done|]; intros [[? _]|[_ (? & [= <-] & _ & _ & ? & _)]]; done|].
  destruct (routedHosts fetch s now) as [hosts s']. cbn [fst]. destruct (routed hosts _) eqn:Hro.
  - split; [intros [= <-]; right; eauto 10|]. intros [[? _]|[_ (? & [= <-] & _ & _ & _ & _ & ->)]]; done.
  - split; [done|]. intros [[? _]|[_ (? & [= <-] & _ & _ & _ & Ht & _)]]; [done|]. by rewrite Hro in Ht.
Qed.

(** What [redirectBack] does for a URI that parses. *)
Lemma redirectBack_sent w r uri key value state :
  key <> "state" -> is_Some (url_Parse uri) -> sent_to (redirectBack w r uri (key, value) state) uri key value state.
Proof.
  intros Hk [u Hu]. unfold redirectBack. rewrite Hu. cbn [fst snd].
  set (q := if decide (state <> "") then _ else _).
  exists u, (set_query (Encode q) u), q. split; [done|]. split.
  { unfold Redirect, http_Redirect. by case_decide. }
  split; [apply Redirect_Values|]. split.
  { intros Hs. unfold redirect_target. pose proof (printed_absolute _ u (set_query (Encode q) u) Hu Hs eq_refl) as Hp.
    destruct (url_Parse (URL_String _)) as [t|]; [|done]. rewrite decide_False; [done|]. by intros [? _]. }
  split; [done|]. split; [done|]. unfold q, form_set. split_and!.
  - case_decide; [by rewrite lookup_insert_ne, lookup_insert_eq|by rewrite lookup_insert_eq].
  - intros ?. rewrite decide_True by done. by rewrite lookup_insert_eq.
  - intros k Hne Hst. case_decide as Hd; rewrite ?lookup_insert_ne by naive_solver; done.
Qed.

Lemma registered_parses s v : registered_uri s v -> is_Some (url_Parse (form_get v "redirect_uri")).
Proof. intros (reg & _ & Hm). unfold redirectURIMatches in Hm. by destruct (url_Parse _). Qed.

(** A refusal of a request whose client and URI are registered is one of these. *)
Lemma validateAuthz_error s v now p e :
  fst (validateAuthzParams fetch s v now) = Back p e ->
  e ∈ ["unsupported_response_type"; "invalid_request"; "invalid_target"; "access_denied"].
Proof.
  unfold validateAuthzParams. destruct (VerifyClient _ _); [|done]. destruct (negb _); [done|].
  repeat case_decide; try (intros [= _ <-]; set_solver). destruct (validateResource _ _ _ _) as [[?|] ?]; [done|].
  intros [= _ <-]; set_solver.
Qed.

Lemma validateAuthz_valid s v now aud :
  registered_uri s v -> form_get v "response_type" = "code" -> form_get v "code_challenge" <> "" ->
  form_get v "code_challenge_method" = "S256" -> names_resource s (form_get v "resource") now aud ->
  exists p, fst (validateAuthzParams fetch s v now) = Valid p /\ ap_audience p = aud.
Proof.
  intros (reg & Hreg & Hm) Hr Hc Hch Ha%validateResource_names. unfold validateAuthzParams. rewrite Hreg, Hm. cbn [negb].
  rewrite decide_False by tauto. rewrite decide_False by tauto. destruct (validateResource _ _ _ _) as [res s']. cbn [fst] in Ha. subst res.
  by eexists.
Qed.

Lemma oauth_error_stays w reason : Values w "Location" = [] -> Values (a_Header (renderOAuthError w reason)) "Location" = [].
Proof. intros Hw. unfold renderOAuthError, page. cbn [a_Header]. by autorewrite with headers. Qed.

(** The code issued is the one for the form. *)
Lemma consent_code_for s s' r v p rnd now :
  ls_secret s' = ls_secret s -> valid_request fetch s v now p ->
  consent_code s' p (ssoUser s r now) rnd now = code_for s r v (ap_audience p) rnd now.
Proof.
  intros Hs (Hc & Hu & _ & Hsc & Hch & _). unfold consent_code, code_for. rewrite Hs, Hc, Hu, Hsc, Hch. reflexivity.
Qed.

Lemma authorizeGET_outcome s w r body uri rnd now :
  Values w "Location" = [] -> req_Method r = "GET" ->
  outcome s r body rnd now (fst (authorizeGET fetch s w r uri rnd now)).
Proof.
  intros Hw Hg. unfold authorizeGET. assert (query_of (req_RawQuery r) = params_of r body) as -> by (unfold params_of; by rewrite decide_True).
  pose proof (validateAuthz_spec s (params_of r body) now) as Hv. pose proof (validateAuthz_error s (params_of r body) now) as He.
  destruct (validateAuthzParams fetch s (params_of r body) now) as [[e|p e|p] s']; cbn [fst] in *.
  - by apply Stays, oauth_error_stays.
  - destruct Hv as (Hreg & -> & ->). eapply Told_error; [done..|by eapply He|].
    apply redirectBack_sent; [done|by eapply registered_parses].
  - case_decide; cbn [fst].
    + apply Signs_in. rewrite (proj1 (Redirect_Values _ _ _)).
      change ("/login?redirect=" +:+ ?x)%string with ("/login?" +:+ ("redirect=" +:+ x))%string.
      rewrite redirect_login, escape_non_ascii_app. by eexists.
    + apply Stays. unfold renderConsent, page, SetCookie. cbn [a_Header]. by autorewrite with headers.
Qed.

Lemma authorizePOST_outcome s w r body rnd now :
  Values w "Location" = [] -> req_Method r = "POST" ->
  outcome s r body rnd now (fst (authorizePOST fetch s w r body rnd now)).
Proof.
  intros Hw Hp. assert (forall msg st, outcome s r body rnd now (refuse w msg st)) as Href.
  { intros msg st. apply Stays. by rewrite refuse_Values, Hw by by right. }
  unfold authorizePOST. destruct (sameOriginOK r) eqn:Ho; cbn [negb]; [|apply Href].
  assert (params_of r body = fst (ParseForm r body)) as Hpar by (unfold params_of; by rewrite decide_False by (by rewrite Hp)).
  destruct (ParseForm r body) as [form ok] eqn:Hform. cbn [fst] in Hpar. destruct ok; cbn [negb]; [|apply Href].
  destruct (csrfOK r form) eqn:Hc; cbn [negb]; [|apply Href]. case_decide as Hu; [apply Href|].
  pose proof (validateAuthz_spec s form now) as Hv. pose proof (validateAuthz_frame fetch s form now) as [Hsec _].
  pose proof (validateAuthz_error s form now) as He.
  destruct (validateAuthzParams fetch s form now) as [[e|p e|p] s']; cbn [fst snd] in *.
  - by apply Stays, oauth_error_stays.
  - destruct Hv as (Hreg & -> & ->). eapply Told_error; [done..|by eapply He|].
    apply redirectBack_sent; [done|by eapply registered_parses].
  - destruct Hv as [Hreg Hval]. pose proof Hval as (_ & Huri & Hst & _ & Hcc & Hne & Hm & Hrt & Haud).
    rewrite Huri, Hst. case_decide as Hd; cbn [fst].
    + eapply (Told_error _ _ _ _ _ _ _ "access_denied"); [done..|set_solver|]. apply redirectBack_sent; [done|by eapply registered_parses].
    + apply (Given_code _ _ _ _ _ _ form (ap_audience p)); [|by apply validateResource_names|].
      * rewrite Hcc in Hne. split_and!; done.
      * rewrite (consent_code_for s s' r form) by done. apply redirectBack_sent; [done|by eapply registered_parses].
Qed.

(** A consented form gets its code. *)
Lemma consent_is_granted s w r uri body rnd now form aud :
  consented s r body now form -> names_resource s (form_get form "resource") now aud ->
  sent_to (fst (handleAuthorize fetch s w r uri body rnd now)) (form_get form "redirect_uri") "code"
    (code_for s r form aud rnd now) (form_get form "state").
Proof.
  intros (Hp & Ho & Hf & Hc & Hu & Hd & Hreg & Hrt & Hch & Hm) Ha. unfold handleAuthorize, authorizePOST.
  rewrite decide_False by (by rewrite Hp). rewrite decide_True by done. rewrite Ho, Hf, Hc. cbn [negb]. rewrite decide_False by done.
  destruct (validateAuthz_valid s form now aud Hreg Hrt Hch Hm Ha) as (p & Hv & <-).
  pose proof (validateAuthz_spec s form now) as Hspec. pose proof (validateAuthz_frame fetch s form now) as [Hsec _].
  destruct (validateAuthzParams fetch s form now) as [res s']. cbn [fst snd] in *. subst res. destruct Hspec as [_ Hval].
  pose proof Hval as (_ & Huri & Hst & _). rewrite Huri, Hst. rewrite decide_False by tauto. cbn [fst].
  rewrite (consent_code_for s s' r form) by done. apply redirectBack_sent; [done|by eapply registered_parses].
Qed.

(** C10. Codes need consent, and errors and codes go to registered URIs only.
    Whatever is asked of the authorize endpoint, the browser stays, or is sent to
    sign in on this host, or is sent to the redirect URI of the request with one
    parameter and the state set in its query; the latter only for a client id
    that verifies and registered that URI. It carries a code exactly when a
    signed-in user approved the posted form, with origin and CSRF pair, the form
    asks for a code with an S256 challenge, and the resource it names is routed
    under a domain of the portal. The code is signed, lasts a minute, and names
    that user, the client, URI, challenge and scope of the form, and the resource
    as its audience: all hosts only when the form names none. *)
Theorem code_needs_consent s w r uri body rnd now :
  Values w "Location" = [] ->
  let a := fst (handleAuthorize fetch s w r uri body rnd now) in
  outcome s r body rnd now a /\
  forall form aud, consented s r body now form -> names_resource s (form_get form "resource") now aud ->
    sent_to a (form_get form "redirect_uri") "code" (code_for s r form aud rnd now) (form_get form "state").
Proof.
  intros Hw. cbv zeta. split; [|intros form aud; apply consent_is_granted].
  unfold handleAuthorize. case_decide; [by apply authorizeGET_outcome|]. case_decide; [by apply authorizePOST_outcome|].
  apply Stays. cbn [fst]. unfold method_not_allowed. by rewrite refuse_Values, Hw by by right.
Qed.
End consent.

(** ** The proxy accepts what the portal issues *)

(** The audience of a validated resource. *)
Lemma validateResource_audience fetch s raw now aud :
  fst (validateResource fetch s raw now) = Some aud ->
  (raw = "" /\ aud = "*") \/
  (exists u, url_Parse raw = Some u /\ u_Scheme u = "https" /\ matchDomain s (ToLower (Hostname u)) <> "" /\
     aud = ToLower (Hostname u) +:+ normalizeResourcePath (u_Path u)).
Proof.
  unfold validateResource. case_decide as Hr; [intros [= <-]; by left|]. destruct (url_Parse raw) as [u|]; [|done].
  case_decide as Hu; [done|]. case_decide as Hd; [done|]. destruct (routedHosts fetch s now) as [hosts s']. cbn [fst].
  destruct (routed hosts _); [|done]. intros [= <-]. right. exists u. split_and!; try done.
  destruct (decide (u_Scheme u = "https")); [done|]. exfalso. apply Hu. by left.
Qed.

Lemma normalize_star p : normalizeResourcePath p = "" \/ HasPrefix (normalizeResourcePath p) "/" = true.
Proof. unfold normalizeResourcePath. case_decide; [by left|]. case_decide; [by left|]. right. unfold Clean_rooted. apply HasPrefix_app. Qed.

(** The audience is the wildcard only when no resource was asked for. *)
Lemma resource_no_star s host path :
  "*" ∉ ls_domains s -> matchDomain s host <> "" -> host +:+ normalizeResourcePath path <> "*".
Proof.
  unfold matchDomain. intros Hs Hd Heq. destruct (find_first _ _) as [d|] eqn:Hf; [|done]. cbn in Hd.
  apply find_first_elem in Hf as [Hin Hb].
  assert (host = "*") as ->.
  { destruct (normalize_star path) as [Hn|Hn]; [by rewrite Hn, append_nil_r in Heq|].
    apply HasPrefix_Cut in Hn as [q Hq]. rewrite Hq in Heq. destruct host as [|c host]; [done|]. injection Heq as -> Heq.
    by destruct host. }
  unfold belongs in Hb. apply orb_true_iff in Hb as [Hb|Hb]; [apply bool_decide_eq_true in Hb; by rewrite <- Hb in Hin|].
  unfold HasSuffix in Hb. apply HasPrefix_Cut in Hb as [q Hq]. rewrite rev_string_app in Hq.
  change (ToLower "*") with "*" in Hq. change (rev_string "*") with "*" in Hq. change (rev_string ".") with "." in Hq.
  by destruct (rev_string d) as [|c [|c' d']].
Qed.

(** C13. An access token opens its resource and nothing else. Take a token issued
    for a resource the authorize endpoint accepted. At a proxy with the same
    secret it is the bearer of its user, until it expires, exactly on the routes
    whose host and path prefix (up to letter case and a trailing slash) are the
    host and cleaned path of the resource URL. A token issued without a resource
    opens the host-wide routes and no route mounted on a path. (The claims are
    ASCII text, no domain of the portal is a star, and neither are the host and
    prefix of the route.) *)
Theorem token_opens_its_resource fetch s raw t aud user cid scope issued a host prefix now :
  "*" ∉ ls_domains s -> has_byte "*" (host +:+ prefix) = false ->
  fst (validateResource fetch s raw t) = Some aud -> access_ok (access_of s user cid aud scope issued) -> a_secret a = ls_secret s ->
  let accepted := verifyOAuthBearer a (SignAccess (access_of s user cid aud scope issued) (ls_secret s)) host prefix now in
  if decide (raw = "") then
    accepted = if decide (unix now <= unix (issued + ls_accessTTL s) /\ prefix = "") then Some user else None
  else exists u, url_Parse raw = Some u /\
    accepted = if decide (unix now <= unix (issued + ls_accessTTL s) /\
                          EqualFold (Hostname u +:+ normalizeResourcePath (u_Path u)) (host +:+ TrimSuffix prefix "/") = true)
               then Some user else None.
Proof.
  intros Hs Hstar Hres Hok Ha. cbv zeta. unfold verifyOAuthBearer. rewrite Ha, VerifyAccess_Sign by done. unfold expired. cbn [access_of ac_Exp].
  destruct (decide (unix now <= unix (issued + ls_accessTTL s))) as [Hle|Hle].
  2:{ rewrite bool_decide_true by lia. cbn [mbind option_bind]. apply validateResource_audience in Hres as [[-> ->]|(u & Hu & _)].
      - rewrite decide_True by done. rewrite decide_False by tauto. done.
      - case_decide as Hr; [subst raw; rewrite decide_False by tauto; done|]. exists u. split; [done|]. by rewrite decide_False by tauto. }
  rewrite bool_decide_false by lia. cbn [mbind option_bind access_of ac_Audience ac_Username].
  apply validateResource_audience in Hres as [[-> ->]|(u & Hu & Hsc & Hd & ->)].
  - rewrite decide_True by done. destruct (decide (prefix = "")) as [->|Hp].
    + rewrite decide_False by tauto. rewrite bool_decide_true by done. cbn [negb andb]. by rewrite decide_True.
    + rewrite decide_True, (decide_False (P := unix now <= _ /\ _)) by tauto.
      destruct (EqualFold "*" (oauthResource host prefix)) eqn:He; [|done]. exfalso. revert He. unfold EqualFold, oauthResource.
      rewrite bool_decide_eq_true, ToLower_app, ToLower_idem, <- ToLower_app. intros He.
      assert (has_byte "*" (ToLower (host +:+ TrimSuffix prefix "/")) = false) as Hf; [|by rewrite <- He in Hf].
      rewrite has_star_lower. rewrite has_byte_app in Hstar |- *. apply orb_false_iff in Hstar as [-> Hstar]. cbn [orb].
      destruct (TrimSuffix_spec prefix "/") as [->|Heq]; [done|]. rewrite Heq, has_byte_app in Hstar. by apply orb_false_iff in Hstar as [-> _].
  - assert (EqualFold (ToLower (Hostname u) +:+ normalizeResourcePath (u_Path u)) (oauthResource host prefix)
            = EqualFold (Hostname u +:+ normalizeResourcePath (u_Path u)) (host +:+ TrimSuffix prefix "/")) as Hfold.
    { unfold EqualFold, oauthResource. by rewrite !ToLower_app, !ToLower_idem. }
    rewrite decide_False by (intros ->; injection Hu as <-; done). exists u. split; [done|]. rewrite Hfold.
    rewrite bool_decide_false by (by apply (resource_no_star s)). cbn [negb andb].
    destruct (EqualFold (Hostname u +:+ _) _) eqn:He; [rewrite (decide_True (P := unix now <= _ /\ _)) by done|rewrite (decide_False (P := unix now <= _ /\ _)) by naive_solver];
      by case_decide.
Qed.

(** ** Registration *)

Definition reg_ok (c : ClientReg) : Prop :=
  cl_RedirectURIs c <> [] /\ Forall ascii_string (cl_RedirectURIs c) /\ ascii_string (cl_Name c) /\ int64 (cl_IssuedAt c).

Lemma decode_elems_strings l : decode_elems (JStr <$> l) [] = Some l.
Proof. induction l as [|x l IH]; [done|]. cbn [fmap list_fmap decode_elems mbind option_bind tail]. by rewrite IH. Qed.

Lemma get_strings_one names name l u us :
  field_values names name l = [JArr (JStr <$> (u :: us))] -> get_strings names name l = Some (u :: us).
Proof.
  unfold get_strings. intros ->. rewrite fmap_cons. cbn [decode_slice]. rewrite <- fmap_cons, decode_elems_strings.
  cbn [mbind option_bind decode_slice]. rewrite length_fmap. by rewrite firstn_all.
Qed.

Lemma decode_client_json c : reg_ok c -> decode_client (client_json c) = Some c.
Proof.
  destruct c as [uris name iat]. unfold reg_ok. cbn [cl_RedirectURIs cl_Name cl_IssuedAt]. intros (Hne & Hall & Hname & Hiat).
  destruct uris as [|u us]; [done|]. unfold decode_client, client_json, enc_values. cbn [cl_RedirectURIs cl_Name cl_IssuedAt].
  set (ms := [("ru", enc_strings (u :: us), JArr (JStr <$> (u :: us))); ("name", enc_string name, JStr name); ("iat", FormatInt iat, JNum (FormatInt iat))] : list member).
  assert (parse ("{" +:+ Join (member_text <$> ms) "," +:+ "}") = Some (JObj (member_json <$> ms))) as Hp.
  { apply (parse_members_object (S (S (length us)))).
    - repeat (apply Forall_cons; split); [split; [done|by apply prints_strings]|split; [done|by apply prints_string]| |apply Forall_nil_2].
      split; [done|]. by apply (prints_flat _ (inr iat)).
    - pose proof (Join_length (enc_string <$> u :: us)) as Hj. rewrite length_fmap in Hj. cbn [length] in Hj.
      unfold ms. cbn [fmap list_fmap Join]. unfold member_text, enc_strings. cbn [fst snd]. rewrite !length_append. cbn [String.length]. lia.
    - pose proof (Join_length (enc_string <$> u :: us)) as Hj. rewrite length_fmap in Hj. cbn [length] in Hj.
      unfold ms. cbn [fmap list_fmap Join length]. unfold member_text, enc_strings. cbn [fst snd]. rewrite !length_append. cbn [String.length]. lia. }
  assert (object_fields ("{" +:+ Join (member_text <$> ms) "," +:+ "}") = Some (member_json <$> ms)) as Ho by (unfold object_fields; by rewrite Hp).
  change ((fun kv => _) <$> [("ru", _); _; _]) with (member_text <$> ms). rewrite Ho. cbn [mbind option_bind].
  rewrite (get_strings_one client_names "ru" (member_json <$> ms) u us) by reflexivity.
  rewrite (get_string_one client_names "name" (member_json <$> ms) name) by reflexivity. cbn [mbind option_bind].
  by rewrite (get_int64_one client_names "iat" (member_json <$> ms) iat) by (done || reflexivity).
Qed.

Lemma VerifyClient_Sign c secret : reg_ok c -> VerifyClient (SignClient c secret) secret = Some c.
Proof. intros Hc. unfold VerifyClient, SignClient. rewrite verifyBlob_signBlob. by apply decode_client_json. Qed.

Lemma drop_last_length s : s <> "" -> String.length (drop_last s) = (String.length s - 1)%nat.
Proof.
  intros Hs. unfold drop_last. assert (forall n s, (n <= String.length s)%nat -> String.length (prefix_bytes n s) = n) as Hp.
  { clear. induction n as [|n IH]; intros [|c s] Hn; cbn in *; try lia. rewrite IH by lia. done. }
  apply Hp. lia.
Qed.

(** The name loop ends with a name that fits and is valid UTF-8. *)
Lemma cut_name_spec fuel name :
  (String.length name <= fuel)%nat -> len (cut_name fuel name) <= 128 /\ (cut_name fuel name = "" \/ ValidString (cut_name fuel name) = true).
Proof.
  assert (forall n, (bool_decide (128 < len n) || (bool_decide (0 < len n) && negb (ValidString n))) = false ->
    len n <= 128 /\ (n = "" \/ ValidString n = true)) as Hend.
  { intros n [H1 H2]%orb_false_iff. apply bool_decide_eq_false in H1. split; [lia|]. destruct n as [|c n]; [by left|right].
    rewrite bool_decide_true in H2 by (unfold len; cbn; lia). by apply negb_false_iff in H2. }
  revert name. induction fuel as [|fuel IH]; intros name Hf; cbn [cut_name]; destruct (_ || _) eqn:Hc.
  - destruct name; [done|cbn in Hf; lia].
  - by apply Hend.
  - apply IH. destruct name as [|c name]; [done|]. rewrite drop_last_length by done. cbn in *. lia.
  - by apply Hend.
Qed.
Lemma sanitized_name name : len (sanitizeClientName name) <= 128 /\ (sanitizeClientName name = "" \/ ValidString (sanitizeClientName name) = true).
Proof. by apply cut_name_spec. Qed.

Lemma first_bad_none uris : first_bad uris = "" <-> Forall (fun u => badRedirectURI u = "") uris.
Proof.
  unfold first_bad. destruct (find_first _ _) as [x|] eqn:Hf; cbn.
  - apply find_first_elem in Hf as [(u & -> & Hu)%list_elem_of_fmap Hx]. apply negb_true_iff, bool_decide_eq_false in Hx.
    split; [done|]. intros Hall. rewrite Forall_forall in Hall. by apply Hall.
  - split; [intros _|done]. apply find_first_None in Hf. rewrite Forall_fmap in Hf. eapply Forall_impl; [exact Hf|].
    intros u Hu. cbn in Hu. by apply negb_false_iff, bool_decide_eq_true in Hu.
Qed.

Lemma registers_iff s w r b now :
  a_Status (handleRegister s w r b now) = 201 <->
  req_Method r = "POST" /\ exists uris name, register_body b = Some (uris, name) /\ (1 <= length uris <= 10)%nat /\
    Forall (fun u => badRedirectURI u = "") uris.
Proof.
  unfold handleRegister, corsOAuth. case_decide as Ho; [split; [done|]; rewrite Ho; by intros [? _]|].
  case_decide as Hp; [split; [done|]; by intros [? _]|].
  destruct (register_body b) as [[uris name]|]; [|split; [done|]; by intros (_ & ? & ? & ? & _)].
  case_decide as Hl; [split; [done|]; intros (_ & ? & ? & [= <- <-] & ? & _); lia|].
  case_decide as Hb; [split; [done|]; intros (_ & ? & ? & [= <- <-] & _ & Hall); by apply first_bad_none in Hall|].
  split; [intros _|done]. split; [by destruct (decide (req_Method r = "POST"))|]. exists uris, name. split_and!; [done|lia|lia|].
  apply first_bad_none. by destruct (decide (first_bad uris = "")).
Qed.

Lemma acceptable_matches uris u : badRedirectURI u = "" -> u ∈ uris -> redirectURIMatches uris u = true.
Proof.
  intros Hb Hu. unfold redirectURIMatches, badRedirectURI in *. case_decide; [done|]. destruct (url_Parse u) as [pu|]; [|done].
  apply existsb_exists. exists u. split; [by apply list_elem_of_In|]. unfold redirect_match. by rewrite bool_decide_true.
Qed.

(** Registration is stateless and yet kept: a POST with one to ten acceptable
    redirect URIs (and no other request) is answered with a client id, and
    whenever that id comes back in an authorize request with one of those URIs,
    a code response type and an S256 challenge, the request is valid, for the
    registered name, that URI, and all protected hosts when it names no
    resource. *)
Theorem registered_client_authorizes fetch s w r b now uris name :
  req_Method r = "POST" -> register_body b = Some (uris, name) -> (1 <= length uris <= 10)%nat ->
  Forall (fun u => badRedirectURI u = "") uris ->
  Forall ascii_string uris -> ascii_string (sanitizeClientName name) -> int64 (unix now) ->
  a_Status (handleRegister s w r b now) = 201 /\
  exists id, (exists w' l, handleRegister s w r b now = json_answer w' 201 (enc_values (("client_id", enc_string id) :: l))) /\
    forall v u later, form_get v "client_id" = id -> form_get v "redirect_uri" = u -> u ∈ uris -> form_get v "response_type" = "code" ->
      form_get v "code_challenge" <> "" -> form_get v "code_challenge_method" = "S256" -> form_get v "resource" = "" ->
      fst (validateAuthzParams fetch s v later) =
        Valid (mkAuthz id (sanitizeClientName name) u (form_get v "state") (form_get v "scope") (form_get v "code_challenge") "*").
Proof.
  intros Hp Hb Hl Hall Hascii Hname Hnow. split; [apply registers_iff; eauto 10|].
  set (reg := mkReg uris (sanitizeClientName name) (unix now)). exists (SignClient reg (ls_secret s)). split.
  - unfold handleRegister, corsOAuth. rewrite decide_False by (by rewrite Hp). rewrite decide_False by (by intros ?). rewrite Hb.
    rewrite decide_False by lia. rewrite decide_False by (intros Hn; by apply Hn, first_bad_none). by eexists _, _.
  - intros v u later Hid <- Hu Hr Hc Hm Hres. unfold validateAuthzParams. rewrite Hid, VerifyClient_Sign.
    + cbn [reg cl_RedirectURIs cl_Name]. rewrite acceptable_matches; [|by rewrite Forall_forall in Hall; apply Hall|done]. cbn [negb].
      rewrite decide_False, decide_False by naive_solver. unfold validateResource. rewrite Hres, decide_True by done. done.
    + unfold reg_ok, reg. cbn [cl_RedirectURIs cl_Name cl_IssuedAt]. split_and!; [by destruct uris; cbn in Hl; [lia|]|done..].
Qed.

(** ** Rotation *)

(** A refresh token is exchanged exactly when it verifies, was not consumed,
    and the client id is its own. The new tokens are for the same user, client,
    audience and scope, so a refresh never widens a grant; and the old token is
    consumed by it. A request with another client id does not consume it. *)
Theorem refresh_rotates s w form rnd now :
  let '(a, s') := tokenRefresh s w form rnd now in
  match VerifyRefresh (form_get form "refresh_token") (ls_secret s) (unix now) with
  | None => a_Status a = 400 /\ s' = s
  | Some c =>
      (a_Status a = 200 <-> form_get form "client_id" = rf_ClientID c /\ rf_JTI c <> "" /\ ~ consumed s (rf_JTI c) now) /\
      (a_Status a = 200 ->
         a = issueTokens s' w (rf_Username c) (rf_ClientID c) (rf_Audience c) (rf_Scope c) rnd now /\
         (now < rf_Exp c * Second -> consumed s' (rf_JTI c) now)) /\
      (form_get form "client_id" <> rf_ClientID c -> s' = s)
  end.
Proof.
  unfold tokenRefresh. destruct (VerifyRefresh _ _ _) as [c|]; [|done].
  destruct (markJTIUsed_spec s (rf_JTI c) (rf_Exp c * Second) now) as (Hfresh & Hsame & Hmark).
  case_bool_decide as Hcid; cbn [negb]; [|by split; [split; [|intros [? _]]|]].
  destruct (markJTIUsed s (rf_JTI c) (rf_Exp c * Second) now) as [fresh s'] eqn:Hm. cbn [fst snd] in *.
  destruct fresh; cbn [negb].
  - rewrite issueTokens_status. destruct (proj1 Hfresh eq_refl). split_and!; try done. intros _. split; [done|].
    intros Hx. exists (rf_Exp c * Second). split; [by apply Hmark|done].
  - split_and!; try done. split; [done|]. intros (_ & Hj & Hc). discriminate (proj2 Hfresh (conj Hj Hc)).
Qed.

(** * Instances *)

Definition ex_uri : string := "https://client.example/cb".
Definition ex_client : string := SignClient (mkReg [ex_uri; "http://localhost:1/cb"] "App" 0) "k".
Definition ex_verifier : string := "dBjftJeZ4CVP-mB92K27uhbUJU1p1r_wW1gFWFOEjXk".
Definition ex_challenge : string := Eval vm_compute in challenge_of ex_verifier.
Definition ex_code : string := SignCode (mkCode "al" ex_client "mcp.example.org/a" "" ex_uri ex_challenge "j1" 60) "k".

Definition json_list (l : list string) : string := "[" +:+ Join (json_string <$> l) "," +:+ "]".
Definition ex_register_body : string :=
  "{" +:+ json_string "client_name" +:+ ":" +:+ json_string "App" +:+ "," +:+ json_string "redirect_uris" +:+ ":" +:+ json_list [ex_uri] +:+ "}".
Definition ex_post (path : string) : request :=
  mkRequest "POST" "auth.example.org" path "" {["Content-Type" := ["application/x-www-form-urlencoded"]]} "10.0.0.9:5000".

Example redirects_ex :
  badRedirectURI <$> [ex_uri; "http://127.0.0.1:8/x"; "http://evil.example/"; "https://x/#f"; "javascript:alert(1)"; "/cb"]
    = [""; ""; "http redirect_uri is only allowed for localhost/127.0.0.1"; "redirect_uri must not contain a fragment";
       "redirect_uri must be an absolute URL"; "redirect_uri must be an absolute URL"] /\
  redirectURIMatches ["http://localhost:1/cb"] "http://localhost:5151/cb" = true /\
  redirectURIMatches ["http://localhost:1/cb"] "http://localhost:5151/other" = false /\
  redirectURIMatches [ex_uri] "https://client.example:444/cb" = false /\
  normalizeResourcePath <$> [""; "/"; "/a/../b//c/"; "x"] = [""; ""; "/b/c"; "/x"].
Proof. by vm_compute. Qed.

Example challenge_ex : ex_challenge = "E9Melhoa2OwvFrEMTJguCHaoeK1t8URWbuGJSstw-cM".
Proof. reflexivity. Qed.

Definition ex_token_form (verifier : string) : form_body :=
  FormBody ("grant_type=authorization_code&code=" +:+ QueryEscape ex_code +:+ "&client_id=" +:+ ex_client +:+
            "&redirect_uri=" +:+ QueryEscape ex_uri +:+ "&code_verifier=" +:+ verifier).
Definition ex_exchange (verifier : string) : request_event := EvToken (ex_post "/oauth/token") (ex_token_form verifier) "rnd".
Definition no_post (url body : string) : option (Z * string) := None.
Definition no_fetch (url : string) : option (Z * string) := None.

(** The exchange works once; a wrong verifier spends the code. *)
Example exchange_ex :
  let st s e := a_Status (fst (handle no_post no_fetch s Second e)) in
  st ex_portal (ex_exchange ex_verifier) = 200 /\
  st (after no_post no_fetch ex_portal [(Second, ex_exchange ex_verifier)]) (ex_exchange ex_verifier) = 400 /\
  st (after no_post no_fetch ex_portal [(Second, ex_exchange "guess")]) (ex_exchange ex_verifier) = 400.
Proof. by vm_compute. Qed.

Lemma few_live_short secret es : (length es <= maxUsedJTI)%nat -> few_live secret es.
Proof.
  intros Hl a t e b ->. rewrite length_app in Hl. cbn [length] in Hl.
  assert (length (live t (all_presented secret a)) <= length a)%nat; [|lia].
  unfold live. etransitivity; [apply length_filter|]. unfold all_presented. clear. induction a as [|x a IH]; [done|].
  cbn. destruct (presented _ _ _); cbn; lia.
Qed.

Definition ex_form : values := fst (ParseForm (ex_post "/oauth/token") (ex_token_form ex_verifier)).
Lemma ex_asks : asks_exchange (ex_post "/oauth/token") (ex_token_form ex_verifier) ex_form.
Proof. split; [reflexivity|]. split; [vm_compute; reflexivity|]. split; [unfold ex_form; vm_compute; reflexivity|]. vm_compute. reflexivity. Qed.
Definition ex_claims : CodeClaims := mkCode "al" ex_client "mcp.example.org/a" "" ex_uri ex_challenge "j1" 60.
Lemma ex_verifies : VerifyCode (form_get ex_form "code") "k" (unix Second) = Some ex_claims.
Proof. vm_compute. reflexivity. Qed.
Lemma ex_exchanged : a_Status (fst (handle no_post no_fetch ex_portal Second (ex_exchange ex_verifier))) = 200.
Proof. vm_compute. reflexivity. Qed.

Lemma code_exchange_witness :
  let '(a, s') := handle no_post no_fetch ex_portal Second (ex_exchange ex_verifier) in
  a_Status a = 200 /\ issued_for ex_portal ex_claims "rnd" Second a /\
  a_Status (fst (handle no_post no_fetch (after no_post no_fetch s' [(2 * Second, EvLogout (ex_post "/logout"))])
    (3 * Second) (ex_exchange ex_verifier))) <> 200.
Proof.
  pose proof (code_exchange no_post no_fetch ex_portal [] (ex_post "/oauth/token") (ex_token_form ex_verifier) ex_form "rnd" Second eq_refl ex_asks) as H.
  cbv zeta in H. change (ls_secret ex_portal) with "k" in H. rewrite ex_verifies in H. pose proof ex_exchanged as H200.
  unfold ex_exchange in *. cbn [after] in H. destruct (handle no_post no_fetch ex_portal Second _) as [a s']. cbn [fst] in H200.
  destruct H as (_ & Hi & Hlater). split; [exact H200|]. split; [exact (Hi H200)|].
  refine (Hlater _ _ [(2 * Second, EvLogout (ex_post "/logout"))] (3 * Second) (ex_post "/oauth/token") (ex_token_form ex_verifier) "rnd" (60 * Second) _ _ _ _).
  - discriminate.
  - intros (til & Hn & _). vm_compute in Hn. discriminate.
  - apply few_live_short. apply Nat.leb_le. vm_compute. reflexivity.
  - apply Forall_singleton. vm_compute. reflexivity.
  - vm_compute. reflexivity.
  - vm_compute. reflexivity.
Defined.

Lemma single_use_witness :
  let second := EvToken (ex_post "/oauth/token") (ex_token_form "x") "rnd" in
  a_Status (fst (handle no_post no_fetch (after no_post no_fetch ex_portal ([] ++ [(0, ex_exchange ex_verifier)] ++ [(Second, EvLogout (ex_post "/logout"))]))
    (2 * Second) second)) <> 200.
Proof.
  apply (single_use no_post no_fetch ex_portal [] (ex_post "/oauth/token") (ex_token_form ex_verifier) "rnd" 0
           [(Second, EvLogout (ex_post "/logout"))] (ex_post "/oauth/token") (ex_token_form "x") "rnd" (2 * Second) "j1" (60 * Second)).
  - reflexivity.
  - apply few_live_short. apply Nat.leb_le. vm_compute. reflexivity.
  - repeat constructor.
  - reflexivity.
  - vm_compute. reflexivity.
  - vm_compute. reflexivity.
  - vm_compute. reflexivity.
Defined.

(** A signed-in browser posts the consent form. *)
Definition ex_consent_form : form_body :=
  FormBody ("csrf=c0ffee&decision=approve&response_type=code&code_challenge_method=S256&code_challenge=" +:+ ex_challenge +:+
            "&client_id=" +:+ ex_client +:+ "&redirect_uri=" +:+ QueryEscape ex_uri +:+ "&state=s1&resource=" +:+ QueryEscape "https://mcp.example.org/a/").
Definition ex_consent : request :=
  mkRequest "POST" "auth.example.org" "/oauth/authorize" ""
    {["Cookie" := ["pmgr_csrf=c0ffee; " +:+ sent_back (cookie_String (session_cookie ex_portal "al" "example.org" 0))]]} "10.0.0.9:5000".

Example consent_ex :
  location (fst (handleAuthorize no_fetch ex_portal ∅ ex_consent "" ex_consent_form "rnd" 0)) =
    ex_uri +:+ "?code=" +:+ QueryEscape (SignCode (mkCode "al" ex_client "mcp.example.org/a" "" ex_uri ex_challenge "726e64" 60) "k") +:+ "&state=s1".
Proof. by vm_compute. Qed.

Definition ex_consented_form : values := fst (ParseForm ex_consent ex_consent_form).
Lemma ex_consents : consented ex_portal ex_consent ex_consent_form 0 ex_consented_form.
Proof.
  split; [reflexivity|]. split; [vm_compute; reflexivity|]. split; [unfold ex_consented_form; vm_compute; reflexivity|].
  split; [vm_compute; reflexivity|]. split; [vm_compute; discriminate|]. split; [vm_compute; reflexivity|].
  split; [exists (mkReg [ex_uri; "http://localhost:1/cb"] "App" 0); split; vm_compute; reflexivity|].
  split; [vm_compute; reflexivity|]. split; [vm_compute; discriminate|vm_compute; reflexivity].
Qed.
Lemma ex_names : names_resource no_fetch ex_portal (form_get ex_consented_form "resource") 0 "mcp.example.org/a".
Proof. apply validateResource_names. vm_compute. reflexivity. Qed.

Lemma code_needs_consent_witness :
  sent_to (fst (handleAuthorize no_fetch ex_portal ∅ ex_consent "" ex_consent_form "rnd" 0)) (form_get ex_consented_form "redirect_uri") "code"
    (code_for ex_portal ex_consent ex_consented_form "mcp.example.org/a" "rnd" 0) (form_get ex_consented_form "state").
Proof.
  refine (proj2 (code_needs_consent no_fetch ex_portal ∅ ex_consent "" ex_consent_form "rnd" 0 _) ex_consented_form "mcp.example.org/a" ex_consents ex_names).
  reflexivity.
Defined.

Lemma token_opens_its_resource_witness :
  let a := newAuthGate "k" "" "example.org" "" "" in
  let accepted := verifyOAuthBearer a (SignAccess (access_of ex_portal "al" "c" "mcp.example.org/a" "" 0) "k") "MCP.example.org" "/a/" Hour in
  exists u, url_Parse "https://mcp.example.org/x/../a" = Some u /\
    accepted = if decide (unix Hour <= unix (0 + ls_accessTTL ex_portal) /\
                          EqualFold (Hostname u +:+ normalizeResourcePath (u_Path u)) ("MCP.example.org" +:+ TrimSuffix "/a/" "/") = true)
               then Some "al" else None.
Proof.
  intros a. apply (token_opens_its_resource no_fetch ex_portal "https://mcp.example.org/x/../a" 0 "mcp.example.org/a" "al" "c" "" 0 a "MCP.example.org" "/a/" Hour).
  - apply (bool_decide_unpack _). vm_compute. exact I.
  - reflexivity.
  - vm_compute. reflexivity.
  - repeat split; by vm_compute.
  - reflexivity.
Defined.

Lemma registered_client_authorizes_witness :
  a_Status (handleRegister ex_portal ∅ (ex_post "/oauth/register") ex_register_body 0) = 201 /\
  exists id, (exists w' l, handleRegister ex_portal ∅ (ex_post "/oauth/register") ex_register_body 0 = json_answer w' 201 (enc_values (("client_id", enc_string id) :: l))) /\
    forall v u later, form_get v "client_id" = id -> form_get v "redirect_uri" = u -> u ∈ [ex_uri] -> form_get v "response_type" = "code" ->
      form_get v "code_challenge" <> "" -> form_get v "code_challenge_method" = "S256" -> form_get v "resource" = "" ->
      fst (validateAuthzParams no_fetch ex_portal v later) =
        Valid (mkAuthz id (sanitizeClientName "App") u (form_get v "state") (form_get v "scope") (form_get v "code_challenge") "*").
Proof.
  apply (registered_client_authorizes no_fetch ex_portal ∅ (ex_post "/oauth/register") ex_register_body 0 [ex_uri] "App").
  - reflexivity.
  - vm_compute. reflexivity.
  - cbn. lia.
  - repeat constructor.
  - repeat constructor.
  - reflexivity.
  - split; by vm_compute.
Defined.
