(* ===== verification/Passkey.v ===== *)
(** * Passkeys: cmd/auth/passkey.go, passkey_store.go and internal/webauthn

    The credential store by domain and user, the pending ceremonies of each
    domain's manager, and the handlers of the portal. The WebAuthn library is the
    class [WebAuthn], what is relied on of it [WebAuthnLaws]; the file the store is
    saved to answers through an argument. *)
From S2P Require Import Prelude GoString Duration Http Sha256 Json Url Sso Net Balancer AuthGate Login OAuth.
Open Scope string_scope.

(** ** The library *)

Record CredentialFlags := mkFlags { UserPresent : bool; UserVerified : bool; BackupEligible : bool; BackupState : bool }.
Record credential := mkCredential {
  c_ID : string; c_PublicKey : string; c_AAGUID : string; c_SignCount : Z; c_Flags : CredentialFlags }.

(** [Adapter]: the user shown to the library. *)
Record Adapter := mkAdapter { ad_ID : string; ad_Name : string; ad_Creds : list credential }.

(** The calls of go-webauthn and its protocol package. The relying party is
    known by its id; an error is its text; options are their JSON. *)
Class WebAuthn := {
  session : Type;
  creation : Type;
  assertion : Type;
  transports : creation -> list string;
  rawID : assertion -> string;
  userHandle : assertion -> string;
  ParseCreation : string -> string + creation;
  ParseAssertion : string -> string + assertion;
  BeginRegistration : string -> Adapter -> string -> string + (string * session);
  CreateCredential : string -> Adapter -> session -> creation -> string + credential;
  BeginDiscoverableLogin : string -> string -> string + (string * session);
  ValidateDiscoverableLogin : string -> (string -> string -> option Adapter) -> session -> assertion -> option credential;
  (** The assertion answers the session's challenge for the relying party, signed
      by the credential's key. *)
  Asserted : string -> session -> assertion -> credential -> Prop;
}.

(** A login validates only against the user the handler returns for the ids of
    the assertion, with the one of that user's credentials the assertion names. *)
Class WebAuthnLaws `{WebAuthn} := {
  validate_law rp h s a c :
    ValidateDiscoverableLogin rp h s a = Some c ->
    exists u c0, h (rawID a) (userHandle a) = Some u /\ c0 ∈ ad_Creds u /\ c_ID c0 = rawID a /\ c_ID c = c_ID c0 /\ Asserted rp s a c0;
}.

(** ** internal/webauthn *)

Record StoredCredential := mkStored {
  sc_ID : string; sc_PublicKey : string; sc_AAGUID : string; sc_SignCount : Z; sc_Label : string; sc_Transports : list string;
  sc_CreatedAt : Z; sc_LastUsedAt : Z; sc_Flags : CredentialFlags }.

Definition ToCredential (c : StoredCredential) : credential :=
  mkCredential (sc_ID c) (sc_PublicKey c) (sc_AAGUID c) (sc_SignCount c) (sc_Flags c).
Definition Credentials (stored : list StoredCredential) : list credential := ToCredential <$> stored.

Fixpoint zeros (n : nat) : string := match n with O => "" | S n => String (chr 0) (zeros n) end.
(** 32 bytes: the prefix and the name in lower case, cut or padded. *)
Definition UserID (username : string) : string :=
  let h := take_bytes 32 ("webauthn-id:" +:+ ToLower username) in h +:+ zeros (32 - String.length h).

Definition ceremonyTTL : Z := 5 * Minute.

Section passkeys.
Context `{WebAuthn}.

Record PendingCeremony := mkPending { pc_Session : session; pc_Username : string; pc_Expires : Z }.

(** A [Manager]: the pending ceremonies by token. *)
Notation regs := (gmap string PendingCeremony).

(** [rnd] is what the random source returns: an error, or 18 bytes. *)
Definition PutCeremony (m : regs) (s : session) (username : string) (rnd : string + string) (now : Z) : (string + string) * regs :=
  match rnd with
  | inl err => (inl err, m)
  | inr b =>
      let tok := b64_encode b in
      let m := <[tok := mkPending s username (now + ceremonyTTL)]> m in
      (inr tok, filter (fun kc => ~ pc_Expires (snd kc) < now) m)
  end.

Definition PopCeremony (m : regs) (tok : string) (now : Z) : option PendingCeremony * regs :=
  match m !! tok with
  | None => (None, m)
  | Some c => (if time_after now (pc_Expires c) then None else Some c, delete tok m)
  end.

(** ** The store *)

(** Domain, then user name in lower case, then credentials. *)
Notation PasskeyStore := (gmap string (gmap string (list StoredCredential))).

Definition credIDKey (id : string) : string := hex id.

Definition creds_of (s : PasskeyStore) (domain user : string) : list StoredCredential :=
  default [] (m ← s !! domain; m !! user).
Definition set_creds (s : PasskeyStore) (domain user : string) (cs : list StoredCredential) : PasskeyStore :=
  <[domain := <[user := cs]> (default ∅ (s !! domain))]> s.

Definition stamp (c : StoredCredential) (now : Z) : StoredCredential :=
  mkStored (sc_ID c) (sc_PublicKey c) (sc_AAGUID c) (sc_SignCount c) (if decide (sc_Label c = "") then "Passkey" else sc_Label c)
    (sc_Transports c) (unix now) (sc_LastUsedAt c) (sc_Flags c).
Definition Add (s : PasskeyStore) (domain username : string) (c : StoredCredential) (now : Z) : PasskeyStore :=
  let u := ToLower username in set_creds s domain u (creds_of s domain u ++ [stamp c now]).

Record PublicCredential := mkPublic { pb_ID : string; pb_Label : string; pb_CreatedAt : Z; pb_LastUsedAt : Z }.
Definition public (c : StoredCredential) : PublicCredential :=
  mkPublic (credIDKey (sc_ID c)) (sc_Label c) (sc_CreatedAt c) (sc_LastUsedAt c).
Definition List_ (s : PasskeyStore) (domain username : string) : list PublicCredential := public <$> creds_of s domain (ToLower username).

(** The first credential with the key goes; [None] if there is none. *)
Fixpoint delete_first (idKey : string) (cs : list StoredCredential) : option (list StoredCredential) :=
  match cs with
  | [] => None
  | c :: cs => if decide (credIDKey (sc_ID c) = idKey) then Some cs else r ← delete_first idKey cs; Some (c :: r)
  end.
Definition Delete_ (s : PasskeyStore) (domain username idKey : string) : option PasskeyStore :=
  let u := ToLower username in cs ← delete_first idKey (creds_of s domain u); Some (set_creds s domain u cs).

Definition snapshotForDomain (s : PasskeyStore) (domain : string) : gmap string (list StoredCredential) := default ∅ (s !! domain).
Definition hasAnyForDomain (s : PasskeyStore) (domain : string) : bool :=
  existsb (fun uc => negb (bool_decide (snd uc = []))) (map_to_list (snapshotForDomain s domain)).

Definition used (c : StoredCredential) (signCount : Z) (f : CredentialFlags) (now : Z) : StoredCredential :=
  mkStored (sc_ID c) (sc_PublicKey c) (sc_AAGUID c) signCount (sc_Label c) (sc_Transports c) (sc_CreatedAt c) (unix now) f.
Fixpoint update_first (id : string) (signCount : Z) (f : CredentialFlags) (now : Z) (cs : list StoredCredential)
  : option (list StoredCredential) :=
  match cs with
  | [] => None
  | c :: cs => if decide (sc_ID c = id) then Some (used c signCount f now :: cs) else r ← update_first id signCount f now cs; Some (c :: r)
  end.
Definition UpdateSignCount (s : PasskeyStore) (domain username id : string) (signCount : Z) (f : CredentialFlags) (now : Z) : PasskeyStore :=
  let u := ToLower username in
  match update_first id signCount f now (creds_of s domain u) with Some cs => set_creds s domain u cs | None => s end.

(** ** The portal with passkeys *)

Record portal := mkPortal {
  pt_login : loginServer;
  pt_managers : gmap string regs;        (* by domain *)
  pt_store : PasskeyStore;
  pt_rl : gmap string IntLimit.bucket;
}.
Definition set_login (s : loginServer) (p : portal) : portal := mkPortal s (pt_managers p) (pt_store p) (pt_rl p).
Definition set_manager (d : string) (m : regs) (p : portal) : portal := mkPortal (pt_login p) (<[d := m]> (pt_managers p)) (pt_store p) (pt_rl p).
Definition set_store (s : PasskeyStore) (p : portal) : portal := mkPortal (pt_login p) (pt_managers p) s (pt_rl p).
Definition set_rl (rl : gmap string IntLimit.bucket) (p : portal) : portal := mkPortal (pt_login p) (pt_managers p) (pt_store p) rl.

Definition adapterFor (domain username : string) (s : PasskeyStore) : Adapter :=
  mkAdapter (UserID username) username (Credentials (default [] (snapshotForDomain s domain !! ToLower username))).

(** The request's own domain and its manager. *)
Definition managerFor (p : portal) (r : request) : option (string * regs) :=
  let domain := matchDomain (pt_login p) (hostOnly (req_Host r)) in
  if decide (domain = "") then None else m ← pt_managers p !! domain; Some (domain, m).

Definition not_found (w : header) : answer := refuse w "404 page not found" 404.
Definition cross_origin (w : header) : answer := refuse w "cross-origin request rejected" 403.
Definition not_signed_in (w : header) : answer := refuse w "not signed in" 401.
Definition query_get (r : request) (k : string) : string := form_get (query_of (req_RawQuery r)) k.

Definition available (p : portal) (w : header) (r : request) : answer :=
  match managerFor p r with
  | None => not_found w
  | Some (domain, _) => json_answer w 200 (enc_values [("available", if hasAnyForDomain (pt_store p) domain then "true" else "false")])
  end.

(** *** Registration *)

Definition begun (p : portal) (w : header) (domain : string) (m : regs) (res : string + (string * session)) (username : string)
    (rnd : string + string) (now : Z) : answer * portal :=
  match res with
  | inl err => (refuse w err 500, p)
  | inr (opts, sess) =>
      match PutCeremony m sess username rnd now with
      | (inl err, m) => (refuse w err 500, p)
      | (inr tok, m) => (json_answer w 200 (enc_values [("ceremony", enc_string tok); ("options", opts)]), set_manager domain m p)
      end
  end.

Definition registerBegin (p : portal) (w : header) (r : request) (challenge : string) (rnd : string + string) (now : Z) : answer * portal :=
  if negb (sameOriginOK r) then (cross_origin w, p) else
  match managerFor p r with
  | None => (not_found w, p)
  | Some (domain, m) =>
      let user := ssoUser (pt_login p) r now in
      if decide (user = "") then (not_signed_in w, p) else
      begun p w domain m (BeginRegistration domain (adapterFor domain user (pt_store p)) challenge) user rnd now
  end.

Definition expired_ceremony : string := "ceremony expired " +:+ utf8 8212 +:+ " restart".

(** [saved] is the error of writing the store's file, if any. *)
Definition registerFinish (p : portal) (w : header) (r : request) (body : string) (saved : option string) (now : Z) : answer * portal :=
  if negb (sameOriginOK r) then (cross_origin w, p) else
  match managerFor p r with
  | None => (not_found w, p)
  | Some (domain, m) =>
      let user := ssoUser (pt_login p) r now in
      if decide (user = "") then (not_signed_in w, p) else
      let '(ceremony, m) := PopCeremony m (query_get r "ceremony") now in
      let p := set_manager domain m p in
      match ceremony with
      | None => (refuse w expired_ceremony 400, p)
      | Some c =>
          if negb (EqualFold (pc_Username c) user) then (refuse w "ceremony username mismatch" 403, p) else
          match ParseCreation body with
          | inl err => (refuse w ("invalid credential response: " +:+ err) 400, p)
          | inr parsed =>
              match CreateCredential domain (adapterFor domain user (pt_store p)) (pc_Session c) parsed with
              | inl err => (refuse w ("credential creation failed: " +:+ err) 400, p)
              | inr cred =>
                  let stored := mkStored (c_ID cred) (c_PublicKey cred) (c_AAGUID cred) (c_SignCount cred) (query_get r "label")
                                  (transports parsed) 0 0 (c_Flags cred) in
                  let p := set_store (Add (pt_store p) domain user stored now) p in
                  match saved with
                  | Some err => (refuse w err 500, p)
                  | None => (json_answer w 200 (enc_values [("label", enc_string (sc_Label stored)); ("status", enc_string "registered")]), p)
                  end
              end
          end
      end
  end.

(** *** Login *)

Definition loginBegin (p : portal) (w : header) (r : request) (challenge : string) (rnd : string + string) (now : Z) : answer * portal :=
  if negb (sameOriginOK r) then (cross_origin w, p) else
  match managerFor p r with
  | None => (not_found w, p)
  | Some (domain, m) => begun p w domain m (BeginDiscoverableLogin domain challenge) "" rnd now
  end.

(** The handler given to the library: the first user in the map's order whose
    handle it is. *)
Definition find_user `{MapRange} (snapshot : gmap string (list StoredCredential)) (handle : string) : option (string * Adapter) :=
  '(username, creds) ← find_first (fun uc => bool_decide (UserID (fst uc) = handle)) (range_list snapshot);
  Some (username, mkAdapter (UserID username) username (Credentials creds)).

Section outside.
Context (post : string -> string -> option (Z * string)) (fetch : string -> option (Z * string)).

Definition userExists (s : loginServer) (username : string) : bool :=
  match post (ls_dashboardURL s +:+ "/api/auth/user-exists") (enc_object [("username", inl username)]) with
  | Some (200, b) => default false (l ← decode_first b; get_bool ["exists"] "exists" l)
  | _ => false
  end.

Definition loginFinish `{MapRange} (p : portal) (w : header) (r : request) (body : string) (now : Z) : answer * portal :=
  if negb (sameOriginOK r) then (cross_origin w, p) else
  match managerFor p r with
  | None => (not_found w, p)
  | Some (domain, m) =>
      let '(ceremony, m) := PopCeremony m (query_get r "ceremony") now in
      let p := set_manager domain m p in
      match ceremony with
      | None => (refuse w expired_ceremony 400, p)
      | Some c =>
          match ParseAssertion body with
          | inl err => (refuse w ("invalid assertion: " +:+ err) 400, p)
          | inr parsed =>
              let snapshot := snapshotForDomain (pt_store p) domain in
              match ValidateDiscoverableLogin domain (fun _ handle => snd <$> find_user snapshot handle) (pc_Session c) parsed with
              | None => (refuse w "passkey verification failed" 401, p)
              | Some cred =>
                  let matched := default "" (fst <$> find_user snapshot (userHandle parsed)) in
                  let p := set_store (UpdateSignCount (pt_store p) domain matched (c_ID cred) (c_SignCount cred) (c_Flags cred) now) p in
                  if negb (userExists (pt_login p) matched) then (refuse w "account not found" 403, p) else
                  let '(w, target, s) := start_session fetch (pt_login p) w matched domain (query_get r "redirect") now in
                  (json_answer w 200 (enc_object [("target", inl target); ("username", inl matched)]), set_login s p)
              end
          end
      end
  end.
End outside.

(** *** Management *)

Definition public_json (c : PublicCredential) : string :=
  enc_object ([("id", inl (pb_ID c)); ("label", inl (pb_Label c)); ("created_at", inr (pb_CreatedAt c))] ++
              (if decide (pb_LastUsedAt c = 0) then [] else [("last_used_at", inr (pb_LastUsedAt c))])).

Definition listPasskeys (p : portal) (w : header) (r : request) (now : Z) : answer :=
  match managerFor p r with
  | None => not_found w
  | Some (domain, _) =>
      let user := ssoUser (pt_login p) r now in
      if decide (user = "") then not_signed_in w
      else json_answer w 200 ("[" +:+ Join (public_json <$> List_ (pt_store p) domain user) "," +:+ "]")
  end.

Definition deletePasskey (p : portal) (w : header) (r : request) (saved : option string) (now : Z) : answer * portal :=
  if decide (req_Method r <> "DELETE") then (method_not_allowed w, p) else
  if negb (sameOriginOK r) then (cross_origin w, p) else
  match managerFor p r with
  | None => (not_found w, p)
  | Some (domain, _) =>
      let user := ssoUser (pt_login p) r now in
      if decide (user = "") then (not_signed_in w, p) else
      match Delete_ (pt_store p) domain user (query_get r "id") with
      | None => (refuse w "credential not found" 400, p)
      | Some st =>
          let p := set_store st p in
          match saved with
          | Some err => (refuse w err 400, p)
          | None => (json_answer w 200 (enc_values [("status", enc_string "deleted")]), p)
          end
      end
  end.

(** *** The routes *)

Inductive passkey_event :=
| EvAvailable (r : request)
| EvRegisterBegin (r : request) (challenge : string) (rnd : string + string)
| EvRegisterFinish (r : request) (body : string) (saved : option string)
| EvLoginBegin (r : request) (challenge : string) (rnd : string + string)
| EvLoginFinish (r : request) (body : string)
| EvList (r : request)
| EvDelete (r : request) (saved : option string).
Definition ev_request (e : passkey_event) : request :=
  match e with
  | EvAvailable r | EvRegisterBegin r _ _ | EvRegisterFinish r _ _ | EvLoginBegin r _ _ | EvLoginFinish r _ | EvList r | EvDelete r _ => r
  end.

(** The two login endpoints are behind the limiter. *)
Definition limited (h : portal -> header -> request -> answer * portal) (p : portal) (w : header) (r : request) (now : Z) : answer * portal :=
  let '(a, p, rl) := IntLimit.limit h (pt_rl p) p w r now in (a, set_rl rl p).

Definition handle_passkey `{MapRange} (post : string -> string -> option (Z * string)) (fetch : string -> option (Z * string))
    (p : portal) (now : Z) (e : passkey_event) : answer * portal :=
  match e with
  | EvAvailable r => (available p ∅ r, p)
  | EvRegisterBegin r ch rnd => registerBegin p ∅ r ch rnd now
  | EvRegisterFinish r body saved => registerFinish p ∅ r body saved now
  | EvLoginBegin r ch rnd => limited (fun p w r => loginBegin p w r ch rnd now) p ∅ r now
  | EvLoginFinish r body => limited (fun p w r => loginFinish post fetch p w r body now) p ∅ r now
  | EvList r => (listPasskeys p ∅ r now, p)
  | EvDelete r saved => deletePasskey p ∅ r saved now
  end.
End passkeys.

(** * Properties *)

Section props.
Context `{WebAuthn} `{MapRange}.
Context (post : string -> string -> option (Z * string)) (fetch : string -> option (Z * string)).

(** ** Ceremonies and store *)

Lemma PopCeremony_spec m tok now :
  match PopCeremony m tok now with
  | (Some c, m') => m !! tok = Some c /\ now <= pc_Expires c /\ m' = delete tok m
  | (None, m') => m' = m \/ m' = delete tok m
  end.
Proof.
  unfold PopCeremony, time_after. destruct (m !! tok) as [c|]; [|by left]. case_bool_decide; [by right|]. split_and!; [done|lia|done].
Qed.

Lemma managerFor_Some p r d m :
  managerFor p r = Some (d, m) -> d = matchDomain (pt_login p) (hostOnly (req_Host r)) /\ pt_managers p !! d = Some m.
Proof.
  unfold managerFor. case_decide; [done|]. destruct (pt_managers p !! _) eqn:Hm; cbn; [|done]. by intros [= <- <-].
Qed.

Lemma find_user_spec snapshot handle u a :
  find_user snapshot handle = Some (u, a) ->
  exists cs, snapshot !! u = Some cs /\ UserID u = handle /\ a = mkAdapter (UserID u) u (Credentials cs).
Proof.
  unfold find_user. destruct (find_first _ _) as [[u' cs]|] eqn:Hf; cbn; [|done]. intros [= -> <-].
  apply find_first_elem in Hf as [Hin Hid]. cbn in Hid. apply bool_decide_eq_true in Hid. exists cs.
  split_and!; [by apply elem_of_range|done|done].
Qed.

(** ** A session by passkey *)

Context `{!WebAuthnLaws}.

(** C15. A session by passkey. The login's last step sets a session cookie only
    for a same-origin request that names a pending ceremony of its own domain,
    not expired, with an assertion that answers the ceremony's challenge with a
    credential stored under that domain for a user whose handle it carries, and
    only if the dashboard confirms that the account still exists. The cookie is
    that user's, for that domain; and the ceremony is gone, so the same
    assertion cannot be played again. *)
Theorem passkey_session p w r body now line :
  Values w "Set-Cookie" = [] ->
  let res := loginFinish post fetch p w r body now in
  line ∈ session_lines (fst res) ->
  exists d m c a u stored,
    sameOriginOK r = true /\ d = matchDomain (pt_login p) (hostOnly (req_Host r)) /\ pt_managers p !! d = Some m /\
    m !! query_get r "ceremony" = Some c /\ now <= pc_Expires c /\ ParseAssertion body = inr a /\
    stored ∈ creds_of (pt_store p) d u /\ sc_ID stored = rawID a /\ UserID u = userHandle a /\
    Asserted d (pc_Session c) a (ToCredential stored) /\ userExists post (pt_login p) u = true /\
    line = cookie_String (session_cookie (pt_login p) u d now) /\
    pt_managers (snd res) !! d = Some (delete (query_get r "ceremony") m).
Proof.
  intros Hw res. subst res. unfold loginFinish, cross_origin, not_found.
  destruct (sameOriginOK r); cbn [negb]; [|sessionless].
  destruct (managerFor p r) as [[d m]|] eqn:Hm; [|sessionless]. apply managerFor_Some in Hm as [Hd Hm].
  pose proof (PopCeremony_spec m (query_get r "ceremony") now) as Hpop.
  destruct (PopCeremony m _ now) as [[c|] m']; [|sessionless]. destruct Hpop as (Hc & Hexp & ->).
  destruct (ParseAssertion body) as [err|a] eqn:Ha; [sessionless|]. cbn [set_manager pt_store].
  destruct (ValidateDiscoverableLogin _ _ _ _) as [cred|] eqn:Hv; [|sessionless].
  apply validate_law in Hv as (ad & c0 & Hfind & Hin & Hid & _ & Has).
  destruct (find_user _ (userHandle a)) as [[u ad']|] eqn:Hu; [|done]. injection Hfind as ->.
  apply find_user_spec in Hu as (cs & Hcs & Huid & ->). cbn [ad_Creds fmap option_fmap option_map fst default from_option id] in *.
  cbn [set_store set_manager pt_login]. destruct (userExists post (pt_login p) u) eqn:Hex; cbn [negb]; [|sessionless].
  destruct (start_session_spec fetch (pt_login p) w u d (query_get r "redirect") now) as (target & s' & -> & _).
  cbn [fst snd set_login pt_managers]. unfold Credentials in Hin. apply list_elem_of_fmap in Hin as (stored & -> & Hin).
  intros Hl. exists d, m, c, a, u, stored. split_and!; try done.
  - unfold creds_of, snapshotForDomain in *. destruct (pt_store p !! d) as [us|]; cbn in *; [|by rewrite lookup_empty in Hcs]. by rewrite Hcs.
  - revert Hl. unfold session_lines, json_answer, WriteJSON, SetCookie. cbn [a_Header rs_Header]. autorewrite with headers. rewrite Hw. cbn [app].
    intros [_ Hl]%list_elem_of_filter. by apply list_elem_of_singleton in Hl.
  - apply lookup_insert_eq.
Qed.

(** ** Domains are apart *)

(** Two portals that agree on everything but the other domains. *)
Definition same_side (d : string) (p1 p2 : portal) : Prop :=
  pt_login p1 = pt_login p2 /\ pt_rl p1 = pt_rl p2 /\ pt_managers p1 !! d = pt_managers p2 !! d /\ pt_store p1 !! d = pt_store p2 !! d.

Definition event_domain (p : portal) (e : passkey_event) : string := matchDomain (pt_login p) (hostOnly (req_Host (ev_request e))).

(** What was there of the other domains is still there. *)
Definition others_kept (d : string) (p p' : portal) : Prop :=
  forall d', d' <> d -> pt_managers p' !! d' = pt_managers p !! d' /\ pt_store p' !! d' = pt_store p !! d'.

Definition apart (d : string) (p1 p2 : portal) (r1 r2 : answer * portal) : Prop :=
  fst r1 = fst r2 /\ same_side d (snd r1) (snd r2) /\ others_kept d p1 (snd r1).

Lemma apart_nil d p1 p2 a : same_side d p1 p2 -> apart d p1 p2 (a, p1) (a, p2).
Proof. by intros Hs; split_and!. Qed.
Lemma apart_manager d p1 p2 a m : same_side d p1 p2 -> apart d p1 p2 (a, set_manager d m p1) (a, set_manager d m p2).
Proof.
  intros (Hl & Hr & Hm & Hs). split; [done|]. unfold same_side, others_kept. cbn. rewrite !lookup_insert_eq. split_and!; try done.
  intros d' Hd. by rewrite lookup_insert_ne.
Qed.
Lemma apart_trans d p1 p2 q1 q2 r1 r2 a : apart d p1 p2 (a, q1) (a, q2) -> apart d q1 q2 r1 r2 -> apart d p1 p2 r1 r2.
Proof.
  intros (_ & _ & Hk) (Ha & Hs & Hk'). split_and!; [done|done|]. intros d' Hd. cbn in Hk. destruct (Hk d' Hd), (Hk' d' Hd). split; congruence.
Qed.
Lemma apart_creds d p1 p2 a u cs :
  same_side d p1 p2 -> apart d p1 p2 (a, set_store (set_creds (pt_store p1) d u cs) p1) (a, set_store (set_creds (pt_store p2) d u cs) p2).
Proof.
  intros (Hl & Hr & Hm & Hs). split; [done|]. unfold same_side, others_kept, set_creds. cbn. rewrite !lookup_insert_eq, Hs. split_and!; try done.
  intros d' Hd. by rewrite lookup_insert_ne.
Qed.
Lemma apart_login d p1 p2 a s : same_side d p1 p2 -> apart d p1 p2 (a, set_login s p1) (a, set_login s p2).
Proof. by intros (Hl & Hr & Hm & Hs); split_and!. Qed.
Lemma apart_side d p1 p2 a q1 q2 : apart d p1 p2 (a, q1) (a, q2) -> same_side d q1 q2.
Proof. by intros (_ & ? & _). Qed.

Lemma side_creds d p1 p2 u : same_side d p1 p2 -> creds_of (pt_store p1) d u = creds_of (pt_store p2) d u.
Proof. intros (_ & _ & _ & Hs). unfold creds_of. by rewrite Hs. Qed.
Lemma side_snapshot d p1 p2 : same_side d p1 p2 -> snapshotForDomain (pt_store p1) d = snapshotForDomain (pt_store p2) d.
Proof. intros (_ & _ & _ & Hs). unfold snapshotForDomain. by rewrite Hs. Qed.
Lemma side_adapter d p1 p2 u : same_side d p1 p2 -> adapterFor d u (pt_store p1) = adapterFor d u (pt_store p2).
Proof. intros Hs. unfold adapterFor. by rewrite (side_snapshot d p1 p2). Qed.
Lemma side_login d p1 p2 : same_side d p1 p2 -> pt_login p1 = pt_login p2.
Proof. by intros (? & _). Qed.
Lemma side_manager d p1 p2 r :
  same_side d p1 p2 -> d = matchDomain (pt_login p1) (hostOnly (req_Host r)) -> managerFor p1 r = managerFor p2 r.
Proof. intros (Hl & _ & Hm & _) ->. unfold managerFor. by rewrite <- Hl, Hm. Qed.

Lemma apart_update d p1 p2 a u id n f now :
  same_side d p1 p2 ->
  apart d p1 p2 (a, set_store (UpdateSignCount (pt_store p1) d u id n f now) p1) (a, set_store (UpdateSignCount (pt_store p2) d u id n f now) p2).
Proof.
  intros Hs. unfold UpdateSignCount. rewrite <- (side_creds d p1 p2) by done. destruct (update_first _ _ _ _ _) as [cs|].
  - by apply apart_creds.
  - destruct p1, p2. by apply apart_nil.
Qed.

Lemma begun_apart d p1 p2 w m res u rnd now :
  same_side d p1 p2 -> apart d p1 p2 (begun p1 w d m res u rnd now) (begun p2 w d m res u rnd now).
Proof.
  intros Hs. unfold begun. destruct res as [err|[opts sess]]; [by apply apart_nil|].
  destruct (PutCeremony _ _ _ _ _) as [[err|tok] m']; [by apply apart_nil|by apply apart_manager].
Qed.

Section apart.
Context (p1 p2 : portal) (w : header) (r : request) (now : Z).
Let d := matchDomain (pt_login p1) (hostOnly (req_Host r)).
Hypothesis Hside : same_side d p1 p2.

(** Both find the same manager, that of the request's domain. *)
Lemma managers_agree : managerFor p1 r = managerFor p2 r /\ forall d' m, managerFor p2 r = Some (d', m) -> d' = d.
Proof.
  split; [by apply (side_manager d)|]. intros d' m Hm. apply managerFor_Some in Hm as [-> _]. unfold d. by rewrite (side_login d p1 p2).
Qed.

Lemma registerBegin_apart ch rnd : apart d p1 p2 (registerBegin p1 w r ch rnd now) (registerBegin p2 w r ch rnd now).
Proof.
  unfold registerBegin. destruct (negb _); [by apply apart_nil|]. destruct managers_agree as [-> Hd].
  destruct (managerFor p2 r) as [[d' m]|]; [|by apply apart_nil]. rewrite (Hd d' m eq_refl), (side_login d p1 p2) by done.
  case_decide; [by apply apart_nil|]. rewrite (side_adapter d p1 p2) by done. by apply begun_apart.
Qed.

Lemma loginBegin_apart ch rnd : apart d p1 p2 (loginBegin p1 w r ch rnd now) (loginBegin p2 w r ch rnd now).
Proof.
  unfold loginBegin. destruct (negb _); [by apply apart_nil|]. destruct managers_agree as [-> Hd].
  destruct (managerFor p2 r) as [[d' m]|]; [|by apply apart_nil]. rewrite (Hd d' m eq_refl). by apply begun_apart.
Qed.

Lemma registerFinish_apart body saved : apart d p1 p2 (registerFinish p1 w r body saved now) (registerFinish p2 w r body saved now).
Proof.
  unfold registerFinish. destruct (negb _); [by apply apart_nil|]. destruct managers_agree as [-> Hd].
  destruct (managerFor p2 r) as [[d' m]|]; [|by apply apart_nil]. rewrite (Hd d' m eq_refl), (side_login d p1 p2) by done.
  case_decide; [by apply apart_nil|]. destruct (PopCeremony m _ now) as [c m'].
  set (q1 := set_manager d m' p1). set (q2 := set_manager d m' p2).
  assert (forall a, apart d p1 p2 (a, q1) (a, q2)) as Hq by (intros; by apply apart_manager).
  destruct c as [c|]; [|apply Hq]. destruct (negb _); [apply Hq|]. destruct (ParseCreation body) as [err|parsed]; [apply Hq|].
  pose proof (apart_side _ _ _ _ _ _ (Hq (not_found w))) as Hs'. rewrite (side_adapter d q1 q2) by done.
  destruct (CreateCredential _ _ _ _) as [err|cred]; [apply Hq|]. unfold Add. rewrite (side_creds d q1 q2) by done.
  destruct saved; (eapply (apart_trans _ _ _ _ _ _ _ (not_found w)); [apply Hq|by apply apart_creds]).
Qed.

Lemma loginFinish_apart body : apart d p1 p2 (loginFinish post fetch p1 w r body now) (loginFinish post fetch p2 w r body now).
Proof.
  unfold loginFinish. destruct (negb _); [by apply apart_nil|]. destruct managers_agree as [-> Hd].
  destruct (managerFor p2 r) as [[d' m]|]; [|by apply apart_nil]. rewrite (Hd d' m eq_refl).
  destruct (PopCeremony m _ now) as [c m']. set (q1 := set_manager d m' p1). set (q2 := set_manager d m' p2).
  assert (forall a, apart d p1 p2 (a, q1) (a, q2)) as Hq by (intros; by apply apart_manager).
  destruct c as [c|]; [|apply Hq]. destruct (ParseAssertion body) as [err|parsed]; [apply Hq|].
  pose proof (apart_side _ _ _ _ _ _ (Hq (not_found w))) as Hs'. rewrite (side_snapshot d q1 q2) by done.
  destruct (ValidateDiscoverableLogin _ _ _ _) as [cred|]; [|apply Hq].
  set (u := default "" _). set (t1 := set_store _ q1). set (t2 := set_store _ q2).
  assert (forall a, apart d p1 p2 (a, t1) (a, t2)) as Ht.
  { intros a. eapply (apart_trans _ _ _ _ _ _ _ a); [apply Hq|by apply apart_update]. }
  pose proof (apart_side _ _ _ _ _ _ (Ht (not_found w))) as Hts. rewrite (side_login d t1 t2) by done.
  destruct (negb _); [apply Ht|]. destruct (start_session _ _ _ _ _ _ _) as [[w' target] s'].
  eapply (apart_trans _ _ _ _ _ _ _ (not_found w)); [apply Ht|by apply apart_login].
Qed.

Lemma deletePasskey_apart saved : apart d p1 p2 (deletePasskey p1 w r saved now) (deletePasskey p2 w r saved now).
Proof.
  unfold deletePasskey. case_decide; [by apply apart_nil|]. destruct (negb _); [by apply apart_nil|]. destruct managers_agree as [-> Hd].
  destruct (managerFor p2 r) as [[d' m]|]; [|by apply apart_nil]. rewrite (Hd d' m eq_refl), (side_login d p1 p2) by done.
  case_decide; [by apply apart_nil|]. unfold Delete_. rewrite (side_creds d p1 p2) by done.
  destruct (delete_first _ _) as [cs|]; cbn [mbind option_bind]; [|by apply apart_nil]. destruct saved; by apply apart_creds.
Qed.
End apart.

Lemma limited_apart h d p1 p2 w r now :
  (forall q1 q2, same_side d q1 q2 -> matchDomain (pt_login q1) (hostOnly (req_Host r)) = d -> apart d q1 q2 (h q1 w r) (h q2 w r)) ->
  same_side d p1 p2 -> matchDomain (pt_login p1) (hostOnly (req_Host r)) = d -> apart d p1 p2 (limited h p1 w r now) (limited h p2 w r now).
Proof.
  intros Hh Hs Hd. unfold limited, IntLimit.limit. pose proof Hs as (_ & <- & _). destruct (IntLimit.Allow _ _ _) as [[] rl].
  - destruct (Hh p1 p2 Hs Hd) as (Ha & (? & ? & ? & ?) & Hk). destruct (h p1 w r) as [a1 q1], (h p2 w r) as [a2 q2]. cbn [fst snd] in *.
    by split; [|split].
  - destruct Hs as (? & ? & ? & ?). by split_and!.
Qed.

(** C16. Domains are apart. What a request on one domain answers, and what
    becomes of that domain's ceremonies and credentials, does not depend on the
    ceremonies or credentials of any other domain, and leaves those as they were:
    a passkey of one domain is neither usable nor visible nor changed on another. *)
Theorem domains_apart p1 p2 now e :
  let d := event_domain p1 e in
  same_side d p1 p2 -> apart d p1 p2 (handle_passkey post fetch p1 now e) (handle_passkey post fetch p2 now e).
Proof.
  intros d Hs. unfold d, event_domain in *. destruct e as [r|r ch rnd|r body saved|r ch rnd|r body|r|r saved]; cbn [handle_passkey ev_request] in *.
  - unfold available. destruct (managers_agree p1 p2 r Hs) as [-> Hd]. destruct (managerFor p2 r) as [[d' m]|]; [|by apply apart_nil].
    rewrite (Hd d' m eq_refl). unfold hasAnyForDomain. rewrite (side_snapshot _ p1 p2) by exact Hs. by apply apart_nil.
  - by apply registerBegin_apart.
  - by apply registerFinish_apart.
  - apply limited_apart; [|done|done]. intros q1 q2 Hq Hd. rewrite <- Hd in Hq |- *. by apply loginBegin_apart.
  - apply limited_apart; [|done|done]. intros q1 q2 Hq Hd. rewrite <- Hd in Hq |- *. by apply loginFinish_apart.
  - set (d0 := matchDomain _ _) in *. unfold listPasskeys. destruct (managers_agree p1 p2 r Hs) as [-> Hd]. destruct (managerFor p2 r) as [[d' m]|]; [|by apply apart_nil].
    rewrite (Hd d' m eq_refl). fold d0. rewrite (side_login d0 p1 p2) by exact Hs. case_decide; [by apply apart_nil|].
    unfold List_. rewrite (side_creds _ p1 p2) by exact Hs. by apply apart_nil.
  - by apply deletePasskey_apart.
Qed.

(** ** Credentials change in their owner's hands only *)

Definition ids (p : portal) (d u : string) : list string := sc_ID <$> creds_of (pt_store p) d u.

Lemma creds_of_set s d u cs d' u' : creds_of (set_creds s d u cs) d' u' = if decide (d' = d /\ u' = u) then cs else creds_of s d' u'.
Proof.
  unfold creds_of, set_creds. destruct (decide (d' = d)) as [->|Hd].
  - rewrite lookup_insert_eq. cbn [mbind option_bind]. destruct (decide (u' = u)) as [->|Hu].
    + by rewrite lookup_insert_eq, decide_True.
    + rewrite lookup_insert_ne, decide_False by naive_solver. by destruct (s !! d).
  - by rewrite lookup_insert_ne, decide_False by naive_solver.
Qed.

Lemma update_first_ids id n f now cs cs' : update_first id n f now cs = Some cs' -> sc_ID <$> cs' = sc_ID <$> cs.
Proof.
  revert cs'. induction cs as [|c cs IH]; intros cs'; [done|]. cbn [update_first]. case_decide; [by intros [= <-]|].
  destruct (update_first _ _ _ _ cs) as [r|]; [|done]. cbn. intros [= <-]. cbn. by rewrite (IH r).
Qed.
Lemma UpdateSignCount_ids s d u id n f now d' u' :
  sc_ID <$> creds_of (UpdateSignCount s d u id n f now) d' u' = sc_ID <$> creds_of s d' u'.
Proof.
  unfold UpdateSignCount. destruct (update_first _ _ _ _ _) as [cs|] eqn:Hu; [|done]. rewrite creds_of_set. case_decide as Hd; [|done].
  destruct Hd as [-> ->]. by eapply update_first_ids.
Qed.

Lemma begun_store p w d m res u rnd now : pt_store (snd (begun p w d m res u rnd now)) = pt_store p.
Proof. unfold begun. destruct res as [|[? ?]]; [done|]. by destruct (PutCeremony _ _ _ _ _) as [[] ?]. Qed.
Lemma limited_store h p w r now :
  pt_store (snd (limited h p w r now)) = pt_store p \/ pt_store (snd (limited h p w r now)) = pt_store (snd (h p w r)).
Proof. unfold limited, IntLimit.limit. destruct (IntLimit.Allow _ _ _) as [[] rl]; [right|by left]. by destruct (h p w r). Qed.

(** The signed-in user of a request, as the store knows it, and a same-origin
    request of its domain. *)
Definition acts_for (p : portal) (r : request) (now : Z) (d u : string) : Prop :=
  sameOriginOK r = true /\ d = matchDomain (pt_login p) (hostOnly (req_Host r)) /\
  ssoUser (pt_login p) r now <> "" /\ u = ToLower (ssoUser (pt_login p) r now).

(** The user of the request began a ceremony of the domain that is still open. *)
Definition began (p : portal) (r : request) (now : Z) : Prop :=
  exists m c, pt_managers p !! matchDomain (pt_login p) (hostOnly (req_Host r)) = Some m /\ m !! query_get r "ceremony" = Some c /\
    now <= pc_Expires c /\ EqualFold (pc_Username c) (ssoUser (pt_login p) r now) = true.

Lemma loginFinish_ids p w r body now d u : ids (snd (loginFinish post fetch p w r body now)) d u = ids p d u.
Proof.
  unfold loginFinish, ids. destruct (negb _); [done|]. destruct (managerFor p r) as [[d0 m]|]; [|done].
  destruct (PopCeremony m _ now) as [[c|] m']; [|done]. destruct (ParseAssertion body) as [|a]; [done|].
  destruct (ValidateDiscoverableLogin _ _ _ _) as [cred|]; [|done]. destruct (negb _); [apply UpdateSignCount_ids|].
  destruct (start_session _ _ _ _ _ _ _) as [[w' target] s']. apply UpdateSignCount_ids.
Qed.

Lemma managerFor_domain p r d m : managerFor p r = Some (d, m) -> d <> "".
Proof. unfold managerFor. case_decide; [done|]. destruct (_ !! _); [|done]. by intros [= <- _]. Qed.

Lemma registerFinish_ids p w r body saved now d u :
  let p' := snd (registerFinish p w r body saved now) in
  ids p' d u = ids p d u \/ (acts_for p r now d u /\ began p r now /\ exists id, ids p' d u = (ids p d u ++ [id])%list).
Proof.
  cbv zeta. unfold registerFinish, ids, acts_for, began. destruct (sameOriginOK r); cbn [negb]; [|by left].
  destruct (managerFor p r) as [[d0 m]|] eqn:Hm; [|by left]. apply managerFor_Some in Hm as [Hd Hm]. case_decide as Hu; [by left|].
  pose proof (PopCeremony_spec m (query_get r "ceremony") now) as Hpop.
  destruct (PopCeremony m _ now) as [[c|] m']; [|by left]. destruct Hpop as (Hc & Hexp & ->).
  destruct (EqualFold _ _) eqn:He; cbn [negb]; [|by left]. destruct (ParseCreation body) as [|parsed]; [by left|].
  destruct (CreateCredential _ _ _ _) as [|cred]; [by left|].
  assert (forall a q, pt_store q = Add (pt_store p) d0 (ssoUser (pt_login p) r now)
    (mkStored (c_ID cred) (c_PublicKey cred) (c_AAGUID cred) (c_SignCount cred) (query_get r "label") (transports parsed) 0 0 (c_Flags cred)) now ->
    sc_ID <$> creds_of (pt_store (snd ((a, q) : answer * portal))) d u = sc_ID <$> creds_of (pt_store p) d u \/
    ((true = true /\ d = matchDomain (pt_login p) (hostOnly (req_Host r)) /\ ssoUser (pt_login p) r now <> "" /\ u = ToLower (ssoUser (pt_login p) r now)) /\
     (exists m c, pt_managers p !! matchDomain (pt_login p) (hostOnly (req_Host r)) = Some m /\ m !! query_get r "ceremony" = Some c /\
       now <= pc_Expires c /\ EqualFold (pc_Username c) (ssoUser (pt_login p) r now) = true) /\
     exists id, sc_ID <$> creds_of (pt_store (snd ((a, q) : answer * portal))) d u = ((sc_ID <$> creds_of (pt_store p) d u) ++ [id])%list)) as Hadd.
  { intros a q Hq. cbn [snd]. rewrite Hq. unfold Add. rewrite creds_of_set. case_decide as Hdu; [right|by left]. destruct Hdu as [-> ->].
    split_and!; [done|done|done|done|rewrite <- Hd; eauto 10|]. exists (c_ID cred). by rewrite fmap_app. }
  destruct saved; by apply Hadd.
Qed.

Lemma deletePasskey_ids p w r saved now d u :
  let p' := snd (deletePasskey p w r saved now) in
  ids p' d u = ids p d u \/ (acts_for p r now d u /\ exists l1 id l2, credIDKey id = query_get r "id" /\ ids p d u = (l1 ++ id :: l2)%list /\ ids p' d u = (l1 ++ l2)%list).
Proof.
  cbv zeta. unfold deletePasskey, ids, acts_for. case_decide; [by left|]. destruct (sameOriginOK r); cbn [negb]; [|by left].
  destruct (managerFor p r) as [[d0 m]|] eqn:Hm; [|by left]. apply managerFor_Some in Hm as [Hd Hm]. case_decide as Hu; [by left|].
  unfold Delete_. destruct (delete_first _ _) as [cs|] eqn:Hdel; cbn [mbind option_bind]; [|by left].
  assert (forall cs0 cs, delete_first (query_get r "id") cs0 = Some cs -> exists l1 id l2, credIDKey id = query_get r "id" /\
    sc_ID <$> cs0 = (l1 ++ id :: l2)%list /\ sc_ID <$> cs = (l1 ++ l2)%list) as Hspec.
  { clear. induction cs0 as [|c cs0 IH]; intros cs; [done|]. cbn [delete_first]. case_decide as Hc.
    - intros [= <-]. by exists [], (sc_ID c), (sc_ID <$> cs0).
    - destruct (delete_first _ cs0) as [r'|]; [|done]. intros [= <-]. destruct (IH r' eq_refl) as (l1 & id & l2 & Hid & E1 & E2).
      exists (sc_ID c :: l1), id, l2. rewrite !fmap_cons, E1, E2. done. }
  apply Hspec in Hdel. destruct saved; cbn [snd set_store pt_store]; rewrite creds_of_set; (case_decide as Hdu; [right|by left]); destruct Hdu as [-> ->]; by split_and!.
Qed.

(** C17. Credentials change in their owner's hands only. Over one request, the
    credential ids stored for a user of a domain either stay as they are, or gain
    one at the end, or lose one; and in the last two cases the request is a
    same-origin one of that domain by that very signed-in user: the end of a
    registration the user began, or the deletion of the credential it names.
    Logins, whatever they present, change none. *)
Theorem owner_changes_credentials p now e d u :
  let p' := snd (handle_passkey post fetch p now e) in
  ids p' d u = ids p d u \/
  (acts_for p (ev_request e) now d u /\
   ((exists r body saved id, e = EvRegisterFinish r body saved /\ began p r now /\ ids p' d u = (ids p d u ++ [id])%list) \/
    (exists r saved l1 id l2, e = EvDelete r saved /\ credIDKey id = query_get r "id" /\ ids p d u = (l1 ++ id :: l2)%list /\ ids p' d u = (l1 ++ l2)%list))).
Proof.
  cbv zeta. destruct e as [r|r ch rnd|r body saved|r ch rnd|r body|r|r saved]; cbn [handle_passkey ev_request]; try by left.
  - left. unfold ids, registerBegin. destruct (negb _); [done|]. destruct (managerFor p r) as [[d0 m]|]; [|done]. case_decide; [done|].
    by rewrite begun_store.
  - destruct (registerFinish_ids p ∅ r body saved now d u) as [?|(Ha & Hb & id & Hid)]; [by left|right]. split; [done|]. left. eauto 10.
  - left. unfold ids. destruct (limited_store (fun p w r => loginBegin p w r ch rnd now) p ∅ r now) as [-> | ->]; [done|].
    unfold loginBegin. destruct (negb _); [done|]. destruct (managerFor p r) as [[d0 m]|]; [|done]. by rewrite begun_store.
  - left. unfold ids. destruct (limited_store (fun p w r => loginFinish post fetch p w r body now) p ∅ r now) as [-> | ->]; [done|].
    apply loginFinish_ids.
  - destruct (deletePasskey_ids p ∅ r saved now d u) as [?|(Ha & l1 & id & l2 & Hid)]; [by left|right]. split; [done|]. right. destruct Hid as (? & ? & ?). eauto 15.
Qed.
End props.

(** ** Handles keep only twenty bytes of the name *)

Lemma handles_collide : UserID "averyveryverylongname1" = UserID "averyveryverylongname2".
Proof. reflexivity. Qed.

(** When two users of a domain have one handle, the map's order decides which of
    them a login is checked against; the other's own passkey is then refused. *)
Lemma collision_locks_out `{WebAuthnLaws} `{MapRange} rp snapshot sess a u ad :
  find_user snapshot (userHandle a) = Some (u, ad) ->
  Forall (fun c => sc_ID c <> rawID a) (default [] (snapshot !! u)) ->
  ValidateDiscoverableLogin rp (fun _ handle => snd <$> find_user snapshot handle) sess a = None.
Proof.
  intros Hf Hno. destruct (ValidateDiscoverableLogin _ _ _ _) as [c|] eqn:Hv; [|done]. exfalso.
  apply validate_law in Hv as (ad' & c0 & Hu & Hin & Hid & _). rewrite Hf in Hu. injection Hu as <-.
  apply find_user_spec in Hf as (cs & Hcs & _ & ->). rewrite Hcs in Hno. cbn in Hin, Hno.
  apply list_elem_of_fmap in Hin as (s & -> & Hs). rewrite Forall_forall in Hno. exact (Hno s Hs Hid).
Qed.

(** * Instances *)

(** A library whose signature is the key followed by the challenge. *)
Definition demo_flags : CredentialFlags := mkFlags true true false false.
#[local] Instance demo_webauthn : WebAuthn := {|
  session := string; creation := string; assertion := string * string * string;
  transports _ := []; rawID a := fst (fst a); userHandle a := snd (fst a);
  ParseCreation b := inr b;
  ParseAssertion b := match Split b "," with [i; h; s] => inr (i, h, s) | _ => inl "bad" end;
  BeginRegistration rp ad ch := inr (json_string ch, ch);
  CreateCredential rp ad s c := inr (mkCredential c ("key-" +:+ c) "" 0 demo_flags);
  BeginDiscoverableLogin rp ch := inr (json_string ch, ch);
  ValidateDiscoverableLogin rp h s a :=
    u ← h (fst (fst a)) (snd (fst a));
    find_first (fun c => bool_decide (c_ID c = fst (fst a)) && bool_decide (snd a = c_PublicKey c +:+ s)) (ad_Creds u);
  Asserted rp s a c := snd a = c_PublicKey c +:+ s;
|}.
#[local] Instance demo_laws : WebAuthnLaws.
Proof.
  split. cbn. intros rp h s [[i hd] sg] c Hv. cbn in Hv |- *. destruct (h i hd) as [u|]; [|done]. cbn in Hv.
  apply find_first_elem in Hv as [Hin [Hid%bool_decide_eq_true Hs%bool_decide_eq_true]%andb_true_iff].
  exists u, c. by split_and!.
Qed.

Definition ex_stored : StoredCredential := mkStored "c1" "k1" "" 0 "Passkey" [] 0 0 demo_flags.
Definition ex_passkeys : portal :=
  mkPortal ex_portal {["example.org" := {["T" := mkPending "ch" "" (5 * Minute)]}]} {["example.org" := {["al" := [ex_stored]]}]} ∅.
Definition ex_finish (body : string) : passkey_event :=
  EvLoginFinish (mkRequest "POST" "auth.example.org" "/passkey/login/finish" "ceremony=T" ∅ "10.0.0.9:5000") body.
Definition ex_exists (url body : string) : option (Z * string) := Some (200, "{" +:+ json_string "exists" +:+ ":true}").
Definition ex_assertion (sig : string) : string := "c1," +:+ UserID "Al" +:+ "," +:+ sig.

(** A good assertion signs in once; a bad one ends the ceremony too. *)
Example passkey_ex :
  let run p body := handle_passkey ex_exists no_fetch p Minute (ex_finish body) in
  a_Status (fst (run ex_passkeys (ex_assertion "k1ch"))) = 200 /\
  a_Status (fst (run (snd (run ex_passkeys (ex_assertion "k1ch"))) (ex_assertion "k1ch"))) = 400 /\
  a_Status (fst (run ex_passkeys (ex_assertion "x"))) = 401 /\
  a_Status (fst (run (snd (run ex_passkeys (ex_assertion "x"))) (ex_assertion "k1ch"))) = 400.
Proof. by vm_compute. Qed.

Lemma passkey_session_witness :
  let r := ev_request (ex_finish "") in
  let res := loginFinish ex_exists no_fetch ex_passkeys ∅ r (ex_assertion "k1ch") Minute in
  exists d m c a u stored,
    sameOriginOK r = true /\ d = matchDomain (pt_login ex_passkeys) (hostOnly (req_Host r)) /\ pt_managers ex_passkeys !! d = Some m /\
    m !! query_get r "ceremony" = Some c /\ Minute <= pc_Expires c /\ ParseAssertion (ex_assertion "k1ch") = inr a /\
    stored ∈ creds_of (pt_store ex_passkeys) d u /\ sc_ID stored = rawID a /\ UserID u = userHandle a /\
    Asserted d (pc_Session c) a (ToCredential stored) /\ userExists ex_exists (pt_login ex_passkeys) u = true /\
    cookie_String (session_cookie ex_portal "al" "example.org" Minute) = cookie_String (session_cookie (pt_login ex_passkeys) u d Minute) /\
    pt_managers (snd res) !! d = Some (delete (query_get r "ceremony") m).
Proof.
  intros r res. apply (passkey_session ex_exists no_fetch ex_passkeys ∅ r (ex_assertion "k1ch") Minute
    (cookie_String (session_cookie ex_portal "al" "example.org" Minute))); [reflexivity|].
  apply (bool_decide_unpack _). vm_compute. exact I.
Defined.

Definition ex_other_domain : portal :=
  mkPortal (pt_login ex_passkeys) (<["example.com" := ∅]> (pt_managers ex_passkeys)) (<["example.com" := {["al" := [ex_stored]]}]> (pt_store ex_passkeys)) ∅.

Lemma domains_apart_witness :
  apart "example.org" ex_passkeys ex_other_domain
    (handle_passkey ex_exists no_fetch ex_passkeys Minute (ex_finish (ex_assertion "k1ch")))
    (handle_passkey ex_exists no_fetch ex_other_domain Minute (ex_finish (ex_assertion "k1ch"))).
Proof. apply (domains_apart ex_exists no_fetch ex_passkeys ex_other_domain Minute (ex_finish (ex_assertion "k1ch"))). by split_and!. Defined.
