(* ===== verification/Totp.v ===== *)
(** * One-time codes and password hashes: the crypto primitives of
    cmd/dashboard/auth.go

    SHA-1 and HMAC-SHA-1, the base32 of encoding/base32, the RFC 6238 codes of
    [totp] and [verifyTOTPSecret], and PBKDF2 on HMAC-SHA-256. *)
From S2P Require Import Prelude GoString Duration Http Sha256 Json Sso.
Open Scope string_scope.

(** ** SHA-1 *)

Record digest1 := mkDigest1 { h_a : Z; h_b : Z; h_c : Z; h_d : Z; h_e : Z }.
Definition rotl (x n : Z) : Z := Z.lor (w32 (Z.shiftl x n)) (Z.shiftr x (32 - n)).

Definition parity (x y z : Z) : Z := Z.lxor (Z.lxor x y) z.
(** The function and the constant of round [t]. *)
Definition sha1_f (t : nat) : (Z -> Z -> Z -> Z) * Z :=
  if decide (t < 20)%nat then (ch, 1518500249) else if decide (t < 40)%nat then (parity, 1859775393)
  else if decide (t < 60)%nat then (maj, 2400959708) else (parity, 3395469782).

Definition sha1_round (t : nat) (w : Z) (d : digest1) : digest1 :=
  let '(f, k) := sha1_f t in
  mkDigest1 (w32 (rotl (h_a d) 5 + f (h_b d) (h_c d) (h_d d) + h_e d + k + w)) (h_a d) (rotl (h_b d) 30) (h_c d) (h_d d).

Definition next_word1 (w : list Z) : Z :=
  let at_ i := nth i w 0 in rotl (Z.lxor (Z.lxor (at_ 13%nat) (at_ 8%nat)) (Z.lxor (at_ 2%nat) (at_ 0%nat))) 1.

Fixpoint rounds1 (n t : nat) (w : list Z) (d : digest1) : digest1 :=
  match n with
  | O => d
  | S n => rounds1 n (S t) (tail w ++ [next_word1 w])%list (sha1_round t (nth 0 w 0) d)
  end.

Definition block1 (d : digest1) (w : list Z) : digest1 :=
  let e := rounds1 80 0 w d in
  mkDigest1 (w32 (h_a d + h_a e)) (w32 (h_b d + h_b e)) (w32 (h_c d + h_c e)) (w32 (h_d d + h_d e)) (w32 (h_e d + h_e e)).
Fixpoint blocks1 (fuel : nat) (d : digest1) (w : list Z) : digest1 :=
  match fuel, w with
  | S fuel, _ :: _ => blocks1 fuel (block1 d (take 16 w)) (drop 16 w)
  | _, _ => d
  end.

Definition initial1 : digest1 := mkDigest1 1732584193 4023233417 2562383102 271733878 3285377520.
(** [sha1.Sum]; the padding is that of SHA-256. *)
Definition Sum1 (s : string) : string :=
  let w := words (pad s) in let d := blocks1 (List.length w) initial1 w in
  be_bytes 4 (h_a d) +:+ be_bytes 4 (h_b d) +:+ be_bytes 4 (h_c d) +:+ be_bytes 4 (h_d d) +:+ be_bytes 4 (h_e d).

(** [hmac.New(sha1.New, key)]. *)
Definition hmac_sha1 (key msg : string) : string :=
  let k := if decide (64 < len key) then Sum1 key else key in
  let k := k +:+ repeat_byte (Z.to_nat (64 - len k)) (chr 0) in
  Sum1 (xor_bytes k 92 +:+ Sum1 (xor_bytes k 54 +:+ msg)).

Example Sum1_abc : hex (Sum1 "abc") = "a9993e364706816aba3e25717850c26c9cd0d89d".
Proof. vm_compute. reflexivity. Qed.
Example hmac1_jefe : hex (hmac_sha1 "Jefe" "what do ya want for nothing?") = "effcdf6ae5eb2fa2d27416d5f184df9c259a7c79".
Proof. vm_compute. reflexivity. Qed.
#[global] Arguments hmac_sha1 : simpl never.

(** ** encoding/base32 *)

Definition b32_digit (n : Z) : ascii := if decide (n < 26) then byte_of (65 + n) else byte_of (24 + n).
Definition b32_val (c : ascii) : option Z :=
  if in_range c "A" "Z" then Some (byte_Z c - 65) else if in_range c "2" "7" then Some (byte_Z c - 24) else None.

(** The eight values of five bytes. *)
Definition quantum (a b c d e : Z) : list Z :=
  [a / 8; a mod 8 * 4 + b / 64; b / 2 mod 32; b mod 2 * 16 + c / 16; c mod 16 * 2 + d / 128; d / 4 mod 32; d mod 4 * 8 + e / 32; e mod 32].
Definition b32_chars (l : list Z) (tail : string) : string := foldr (fun v => String (b32_digit v)) tail l.

(** [base32.StdEncoding.WithPadding(base32.NoPadding)]. *)
Fixpoint b32_encode (s : string) : string :=
  match s with
  | EmptyString => ""
  | String a EmptyString => b32_chars (take 2 (quantum (byte_Z a) 0 0 0 0)) ""
  | String a (String b EmptyString) => b32_chars (take 4 (quantum (byte_Z a) (byte_Z b) 0 0 0)) ""
  | String a (String b (String c EmptyString)) => b32_chars (take 5 (quantum (byte_Z a) (byte_Z b) (byte_Z c) 0 0)) ""
  | String a (String b (String c (String d EmptyString))) =>
      b32_chars (take 7 (quantum (byte_Z a) (byte_Z b) (byte_Z c) (byte_Z d) 0)) ""
  | String a (String b (String c (String d (String e r)))) =>
      b32_chars (quantum (byte_Z a) (byte_Z b) (byte_Z c) (byte_Z d) (byte_Z e)) (b32_encode r)
  end.

(** The bytes of the values of a group, as many as are complete. *)
Definition unpack (l : list Z) : string :=
  let at_ i := nth i l 0 in
  take_bytes (length l * 5 / 8)
    (String (Z_byte (at_ 0%nat * 8 + at_ 1%nat / 4)) (String (Z_byte (at_ 1%nat * 64 + at_ 2%nat * 2 + at_ 3%nat / 16))
      (String (Z_byte (at_ 3%nat * 16 + at_ 4%nat / 2)) (String (Z_byte (at_ 4%nat * 128 + at_ 5%nat * 4 + at_ 6%nat / 8))
        (String (Z_byte (at_ 6%nat * 32 + at_ 7%nat)) ""))))).

Fixpoint only_pad (n : nat) (s : string) : bool :=
  match n, s with
  | S n, String c s => Ascii.eqb c "=" && only_pad n s
  | _, _ => true
  end.

(** A group of up to eight characters: its values, the rest, and whether padding
    ended the text. [n] is how many are missing. *)
Fixpoint b32_group (n : nat) (s : string) : option (list Z * string * bool) :=
  match n, s with
  | O, _ => Some ([], s, false)
  | S _, EmptyString => None
  | S n, String c s =>
      if decide (c = "="%char /\ (n <= 5)%nat /\ (String.length s < 8)%nat) then
        if decide ((String.length s < n)%nat \/ only_pad n s = false \/ n = 4%nat \/ n = 1%nat) then None else Some ([], s, true)
      else v ← b32_val c; '(l, r, e) ← b32_group n s; Some (v :: l, r, e)
  end.
(** Each group takes a character at least. *)
Fixpoint b32_groups (fuel : nat) (s : string) : option string :=
  match fuel, s with
  | S fuel, String _ _ =>
      '(l, r, e) ← b32_group 8 s;
      if (e : bool) then Some (unpack l) else t ← b32_groups fuel r; Some (unpack l +:+ t)
  | _, _ => Some ""
  end.

Fixpoint stripNewlines (s : string) : string :=
  match s with
  | EmptyString => ""
  | String c s => if Ascii.eqb c (chr 10) || Ascii.eqb c (chr 13) then stripNewlines s else String c (stripNewlines s)
  end.
(** [base32.StdEncoding.DecodeString]. *)
Definition b32_decode (s : string) : option string := let s := stripNewlines s in b32_groups (String.length s) s.

(** ** totp *)

Definition totpDigits : Z := 6.
Definition totpPeriodSeconds : Z := 30.
Definition totpAllowedDrift : Z := 1.

Definition ToUpper (s : string) : string := map_bytes upper_byte s.
Definition pad32 (s : string) : string :=
  let pad := Z.rem (len s) 8 in if decide (pad <> 0) then s +:+ repeat_byte (Z.to_nat (8 - pad)) "=" else s.

Definition byte_at (s : string) (i : Z) : Z := match String.get (Z.to_nat i) s with Some c => byte_Z c | None => 0 end.
(** The truncation of RFC 4226. *)
Definition truncate (h : string) : Z :=
  let offset := Z.land (byte_at h (len h - 1)) 15 in
  Z.lor (Z.lor (Z.lor (Z.shiftl (Z.land (byte_at h offset) 127) 24) (Z.shiftl (byte_at h (offset + 1)) 16))
           (Z.shiftl (byte_at h (offset + 2)) 8)) (byte_at h (offset + 3)).

(** [fmt.Sprintf("%0*d", width, n)]. *)
Definition Sprintf_0d (width n : Z) : string :=
  let d := FormatInt n in repeat_byte (Z.to_nat (width - len d)) "0" +:+ d.

Definition hotp (key : string) (counter : Z) : string :=
  Sprintf_0d totpDigits (truncate (hmac_sha1 key (be_bytes 8 counter)) mod 10 ^ totpDigits).

Definition totp (secretB32 : string) (counter : Z) : string :=
  match b32_decode (ToUpper (pad32 secretB32)) with
  | None => ""
  | Some key => hotp key counter
  end.

(** [now] is in Unix seconds. *)
Definition verifyTOTPSecret (secret code : string) (now : Z) : bool :=
  if decide (secret = "") then false else
  let now := Z.quot now totpPeriodSeconds in
  existsb (fun drift => bool_decide (totp secret (now + drift) = code)) [- totpAllowedDrift; 0; totpAllowedDrift].

(** The vectors of RFC 6238, to six digits. *)
Example totp_rfc :
  totp "GEZDGNBVGY3TQOJQGEZDGNBVGY3TQOJQ" (59 / 30) = "287082" /\
  totp "gezdgnbvgy3tqojqgezdgnbvgy3tqojq" (1111111109 / 30) = "081804" /\
  totp "GEZDGNBVGY3TQOJQGEZDGNBVGY3TQOJQ" (20000000000 / 30) = "353130".
Proof. by vm_compute. Qed.

(** ** pbkdf2 *)

Fixpoint xor_strings (s t : string) : string :=
  match s, t with
  | String c s, String d t => String (Z_byte (Z.lxor (byte_Z c) (byte_Z d))) (xor_strings s t)
  | _, _ => s
  end.
Fixpoint pbkdf2_loop (n : nat) (password t u : string) : string :=
  match n with
  | O => t
  | S n => let u := hmac_sha256 password u in pbkdf2_loop n password (xor_strings t u) u
  end.
Definition pbkdf2_block (password salt : string) (iter : nat) (i : Z) : string :=
  let t := hmac_sha256 password (salt +:+ be_bytes 4 i) in pbkdf2_loop (iter - 1) password t t.
Definition pbkdf2 (password salt : string) (iter : nat) (keyLen : Z) : string :=
  let numBlocks := Z.quot (keyLen + 32 - 1) 32 in
  let out := foldl (fun out i => out +:+ pbkdf2_block password salt iter (Z.of_nat i)) "" (seq 1 (Z.to_nat numBlocks)) in
  take_bytes (Z.to_nat keyLen) out.

Example pbkdf2_vectors :
  hex (pbkdf2 "password" "salt" 1 32) = "120fb6cffcf8b32c43e7225256c4f837a86548c92ccc35480805987cb70be17b" /\
  hex (pbkdf2 "password" "salt" 2 32) = "ae4d0c95af6b46d32d0adff928f06dd02a303f8ef3c251dfd6e2d85a95474c43".
Proof. by vm_compute. Qed.

(** * Properties *)

(** ** The secrets of new users decode to their key *)

Definition quintet (n : Z) : Prop := 0 <= n < 32.

Lemma b32_val_digit n :
  quintet n -> b32_val (b32_digit n) = Some n /\ b32_digit n <> "="%char /\
  Ascii.eqb (b32_digit n) (chr 10) || Ascii.eqb (b32_digit n) (chr 13) = false /\ upper_byte (b32_digit n) = b32_digit n.
Proof.
  revert n. apply (small_Z (fun n => b32_val (b32_digit n) = Some n /\ b32_digit n <> "="%char /\
    Ascii.eqb (b32_digit n) (chr 10) || Ascii.eqb (b32_digit n) (chr 13) = false /\ upper_byte (b32_digit n) = b32_digit n) 32).
  by vm_compute.
Qed.

Lemma quantum_range a b c d e :
  0 <= a < 256 -> 0 <= b < 256 -> 0 <= c < 256 -> 0 <= d < 256 -> 0 <= e < 256 -> Forall quintet (quantum a b c d e).
Proof.
  intros. unfold quantum, quintet. repeat apply Forall_cons_2; try apply Forall_nil_2; cbv beta; Z.to_euclidean_division_equations; lia.
Qed.

(** The bytes come back from their values. *)
Lemma quantum_bytes a b c d e :
  0 <= a < 256 -> 0 <= b < 256 -> 0 <= c < 256 -> 0 <= d < 256 -> 0 <= e < 256 ->
  let at_ i := nth i (quantum a b c d e) 0 in
  at_ 0%nat * 8 + at_ 1%nat / 4 = a /\ (at_ 1%nat * 64 + at_ 2%nat * 2 + at_ 3%nat / 16) mod 256 = b /\
  (at_ 3%nat * 16 + at_ 4%nat / 2) mod 256 = c /\ (at_ 4%nat * 128 + at_ 5%nat * 4 + at_ 6%nat / 8) mod 256 = d /\
  (at_ 6%nat * 32 + at_ 7%nat) mod 256 = e.
Proof. cbv zeta. intros. unfold quantum. cbn [nth]. split_and!; Z.to_euclidean_division_equations; lia. Qed.

Lemma Z_byte_mod z c : z mod 256 = byte_Z c -> Z_byte z = c.
Proof.
  intros Hz. rewrite <- (Z_byte_byte c), <- Hz. unfold Z_byte. do 2 f_equal.
  change 255 with (Z.ones 8). rewrite !Z.land_ones by lia. change (2 ^ 8) with 256. by rewrite Z.mod_mod.
Qed.

Lemma b32_chars_app l l' t : b32_chars (l ++ l') t = b32_chars l (b32_chars l' t).
Proof. unfold b32_chars. by rewrite foldr_app. Qed.
Lemma b32_chars_length l t : String.length (b32_chars l t) = (length l + String.length t)%nat.
Proof. unfold b32_chars. induction l as [|v l IH]; [done|]. cbn [foldr String.length length Nat.add]. by rewrite IH. Qed.
Lemma b32_chars_tail l t : (b32_chars l "" +:+ t)%string = b32_chars l t.
Proof. unfold b32_chars. induction l as [|v l IH]; [done|]. cbn [foldr String.append]. by rewrite IH. Qed.

Lemma repeat_byte_length n c : String.length (repeat_byte n c) = n.
Proof. induction n as [|n IH]; cbn; congruence. Qed.

(** Padded digits pass the clean-ups unchanged. *)
Lemma clean_digits l m :
  Forall quintet l -> stripNewlines (ToUpper (b32_chars l (repeat_byte m "="))) = b32_chars l (repeat_byte m "=").
Proof.
  induction 1 as [|v l Hv _ IH]; cbn [b32_chars foldr ToUpper map_bytes stripNewlines].
  - induction m as [|m IH]; [done|]. cbn in *. by rewrite IH.
  - destruct (b32_val_digit v Hv) as (_ & _ & Hn & ->). rewrite Hn. fold (b32_chars l (repeat_byte m "=")). f_equal. exact IH.
Qed.

Lemma b32_group_digit n v s : quintet v -> b32_group (S n) (String (b32_digit v) s) = ('(l, r, e) ← b32_group n s; Some (v :: l, r, e)).
Proof. intros Hv. destruct (b32_val_digit v Hv) as (H & Hne & _). cbn [b32_group]. rewrite decide_False by (by intros [? _]). by rewrite H. Qed.

Lemma b32_group_full l n s : Forall quintet l -> n = length l -> b32_group n (b32_chars l s) = Some (l, s, false).
Proof.
  intros Hl ->. induction Hl as [|v l Hv _ IH]; [done|]. cbn [b32_chars foldr length]. rewrite b32_group_digit by done.
  fold (b32_chars l s). by rewrite IH.
Qed.

Lemma only_pad_repeat n k : only_pad n (repeat_byte k "=") = true.
Proof. revert n. induction k as [|k IH]; intros [|n]; try done. cbn. apply IH. Qed.

Lemma b32_group_padded l m n :
  Forall quintet l -> n = (length l + S m)%nat -> m ∈ [0; 2; 3; 5]%nat -> b32_group n (b32_chars l (repeat_byte (S m) "=")) = Some (l, repeat_byte m "=", true).
Proof.
  intros Hl -> Hm. induction Hl as [|v l Hv _ IH].
  - cbn [b32_chars foldr length Nat.add b32_group repeat_byte]. rewrite repeat_byte_length, only_pad_repeat.
    rewrite decide_True by (split_and!; [done|set_solver by lia|set_solver by lia]). rewrite decide_False; [done|]. set_solver by lia.
  - cbn [b32_chars foldr length Nat.add]. rewrite b32_group_digit by done. fold (b32_chars l (repeat_byte (S m) "=")). by rewrite IH.
Qed.

Lemma string5_ind (P : string -> Prop) :
  P "" -> (forall a, P (String a "")) -> (forall a b, P (String a (String b ""))) -> (forall a b c, P (String a (String b (String c "")))) ->
  (forall a b c d, P (String a (String b (String c (String d ""))))) ->
  (forall a b c d e r, P r -> P (String a (String b (String c (String d (String e r)))))) -> forall s, P s.
Proof.
  intros H0 H1 H2 H3 H4 H5. fix IH 1. intros [|a [|b [|c [|d [|e r]]]]]; [exact H0|apply H1|apply H2|apply H3|apply H4|apply H5, IH].
Qed.

Definition reads (s : string) (l : list Z) (m : nat) : Prop :=
  Forall quintet l /\ b32_encode s = b32_chars l "" /\ (exists k, (length l + m = 8 * k)%nat) /\ (m < 8)%nat /\
  forall fuel, (length l <= fuel)%nat -> b32_groups fuel (b32_chars l (repeat_byte m "=")) = Some s.

Ltac unpacking a b c d e :=
  let H := fresh in
  pose proof (quantum_bytes _ _ _ _ _ a b c d e) as H; cbv zeta in H; unfold quantum in H; cbn [nth] in H;
  destruct H as (H1 & H2 & H3 & H4 & H5); unfold unpack, quantum; cbn [take nth length Nat.mul Nat.add Nat.div Nat.divmod fst take_bytes];
  rewrite H1, Z_byte_byte; try rewrite (Z_byte_mod _ _ H2); try rewrite (Z_byte_mod _ _ H3); try rewrite (Z_byte_mod _ _ H4);
  try rewrite (Z_byte_mod _ _ H5); done.

Lemma unpack_quantum a b c d e : unpack (quantum (byte_Z a) (byte_Z b) (byte_Z c) (byte_Z d) (byte_Z e)) = String a (String b (String c (String d (String e "")))).
Proof. unpacking (byte_Z_range a) (byte_Z_range b) (byte_Z_range c) (byte_Z_range d) (byte_Z_range e). Qed.
Lemma zero_byte : 0 <= 0 < 256.
Proof. done. Qed.
Lemma unpack_1 a : unpack (take 2 (quantum (byte_Z a) 0 0 0 0)) = String a "".
Proof. unpacking (byte_Z_range a) zero_byte zero_byte zero_byte zero_byte. Qed.
Lemma unpack_2 a b : unpack (take 4 (quantum (byte_Z a) (byte_Z b) 0 0 0)) = String a (String b "").
Proof. unpacking (byte_Z_range a) (byte_Z_range b) zero_byte zero_byte zero_byte. Qed.
Lemma unpack_3 a b c : unpack (take 5 (quantum (byte_Z a) (byte_Z b) (byte_Z c) 0 0)) = String a (String b (String c "")).
Proof. unpacking (byte_Z_range a) (byte_Z_range b) (byte_Z_range c) zero_byte zero_byte. Qed.
Lemma unpack_4 a b c d : unpack (take 7 (quantum (byte_Z a) (byte_Z b) (byte_Z c) (byte_Z d) 0)) = String a (String b (String c (String d ""))).
Proof. unpacking (byte_Z_range a) (byte_Z_range b) (byte_Z_range c) (byte_Z_range d) zero_byte. Qed.

Lemma groups_nonempty fuel l s :
  (1 <= length l)%nat ->
  b32_groups (S fuel) (b32_chars l s) =
    ('(l, r, e) ← b32_group 8 (b32_chars l s); if (e : bool) then Some (unpack l) else t ← b32_groups fuel r; Some (unpack l +:+ t)).
Proof. destruct l; [cbn; lia|done]. Qed.

Lemma reads_tail s l m :
  Forall quintet l -> b32_encode s = b32_chars l "" -> (length l + S m = 8)%nat -> m ∈ [0; 2; 3; 5]%nat -> unpack l = s -> reads s l (S m).
Proof.
  intros Hl He Hn Hm Hu. split_and!; [done|done|exists 1%nat; lia|set_solver by lia|].
  intros [|fuel] Hf; [set_solver by lia|]. rewrite groups_nonempty by set_solver by lia. rewrite b32_group_padded by done. cbn [mbind option_bind]. by rewrite Hu.
Qed.

Lemma encode_reads s : exists l m, reads s l m.
Proof.
  pose proof byte_Z_range as R. induction s as [|a|a b|a b c|a b c d|a b c d e r (l & m & Hl & He & (k & Hk) & Hm & Hg)] using string5_ind.
  - exists [], 0%nat. split_and!; [done|done|by exists 0%nat|lia|]. by intros [|fuel].
  - exists (take 2 (quantum (byte_Z a) 0 0 0 0)), 6%nat. apply reads_tail; [by apply Forall_take, quantum_range|done|done|set_solver|apply unpack_1].
  - exists (take 4 (quantum (byte_Z a) (byte_Z b) 0 0 0)), 4%nat. apply reads_tail; [by apply Forall_take, quantum_range|done|done|set_solver|apply unpack_2].
  - exists (take 5 (quantum (byte_Z a) (byte_Z b) (byte_Z c) 0 0)), 3%nat.
    apply reads_tail; [by apply Forall_take, quantum_range|done|done|set_solver|apply unpack_3].
  - exists (take 7 (quantum (byte_Z a) (byte_Z b) (byte_Z c) (byte_Z d) 0)), 1%nat.
    apply reads_tail; [by apply Forall_take, quantum_range|done|done|set_solver|apply unpack_4].
  - set (q := quantum (byte_Z a) (byte_Z b) (byte_Z c) (byte_Z d) (byte_Z e)). exists (q ++ l)%list, m.
    assert (Forall quintet q) as Hq by by apply quantum_range. split_and!.
    + by apply Forall_app.
    + cbn [b32_encode]. fold q. by rewrite He, b32_chars_app.
    + exists (S k). rewrite length_app. change (length q) with 8%nat. lia.
    + done.
    + intros [|fuel] Hf; rewrite length_app in Hf; change (length q) with 8%nat in Hf; [lia|].
      rewrite b32_chars_app, groups_nonempty by (cbn; lia). rewrite b32_group_full by done. cbn [mbind option_bind].
      rewrite Hg by lia. cbn [mbind option_bind]. unfold q. by rewrite unpack_quantum.
Qed.

(** Whatever the key, its secret decodes to it. *)
Theorem secret_decodes key : b32_decode (ToUpper (pad32 (b32_encode key))) = Some key.
Proof.
  destruct (encode_reads key) as (l & m & Hl & He & (k & Hk) & Hm & Hg).
  assert (pad32 (b32_encode key) = b32_chars l (repeat_byte m "=")) as ->.
  { unfold pad32. rewrite He. unfold len. rewrite b32_chars_length. cbn [String.length].
    assert (Z.rem (Z.of_nat (length l + 0)) 8 = (8 - Z.of_nat m) mod 8) as ->.
    { rewrite Z.rem_mod_nonneg by lia. Z.to_euclidean_division_equations; lia. }
    destruct m as [|m]; [done|]. rewrite Z.mod_small by lia. rewrite decide_True by lia. rewrite b32_chars_tail. do 2 f_equal. lia. }
  unfold b32_decode. rewrite clean_digits by done. apply Hg. rewrite b32_chars_length. lia.
Qed.

(** ** Codes are six digits *)

Lemma FormatInt_len n : 0 <= n < 10 ^ 6 -> 1 <= len (FormatInt n) <= 6.
Proof.
  intros Hn. unfold FormatInt. rewrite decide_False by lia.
  assert (forall k m acc, (k < 20)%nat -> 0 <= m < 10 ^ Z.of_nat (S k) -> len acc + 1 <= len (fmt_digits 20 m acc) <= len acc + 1 + Z.of_nat k) as H.
  { generalize 20%nat. intros f k. revert f. induction k as [|k IH]; intros f m acc Hk Hm; (destruct f as [|f]; [lia|]); cbn [fmt_digits].
    - rewrite decide_True by (apply Z.div_small; cbn in Hm; lia). unfold len. cbn. lia.
    - case_decide; [unfold len; cbn; lia|]. enough (len (String (digit (m mod 10)) acc) + 1 <= len (fmt_digits f (m / 10) (String (digit (m mod 10)) acc))
        <= len (String (digit (m mod 10)) acc) + 1 + Z.of_nat k) by (unfold len in *; cbn in *; lia).
      apply IH; [lia|]. split; [apply Z.div_pos; lia|]. apply Z.div_lt_upper_bound; [lia|]. rewrite <- Z.pow_succ_r by lia.
      replace (Z.succ (Z.of_nat (S k))) with (Z.of_nat (S (S k))) by lia. lia. }
  apply (H 5%nat n "" ltac:(lia) Hn).
Qed.

Lemma hotp_len key counter : len (hotp key counter) = 6.
Proof.
  unfold hotp, Sprintf_0d. set (n := truncate _ mod _). assert (0 <= n < 10 ^ 6) as Hn by (apply Z.mod_pos_bound; done).
  pose proof (FormatInt_len n Hn) as Hl. unfold len in *. rewrite length_append, repeat_byte_length. change totpDigits with 6. lia.
Qed.

Lemma totp_encoded key counter : totp (b32_encode key) counter = hotp key counter.
Proof. unfold totp. by rewrite secret_decodes. Qed.

Lemma b32_encode_empty key : b32_encode key = "" -> key = "".
Proof. by destruct key as [|a [|b [|c [|d [|e r]]]]]. Qed.

(** What a code is checked against: the enrolled key's codes of this half minute,
    the one before and the one after. *)
Definition current_codes (key : string) (now : Z) : list string :=
  [hotp key (now / 30 - 1); hotp key (now / 30); hotp key (now / 30 + 1)].

Lemma verify_enrolled key code now :
  0 <= now -> verifyTOTPSecret (b32_encode key) code now = true <-> key <> "" /\ code ∈ current_codes key now.
Proof.
  intros Hn. unfold verifyTOTPSecret, current_codes, totpPeriodSeconds. case_decide as He.
  - apply b32_encode_empty in He as ->. split; [done|by intros [? _]].
  - rewrite Z.quot_div_nonneg by lia. cbn [existsb]. rewrite !totp_encoded, orb_false_r, !orb_true_iff, !bool_decide_eq_true.
    change (- totpAllowedDrift) with (-1). change totpAllowedDrift with 1. rewrite Z.add_0_r. change (now / 30 + -1) with (now / 30 - 1).
    assert (key <> "") by (by intros ->). set_solver.
Qed.

Lemma code_len key code now : 0 <= now -> verifyTOTPSecret (b32_encode key) code now = true -> len code = 6.
Proof. intros Hn [_ Hc]%verify_enrolled; [|done]. unfold current_codes in Hc. set_unfold. destruct Hc as [-> |[-> |[-> |[]]]]; apply hotp_len. Qed.

(** A secret that is not base32 has an empty code, which is then accepted. *)
Lemma malformed_secret_accepts_empty secret now :
  secret <> "" -> b32_decode (ToUpper (pad32 secret)) = None -> verifyTOTPSecret secret "" now = true.
Proof. intros Hs Hd. unfold verifyTOTPSecret. rewrite decide_False by done. unfold totp. by rewrite Hd. Qed.
Example malformed_ex : verifyTOTPSecret "not-base32!" "" 1700000000 = true.
Proof. apply malformed_secret_accepts_empty; [done|by vm_compute]. Qed.
