(* ===== verification/Users.v ===== *)
(** * The users of the dashboard and their JSON: cmd/dashboard/auth.go and passkey.go

    The records of the user file and of the Redis key, [json.Marshal] of a list
    of users and [json.Unmarshal] back. *)
From S2P Require Import Prelude GoString Duration Sha256 Json Url Sso Net Balancer AuthGate Login Passkey.
Open Scope string_scope.

(** ** Data *)

Record APIToken := mkToken { t_ID : string; t_Label : string; t_Hash : string; t_CreatedAt : Z; t_LastUsedAt : Z }.
Record User := mkUser {
  u_Username : string; u_Salt : string; u_PasswordHash : string; u_TOTPSecret : string; u_CreatedAt : Z;
  u_Tokens : list APIToken; u_Credentials : list StoredCredential }.
#[export] Instance APIToken_eq_dec : EqDecision APIToken.
Proof. solve_decision. Defined.
#[export] Instance CredentialFlags_eq_dec : EqDecision CredentialFlags.
Proof. solve_decision. Defined.
#[export] Instance StoredCredential_eq_dec : EqDecision StoredCredential.
Proof. solve_decision. Defined.
#[export] Instance User_eq_dec : EqDecision User.
Proof. solve_decision. Defined.

(** ** Bytes in JSON: encoding/base64's StdEncoding *)

Definition std_byte (c : ascii) : ascii := if Ascii.eqb c "-" then "+" else if Ascii.eqb c "_" then "/" else c.
Definition std_encode (s : string) : string :=
  let e := map_bytes std_byte (b64_encode s) in e +:+ repeat_byte (Z.to_nat ((- len e) mod 4)) "=".

Definition std_val (c : ascii) : option Z :=
  if Ascii.eqb c "+" then Some 62 else if Ascii.eqb c "/" then Some 63
  else if Ascii.eqb c "-" || Ascii.eqb c "_" then None else b64_val c.
Fixpoint std_bytes (s : string) : option string :=
  match s with
  | EmptyString => Some ""
  | String a (String b (String c (String d r))) =>
      a ← std_val a; b ← std_val b;
      if Ascii.eqb c "=" then if Ascii.eqb d "=" && bool_decide (r = "") then b64_bytes [a; b] else None
      else c ← std_val c;
           if Ascii.eqb d "=" then if decide (r = "") then b64_bytes [a; b; c] else None
           else d ← std_val d; g ← b64_bytes [a; b; c; d]; t ← std_bytes r; Some (g +:+ t)
  | _ => None
  end.
Fixpoint drop_newlines (s : string) : string :=
  match s with
  | EmptyString => ""
  | String c s => if Ascii.eqb c (chr 10) || Ascii.eqb c (chr 13) then drop_newlines s else String c (drop_newlines s)
  end.
Definition std_decode (s : string) : option string := std_bytes (drop_newlines s).

(** ** Marshal *)

(** The members of a struct, those of empty values left out. *)
Definition omit {A} `{EqDecision A} (zero x : A) (m : member) : list member := if decide (x = zero) then [] else [m].
Definition m_string (k s : string) : member := (k, enc_string s, JStr s).
Definition m_int (k : string) (n : Z) : member := (k, FormatInt n, JNum (FormatInt n)).
Definition m_bool (k : string) (b : bool) : member := (k, if b then "true" else "false", JBool b).
(** A [[]byte]; an empty one is nil here. *)
Definition m_bytes (k s : string) : member :=
  (k, if decide (s = "") then "null" else enc_string (std_encode s), if decide (s = "") then JNull else JStr (std_encode s)).
Definition array_text (l : list (string * json)) : string * json := ("[" +:+ Join (fst <$> l) "," +:+ "]", JArr (snd <$> l)).
Definition object_text (l : list member) : string * json := ("{" +:+ Join (member_text <$> l) "," +:+ "}", JObj (member_json <$> l)).
Definition m_array (k : string) (l : list (string * json)) : member := (k, fst (array_text l), snd (array_text l)).

Definition token_members (t : APIToken) : list member :=
  [m_string "id" (t_ID t); m_string "label" (t_Label t); m_string "hash" (t_Hash t); m_int "created_at" (t_CreatedAt t)] ++
  omit 0 (t_LastUsedAt t) (m_int "last_used_at" (t_LastUsedAt t)).
Definition cred_members (c : StoredCredential) : list member :=
  [m_bytes "id" (sc_ID c); m_bytes "public_key" (sc_PublicKey c)] ++ omit "" (sc_AAGUID c) (m_bytes "aaguid" (sc_AAGUID c)) ++
  [m_int "sign_count" (sc_SignCount c); m_string "label" (sc_Label c)] ++
  omit [] (sc_Transports c) (m_array "transports" ((fun s => (enc_string s, JStr s)) <$> sc_Transports c)) ++
  [m_int "created_at" (sc_CreatedAt c)] ++ omit 0 (sc_LastUsedAt c) (m_int "last_used_at" (sc_LastUsedAt c)) ++
  let f := sc_Flags c in
  omit false (UserPresent f) (m_bool "flag_up" (UserPresent f)) ++ omit false (UserVerified f) (m_bool "flag_uv" (UserVerified f)) ++
  omit false (BackupEligible f) (m_bool "flag_be" (BackupEligible f)) ++ omit false (BackupState f) (m_bool "flag_bs" (BackupState f)).
Definition user_members (u : User) : list member :=
  [m_string "username" (u_Username u); m_string "salt" (u_Salt u); m_string "password_hash" (u_PasswordHash u);
   m_string "totp_secret" (u_TOTPSecret u); m_int "created_at" (u_CreatedAt u)] ++
  omit [] (u_Tokens u) (m_array "tokens" (object_text ∘ token_members <$> u_Tokens u)) ++
  omit [] (u_Credentials u) (m_array "credentials" (object_text ∘ cred_members <$> u_Credentials u)).

(** [json.Marshal] of a slice that is not nil. *)
Definition marshal_users (us : list User) : string := fst (array_text (object_text ∘ user_members <$> us)).

(** ** Unmarshal *)

(** A value decoded over the one that is there. *)
Definition over {A} (dec : json -> option A) (j : json) (x : A) : option A := match j with JNull => Some x | _ => dec j end.

(** A slice decoded over a backing store and its length, once for each value
    given for the field. *)
Fixpoint elems_over {A} (into : json -> A -> option A) (zero : A) (vs : list json) (bk : list A) : option (list A) :=
  match vs with
  | [] => Some bk
  | v :: vs => x ← into v (List.hd zero bk); t ← elems_over into zero vs (tail bk); Some (x :: t)
  end.
Fixpoint slice_over {A} (into : json -> A -> option A) (zero : A) (vs : list json) (bk : list A) (n : nat) : option (list A) :=
  match vs with
  | [] => Some (take n bk)
  | JNull :: vs => slice_over into zero vs [] 0
  | JArr [] :: vs => slice_over into zero vs [] 0
  | JArr l :: vs => bk ← elems_over into zero l bk; slice_over into zero vs bk (length l)
  | _ :: _ => None
  end.

Definition dec_uint (w : Z) (j : json) : option Z :=
  match j with
  | JNum n => if all_bytes is_digit n then x ← parse_digits n 0; if decide (x < 2 ^ w) then Some x else None else None
  | _ => None
  end.
Definition dec_bool (j : json) : option bool := match j with JBool b => Some b | _ => None end.

Fixpoint string_bytes (s : string) : list Z := match s with EmptyString => [] | String c s => byte_Z c :: string_bytes s end.
(** A [[]byte]: base64, or an array of numbers over what is there. *)
Fixpoint bytes_over (vs : list json) (bk : list Z) (n : nat) : option string :=
  match vs with
  | [] => Some (foldr (fun z => String (Z_byte z)) "" (take n bk))
  | JNull :: vs => bytes_over vs [] 0
  | JStr s :: vs => b ← std_decode s; bytes_over vs (string_bytes b) (String.length b)
  | JArr [] :: vs => bytes_over vs [] 0
  | JArr l :: vs => bk ← elems_over (over (dec_uint 8)) 0 l bk; bytes_over vs bk (length l)
  | _ :: _ => None
  end.

Definition struct_over {A} (f : list (string * json) -> A -> option A) (j : json) (x : A) : option A :=
  match j with JNull => Some x | JObj l => f l x | _ => None end.

Definition token_names : list string := ["id"; "label"; "hash"; "created_at"; "last_used_at"].
Definition token_over : json -> APIToken -> option APIToken := struct_over (fun l t =>
  let vs k := field_values token_names k l in
  i ← decode_all dec_string (vs "id") (t_ID t); la ← decode_all dec_string (vs "label") (t_Label t); h ← decode_all dec_string (vs "hash") (t_Hash t);
  c ← decode_all dec_int64 (vs "created_at") (t_CreatedAt t); u ← decode_all dec_int64 (vs "last_used_at") (t_LastUsedAt t);
  Some (mkToken i la h c u)).

Definition cred_names : list string :=
  ["id"; "public_key"; "aaguid"; "sign_count"; "label"; "transports"; "created_at"; "last_used_at"; "flag_up"; "flag_uv"; "flag_be"; "flag_bs"].
Definition cred_over : json -> StoredCredential -> option StoredCredential := struct_over (fun l c =>
  let vs k := field_values cred_names k l in
  let raw k s := bytes_over (vs k) (string_bytes s) (String.length s) in
  i ← raw "id" (sc_ID c); pk ← raw "public_key" (sc_PublicKey c); aa ← raw "aaguid" (sc_AAGUID c);
  n ← decode_all (dec_uint 32) (vs "sign_count") (sc_SignCount c); la ← decode_all dec_string (vs "label") (sc_Label c);
  ts ← slice_over (over dec_string) "" (vs "transports") (sc_Transports c) (length (sc_Transports c));
  ca ← decode_all dec_int64 (vs "created_at") (sc_CreatedAt c); lu ← decode_all dec_int64 (vs "last_used_at") (sc_LastUsedAt c);
  let f := sc_Flags c in
  up ← decode_all dec_bool (vs "flag_up") (UserPresent f); uv ← decode_all dec_bool (vs "flag_uv") (UserVerified f);
  be ← decode_all dec_bool (vs "flag_be") (BackupEligible f); bs ← decode_all dec_bool (vs "flag_bs") (BackupState f);
  Some (mkStored i pk aa n la ts ca lu (mkFlags up uv be bs))).

Definition zero_token : APIToken := mkToken "" "" "" 0 0.
Definition zero_cred : StoredCredential := mkStored "" "" "" 0 "" [] 0 0 (mkFlags false false false false).
Definition zero_user : User := mkUser "" "" "" "" 0 [] [].
Definition user_names : list string := ["username"; "salt"; "password_hash"; "totp_secret"; "created_at"; "tokens"; "credentials"].
Definition user_over : json -> User -> option User := struct_over (fun l u =>
  let vs k := field_values user_names k l in
  n ← decode_all dec_string (vs "username") (u_Username u); sa ← decode_all dec_string (vs "salt") (u_Salt u);
  h ← decode_all dec_string (vs "password_hash") (u_PasswordHash u); s ← decode_all dec_string (vs "totp_secret") (u_TOTPSecret u);
  ca ← decode_all dec_int64 (vs "created_at") (u_CreatedAt u);
  ts ← slice_over token_over zero_token (vs "tokens") (u_Tokens u) (length (u_Tokens u));
  cs ← slice_over cred_over zero_cred (vs "credentials") (u_Credentials u) (length (u_Credentials u));
  Some (mkUser n sa h s ca ts cs)).

(** [json.Unmarshal] into a nil slice of users. *)
Definition unmarshal_users (s : string) : option (list User) := j ← parse s; slice_over user_over zero_user [j] [] 0.

(** * What is written is read back *)

Definition token_ok (t : APIToken) : Prop :=
  ascii_string (t_ID t) /\ ascii_string (t_Label t) /\ ascii_string (t_Hash t) /\ int64 (t_CreatedAt t) /\ int64 (t_LastUsedAt t).
Definition cred_ok (c : StoredCredential) : Prop :=
  0 <= sc_SignCount c < 2 ^ 32 /\ ascii_string (sc_Label c) /\ Forall ascii_string (sc_Transports c) /\ int64 (sc_CreatedAt c) /\ int64 (sc_LastUsedAt c).
Definition user_ok (u : User) : Prop :=
  ascii_string (u_Username u) /\ ascii_string (u_Salt u) /\ ascii_string (u_PasswordHash u) /\ ascii_string (u_TOTPSecret u) /\
  int64 (u_CreatedAt u) /\ Forall token_ok (u_Tokens u) /\ Forall cred_ok (u_Credentials u).

(** ** Base64 *)

(** The bytes of the encoding. *)
Definition std_digit (n : Z) : ascii := std_byte (b64_digit n).
Definition no_newline (c : ascii) : Prop := Ascii.eqb c (chr 10) || Ascii.eqb c (chr 13) = false.
Lemma std_digit_spec n : 0 <= n < 64 ->
  std_val (std_digit n) = Some n /\ Ascii.eqb (std_digit n) "=" = false /\ no_newline (std_digit n) /\ in_N (std_digit n) 0 127 = true.
Proof.
  revert n. unfold no_newline. apply (small_Z (fun n => std_val (std_digit n) = Some n /\ Ascii.eqb (std_digit n) "=" = false /\
    Ascii.eqb (std_digit n) (chr 10) || Ascii.eqb (std_digit n) (chr 13) = false /\ in_N (std_digit n) 0 127 = true) 64). by vm_compute.
Qed.

Lemma std_encode_cons a b c r :
  std_encode (String a (String b (String c r))) =
  String (std_digit (byte_Z a / 4)) (String (std_digit (byte_Z a mod 4 * 16 + byte_Z b / 16))
    (String (std_digit (byte_Z b mod 16 * 4 + byte_Z c / 64)) (String (std_digit (byte_Z c mod 64)) (std_encode r)))).
Proof.
  unfold std_encode. cbn [b64_encode map_bytes]. cbn zeta. set (e := map_bytes std_byte (b64_encode r)).
  match goal with |- context [len (String ?x (String ?y (String ?z (String ?w e))))] =>
    replace ((- len (String x (String y (String z (String w e))))) mod 4) with ((- len e) mod 4) end; [done|].
  unfold len. cbn [String.length]. rewrite <- (Z.mod_add _ (-1)) by lia. f_equal. lia.
Qed.

Lemma std_decode_encode s : std_decode (std_encode s) = Some s /\ ascii_string (std_encode s).
Proof.
  unfold std_decode, ascii_string. pose proof byte_Z_range as R.
  enough (drop_newlines (std_encode s) = std_encode s /\ std_bytes (std_encode s) = Some s /\ all_bytes (fun c => in_N c 0 127) (std_encode s) = true)
    as (-> & ? & ?) by done.
  induction s as [|a|a b|a b c r (IH1 & IH2 & IH3)] using string3_ind; [done|..].
  - destruct (sextets _ _ _ (R a) (R a) (R a)) as [(H1&H2&_) (E&_)].
    change (std_encode (String a "")) with (String (std_digit (byte_Z a / 4)) (String (std_digit (byte_Z a mod 4 * 16)) "==")).
    destruct (std_digit_spec _ H1) as (V1 & _ & N1 & A1), (std_digit_spec _ H2) as (V2 & _ & N2 & A2).
    unfold no_newline in *. cbn [drop_newlines std_bytes all_bytes]. rewrite N1, N2, V1, V2, A1, A2. cbn. by rewrite E, Z_byte_byte.
  - destruct (sextets _ _ _ (R a) (R b) (R b)) as [(H1&_&H2&H3&_) (_&E1&E2&_)].
    change (std_encode (String a (String b ""))) with (String (std_digit (byte_Z a / 4)) (String (std_digit (byte_Z a mod 4 * 16 + byte_Z b / 16))
      (String (std_digit (byte_Z b mod 16 * 4)) "="))).
    destruct (std_digit_spec _ H1) as (V1 & _ & N1 & A1), (std_digit_spec _ H2) as (V2 & _ & N2 & A2), (std_digit_spec _ H3) as (V3 & Q3 & N3 & A3).
    unfold no_newline in *. cbn [drop_newlines std_bytes all_bytes]. rewrite N1, N2, N3, V1, V2, V3, Q3, A1, A2, A3. cbn. by rewrite E1, E2, !Z_byte_byte.
  - destruct (sextets _ _ _ (R a) (R b) (R c)) as [(H1&_&H2&_&H3&H4) (_&E1&_&E2&E3)]. rewrite std_encode_cons.
    destruct (std_digit_spec _ H1) as (V1 & _ & N1 & A1), (std_digit_spec _ H2) as (V2 & _ & N2 & A2), (std_digit_spec _ H3) as (V3 & Q3 & N3 & A3),
      (std_digit_spec _ H4) as (V4 & Q4 & N4 & A4).
    unfold no_newline in *. cbn [drop_newlines std_bytes all_bytes]. rewrite N1, N2, N3, N4, V1, V2, V3, V4, Q3, Q4, A1, A2, A3, A4, IH1, IH2, IH3.
    cbn. by rewrite E1, E2, E3, !Z_byte_byte.
Qed.

(** ** Members *)

Lemma readable_string s : ascii_string s -> readable (enc_string s) (JStr s).
Proof. apply (readable_flat (inl s)). Qed.

Lemma m_string_ok k s : ascii_string k -> ascii_string s -> member_readable (m_string k s).
Proof. intros. split; [done|]. by apply readable_string. Qed.
Lemma m_int_ok k n : ascii_string k -> int64 n -> member_readable (m_int k n).
Proof. intros. split; [done|]. by apply (readable_flat (inr n)). Qed.
Lemma m_bool_ok k b : ascii_string k -> member_readable (m_bool k b).
Proof. intros. split; [done|]. destruct b; [apply readable_true|apply readable_false]. Qed.
Lemma m_bytes_ok k s : ascii_string k -> member_readable (m_bytes k s).
Proof. intros. split; [done|]. cbn. case_decide; [apply readable_null|]. apply readable_string, std_decode_encode. Qed.
Lemma m_array_ok k l : ascii_string k -> Forall (fun e => readable (fst e) (snd e)) l -> member_readable (m_array k l).
Proof. intros. split; [done|]. cbn. by apply closed_readable, closed_array. Qed.
Lemma omit_ok {A} `{EqDecision A} (zero x : A) m : member_readable m -> Forall member_readable (omit zero x m).
Proof. intros. unfold omit. case_decide; auto. Qed.
Lemma object_ok l : Forall member_readable l -> readable (fst (object_text l)) (snd (object_text l)).
Proof. intros. by apply closed_readable, closed_object. Qed.

Create HintDb members.
#[export] Hint Resolve m_string_ok m_int_ok m_bool_ok m_bytes_ok m_array_ok omit_ok object_ok Forall_nil_2 Forall_cons_2 Forall_app_2 : members.
#[export] Hint Extern 1 (ascii_string _) => (assumption || reflexivity) : members.
#[export] Hint Extern 1 (int64 _) => assumption : members.

Lemma token_readable t : token_ok t -> readable (fst (object_text (token_members t))) (snd (object_text (token_members t))).
Proof. intros (? & ? & ? & ? & ?). unfold token_members. auto 20 with members. Qed.

Lemma objects_ok {A} (P : A -> Prop) (f : A -> list member) l :
  (forall x, P x -> readable (fst (object_text (f x))) (snd (object_text (f x)))) -> Forall P l ->
  Forall (fun e => readable (fst e) (snd e)) (object_text ∘ f <$> l).
Proof. intros Hf Hl. apply Forall_fmap. eapply Forall_impl; [exact Hl|]. exact Hf. Qed.

Lemma cred_readable c : cred_ok c -> readable (fst (object_text (cred_members c))) (snd (object_text (cred_members c))).
Proof.
  intros (Hn & ? & Ht & ? & ?). assert (int64 (sc_SignCount c)) by (unfold int64, minInt64, maxInt64; lia).
  assert (Forall (fun e => readable (fst e) (snd e)) ((fun s => (enc_string s, JStr s)) <$> sc_Transports c)).
  { apply Forall_fmap. eapply Forall_impl; [exact Ht|]. intros s Hs. by apply readable_string. }
  unfold cred_members. auto 40 with members.
Qed.
Lemma user_readable u : user_ok u -> readable (fst (object_text (user_members u))) (snd (object_text (user_members u))).
Proof.
  intros (? & ? & ? & ? & ? & Ht & Hc). pose proof (objects_ok _ _ _ token_readable Ht). pose proof (objects_ok _ _ _ cred_readable Hc).
  unfold user_members. auto 40 with members.
Qed.

(** ** Fields *)

Definition key (m : member) : string := fst (fst m).
Definition shown {A} `{EqDecision A} (zero x : A) (j : json) : list json := if decide (x = zero) then [] else [j].

Section fields.
Context (names : list string) (name : string).
Lemma fv_app l1 l2 : field_values names name (l1 ++ l2) = (field_values names name l1 ++ field_values names name l2)%list.
Proof. unfold field_values. by rewrite filter_app, fmap_app. Qed.
Lemma fv_nil : field_values names name [] = [].
Proof. done. Qed.
Lemma fv_hit m l : field_matches names name (key m) = true ->
  field_values names name (member_json m :: l) = snd m :: field_values names name l.
Proof. intros H. unfold field_values. by rewrite filter_cons_True. Qed.
Lemma fv_miss m l : field_matches names name (key m) = false -> field_values names name (member_json m :: l) = field_values names name l.
Proof. intros H. unfold field_values. rewrite filter_cons_False; [done|]. unfold key in H. cbn. by rewrite H. Qed.
Lemma fv_omit_hit {A} `{EqDecision A} (zero x : A) m : field_matches names name (key m) = true ->
  field_values names name (member_json <$> omit zero x m) = shown zero x (snd m).
Proof. intros H. unfold omit, shown. case_decide; [done|]. cbn [fmap list_fmap]. by rewrite fv_hit. Qed.
Lemma fv_omit_miss {A} `{EqDecision A} (zero x : A) m : field_matches names name (key m) = false ->
  field_values names name (member_json <$> omit zero x m) = [].
Proof. intros H. unfold omit. case_decide; [done|]. cbn [fmap list_fmap]. by rewrite fv_miss. Qed.
End fields.

Ltac fields :=
  repeat first
    [ rewrite fv_nil | rewrite fv_hit by reflexivity | rewrite fv_miss by reflexivity | rewrite fv_omit_hit by reflexivity | rewrite fv_omit_miss by reflexivity ];
  cbn [app].

Lemma dec_int_omit n : int64 n -> decode_all dec_int64 (shown 0 n (JNum (FormatInt n))) 0 = Some n.
Proof. intros Hn. unfold shown. case_decide as H; [by subst|]. cbn. by rewrite ParseInt_FormatInt. Qed.
Lemma dec_int_one n : int64 n -> decode_all dec_int64 [JNum (FormatInt n)] 0 = Some n.
Proof. intros Hn. cbn. by rewrite ParseInt_FormatInt. Qed.
Lemma dec_bool_omit b : decode_all dec_bool (shown false b (JBool b)) false = Some b.
Proof. by destruct b. Qed.

Lemma string_bytes_back s : foldr (fun z => String (Z_byte z)) "" (string_bytes s) = s.
Proof. induction s as [|c s IH]; [done|]. cbn. by rewrite IH, Z_byte_byte. Qed.
Lemma string_bytes_length s : length (string_bytes s) = String.length s.
Proof. induction s as [|c s IH]; cbn; congruence. Qed.
Lemma bytes_one s : bytes_over [if decide (s = "") then JNull else JStr (std_encode s)] [] 0 = Some s.
Proof.
  case_decide as H; [by subst|]. cbn [bytes_over]. rewrite (proj1 (std_decode_encode s)). cbn [mbind option_bind].
  rewrite take_ge by by rewrite string_bytes_length. by rewrite string_bytes_back.
Qed.
Lemma bytes_omit s : bytes_over (shown "" s (if decide (s = "") then JNull else JStr (std_encode s))) [] 0 = Some s.
Proof. pose proof (bytes_one s) as H. unfold shown. destruct (decide (s = "")) as [->|]; done. Qed.

(** A slice is read back when its elements are. *)
Lemma slice_one {A} (into : json -> A -> option A) zero (f : A -> json) l :
  Forall (fun x => into (f x) zero = Some x) l -> slice_over into zero [JArr (f <$> l)] [] 0 = Some l.
Proof.
  intros Hl. assert (elems_over into zero (f <$> l) [] = Some l) as He.
  { induction Hl as [|x l Hx _ IH]; [done|]. cbn [fmap list_fmap elems_over List.hd tail]. rewrite Hx. cbn [mbind option_bind]. by rewrite IH. }
  destruct l as [|x l]; [done|]. rewrite fmap_cons in *. cbn [slice_over]. rewrite He. cbn [mbind option_bind].
  f_equal. apply take_ge. cbn [length]. by rewrite length_fmap.
Qed.
Lemma slice_omit {A} `{EqDecision (list A)} (into : json -> A -> option A) zero (f : A -> json) l :
  Forall (fun x => into (f x) zero = Some x) l -> slice_over into zero (shown [] l (JArr (f <$> l))) [] 0 = Some l.
Proof. intros Hl. unfold shown. case_decide as H; [by subst|]. by apply slice_one. Qed.

Lemma dec_uint_FormatInt w n : 0 <= n < 2 ^ w -> n <= maxInt64 -> dec_uint w (JNum (FormatInt n)) = Some n.
Proof.
  intros Hw Hn. destruct (FormatInt_shape n ltac:(unfold minInt64; lia)) as (c & a & Hc & Ha & _ & Hf).
  assert (FormatInt n = String c a /\ parse_digits (FormatInt n) 0 = Some n) as [E Hp].
  { unfold maxInt64 in Hn. revert Hf. unfold FormatInt. rewrite decide_False by lia. destruct (fmt_digits_first 20 n "") as (c' & r & Hr & Hc'); [lia|lia|].
    destruct (parse_fmt_digits 20 n "" 0) as [Hp _]; [cbn; lia|lia|]. rewrite Hp, Hr. cbn [parse_digits].
    intros [[= -> ->]|[= -> _]]; [|done]. split; [done|]. by f_equal. }
  unfold dec_uint. rewrite Hp, E. cbn [all_bytes]. rewrite Hc, Ha. cbn [andb mbind option_bind]. by rewrite decide_True by lia.
Qed.
Lemma dec_uint_one n : 0 <= n < 2 ^ 32 -> decode_all (dec_uint 32) [JNum (FormatInt n)] 0 = Some n.
Proof. intros Hn. cbn [decode_all]. rewrite dec_uint_FormatInt by (done || (unfold maxInt64; lia)). reflexivity. Qed.
Lemma dec_string_one s x : decode_all dec_string [JStr s] x = Some s.
Proof. done. Qed.

Create HintDb decoding.
#[export] Hint Rewrite dec_int_omit dec_int_one dec_uint_one using assumption : decoding.
#[export] Hint Rewrite dec_bool_omit bytes_one bytes_omit dec_string_one : decoding.

Lemma token_back t : token_ok t -> token_over (snd (object_text (token_members t))) zero_token = Some t.
Proof.
  intros (? & ? & ? & ? & ?). unfold token_over, object_text, token_members. cbn [snd struct_over]. rewrite fmap_app. cbn [fmap list_fmap].
  rewrite !fv_app. fields. cbn [zero_token t_ID t_Label t_Hash t_CreatedAt t_LastUsedAt snd m_string m_int].
  autorewrite with decoding. cbn [mbind option_bind].
  by destruct t.
Qed.

Lemma over_string s : over dec_string (JStr s) "" = Some s.
Proof. done. Qed.
Lemma transports_back l : slice_over (over dec_string) "" (shown [] l (JArr (snd <$> ((fun s => (enc_string s, JStr s)) <$> l)))) [] 0 = Some l.
Proof.
  rewrite <- list_fmap_compose. apply (slice_omit _ _ JStr). rewrite Forall_forall. intros s _. apply over_string.
Qed.

Lemma cred_back c : cred_ok c -> cred_over (snd (object_text (cred_members c))) zero_cred = Some c.
Proof.
  intros (? & ? & _ & ? & ?). unfold cred_over, object_text, cred_members. cbn [snd struct_over]. rewrite !fmap_app. cbn [fmap list_fmap].
  rewrite !fv_app. fields.
  cbn [zero_cred sc_ID sc_PublicKey sc_AAGUID sc_SignCount sc_Label sc_Transports sc_CreatedAt sc_LastUsedAt sc_Flags UserPresent UserVerified BackupEligible BackupState
       snd m_string m_int m_bytes m_bool m_array array_text string_bytes String.length length].
  rewrite ?app_nil_r. autorewrite with decoding. cbn [mbind option_bind]. rewrite transports_back.
  by destruct c as [? ? ? ? ? ? ? ? []].
Qed.

Lemma user_back u : user_ok u -> user_over (snd (object_text (user_members u))) zero_user = Some u.
Proof.
  intros (? & ? & ? & ? & ? & Ht & Hc). unfold user_over, object_text at 1, user_members. cbn [snd struct_over]. rewrite !fmap_app. cbn [fmap list_fmap].
  rewrite !fv_app. fields.
  cbn [zero_user u_Username u_Salt u_PasswordHash u_TOTPSecret u_CreatedAt u_Tokens u_Credentials snd m_string m_int m_array array_text length].
  rewrite ?app_nil_r. autorewrite with decoding. cbn [mbind option_bind]. rewrite <- !list_fmap_compose.
  rewrite (slice_omit token_over zero_token (snd ∘ (object_text ∘ token_members))) by (eapply Forall_impl; [exact Ht|]; exact token_back).
  cbn [mbind option_bind].
  rewrite (slice_omit cred_over zero_cred (snd ∘ (object_text ∘ cred_members))) by (eapply Forall_impl; [exact Hc|]; exact cred_back).
  by destruct u.
Qed.

Lemma users_back us : Forall user_ok us -> unmarshal_users (marshal_users us) = Some us.
Proof.
  intros Hus. unfold unmarshal_users, marshal_users.
  assert (closed (fst (array_text (object_text ∘ user_members <$> us))) (snd (array_text (object_text ∘ user_members <$> us)))) as Hc.
  { apply closed_array. apply (objects_ok user_ok); [apply user_readable|done]. }
  rewrite (parse_closed _ _ Hc). cbn [mbind option_bind array_text snd]. rewrite <- list_fmap_compose.
  apply slice_one. eapply Forall_impl; [exact Hus|]. exact user_back.
Qed.
