(* ===== verification/AuthStore.v ===== *)
(** * The user store of the dashboard: cmd/dashboard/auth.go, authredis.go and passkey.go

    Users with a password and a second factor, their two-phase creation, tokens
    and passkeys; the single write path [mutateUsers], to the file or to a key of
    Redis shared with other instances; session cookies and the two guards of the
    API. The clock, random bytes, the outcome of writing the file and what Redis
    and the other instances do are arguments. *)
From S2P Require Import Prelude GoString Duration Http Sha256 Json Url Sso Net Balancer AuthGate Login Passkey Totp Users.
Open Scope string_scope.

(** ** State *)

Definition sessionCookie : string := "goproxy_session".
Definition sessionLifetime : Z := 8 * Hour.
Definition elevatedLifetime : Z := sessionLifetime.
Definition pbkdf2Iterations : N := 200000%N.
Definition pbkdf2KeyLen : Z := 32.
Definition apiTokenPrefix : string := "pmt_".
Definition internalUser : string := "mcp".
Definition pendingTTL : Z := 10 * Minute.

Record pendingUser := mkPendingUser { pu_user : User; pu_expiresAt : Z }.

(** The fields of the single-user schema of old. *)
Record Legacy := mkLegacy { lg_Salt : string; lg_PasswordHash : string; lg_TOTPSecret : string; lg_CreatedAt : Z }.
Record authData := mkData { ad_CookieSecret : string; ad_Users : list User; ad_ServiceTokens : list APIToken; ad_Legacy : Legacy }.

Record AuthStore := mkStore {
  as_data : authData;
  as_pending : gmap string pendingUser;   (* by name in lower case *)
  as_redis : bool;                        (* txRunner is set *)
  as_internalToken : string;              (* the process's own credential *)
}.
Definition users (s : AuthStore) : list User := ad_Users (as_data s).
Definition set_data (d : authData) (s : AuthStore) : AuthStore := mkStore d (as_pending s) (as_redis s) (as_internalToken s).
Definition set_users (us : list User) (s : AuthStore) : AuthStore :=
  set_data (mkData (ad_CookieSecret (as_data s)) us (ad_ServiceTokens (as_data s)) (ad_Legacy (as_data s))) s.
Definition set_service_tokens (ts : list APIToken) (s : AuthStore) : AuthStore :=
  set_data (mkData (ad_CookieSecret (as_data s)) (users s) ts (ad_Legacy (as_data s))) s.
Definition set_secret (c : string) (s : AuthStore) : AuthStore :=
  set_data (mkData c (users s) (ad_ServiceTokens (as_data s)) (ad_Legacy (as_data s))) s.
Definition set_pending (p : gmap string pendingUser) (s : AuthStore) : AuthStore := mkStore (as_data s) p (as_redis s) (as_internalToken s).

(** The single user of the old schema becomes the first of the list. *)
Definition migrateIfNeeded (d : authData) : authData :=
  let l := ad_Legacy d in
  if decide (ad_Users d = [] /\ lg_PasswordHash l <> "") then
    mkData (ad_CookieSecret d) [mkUser "admin" (lg_Salt l) (lg_PasswordHash l) (lg_TOTPSecret l) (lg_CreatedAt l) [] []]
      (ad_ServiceTokens d) (mkLegacy "" "" "" 0)
  else d.

Definition IsSetup (s : AuthStore) : bool := negb (bool_decide (users s = [])).

Definition named (username : string) (u : User) : bool := EqualFold (u_Username u) username.
Definition findUser (s : AuthStore) (username : string) : option User := find_first (named username) (users s).
Fixpoint userIndex (us : list User) (username : string) : option nat :=
  match us with
  | [] => None
  | u :: us => if named username u then Some O else S <$> userIndex us username
  end.

(** ** Mutations

    The functions the call sites pass to [mutateUsers]. *)

Inductive mutation :=
| Append (u : User)
| AddToken (username : string) (t : APIToken)
| DeleteToken (username id : string)
| DeleteUser (username : string)
| AddCredential (username : string) (c : StoredCredential)
| DeleteCredential (username idKey : string)
| updateCredential (username credID : string) (signCount : Z) (f : CredentialFlags) (now : Z).

Definition not_found (username : string) : string := "user " +:+ Quote username +:+ " not found".

Definition set_tokens (ts : list APIToken) (u : User) : User :=
  mkUser (u_Username u) (u_Salt u) (u_PasswordHash u) (u_TOTPSecret u) (u_CreatedAt u) ts (u_Credentials u).
Definition set_credentials (cs : list StoredCredential) (u : User) : User :=
  mkUser (u_Username u) (u_Salt u) (u_PasswordHash u) (u_TOTPSecret u) (u_CreatedAt u) (u_Tokens u) cs.

(** The position of the first element that satisfies [p]. *)
Fixpoint index_of {A} (p : A -> bool) (l : list A) : option nat :=
  match l with
  | [] => None
  | x :: l => if p x then Some O else S <$> index_of p l
  end.

(** [f] on the user of the name. *)
Definition on_user (us : list User) (username : string) (f : User -> string + User) : string + list User :=
  match userIndex us username with
  | None => inl (not_found username)
  | Some i => match us !! i with
              | Some u => match f u with inl e => inl e | inr u => inr (<[i := u]> us) end
              | None => inl (not_found username)
              end
  end.

Definition token_is (id : string) (t : APIToken) : bool := bool_decide (t_ID t = id).
Definition cred_is (idKey : string) (c : StoredCredential) : bool := bool_decide (credIDKey (sc_ID c) = idKey).

Definition append_user (u : User) (us : list User) : string + list User := inr (us ++ [u])%list.
Definition add_token (n : string) (t : APIToken) (us : list User) : string + list User :=
  on_user us n (fun u => inr (set_tokens (u_Tokens u ++ [t])%list u)).
Definition delete_token (n id : string) (us : list User) : string + list User :=
  on_user us n (fun u =>
    match index_of (token_is id) (u_Tokens u) with
    | Some j => inr (set_tokens (delete j (u_Tokens u)) u)
    | None => inl ("token " +:+ Quote id +:+ " not found")
    end).
Definition delete_user (n : string) (us : list User) : string + list User :=
  if decide (length us <= 1)%nat then inl "cannot delete the last user" else
  match userIndex us n with Some i => inr (delete i us) | None => inl (not_found n) end.
Definition add_credential (n : string) (c : StoredCredential) (us : list User) : string + list User :=
  on_user us n (fun u => inr (set_credentials (u_Credentials u ++ [c])%list u)).
Definition delete_credential (n k : string) (us : list User) : string + list User :=
  on_user us n (fun u =>
    match index_of (cred_is k) (u_Credentials u) with
    | Some j => inr (set_credentials (delete j (u_Credentials u)) u)
    | None => inl "credential not found"
    end).
Definition update_credential (n id : string) (sc : Z) (f : CredentialFlags) (now : Z) (us : list User) : string + list User :=
  on_user us n (fun u =>
    match update_first id sc f now (u_Credentials u) with
    | Some cs => inr (set_credentials cs u)
    | None => inl "credential not found"
    end).

Definition apply (m : mutation) (us : list User) : string + list User :=
  match m with
  | Append u => append_user u us
  | AddToken n t => add_token n t us
  | DeleteToken n id => delete_token n id us
  | DeleteUser n => delete_user n us
  | AddCredential n c => add_credential n c us
  | DeleteCredential n k => delete_credential n k us
  | updateCredential n id sc f now => update_credential n id sc f now us
  end.

(** The users' token and passkey arrays are shared by [localUsersCopy]: what a
    mutation of the copy leaves in the original. A deletion has moved the rest of
    the array down, its last element is there twice. *)
Definition shifted {A} (j : nat) (l : list A) : list A := (delete j l ++ option_list (last l))%list.
Definition leaves (m : mutation) (us : list User) : list User :=
  let on n f := match userIndex us n with Some i => alter f i us | None => us end in
  match m with
  | DeleteToken n id => on n (fun u => match index_of (token_is id) (u_Tokens u) with
                                       | Some j => set_tokens (shifted j (u_Tokens u)) u | None => u end)
  | DeleteCredential n k => on n (fun u => match index_of (cred_is k) (u_Credentials u) with
                                           | Some j => set_credentials (shifted j (u_Credentials u)) u | None => u end)
  | updateCredential n id sc f now => on n (fun u => match update_first id sc f now (u_Credentials u) with
                                                     | Some cs => set_credentials cs u | None => u end)
  | _ => us
  end.

(** ** The write path *)

Definition maxMutateRetries : nat := 10.

(** One attempt at the key, as Redis and the other instances make it: their
    writes (or deletions) before the WATCH, between it and the GET, and between
    the GET and the end; a failed GET; an EXEC whose reply is lost, which may
    have been carried out. *)
Record attempt := mkAttempt {
  at_before : list (option string);
  at_watched : list (option string);
  at_read : list (option string);
  at_get : option string;
  at_exec : option (string * bool);
}.
Definition after (ws : list (option string)) (key : option string) : option string := default key (last ws).

Inductive tx_result := Committed | Conflict | Failed (err : string).

(** [redisTxRunner.RunTx]; the transaction fails when the key was written since
    the WATCH. *)
Definition RunTx (key : option string) (a : attempt) (fn : option string -> string + string) : tx_result * option string :=
  let key := after (at_watched a) (after (at_before a) key) in
  let later := after (at_read a) key in
  match at_get a with
  | Some err => (Failed err, later)
  | None =>
      match fn key with
      | inl err => (Failed err, later)
      | inr newVal =>
          let clean := bool_decide (at_watched a ++ at_read a = [])%list in
          match at_exec a with
          | Some (err, carried) => (Failed err, if carried && clean then Some newVal else later)
          | None => if clean then (Committed, Some newVal) else (Conflict, later)
          end
      end
  end.

Section json.
(** The text of [json.Unmarshal]'s error for bytes it refuses. *)
Context (json_error : string -> string).

(** The users a mutation starts from: those of the key, or our own if it has none. *)
Definition current_users (key : option string) (s : AuthStore) : string + list User :=
  match key with
  | None | Some "" => inr (users s)
  | Some b => match unmarshal_users b with Some us => inr us | None => inl (json_error b) end
  end.
(** Whether they are our own. *)
Definition from_local (key : option string) : bool := bool_decide (key = None \/ key = Some "").

Definition mutated (m : mutation) (s : AuthStore) (key : option string) : string + list User :=
  match current_users key s with inl e => inl e | inr us => apply m us end.

(** What an attempt leaves of our own users. *)
Definition touched (m : mutation) (a : attempt) (key : option string) (s : AuthStore) : AuthStore :=
  let key := after (at_watched a) (after (at_before a) key) in
  if decide (at_get a = None /\ from_local key = true) then set_users (leaves m (users s)) s else s.

Fixpoint mutate_redis (n k : nat) (attempts : nat -> attempt) (m : mutation) (s : AuthStore) (key : option string)
  : option string * AuthStore * option string :=
  match n with
  | O => (Some ("mutateUsers: exceeded " +:+ FormatInt (Z.of_nat maxMutateRetries) +:+ " retries on conflict"), s, key)
  | S n =>
      let a := attempts k in
      let seen := after (at_watched a) (after (at_before a) key) in
      let '(res, key') := RunTx key a (fun cur => match mutated m s cur with inl e => inl e | inr us => inr (marshal_users us) end) in
      match res with
      | Committed => (None, match mutated m s seen with inr us => set_users us s | inl _ => s end, key')
      | Conflict => mutate_redis n (S k) attempts m (touched m a key s) key'
      | Failed err => (Some err, touched m a key s, key')
      end
  end.

(** The world of a mutation: whether the file can be written, the attempts at
    the key. *)
Record world := mkWorld { w_saved : option string; w_attempts : nat -> attempt }.

(** The error, if any. A local write that fails has changed the users in memory;
    once Redis has accepted a change, the file's error is only logged. *)
Definition mutateUsers (w : world) (m : mutation) (s : AuthStore) (key : option string) : option string * AuthStore * option string :=
  if as_redis s then mutate_redis maxMutateRetries 0 (w_attempts w) m s key else
  match apply m (users s) with
  | inl err => (Some err, s, key)
  | inr us => (w_saved w, set_users us s, key)
  end.

(** ** Following the key *)

Definition errTxConflict : string := "authredis: concurrent modification, retry".

(** A round of the import: what the others write before its GET, whether that
    fails, and the attempt to seed the key. *)
Record round := mkRound { rd_before : list (option string); rd_get : option string; rd_seed : attempt }.

(** A round in which another instance wins the seed is followed by one more;
    [None] when there are no more. *)
Fixpoint syncFromRedisOrImport (rounds : list round) (s : AuthStore) (key : option string) : option (option string * AuthStore * option string) :=
  match rounds with
  | [] => None
  | r :: rounds =>
      let key := after (rd_before r) key in
      match rd_get r with
      | Some err => Some (Some err, s, key)
      | None =>
          match key with
          | Some b => Some (None, match unmarshal_users b with Some us => set_users us s | None => s end, key)
          | None =>
              match RunTx key (rd_seed r) (fun existing => if decide (existing = None) then inr (marshal_users (users s)) else inl errTxConflict) with
              | (Committed, key) => Some (None, s, key)
              | (Conflict, key) => syncFromRedisOrImport rounds s key
              | (Failed err, key) => if decide (err = errTxConflict) then syncFromRedisOrImport rounds s key else Some (Some err, s, key)
              end
          end
      end
  end.

(** A tick of [refreshLoop] with the bytes it adopted last; [get] is the error of
    the GET, if any. *)
Definition refresh_tick (get : option string) (rounds : list round) (lastRaw : string) (s : AuthStore) (key : option string)
  : option (string * AuthStore * option string) :=
  match get, key with
  | Some _, _ => Some (lastRaw, s, key)
  | None, None =>
      if IsSetup s then '(_, s, key) ← syncFromRedisOrImport rounds s key; Some (lastRaw, s, key) else Some (lastRaw, s, key)
  | None, Some raw =>
      if decide (raw = lastRaw) then Some (lastRaw, s, key) else
      match unmarshal_users raw with Some us => Some (raw, set_users us s, key) | None => Some (lastRaw, s, key) end
  end.
End json.

(** ** New users, in two phases *)

Definition username_byte (c : ascii) : bool := is_alnum c || has_byte c "._-".
Definition validUsername (s : string) : bool := bool_decide (2 <= len s <= 32) && all_bytes username_byte s.

Definition totpURI (issuer account secret : string) : string :=
  let q := form_set "period" (FormatInt totpPeriodSeconds) (form_set "digits" (FormatInt totpDigits)
             (form_set "algorithm" "SHA1" (form_set "issuer" issuer (form_set "secret" secret ∅)))) in
  "otpauth://totp/" +:+ PathEscape (issuer +:+ ":" +:+ account) +:+ "?" +:+ Encode q.

Definition password_hash (password salt : string) : string := pbkdf2 password salt (N.to_nat pbkdf2Iterations) pbkdf2KeyLen.

(** [salt] and [secret] are 16 and 20 random bytes. *)
Definition newUserInternal (username password salt secret : string) (now : Z) : string + (User * string * string) :=
  if negb (validUsername username) then inl "username must be 2-32 chars, [a-zA-Z0-9._-]" else
  if decide (len password < 8) then inl "password must be at least 8 characters" else
  let sec := b32_encode secret in
  inr (mkUser username (hex salt) (hex (password_hash password salt)) sec (unix now) [] [], sec, totpURI "Dashboard" username sec).

Record randoms := mkRandoms { rn_cookie : string; rn_salt : string; rn_secret : string }.

(** The new user waits for its first code. *)
Definition queue (s : AuthStore) (username password : string) (rnd : randoms) (now : Z) : (string + (string * string)) * AuthStore :=
  match newUserInternal username password (rn_salt rnd) (rn_secret rnd) now with
  | inl err => (inl err, s)
  | inr (u, secret, uri) =>
      (inr (secret, uri), set_pending (<[ToLower username := mkPendingUser u (now + pendingTTL)]> (as_pending s)) s)
  end.

Definition BeginSetup (s : AuthStore) (username password : string) (rnd : randoms) (saved : option string) (now : Z)
  : (string + (string * string)) * AuthStore :=
  if IsSetup s then (inl "already set up", s) else
  if decide (ad_CookieSecret (as_data s) = "") then
    let s := set_secret (hex (rn_cookie rnd)) s in
    match saved with Some err => (inl err, s) | None => queue s username password rnd now end
  else queue s username password rnd now.

Definition BeginCreateUser (s : AuthStore) (username password : string) (rnd : randoms) (now : Z) : (string + (string * string)) * AuthStore :=
  if decide (findUser s username <> None) then (inl ("user " +:+ Quote username +:+ " already exists"), s)
  else queue s username password rnd now.

(** [ConfirmPending] up to its release of the lock: the user to append. *)
Definition take_pending (s : AuthStore) (username code : string) (now : Z) : (string + User) * AuthStore :=
  let key := ToLower username in
  match as_pending s !! key with
  | None => (inl ("no pending confirmation for " +:+ Quote username +:+ " (already confirmed, or expired)"), s)
  | Some p =>
      if time_after now (pu_expiresAt p) then
        (inl ("confirmation expired " +:+ utf8 8212 +:+ " start over"), set_pending (delete key (as_pending s)) s)
      else if negb (verifyTOTPSecret (u_TOTPSecret (pu_user p)) code (unix now)) then (inl "invalid code", s)
      else (inr (pu_user p), set_pending (delete key (as_pending s)) s)
  end.
Definition ConfirmPending (json_error : string -> string) (w : world) (s : AuthStore) (username code : string) (now : Z) (key : option string)
  : option string * AuthStore * option string :=
  match take_pending s username code now with
  | (inl err, s) => (Some err, s, key)
  | (inr u, s) => mutateUsers json_error w (Append u) s key
  end.

Definition CancelPending (s : AuthStore) (username : string) : AuthStore := set_pending (delete (ToLower username) (as_pending s)) s.
Definition HasPending (s : AuthStore) (username : string) (now : Z) : bool :=
  match as_pending s !! ToLower username with Some p => time_before now (pu_expiresAt p) | None => false end.

(** ** Tokens *)

(** [rb] is 32 random bytes. *)
Definition raw_token (rb : string) : string := apiTokenPrefix +:+ b32_encode rb.
Definition token_hash (raw : string) : string := hex (Sum256 raw).
Definition new_token (rb label : string) (now : Z) : APIToken :=
  let h := token_hash (raw_token rb) in mkToken (take_bytes 12 h) label h (unix now) 0.

Definition CreateToken (json_error : string -> string) (w : world) (s : AuthStore) (username label rb : string) (now : Z) (key : option string)
  : (string + (string * APIToken)) * AuthStore * option string :=
  let t := new_token rb (if decide (label = "") then "untitled" else label) now in
  let '(err, s, key) := mutateUsers json_error w (AddToken username t) s key in
  (match err with Some e => inl e | None => inr (raw_token rb, t) end, s, key).

(** [rb] is what the random source returns. *)
Definition RemintServiceToken (s : AuthStore) (name : string) (rb : string + string) (saved : option string) (now : Z)
  : (string + string) * AuthStore :=
  let kept := filter (fun t => t_Label t <> name) (ad_ServiceTokens (as_data s)) in
  let s := set_service_tokens kept s in
  match rb with
  | inl err => (inl err, s)
  | inr rb =>
      let s := set_service_tokens (kept ++ [new_token rb name now])%list s in
      match saved with Some err => (inl err, s) | None => (inr (raw_token rb), s) end
  end.

(** [b] is 32 random bytes, or the error of reading them. *)
Definition mintInternalToken (b : string + string) (s : AuthStore) : option string * AuthStore :=
  match b with
  | inl err => (Some err, s)
  | inr b => (None, mkStore (as_data s) (as_pending s) (as_redis s) (apiTokenPrefix +:+ "internal_" +:+ hex b))
  end.

Definition used_at (now : Z) (t : APIToken) : APIToken := mkToken (t_ID t) (t_Label t) (t_Hash t) (t_CreatedAt t) (unix now).
Definition has_hash (h : string) (t : APIToken) : bool := bool_decide (t_Hash t = h).

(** The user that holds a token of the hash: the first, with its token. *)
Fixpoint token_owner (h : string) (us : list User) (i : nat) : option (nat * nat * User) :=
  match us with
  | [] => None
  | u :: us => match index_of (has_hash h) (u_Tokens u) with Some j => Some (i, j, u) | None => token_owner h us (S i) end
  end.

Definition verifyTokenKind (s : AuthStore) (raw : string) (now : Z) : (string * bool) * AuthStore :=
  if negb (HasPrefix raw apiTokenPrefix) then (("", false), s) else
  if decide (as_internalToken s <> "" /\ raw = as_internalToken s) then ((internalUser, true), s) else
  let h := token_hash raw in
  match index_of (has_hash h) (ad_ServiceTokens (as_data s)) with
  | Some i =>
      let ts := ad_ServiceTokens (as_data s) in
      ((default "" (t_Label <$> ts !! i), false), set_service_tokens (alter (used_at now) i ts) s)
  | None =>
      match token_owner h (users s) 0 with
      | Some (i, j, u) => ((u_Username u, true), set_users (alter (fun u => set_tokens (alter (used_at now) j (u_Tokens u)) u) i (users s)) s)
      | None => (("", false), s)
      end
  end.
Definition VerifyToken (s : AuthStore) (raw : string) (now : Z) : string * AuthStore :=
  let '((id, _), s) := verifyTokenKind s raw now in (id, s).
Definition VerifyElevatedToken (s : AuthStore) (raw : string) (now : Z) : string * AuthStore :=
  let '((id, elevated), s) := verifyTokenKind s raw now in (if (elevated : bool) then id else "", s).

Definition without_hash (t : APIToken) : APIToken := mkToken (t_ID t) (t_Label t) "" (t_CreatedAt t) (t_LastUsedAt t).
Definition ListTokens (s : AuthStore) (username : string) : option (list APIToken) :=
  u ← findUser s username; Some (without_hash <$> u_Tokens u).
Definition ListUsers (s : AuthStore) : list User := (fun u => mkUser (u_Username u) "" "" "" (u_CreatedAt u) [] []) <$> users s.
Definition ListCredentials (s : AuthStore) (username : string) : option (list PublicCredential) :=
  u ← findUser s username; Some (public <$> u_Credentials u).

(** ** Verification *)

(** [hex.DecodeString] gives what it decoded before an error. *)
Fixpoint hex_prefix (s : string) : string :=
  match s with
  | String a (String b r) =>
      match hex_val a, hex_val b with
      | Some x, Some y => String (Z_byte (x * 16 + y)) (hex_prefix r)
      | _, _ => ""
      end
  | _ => ""
  end.

Definition VerifyPassword (s : AuthStore) (username password : string) : bool :=
  match findUser s username with
  | None => false
  | Some u => bool_decide (password_hash password (hex_prefix (u_Salt u)) = hex_prefix (u_PasswordHash u))
  end.
Definition Exists_ (s : AuthStore) (username : string) : bool := bool_decide (findUser s username <> None).
Definition HasTOTP (s : AuthStore) (username : string) : bool :=
  match findUser s username with Some u => negb (bool_decide (u_TOTPSecret u = "")) | None => false end.
Definition VerifyTOTP (s : AuthStore) (username code : string) (now : Z) : bool :=
  match findUser s username with Some u => verifyTOTPSecret (u_TOTPSecret u) code (unix now) | None => false end.

(** ** Session cookies *)

Definition cookieSecret (s : AuthStore) : string := hex_prefix (ad_CookieSecret (as_data s)).

(** [elevatedUntil] is a time; the zero time is year 1. *)
Definition zeroTime : Z := -62135596800 * Second.
Definition cookie_mac (s : AuthStore) (body : string) : string := hmac_sha256 (cookieSecret s) body.
Definition newCookie (s : AuthStore) (username : string) (elevatedUntil now : Z) : string :=
  let body := username +:+ "|" +:+ FormatInt (unix now) +:+ "|" +:+ FormatInt (unix elevatedUntil) in
  body +:+ "|" +:+ hex (cookie_mac s body).

Record sessionInfo := mkSession { si_Username : string; si_IssuedAt : Z; si_ElevatedUntil : Z }.

(** [strconv.ParseInt] with its error ignored: 0 for a syntax error, the nearest
    int64 beyond the range. *)
Definition clamp64 (n : Z) : Z := Z.max minInt64 (Z.min maxInt64 n).
Definition parse_or_0 (s : string) : Z :=
  match s with
  | EmptyString => 0
  | String c r =>
      if Ascii.eqb c "-" then if decide (r = "") then 0 else default 0 (n ← parse_digits r 0; Some (clamp64 (- n)))
      else if Ascii.eqb c "+" then if decide (r = "") then 0 else default 0 (n ← parse_digits r 0; Some (clamp64 n))
      else default 0 (n ← parse_digits s 0; Some (clamp64 n))
  end.

Definition parseCookie (s : AuthStore) (raw : string) (now : Z) : option sessionInfo :=
  match Split raw bar with
  | [user; iss; el; sig] =>
      let body := user +:+ "|" +:+ iss +:+ "|" +:+ el in
      if negb (bool_decide (cookie_mac s body = hex_prefix sig)) then None else
      let issued := parse_or_0 iss in
      let elev := parse_or_0 el in
      if decide (time_sub now (issued * Second) > sessionLifetime) then None else
      if negb (Exists_ s user) then None else
      Some (mkSession user issued elev)
  | _ => None
  end.
Definition sessionFrom (s : AuthStore) (r : request) (now : Z) : option sessionInfo :=
  c ← Cookie r sessionCookie; parseCookie s c now.

(** ** The guards of the API *)

Definition bearerToken (r : request) : string := default "" (CutPrefix (Get (req_Header r) "Authorization") "Bearer ").

(** A request goes on with a principal, or is answered here. *)
Inductive guarded := Next (principal : string) | Stop (a : answer).

Definition requireAuth (s : AuthStore) (w : header) (r : request) (now : Z) : guarded * AuthStore :=
  if negb (IsSetup s) then (Stop (refuse w "auth not set up" 503), s) else
  match sessionFrom s r now with
  | Some info => (Next (si_Username info), s)
  | None =>
      let tok := bearerToken r in
      let '(user, s) := if decide (tok <> "") then VerifyToken s tok now else ("", s) in
      if decide (user <> "") then (Next user, s) else (Stop (refuse w "unauthorized" 401), s)
  end.

Definition requireElevated (s : AuthStore) (w : header) (r : request) (now : Z) : guarded * AuthStore :=
  if negb (IsSetup s) then (Stop (refuse w "auth not set up" 503), s) else
  let tok := bearerToken r in
  let '(user, s) := if decide (tok <> "") then VerifyElevatedToken s tok now else ("", s) in
  if decide (user <> "") then (Next user, s) else
  match sessionFrom s r now with
  | None => (Stop (refuse w "unauthorized" 401), s)
  | Some info => if decide (unix now > si_ElevatedUntil info) then (Stop (refuse w "2fa required" 403), s) else (Next (si_Username info), s)
  end.

(** * Properties *)

(** ** The write path *)

Lemma after_writes ws ws' key : after (ws ++ ws') key = after ws' (after ws key).
Proof. unfold after. rewrite last_app. by destruct (last ws'). Qed.

(** What the others write during attempts [k], [k + 1], ... *)
Definition writes_of (a : attempt) : list (option string) := (at_before a ++ at_watched a ++ at_read a)%list.
Definition others (attempts : nat -> attempt) (k n : nat) : list (option string) := concat ((fun i => writes_of (attempts i)) <$> seq k n).

Lemma others_S attempts k n : others attempts k (S n) = (writes_of (attempts k) ++ others attempts (S k) n)%list.
Proof. done. Qed.

Lemma set_users_users us s : users (set_users us s) = us.
Proof. done. Qed.
Lemma set_users_twice us us' s : set_users us (set_users us' s) = set_users us s.
Proof. done. Qed.

(** The users as an absent key and [i] failed attempts leave them. *)
Definition leftover (m : mutation) (i : nat) (s : AuthStore) : AuthStore := set_users (Nat.iter i (leaves m) (users s)) s.

Lemma leftover_0 m s : leftover m 0 s = s.
Proof. by destruct s as [[] ? ? ?]. Qed.
Lemma leftover_touched m a key s : exists d, (d <= 1)%nat /\ forall i, leftover m i (touched m a key s) = leftover m (i + d) s.
Proof.
  unfold touched, leftover. case_decide; [exists 1%nat|exists 0%nat]; (split; [lia|]); intros i.
  - rewrite set_users_users, set_users_twice. f_equal. by rewrite Nat.add_1_r, Nat.iter_succ_r.
  - by rewrite Nat.add_0_r.
Qed.

Section mutate.
Context (json_error : string -> string).

(** What was committed: the mutation of the users the key held at that moment,
    or of our own if it held none. *)
Definition committed (m : mutation) (s : AuthStore) (seen : option string) (i : nat) (us' : list User) : Prop :=
  exists us, current_users json_error seen (leftover m i s) = inr us /\ apply m us = inr us'.

Definition mutate_spec (n k : nat) (attempts : nat -> attempt) (m : mutation) (s : AuthStore) (key : option string)
    (res : option string * AuthStore * option string) : Prop :=
  let '(err, s', key') := res in
  match err with
  | None => exists j i us', (j < n)%nat /\ (i <= j)%nat /\ at_watched (attempts (k + j)%nat) = [] /\ at_read (attempts (k + j)%nat) = [] /\
      committed m s (after (others attempts k (S j)) key) i us' /\ s' = set_users us' s /\ key' = Some (marshal_users us')
  | Some _ => exists j i, (j <= n)%nat /\ (i <= j)%nat /\ s' = leftover m i s /\
      (key' = after (others attempts k j) key \/
       exists i' us', (0 < j)%nat /\ (i' <= i)%nat /\ committed m s (after (others attempts k j) key) i' us' /\ key' = Some (marshal_users us') /\
         exists e, at_exec (attempts (k + pred j)%nat) = Some (e, true))
  end.

Lemma mutated_spec m s seen us' : mutated json_error m s seen = inr us' <-> committed m s seen 0 us'.
Proof.
  unfold mutated, committed. rewrite leftover_0. destruct (current_users _ _ _) as [e|us]; split; try done; try (by intros (? & ? & _)).
  - intros Ha. by exists us.
  - by intros (us0 & [= ->] & Ha).
Qed.

Lemma mutate_redis_spec n k attempts m s key : mutate_spec n k attempts m s key (mutate_redis json_error n k attempts m s key).
Proof.
  revert k s key. induction n as [|n IH]; intros k s key.
  { exists 0%nat, 0%nat. split_and!; [lia|lia|by rewrite leftover_0|by left]. }
  cbn [mutate_redis]. set (a := attempts k). set (seen := after (at_watched a) (after (at_before a) key)).
  assert (after (others attempts k 1) key = after (at_read a) seen) as Hone.
  { rewrite others_S. unfold writes_of. cbn [others seq fmap list_fmap concat]. fold a. by rewrite app_nil_r, !after_writes. }
  destruct (leftover_touched m a key s) as (d & Hd & Ht). pose proof (Ht 0%nat) as H0. rewrite leftover_0 in H0. cbn [Nat.add] in H0.
  assert (forall err, mutate_spec (S n) k attempts m s key (Some err, touched m a key s, after (at_read a) seen)) as Hfail.
  { intros err. exists 1%nat, d. split_and!; [lia|done|done|]. left. exact (eq_sym Hone). }
  unfold RunTx. fold seen. destruct (at_get a) as [err|] eqn:Hget; [apply Hfail|].
  pose proof (mutated_spec m s seen) as Hm. destruct (mutated json_error m s seen) as [err|us']; [apply Hfail|].
  pose proof (proj1 (Hm us') eq_refl) as Hc.
  destruct (bool_decide (at_watched a ++ at_read a = [])%list) eqn:Hclean.
  - apply bool_decide_eq_true in Hclean. apply app_eq_nil in Hclean as [Hw Hr].
    assert (after (others attempts k 1) key = seen) as Hseen by (rewrite Hone, Hr; done).
    destruct (at_exec a) as [[err []]|] eqn:Hex; cbn [andb]; [|apply Hfail|].
    + exists 1%nat, d. split_and!; [lia|done|done|]. right. exists 0%nat, us'. rewrite Hseen. split_and!; [lia|lia|done|done|].
      exists err. by rewrite Nat.add_0_r.
    + exists 0%nat, 0%nat, us'. rewrite Nat.add_0_r, Hseen. split_and!; [lia|lia|done|done|done|done|done].
  - destruct (at_exec a) as [[err carried]|] eqn:Hex; [rewrite andb_false_r; apply Hfail|]. rewrite <- Hone.
    specialize (IH (S k) (touched m a key s) (after (others attempts k 1) key)).
    assert (forall j, after (others attempts (S k) j) (after (others attempts k 1) key) = after (others attempts k (S j)) key) as Hoth.
    { intros j. rewrite <- after_writes. f_equal. rewrite !others_S. cbn [others seq fmap list_fmap concat]. by rewrite app_nil_r. }
    destruct (mutate_redis json_error n (S k) attempts m (touched m a key s) (after (others attempts k 1) key)) as [[[err|] s'] key']; cbn [mutate_spec] in *.
    + destruct IH as (j & i & Hj & Hi & -> & Hkey). exists (S j), (i + d)%nat. rewrite Hoth in Hkey. rewrite Ht. split_and!; [lia|lia|done|].
      destruct Hkey as [->|(i' & us2 & Hj0 & Hi' & (us & Hcm & Hap) & -> & e & Hex')]; [by left|right]. exists (i' + d)%nat, us2.
      split_and!; [lia|lia|exists us; by rewrite <- Ht|done|]. exists e. by replace (k + pred (S j))%nat with (S k + pred j)%nat by lia.
    + destruct IH as (j & i & us2 & Hj & Hi & Hw & Hr & (us & Hcm & Hap) & -> & ->). exists (S j), (i + d)%nat, us2. rewrite Hoth in Hcm.
      replace (k + S j)%nat with (S k + j)%nat by lia. split_and!; [lia|lia|done|done|exists us; by rewrite <- Ht| |done].
      pose proof (Ht 0%nat) as H1. rewrite leftover_0 in H1. by rewrite H1.
Qed.


(** When the key holds a list of users, that is the list the change applies to. *)
Lemma committed_users m s us i us' : Forall user_ok us -> committed m s (Some (marshal_users us)) i us' <-> apply m us = inr us'.
Proof.
  intros Hok. unfold committed, current_users. rewrite users_back by done. unfold marshal_users, array_text. cbn [fst String.append].
  split; [by intros (? & [= ->] & ?)|by exists us].
Qed.
End mutate.

(** *** Following the key *)

Lemma current_users_marshal json_error us s : Forall user_ok us -> current_users json_error (Some (marshal_users us)) s = inr us.
Proof.
  intros Hok. pose proof (users_back us Hok) as Hb. assert (exists t, marshal_users us = String "[" t) as [t Ht] by by eexists.
  unfold current_users. rewrite Ht in *. by rewrite Hb.
Qed.

(** A tick brings in what the others wrote, unless it reads what was adopted last. *)
Lemma refresh_adopts rounds lastRaw s us :
  Forall user_ok us -> lastRaw <> marshal_users us ->
  refresh_tick None rounds lastRaw s (Some (marshal_users us)) = Some (marshal_users us, set_users us s, Some (marshal_users us)).
Proof. intros Hok Hne. unfold refresh_tick. rewrite decide_False by congruence. by rewrite users_back. Qed.

(** But that is not what is in memory, once this instance has changed the users
    itself: when another has undone the change before the next tick, it is never
    noticed. *)
Lemma undone_change_unnoticed json_error w m s us us' :
  as_redis s = true -> Forall user_ok us -> apply m us = inr us' -> w_attempts w 0%nat = mkAttempt [] [] [] None None ->
  let '(err, s', key) := mutateUsers json_error w m s (Some (marshal_users us)) in
  err = None /\ key = Some (marshal_users us') /\ users s' = us' /\
  forall rounds, refresh_tick None rounds (marshal_users us) s' (Some (marshal_users us)) = Some (marshal_users us, s', Some (marshal_users us)).
Proof.
  intros Hr Hok Ha Hw. unfold mutateUsers. rewrite Hr. unfold maxMutateRetries. cbn [mutate_redis]. rewrite Hw. unfold RunTx.
  cbn [at_before at_watched at_read at_get at_exec]. unfold after. cbn [last default from_option id].
  unfold mutated. rewrite current_users_marshal by done. rewrite Ha. split_and!; try done.
  intros rounds. unfold refresh_tick. by rewrite decide_True.
Qed.

(** ** The guards *)

Lemma index_of_Some {A} (p : A -> bool) l i : index_of p l = Some i -> exists x, l !! i = Some x /\ p x = true.
Proof.
  revert i. induction l as [|x l IH]; intros i; [done|]. cbn [index_of]. destruct (p x) eqn:Hp.
  - intros [= <-]. by exists x.
  - destruct (index_of p l) as [j|]; [|done]. cbn. intros [= <-]. destruct (IH j eq_refl) as (y & Hy & Hpy). by exists y.
Qed.
Lemma index_of_None {A} (p : A -> bool) l : index_of p l = None <-> Forall (fun x => p x = false) l.
Proof.
  induction l as [|x l IH]; [done|]. cbn [index_of]. rewrite Forall_cons. destruct (p x) eqn:Hp; [split; [done|by intros [? _]]|].
  destruct (index_of p l); cbn; [|by rewrite <- IH]. split; [done|]. intros [_ H]. by rewrite <- IH in H.
Qed.

Lemma token_owner_Some h us i0 i j u :
  token_owner h us i0 = Some (i, j, u) -> u ∈ us /\ exists t, t ∈ u_Tokens u /\ t_Hash t = h.
Proof.
  revert i0. induction us as [|u0 us IH]; intros i0; [done|]. cbn [token_owner]. destruct (index_of _ _) as [j0|] eqn:Hi.
  - intros [= <- <- <-]. split; [by left|]. apply index_of_Some in Hi as (t & Ht & Hh). apply bool_decide_eq_true in Hh.
    exists t. split; [by eapply list_elem_of_lookup_2|done].
  - intros [Hu Ht]%IH. split; [by right|done].
Qed.
Lemma token_owner_None h us i0 : token_owner h us i0 = None -> forall u t, u ∈ us -> t ∈ u_Tokens u -> t_Hash t <> h.
Proof.
  revert i0. induction us as [|u0 us IH]; intros i0; [intros _ u t Hu; inversion Hu|]. cbn [token_owner].
  destruct (index_of _ _) as [j|] eqn:Hi; [done|]. intros Hn u t Hu Ht. apply index_of_None in Hi. rewrite Forall_forall in Hi.
  apply elem_of_cons in Hu as [->|Hu]; [|by apply (IH (S i0) Hn u)]. intros Hh. specialize (Hi t Ht). apply bool_decide_eq_false in Hi. done.
Qed.

Definition service_hash (s : AuthStore) (h : string) : Prop := exists t, t ∈ ad_ServiceTokens (as_data s) /\ t_Hash t = h.

(** What identifies a user: all but tokens, passkeys and the date. *)
Definition ident (u : User) : string * string * string * string := (u_Username u, u_Salt u, u_PasswordHash u, u_TOTPSecret u).

(** A user but for the dates of its tokens. *)
Definition account (u : User) : string * string * string * string * list string * list StoredCredential :=
  (ident u, t_Hash <$> u_Tokens u, u_Credentials u).
Lemma accounts_idents (us us' : list User) : account <$> us' = account <$> us -> ident <$> us' = ident <$> us.
Proof.
  intros H. apply (f_equal (fmap (fun a => fst (fst a)))) in H. rewrite <- !list_fmap_compose in H. exact H.
Qed.

(** Who a token speaks for, and whether it may change things. *)
Inductive token_grant (s : AuthStore) (raw : string) : string -> bool -> Prop :=
| grant_internal : HasPrefix raw apiTokenPrefix = true -> as_internalToken s <> "" -> raw = as_internalToken s -> token_grant s raw internalUser true
| grant_service t : t ∈ ad_ServiceTokens (as_data s) -> t_Hash t = token_hash raw -> token_grant s raw (t_Label t) false
| grant_user u t : HasPrefix raw apiTokenPrefix = true -> ~ service_hash s (token_hash raw) -> u ∈ users s -> t ∈ u_Tokens u -> t_Hash t = token_hash raw -> token_grant s raw (u_Username u) true.

Lemma verifyTokenKind_spec s raw now :
  let '((id, elevated), s') := verifyTokenKind s raw now in
  (token_grant s raw id elevated \/ (id = "" /\ elevated = false)) /\
  (account <$> users s') = (account <$> users s) /\
  ad_CookieSecret (as_data s') = ad_CookieSecret (as_data s) /\ as_pending s' = as_pending s /\ as_redis s' = as_redis s.
Proof.
  unfold verifyTokenKind. destruct (HasPrefix raw apiTokenPrefix) eqn:Hp; cbn [negb]; [|split_and!; try done; by right].
  case_decide as Hi; [split_and!; try done; left; by destruct Hi; apply grant_internal|].
  destruct (index_of _ _) as [i|] eqn:Hs.
  { split_and!; try done. left. apply index_of_Some in Hs as (t & Ht & Hh). apply bool_decide_eq_true in Hh. rewrite Ht. cbn.
    apply grant_service; [by eapply list_elem_of_lookup_2|done]. }
  destruct (token_owner _ _ _) as [[[i j] u]|] eqn:Ho; [|split_and!; try done; by right].
  apply token_owner_Some in Ho as [Hu (t & Ht & Hh)]. split.
  - left. apply (grant_user _ _ u t); try done. intros (t' & Ht' & Hh'). apply index_of_None in Hs. rewrite Forall_forall in Hs.
    specialize (Hs t' Ht'). by apply bool_decide_eq_false in Hs.
  - rewrite set_users_users.
    split_and!; try done. apply list_eq. intros k. rewrite !list_lookup_fmap.
    destruct (decide (k = i)) as [->|Hk]; [rewrite list_lookup_alter_eq|by rewrite list_lookup_alter_ne].
    destruct (users s !! i) as [v|]; [|done]. cbn. f_equal. unfold account. cbn [u_Tokens u_Credentials set_tokens].
    assert (t_Hash <$> alter (used_at now) j (u_Tokens v) = t_Hash <$> u_Tokens v) as ->; [|done].
    apply list_eq. intros n. rewrite !list_lookup_fmap.
    destruct (decide (n = j)) as [->|Hn]; [rewrite list_lookup_alter_eq|by rewrite list_lookup_alter_ne]. by destruct (u_Tokens v !! j).
Qed.

Lemma verifyTokenKind_elevated s raw now p :
  Forall (fun u => u_Username u <> "") (users s) -> token_grant s raw p true -> exists q, q <> "" /\ fst (verifyTokenKind s raw now) = (q, true).
Proof.
  intros Hnames Hg. unfold verifyTokenKind. inversion Hg as [Hp Hi Hraw| |u t Hp Hno Hu Ht Hh]; subst; rewrite Hp; cbn [negb].
  - rewrite decide_True by done. by exists internalUser.
  - case_decide; [by exists internalUser|]. destruct (index_of _ _) as [i|] eqn:Hs.
    { exfalso. apply Hno. apply index_of_Some in Hs as (t' & Ht' & Hh'). apply bool_decide_eq_true in Hh'. exists t'.
      split; [by eapply list_elem_of_lookup_2|done]. }
    destruct (token_owner _ _ _) as [[[i j] u']|] eqn:Ho.
    + apply token_owner_Some in Ho as [Hu' _]. exists (u_Username u'). split; [|done]. rewrite Forall_forall in Hnames. by apply Hnames.
    + exfalso. exact (token_owner_None _ _ _ Ho u t Hu Ht Hh).
Qed.

(** A session: a cookie signed with our secret, at most eight hours old, of a
    user that still exists. *)
Definition signed_session (s : AuthStore) (r : request) (now : Z) (info : sessionInfo) : Prop :=
  exists iss el sig, Cookie r sessionCookie = Some (si_Username info +:+ "|" +:+ iss +:+ "|" +:+ el +:+ "|" +:+ sig) /\
    hex_prefix sig = cookie_mac s (si_Username info +:+ "|" +:+ iss +:+ "|" +:+ el) /\
    si_IssuedAt info = parse_or_0 iss /\ si_ElevatedUntil info = parse_or_0 el /\
    now - si_IssuedAt info * Second <= sessionLifetime /\ findUser s (si_Username info) <> None.

Lemma sessionFrom_signed s r now info : sessionFrom s r now = Some info -> signed_session s r now info.
Proof.
  unfold sessionFrom. destruct (Cookie r sessionCookie) as [c|] eqn:Hc; [|done]. cbn [mbind option_bind]. unfold parseCookie.
  pose proof (Join_Split c bar) as Hj. destruct (Split c bar) as [|a [|b [|d [|sig [|]]]]] eqn:Hs; try done.
  case_bool_decide as Hm; cbn [negb]; [|done]. case_decide as Ht; [done|]. destruct (Exists_ s a) eqn:He; cbn [negb]; [|done].
  intros [= <-]. unfold signed_session. cbn [si_Username si_IssuedAt si_ElevatedUntil]. exists b, d, sig.
  apply bool_decide_eq_true in He. split_and!; try done.
  - rewrite <- Hj in Hc. exact Hc.
  - unfold time_sub, sessionLifetime, Hour, Minute, Second, minInt64, maxInt64 in *. lia.
Qed.

(** Who may change things. *)
Inductive elevated (s : AuthStore) (r : request) (now : Z) : string -> Prop :=
| by_token p : p <> "" -> token_grant s (bearerToken r) p true -> elevated s r now p
| by_session info : signed_session s r now info -> unix now <= si_ElevatedUntil info -> elevated s r now (si_Username info).

Lemma guarded_cases s w r now p s' :
  requireElevated s w r now = (Next p, s') ->
  IsSetup s = true /\
  ((p <> "" /\ bearerToken r <> "" /\ fst (VerifyElevatedToken s (bearerToken r) now) = p) \/
   exists info, sessionFrom (snd (if decide (bearerToken r <> "") then VerifyElevatedToken s (bearerToken r) now else ("", s))) r now = Some info /\
     unix now <= si_ElevatedUntil info /\ p = si_Username info).
Proof.
  unfold requireElevated. destruct (IsSetup s); cbn [negb]; [|done]. intros H. split; [done|].
  destruct (decide (bearerToken r <> "")) as [Ht|Ht].
  - destruct (VerifyElevatedToken s (bearerToken r) now) as [user s1] eqn:Hv. cbn [fst snd]. case_decide as Hu.
    + left. by simplify_eq.
    + right. destruct (sessionFrom s1 r now) as [info|]; [|done]. case_decide; [done|]. exists info. simplify_eq. split_and!; [done|lia|done].
  - right. rewrite decide_False in H by by intros []. cbn [snd]. destruct (sessionFrom s r now) as [info|]; [|done]. case_decide; [done|].
    exists info. simplify_eq. split_and!; [done|lia|done].
Qed.

(** Looking a name up depends on the users' identities only. *)
Lemma findUser_ident s s' n : ident <$> users s' = ident <$> users s -> (ident <$> findUser s' n) = (ident <$> findUser s n).
Proof.
  unfold findUser. revert s'. generalize (users s). intros us s'. generalize (users s'). clear. induction us as [|u us IH]; intros [|u' us'] H; try done.
  rewrite !fmap_cons in H. injection H as Hu ? ? ? Hus. cbn [find_first]. unfold named. rewrite Hu. destruct (EqualFold _ n); [cbn; unfold ident; congruence|].
  by apply IH.
Qed.

Definition same_identities (s s' : AuthStore) : Prop := ident <$> users s' = ident <$> users s /\ ad_CookieSecret (as_data s') = ad_CookieSecret (as_data s).

Lemma VerifyElevatedToken_same s raw now : same_identities s (snd (VerifyElevatedToken s raw now)).
Proof.
  pose proof (verifyTokenKind_spec s raw now) as H. unfold VerifyElevatedToken. destruct (verifyTokenKind s raw now) as [[id e] s'].
  cbn [snd]. destruct H as (_ & H & ? & _). split; [by apply accounts_idents|done].
Qed.
Lemma signed_same s s' r now info : same_identities s s' -> signed_session s' r now info -> signed_session s r now info.
Proof.
  intros [Hu Hs] (iss & el & sig & Hc & Hm & Hi & He & Ht & Hf). exists iss, el, sig. split_and!; try done.
  - unfold cookie_mac, cookieSecret in *. by rewrite <- Hs.
  - pose proof (findUser_ident s s' (si_Username info) Hu) as H. intros Hn. apply Hf. rewrite Hn in H. by destruct (findUser s' _).
Qed.

Lemma elevation_cases s w r now p s' :
  requireElevated s w r now = (Next p, s') -> IsSetup s = true /\
  ((p <> "" /\ token_grant s (bearerToken r) p true) \/
   exists info, signed_session s r now info /\ unix now <= si_ElevatedUntil info /\ p = si_Username info).
Proof.
  intros H. apply guarded_cases in H as (Hset & Hg). split; [done|]. destruct Hg as [(Hp & Hb & Hv)|(info & Hi & He & Hp)].
  - left. split; [done|]. pose proof (verifyTokenKind_spec s (bearerToken r) now) as Hs. unfold VerifyElevatedToken in Hv.
    destruct (verifyTokenKind s (bearerToken r) now) as [[id []] s1]; cbn in Hv; [|by subst]. subst. destruct Hs as ([?|[? _]] & _); [done|by subst].
  - right. exists info. split_and!; [|done|done]. apply sessionFrom_signed in Hi. eapply signed_same; [|exact Hi].
    case_decide; [apply VerifyElevatedToken_same|done].
Qed.
Lemma elevation_sound s w r now p s' : requireElevated s w r now = (Next p, s') -> IsSetup s = true /\ elevated s r now p.
Proof.
  intros [Hset Hg]%elevation_cases. split; [done|]. destruct Hg as [[? ?]|(info & ? & ? & ->)]; [by apply by_token|by apply by_session].
Qed.

(** C4. Changes need elevation. A guarded handler runs only once the store is set
    up, and only for a principal that holds the process's own token, or a token
    of a user, or a cookie signed by this store, at most eight hours old, of a
    user that still exists, whose second factor was checked and is not yet over.
    A service token never lets anything through; and whoever holds a token of a
    user, or the process's own, is let through. *)
Theorem changes_need_elevation s w r now :
  (forall p s', requireElevated s w r now = (Next p, s') -> IsSetup s = true /\ elevated s r now p) /\
  (service_hash s (token_hash (bearerToken r)) -> bearerToken r <> as_internalToken s ->
     forall p s', requireElevated s w r now = (Next p, s') ->
     exists info, signed_session s r now info /\ unix now <= si_ElevatedUntil info /\ p = si_Username info) /\
  (forall p, IsSetup s = true -> Forall (fun u => u_Username u <> "") (users s) -> p <> "" -> token_grant s (bearerToken r) p true ->
     exists q s', requireElevated s w r now = (Next q, s')).
Proof.
  split_and!.
  - intros p s'. apply elevation_sound.
  - intros (t & Ht & Hh) Hi p s' [_ Hg]%elevation_cases. destruct Hg as [[_ Hg]|Hg]; [|done]. exfalso.
    inversion Hg as [? ? Hraw| |u t' _ Hno]; subst; [done|]. apply Hno. by exists t.
  - intros p Hset Hnames Hp Hg. destruct (verifyTokenKind_elevated s (bearerToken r) now p Hnames Hg) as (q & Hq & Hv).
    unfold requireElevated, VerifyElevatedToken. rewrite Hset. cbn [negb]. rewrite decide_True.
    2:{ intros Hb. rewrite Hb in Hg. by inversion Hg. }
    destruct (verifyTokenKind s (bearerToken r) now) as [[id e] s1]. cbn in Hv. injection Hv as -> ->. rewrite decide_True by done. by exists q, s1.
Qed.

(** ** Sessions *)

Lemma hex_prefix_hex s : hex_prefix (hex s) = s.
Proof.
  induction s as [|c s IH]; [done|]. cbn [hex hex_prefix]. destruct (hex_digits c) as [[H1 H2] H3].
  destruct (hex_val_digit _ H1) as [-> _], (hex_val_digit _ H2) as [-> _]. by rewrite IH, H3, Z_byte_byte.
Qed.

Lemma parse_or_0_FormatInt n : int64 n -> parse_or_0 (FormatInt n) = n.
Proof.
  intros Hn. pose proof (ParseInt_FormatInt n Hn) as Hp. unfold ParseInt, in_int64 in Hp. unfold parse_or_0, int64 in *.
  destruct (FormatInt n) as [|c r]; [done|]. unfold clamp64.
  destruct (Ascii.eqb c "-"); [|destruct (Ascii.eqb c "+")].
  1-2: destruct (decide (r = "")); [done|]; destruct (parse_digits r 0) as [x|]; [|done]; cbn in *; case_decide; [|done]; simplify_eq; lia.
  destruct (parse_digits (String c r) 0) as [x|]; [|done]; cbn [mbind option_bind default from_option id] in *; case_decide; [|done]; simplify_eq; lia.
Qed.

(** The cookie made for a user is read back as that user's, with its times, by
    every store with the same secret, for eight hours from the second it was made,
    as long as the user exists; and not at all afterwards, or once the user is
    gone. *)
Lemma parse_newCookie s s' user elev t0 t1 :
  has_byte bar user = false -> int64 (unix t0) -> int64 (unix elev) -> ad_CookieSecret (as_data s') = ad_CookieSecret (as_data s) ->
  parseCookie s' (newCookie s user elev t0) t1 =
  if decide (t1 - unix t0 * Second <= sessionLifetime /\ findUser s' user <> None) then Some (mkSession user (unix t0) (unix elev)) else None.
Proof.
  intros Hu H0 He Hs. unfold parseCookie, newCookie. cbn zeta. rewrite !append_assoc.
  change ("|" +:+ ?x)%string with (String bar x).
  repeat (rewrite Split_app_sep by (done || by apply FormatInt_free)). cbn [String.append].
  rewrite Split_app_sep by (done || by apply FormatInt_free). rewrite Split_app_sep by by apply FormatInt_free.
  rewrite Split_free by apply hex_free. rewrite hex_prefix_hex, !parse_or_0_FormatInt by done.
  unfold cookie_mac, cookieSecret. rewrite Hs. rewrite bool_decide_true by done. cbn [negb].
  assert (time_sub t1 (unix t0 * Second) > sessionLifetime <-> t1 - unix t0 * Second > sessionLifetime) as Ht by (by apply time_sub_gt).
  unfold Exists_. destruct (decide (t1 - unix t0 * Second > sessionLifetime)).
  - rewrite decide_True by tauto. rewrite decide_False; [done|]. intros []; lia.
  - rewrite decide_False by tauto. case_bool_decide; cbn [negb]; [rewrite decide_True|rewrite decide_False]; [done|split; [lia|done]|done|tauto].
Qed.

(** ** Runs of one instance

    The operations of a store kept in its file. A confirmation is two steps, for
    its lock is released between the check and the write. *)

Record instance := mkInstance { in_store : AuthStore; in_taken : list User }.

Inductive operation :=
| OpBeginSetup (username password : string) (rnd : randoms) (saved : option string)
| OpBeginCreateUser (username password : string) (rnd : randoms)
| OpTake (username code : string)
| OpAppend (i : nat) (saved : option string)
| OpCancel (username : string)
| OpMutate (m : mutation) (saved : option string)
| OpVerifyToken (raw : string)
| OpRemint (name : string) (rb : string + string) (saved : option string).

Definition file_world (saved : option string) : world := mkWorld saved (fun _ => mkAttempt [] [] [] None None).
Definition mutate_file (saved : option string) (m : mutation) (s : AuthStore) : AuthStore :=
  snd (fst (mutateUsers (fun _ => "") (file_world saved) m s None)).
Definition is_append (m : mutation) : bool := match m with Append _ => true | _ => false end.

Definition operate (x : instance) (now : Z) (o : operation) : instance :=
  let s := in_store x in let keep s := mkInstance s (in_taken x) in
  match o with
  | OpBeginSetup n p rnd saved => keep (snd (BeginSetup s n p rnd saved now))
  | OpBeginCreateUser n p rnd => keep (snd (BeginCreateUser s n p rnd now))
  | OpTake n code => match take_pending s n code now with
                     | (inl _, s) => keep s
                     | (inr u, s) => mkInstance s (in_taken x ++ [u])%list
                     end
  | OpAppend i saved => match in_taken x !! i with
                        | Some u => mkInstance (mutate_file saved (Append u) s) (delete i (in_taken x))
                        | None => x
                        end
  | OpCancel n => keep (CancelPending s n)
  | OpMutate m saved => if is_append m then x else keep (mutate_file saved m s)
  | OpVerifyToken raw => keep (snd (verifyTokenKind s raw now))
  | OpRemint n rb saved => keep (snd (RemintServiceToken s n rb saved now))
  end.

Notation history := (list (Z * operation)).
Definition run_store (x : instance) (h : history) : instance := foldl (fun x to => operate x (fst to) (snd to)) x h.

(** A user was queued at some point of the history, until [exp]. *)
Definition begins (o : operation) : option (string * string * randoms) :=
  match o with OpBeginSetup n p rnd _ | OpBeginCreateUser n p rnd => Some (n, p, rnd) | _ => None end.
Definition begun_user (h : history) (u : User) (exp : Z) : Prop :=
  exists t o n p rnd secret uri, (t, o) ∈ h /\ begins o = Some (n, p, rnd) /\
    newUserInternal n p (rn_salt rnd) (rn_secret rnd) t = inr (u, secret, uri) /\ exp = t + pendingTTL.
(** And then confirmed, in time, with a code of its own secret. *)
Definition confirmed_user (h : history) (u : User) : Prop :=
  exists h1 t n code h2 exp u0, h = (h1 ++ (t, OpTake n code) :: h2)%list /\ begun_user h1 u0 exp /\ ident u0 = ident u /\ t <= exp /\
    verifyTOTPSecret (u_TOTPSecret u) code (unix t) = true.

Lemma begun_more h h' u exp : begun_user h u exp -> begun_user (h ++ h')%list u exp.
Proof. intros (t & o & n & p & rnd & sec & uri & Hin & H). exists t, o, n, p, rnd, sec, uri. split; [apply elem_of_app; by left|done]. Qed.
Lemma confirmed_more h h' u : confirmed_user h u -> confirmed_user (h ++ h')%list u.
Proof.
  intros (h1 & t & n & code & h2 & exp & u0 & -> & H). exists h1, t, n, code, (h2 ++ h')%list, exp, u0. split; [|done]. by rewrite <- app_assoc.
Qed.
Lemma confirmed_ident h u u' : ident u' = ident u -> confirmed_user h u -> confirmed_user h u'.
Proof.
  intros Hi (h1 & t & n & code & h2 & exp & u0 & Hh & Hb & H0 & Ht & Hv). exists h1, t, n, code, h2, exp, u0.
  split_and!; try done; [congruence|]. unfold ident in Hi. injection Hi as _ _ _ ->. done.
Qed.

(** Mutations of existing users add none and leave one at least. *)
Lemma on_user_same us n f us' :
  (forall u u', f u = inr u' -> ident u' = ident u) -> on_user us n f = inr us' -> ident <$> us' = ident <$> us.
Proof.
  intros Hf. unfold on_user. destruct (userIndex us n) as [i|]; [|done]. destruct (us !! i) as [u|] eqn:Hi; [|done].
  destruct (f u) as [e|u'] eqn:Hu; [done|]. intros [= <-]. rewrite list_fmap_insert, (Hf u u' Hu). apply list_insert_id.
  by rewrite list_lookup_fmap, Hi.
Qed.
Lemma apply_idents m us us' :
  is_append m = false -> apply m us = inr us' -> ident <$> us' = ident <$> us \/ exists i, us' = delete i us /\ (1 < length us)%nat.
Proof.
  destruct m; [done|..]; intros _; cbn [apply];
    unfold add_token, delete_token, delete_user, add_credential, delete_credential, update_credential.
  3: { case_decide; [done|]. destruct (userIndex us username) as [i|]; [|done]. intros [= <-]. right. exists i. split; [done|lia]. }
  all: intros H; left; revert H; apply on_user_same; intros u u'; repeat case_match; intros; by simplify_eq.
Qed.
Lemma apply_elem m us us' u' :
  is_append m = false -> apply m us = inr us' -> u' ∈ us' -> exists u, u ∈ us /\ ident u = ident u'.
Proof.
  intros Hm Ha Hu. destruct (apply_idents _ _ _ Hm Ha) as [Hi|(i & -> & _)].
  - assert (ident u' ∈ ident <$> us) as Hin by (rewrite <- Hi; by apply list_elem_of_fmap_2).
    apply list_elem_of_fmap in Hin as (u & Hu' & Hin). by exists u.
  - exists u'. split; [|done]. by eapply list_elem_of_delete_inv.
Qed.
Lemma apply_nonempty m us us' : is_append m = false -> apply m us = inr us' -> us <> [] -> us' <> [].
Proof.
  intros Hm Ha Hne. destruct (apply_idents _ _ _ Hm Ha) as [Hi|(i & -> & Hl)].
  - intros ->. by destruct us.
  - destruct us as [|a [|b us]]; cbn in Hl; [lia|lia|]. by destruct i.
Qed.

Lemma mutate_file_users saved m s :
  as_redis s = false ->
  let s' := mutate_file saved m s in
  as_pending s' = as_pending s /\ as_redis s' = false /\
  match apply m (users s) with inr us => users s' = us | inl _ => users s' = users s end.
Proof. intros Hr. unfold mutate_file, mutateUsers. rewrite Hr. by destruct (apply m (users s)). Qed.

Section accounts.
Context (s0 : AuthStore).

(** Where the users come from. *)
Definition old (u : User) : Prop := exists u0, u0 ∈ users s0 /\ ident u0 = ident u.
Definition accounted (h : history) (x : instance) : Prop :=
  as_redis (in_store x) = false /\
  (forall u, u ∈ users (in_store x) -> old u \/ confirmed_user h u) /\
  (forall u, u ∈ in_taken x -> confirmed_user h u) /\
  (forall k p, as_pending (in_store x) !! k = Some p -> begun_user h (pu_user p) (pu_expiresAt p)) /\
  (users s0 <> [] -> users (in_store x) <> []).

Lemma accounted_more h h' x : accounted h x -> accounted (h ++ h')%list x.
Proof.
  intros (Hr & Hu & Ht & Hp & Hn). split_and!; [done| | | |done].
  - intros u [?|?]%Hu; [by left|right; by apply confirmed_more].
  - intros u ?%Ht. by apply confirmed_more.
  - intros k p ?%Hp. by apply begun_more.
Qed.

(** A step that only touches the pending users. *)
Lemma accounted_pending h x pend :
  accounted h x -> (forall k p, pend !! k = Some p -> begun_user h (pu_user p) (pu_expiresAt p)) ->
  accounted h (mkInstance (set_pending pend (in_store x)) (in_taken x)).
Proof. by intros (Hr & Hu & Ht & Hp & Hn) Hpend. Qed.

(** A step that keeps the identities and the pending users. *)
Lemma accounted_same h x s :
  accounted h x -> ident <$> users s = ident <$> users (in_store x) -> as_pending s = as_pending (in_store x) -> as_redis s = as_redis (in_store x) ->
  accounted h (mkInstance s (in_taken x)).
Proof.
  intros (Hr & Hu & Ht & Hp & Hn) Hi Hpe Hre. unfold accounted. cbn [in_store in_taken]. rewrite Hpe, Hre. split_and!; try done.
  - intros u Hin. assert (ident u ∈ ident <$> users (in_store x)) as H by (rewrite <- Hi; by apply list_elem_of_fmap_2).
    apply list_elem_of_fmap in H as (u1 & Hu1 & H). apply Hu in H as [(u0 & H0 & Hi0)|H].
    + left. exists u0. split; [done|congruence].
    + right. by eapply confirmed_ident.
  - intros Hne%Hn H. rewrite H in Hi. by destruct (users (in_store x)).
Qed.

Lemma accounted_queue h h' x n p rnd t o s :
  accounted h x -> (t, o) ∈ h' -> begins o = Some (n, p, rnd) ->
  users s = users (in_store x) -> as_pending s = as_pending (in_store x) -> as_redis s = as_redis (in_store x) ->
  accounted (h ++ h')%list (mkInstance (snd (queue s n p rnd t)) (in_taken x)).
Proof.
  intros Ha Ho Hb Hu Hp Hr. assert (accounted h (mkInstance s (in_taken x))) as Hs by (apply accounted_same; [done|by rewrite Hu|done|done]).
  apply (accounted_more h h') in Hs. unfold queue. destruct (newUserInternal n p _ _ t) as [e|[[u sec] uri]] eqn:Hnew; [done|]. cbn [snd].
  apply (accounted_pending _ _ (<[ToLower n := mkPendingUser u (t + pendingTTL)]> (as_pending s)) Hs). intros k q.
  destruct Hs as (_ & _ & _ & Hpend & _). rewrite lookup_insert_Some. intros [[_ <-]|[_ Hq]]; [|by apply (Hpend k)]. cbn.
  exists t, o, n, p, rnd, sec, uri. split_and!; try done. apply elem_of_app. by right.
Qed.

Lemma operate_accounted h x t o : accounted h x -> accounted (h ++ [(t, o)])%list (operate x t o).
Proof.
  intros Ha. pose proof (accounted_more h [(t, o)] x Ha) as Ha'. pose proof Ha as (Hr & Hu & Htk & Hp & Hn).
  assert (accounted (h ++ [(t, o)])%list (mkInstance (in_store x) (in_taken x))) as Hx by by destruct x.
  destruct o as [n p rnd saved|n p rnd|n code|i saved|n|m saved|raw|n rb saved]; cbn [operate].
  - unfold BeginSetup. destruct (IsSetup _); [done|].
    case_decide; [|by eapply accounted_queue; [done|by apply list_elem_of_singleton|..]].
    destruct saved; [by apply accounted_same|]. by eapply accounted_queue; [done|by apply list_elem_of_singleton|..].
  - unfold BeginCreateUser. case_decide; [done|]. by eapply accounted_queue; [done|by apply list_elem_of_singleton|..].
  - unfold take_pending. destruct (as_pending (in_store x) !! ToLower n) as [q|] eqn:Hq; [|done].
    assert (forall k r, delete (ToLower n) (as_pending (in_store x)) !! k = Some r -> begun_user (h ++ [(t, OpTake n code)])%list (pu_user r) (pu_expiresAt r)) as Hdel.
    { intros k r [_ H]%lookup_delete_Some. apply begun_more. by apply (Hp k). }
    unfold time_after. case_bool_decide as Hexp; [by apply accounted_pending|].
    destruct (verifyTOTPSecret _ code (unix t)) eqn:Hv; cbn [negb]; [|done].
    destruct (accounted_pending _ _ _ Ha' Hdel) as (? & ? & ? & ? & ?). split_and!; try done.
    intros u [Hin|Hin%list_elem_of_singleton]%elem_of_app; [by apply confirmed_more, Htk|]. subst u.
    exists h, t, n, code, [], (pu_expiresAt q), (pu_user q). split_and!; try done; [by apply (Hp (ToLower n))|lia].
  - destruct (in_taken x !! i) as [u|] eqn:Hi; [|done]. destruct (mutate_file_users saved (Append u) (in_store x) Hr) as (H1 & H2 & H3). cbn [apply] in H3.
    unfold accounted. cbn [in_store in_taken]. rewrite H1, H2, H3. split_and!; try done.
    + intros v [Hv|Hv%list_elem_of_singleton]%elem_of_app; [by apply Ha'|]. subst v. right. apply confirmed_more, Htk. by eapply list_elem_of_lookup_2.
    + intros v Hv%list_elem_of_delete_inv. by apply Ha'.
    + apply Ha'.
    + intros _. by destruct (users (in_store x)).
  - apply accounted_pending; [done|]. intros k q [_ H]%lookup_delete_Some. apply begun_more. by apply (Hp k).
  - destruct (is_append m) eqn:Hm; [done|]. destruct (mutate_file_users saved m (in_store x) Hr) as (H1 & H2 & H3).
    destruct Ha' as (Hr' & Hu' & Htk' & Hp' & Hn'). unfold accounted. cbn [in_store in_taken]. rewrite H1, H2.
    destruct (apply m (users (in_store x))) as [e|us'] eqn:Hap; rewrite H3; split_and!; try done.
    + intros v Hv. destruct (apply_elem _ _ _ _ Hm Hap Hv) as (u & Hin & Hid). apply Hu' in Hin as [(u0 & ? & ?)|?].
      * left. exists u0. split; [done|congruence].
      * right. by eapply confirmed_ident.
    + intros Hne. by eapply apply_nonempty, Hn.
  - pose proof (verifyTokenKind_spec (in_store x) raw t) as H. destruct (verifyTokenKind (in_store x) raw t) as [[id e] s']. cbn [snd].
    destruct H as (_ & H & ? & ? & ?). apply accounts_idents in H. by apply accounted_same.
  - unfold RemintServiceToken. destruct rb; [by apply accounted_same|]. destruct saved; by apply accounted_same.
Qed.

Lemma run_accounted h h' x : accounted h x -> accounted (h ++ h')%list (run_store x h').
Proof.
  revert h x. induction h' as [|[t o] h' IH]; intros h x Ha; [by rewrite app_nil_r|]. cbn [run_store foldl fst snd].
  rewrite (assoc_L _ h [(t, o)] h' : (h ++ (t, o) :: h' = (h ++ [(t, o)]) ++ h')%list). apply IH. by apply operate_accounted.
Qed.
End accounts.

(** C6. No account without its second factor. Whatever is done to a store of one
    instance, in whatever order and with confirmations cut in two by anything
    else: every user it holds was there at first, or was queued by [BeginSetup]
    or [BeginCreateUser] and then confirmed within ten minutes with a code of the
    very secret it was given. And once there is a user there always is one. *)
Theorem accounts_are_confirmed s0 h :
  as_redis s0 = false -> as_pending s0 = ∅ ->
  let s := in_store (run_store (mkInstance s0 []) h) in
  (forall u, u ∈ users s -> (exists u0, u0 ∈ users s0 /\ ident u0 = ident u) \/ confirmed_user h u) /\
  (users s0 <> [] -> users s <> []).
Proof.
  intros Hr Hp s. assert (accounted s0 [] (mkInstance s0 [])) as H0.
  { split_and!; cbn; try done; [intros u Hu; left; by exists u|intros u Hu; inversion Hu|]. intros k p. by rewrite Hp, lookup_empty. }
  apply (run_accounted s0 [] h) in H0 as (_ & Hu & _ & _ & Hn). split; [exact Hu|exact Hn].
Qed.

(** * Instances *)

Definition ex_key : string := "12345678901234567890".
Definition ex_user (name : string) : User := mkUser name (hex "salt") "00" (b32_encode ex_key) 0 [] [].
Definition ex_data : authData := mkData (hex "cookie-secret") [ex_user "al"] [] (mkLegacy "" "" "" 0).
Definition ex_store : AuthStore := mkStore ex_data ∅ false "".
Definition ex_randoms : randoms := mkRandoms "c" "s" ex_key.
(** The code of the key in the first half minute. *)
Definition ex_code : string := Eval vm_compute in hotp ex_key 0.

Lemma ex_code_ok : verifyTOTPSecret (b32_encode ex_key) ex_code 0 = true.
Proof. vm_compute. reflexivity. Qed.

Lemma begin_take s tk n p rnd code t :
  findUser s n = None -> validUsername n = true -> 8 <= len p -> as_pending s !! ToLower n = None ->
  verifyTOTPSecret (b32_encode (rn_secret rnd)) code (unix t) = true ->
  exists u, u_Username u = n /\ run_store (mkInstance s tk) [(t, OpBeginCreateUser n p rnd); (t, OpTake n code)] = mkInstance s (tk ++ [u])%list.
Proof.
  intros Hf Hn Hp Hpe Hv. cbn [run_store foldl fst snd operate in_store in_taken]. unfold BeginCreateUser. rewrite decide_False by by rewrite Hf; intros [].
  unfold queue, newUserInternal. rewrite Hn. cbn [negb]. rewrite decide_False by lia. cbn [snd in_store in_taken]. unfold take_pending.
  cbn [as_pending set_pending]. rewrite lookup_insert_eq. cbn [pu_expiresAt pu_user u_TOTPSecret]. unfold time_after, pendingTTL, Minute, Second.
  rewrite bool_decide_false by lia. rewrite Hv. cbn [negb]. eexists. split; [|unfold set_pending; cbn [as_data as_pending as_redis as_internalToken];
    rewrite delete_insert_id by done; by destruct s]. done.
Qed.

(** Confirmations cut in two can store one name twice, which [BeginCreateUser] is
    there to prevent. *)
Lemma same_name_twice s n p rnd code t :
  as_redis s = false -> findUser s n = None -> validUsername n = true -> 8 <= len p -> as_pending s !! ToLower n = None ->
  verifyTOTPSecret (b32_encode (rn_secret rnd)) code (unix t) = true ->
  u_Username <$> users (in_store (run_store (mkInstance s [])
    [(t, OpBeginCreateUser n p rnd); (t, OpTake n code); (t, OpBeginCreateUser n p rnd); (t, OpTake n code); (t, OpAppend 0 None); (t, OpAppend 0 None)]))
  = ((u_Username <$> users s) ++ [n; n])%list.
Proof.
  intros Hr Hf Hn Hp Hpe Hv.
  destruct (begin_take s [] n p rnd code t) as (u1 & Hu1 & H1); try done. destruct (begin_take s [u1] n p rnd code t) as (u2 & Hu2 & H2); try done.
  change ([(t, OpBeginCreateUser n p rnd); (t, OpTake n code); (t, OpBeginCreateUser n p rnd); (t, OpTake n code); (t, OpAppend 0 None); (t, OpAppend 0 None)])
    with ([(t, OpBeginCreateUser n p rnd); (t, OpTake n code)] ++ [(t, OpBeginCreateUser n p rnd); (t, OpTake n code)] ++ [(t, OpAppend 0 None); (t, OpAppend 0 None)])%list.
  unfold run_store in *. rewrite !foldl_app, H1. cbn [app]. rewrite H2. cbn [app foldl fst snd operate in_taken in_store lookup list_lookup delete list_delete].
  destruct (mutate_file_users None (Append u1) s Hr) as (_ & Hr1 & E1). cbn [apply] in E1.
  destruct (mutate_file_users None (Append u2) (mutate_file None (Append u1) s) Hr1) as (_ & _ & E2). cbn [apply] in E2.
  rewrite E2, E1, !fmap_app. cbn. rewrite Hu1, Hu2. by rewrite <- app_assoc.
Qed.

Definition same_name_ex := same_name_twice ex_store "bo" "password" ex_randoms ex_code 0 eq_refl eq_refl eq_refl ltac:(by vm_compute) eq_refl ex_code_ok.

(** A deletion that fails while the key is absent has moved the tokens it shares
    with the users in memory: the token is gone and another is there twice. *)
Definition ex_token (id raw : string) : APIToken := mkToken id id (token_hash raw) 0 0.
Definition ex_tokens : list APIToken := [ex_token "t1" "pmt_1"; ex_token "t2" "pmt_2"; ex_token "t3" "pmt_3"].
Definition ex_shared : AuthStore :=
  mkStore (mkData (hex "cookie-secret") [set_tokens ex_tokens (ex_user "al")] [ex_token "bot" "pmt_bot"] (mkLegacy "" "" "" 0)) ∅ true "pmt_internal_00".
Definition quiet : attempt := mkAttempt [] [] [] None None.
Example failed_delete_corrupts :
  let '(err, s, key) := mutateUsers id (mkWorld None (fun _ => mkAttempt [] [] [] None (Some ("EOF", false)))) (DeleteToken "al" "t1") ex_shared None in
  err = Some "EOF" /\ key = None /\ ((fun u => t_ID <$> u_Tokens u) <$> users s) = [["t2"; "t3"; "t3"]] /\
  fst (VerifyToken ex_shared "pmt_1" 0) = "al" /\ fst (VerifyToken s "pmt_1" 0) = "".
Proof. by vm_compute. Qed.

(** The first attempt loses the race against a user added elsewhere; the second
    applies to what it finds. *)
Definition ex_others (k : nat) : attempt :=
  if decide (k = 0)%nat then mkAttempt [] [] [Some (marshal_users [ex_user "al"; ex_user "zoe"])] None None else quiet.
Example mutate_ex :
  let '(err, s, key) := mutateUsers id (mkWorld None ex_others) (Append (ex_user "bo")) ex_shared (Some (marshal_users [ex_user "al"])) in
  err = None /\ (u_Username <$> users s) = ["al"; "zoe"; "bo"] /\ key = Some (marshal_users (users s)).
Proof. by vm_compute. Qed.


Definition ex_history : history :=
  [(0, OpBeginCreateUser "bo" "password" ex_randoms); (0, OpTake "bo" ex_code); (Second, OpMutate (DeleteUser "al") None); (2 * Second, OpAppend 0 None)].
Lemma accounts_are_confirmed_witness :
  let s := in_store (run_store (mkInstance ex_store []) ex_history) in
  (forall u, u ∈ users s -> (exists u0, u0 ∈ users ex_store /\ ident u0 = ident u) \/ confirmed_user ex_history u) /\
  (users ex_store <> [] -> users s <> []).
Proof. apply (accounts_are_confirmed ex_store ex_history); reflexivity. Defined.

(** A service token reads but does not write; a user's token does both. *)
Definition ex_bearer (tok : string) : request := mkRequest "POST" "h" "/api/users" "" {["Authorization" := ["Bearer " +:+ tok]]} "10.0.0.9:1".
Example guards_ex :
  fst (requireAuth ex_shared ∅ (ex_bearer "pmt_bot") 0) = Next "bot" /\
  fst (requireElevated ex_shared ∅ (ex_bearer "pmt_bot") 0) = Stop (refuse ∅ "unauthorized" 401) /\
  fst (requireElevated ex_shared ∅ (ex_bearer "pmt_2") 0) = Next "al" /\
  fst (requireElevated ex_shared ∅ (ex_bearer "pmt_internal_00") 0) = Next "mcp".
Proof. by vm_compute. Qed.
