(* ===== verification/DashApi.v ===== *)
(** * The authentication endpoints of the dashboard: cmd/dashboard/api.go

    The handlers of [/api/auth/...] and [/api/users...] on the store of
    [AuthStore], behind the limiter of ratelimit.go (the code of cmd/auth's), and
    the portal and the proxy asking them. The audit log is left out. *)
From S2P Require Import Prelude GoString Duration Http Sha256 Json Url Sso Net Balancer AuthGate Login OAuth Passkey Totp Users AuthStore.
Open Scope string_scope.

(** ** Calls *)

Inductive endpoint :=
| AuthStatus | AuthSetup | SetupConfirm | AuthLogin | UserExists | VerifyTokenKind | Verify2FA | Logout
| UsersAll | UsersTokens | UsersToken | UsersConfirm | UsersOne.

(** A request with its body, and what the outside answers while it is handled. *)
Record call := mkCall { c_req : request; c_body : string; c_rnd : randoms; c_rb : string; c_world : world }.

Record dashboard := mkDashboard { d_store : AuthStore; d_key : option string; d_rl : gmap string IntLimit.bucket }.
Definition set_store (s : AuthStore) (d : dashboard) : dashboard := mkDashboard s (d_key d) (d_rl d).
Definition set_key (s : AuthStore) (key : option string) (d : dashboard) : dashboard := mkDashboard s key (d_rl d).
Definition set_rl (rl : gmap string IntLimit.bucket) (d : dashboard) : dashboard := mkDashboard (d_store d) (d_key d) rl.

(** The attributes of [setSessionCookie] and [clearSessionCookie]. *)
Definition dash_cookie (value : string) : string :=
  sessionCookie +:+ "=" +:+ sanitizeCookieValue value +:+ "; Path=/; Max-Age=" +:+ FormatInt (Z.quot sessionLifetime Second) +:+ "; HttpOnly; SameSite=Lax".
Definition setSessionCookie (w : header) (value : string) : header := Add_ "Set-Cookie" (dash_cookie value) w.
Definition clearSessionCookie (w : header) : header := Add_ "Set-Cookie" (sessionCookie +:+ "=; Path=/; Max-Age=0") w.

Definition bool_text (b : bool) : string := if b then "true" else "false".
Definition strings_json (l : list (string * string)) : string := enc_values ((fun kv => (fst kv, enc_string (snd kv))) <$> l).
Definition status_json (st : string) : string := strings_json [("status", st)].

(** The string fields of a body's struct. *)
Definition decode_strings (names : list string) (b : string) : option (list string) :=
  l ← decode_first b; mapM (fun n => get_string names n l) names.
(** A field decoded with the error ignored. *)
Definition decode_lenient (name b : string) : string :=
  match decode_first b with
  | Some l => foldl (fun x v => match v with JStr s => s | _ => x end) "" (field_values [name] name l)
  | None => ""
  end.

Section handlers.
(** The text of encoding/json's error, and the picture of a URI. *)
Context (json_error : string -> string) (qrDataURL : string -> string).

Definition WriteErr (w : header) (err : string) : answer := json_answer w 500 (error_json err).
Definition post_only (w : header) : answer := refuse w "POST only" 405.

Definition h_status (d : dashboard) (w : header) (r : request) (now : Z) : answer :=
  let s := d_store d in
  let info := if IsSetup s then sessionFrom s r now else None in
  json_answer w 200 (enc_values
    [("authenticated", bool_text (bool_decide (info <> None))); ("elevated_until", FormatInt (match info with Some i => si_ElevatedUntil i | None => 0 end));
     ("now", FormatInt (unix now)); ("setup_complete", bool_text (IsSetup s));
     ("username", enc_string (match info with Some i => si_Username i | None => "" end))]).

Definition h_setup (d : dashboard) (w : header) (c : call) (now : Z) : answer * dashboard :=
  if decide (req_Method (c_req c) <> "POST") then (post_only w, d) else
  match decode_strings ["Username"; "Password"] (c_body c) with
  | Some [username; password] =>
      let '(res, s) := BeginSetup (d_store d) username password (c_rnd c) (w_saved (c_world c)) now in
      (match res with
       | inl err => refuse w err 400
       | inr (secret, uri) => json_answer w 200 (strings_json
           [("otpauth_uri", uri); ("qr_data_url", qrDataURL uri); ("totp_secret", secret); ("username", username)])
       end, set_store s d)
  | _ => (WriteErr w (json_error (c_body c)), d)
  end.

(** The two confirmations. *)
Definition confirm (d : dashboard) (w : header) (c : call) (now : Z) : answer * dashboard :=
  if decide (req_Method (c_req c) <> "POST") then (post_only w, d) else
  match decode_strings ["Username"; "Code"] (c_body c) with
  | Some [username; code] =>
      let '(err, s, key) := ConfirmPending json_error (c_world c) (d_store d) username code now (d_key d) in
      (match err with
       | Some err => refuse w err 400
       | None => json_answer w 200 (strings_json [("status", "confirmed"); ("username", username)])
       end, set_key s key d)
  | _ => (WriteErr w (json_error (c_body c)), d)
  end.

Definition h_login (d : dashboard) (w : header) (c : call) (now : Z) : answer :=
  let s := d_store d in
  if decide (req_Method (c_req c) <> "POST") then post_only w else
  match decode_strings ["Username"; "Password"; "Code"] (c_body c) with
  | Some [username; password; code] =>
      if negb (IsSetup s) then refuse w "auth not set up" 503 else
      if negb (VerifyPassword s username password) then refuse w "invalid credentials" 401 else
      let enrolled := HasTOTP s username in
      let codeValid := negb (bool_decide (code = "")) && VerifyTOTP s username code now in
      let elev := if codeValid then now + elevatedLifetime else zeroTime in
      json_answer (setSessionCookie w (newCookie s username elev now)) 200 (enc_values
        [("code_valid", bool_text codeValid); ("elevated_until", FormatInt (unix elev)); ("totp_enrolled", bool_text enrolled);
         ("username", enc_string username)])
  | _ => WriteErr w (json_error (c_body c))
  end.

Definition h_user_exists (d : dashboard) (w : header) (c : call) : answer :=
  if decide (req_Method (c_req c) <> "POST") then post_only w else
  match decode_strings ["Username"] (c_body c) with
  | Some [username] => json_answer w 200 (enc_values [("exists", bool_text (Exists_ (d_store d) username))])
  | _ => WriteErr w (json_error (c_body c))
  end.

Definition h_verify_token (d : dashboard) (w : header) (c : call) (now : Z) : answer * dashboard :=
  if decide (req_Method (c_req c) <> "POST") then (post_only w, d) else
  match decode_strings ["Token"] (c_body c) with
  | Some [token] =>
      let '((u, elevated), s) := verifyTokenKind (d_store d) token now in
      (if decide (u = "") then refuse w "invalid token" 401
       else json_answer w 200 (enc_values [("elevated", bool_text elevated); ("username", enc_string u)]), set_store s d)
  | _ => (WriteErr w (json_error (c_body c)), d)
  end.

Definition h_verify_2fa (d : dashboard) (w : header) (c : call) (now : Z) : answer :=
  let s := d_store d in
  if decide (req_Method (c_req c) <> "POST") then post_only w else
  match sessionFrom s (c_req c) now with
  | None => refuse w "unauthorized" 401
  | Some info =>
      match decode_strings ["Code"] (c_body c) with
      | Some [code] =>
          if negb (VerifyTOTP s (si_Username info) code now) then refuse w "invalid code" 401 else
          let elev := now + elevatedLifetime in
          json_answer (setSessionCookie w (newCookie s (si_Username info) elev now)) 200 (enc_values [("elevated_until", FormatInt (unix elev))])
      | _ => WriteErr w (json_error (c_body c))
      end
  end.

Definition h_logout (w : header) : answer := json_answer (clearSessionCookie w) 200 (status_json "logged out").

(** A handler behind a guard. *)
Definition guard (g : AuthStore -> header -> request -> Z -> guarded * AuthStore) (next : dashboard -> answer * dashboard)
    (d : dashboard) (w : header) (c : call) (now : Z) : answer * dashboard :=
  let '(res, s) := g (d_store d) w (c_req c) now in
  let d := set_store s d in
  match res with Next _ => next d | Stop a => (a, d) end.
Definition read_only (f : dashboard -> answer) (d : dashboard) : answer * dashboard := (f d, d).
Definition method_refused (d : dashboard) (w : header) : answer * dashboard := (method_not_allowed w, d).

Definition users_json (us : list User) : string := marshal_users us.
Definition tokens_json (ts : option (list APIToken)) : string :=
  match ts with Some ts => fst (array_text (object_text ∘ token_members <$> ts)) | None => "null" end.

Definition h_users (d : dashboard) (w : header) (c : call) (now : Z) : answer * dashboard :=
  if decide (req_Method (c_req c) = "GET") then
    guard requireAuth (read_only (fun d => json_answer w 200 (users_json (ListUsers (d_store d))))) d w c now
  else if decide (req_Method (c_req c) = "POST") then
    guard requireElevated (fun d =>
      match decode_strings ["Username"; "Password"] (c_body c) with
      | Some [username; password] =>
          let '(res, s) := BeginCreateUser (d_store d) username password (c_rnd c) now in
          (match res with
           | inl err => refuse w err 400
           | inr (secret, uri) => json_answer w 200 (strings_json [("otpauth_uri", uri); ("totp_secret", secret); ("username", username)])
           end, set_store s d)
      | _ => (WriteErr w (json_error (c_body c)), d)
      end) d w c now
  else method_refused d w.

Definition h_tokens (d : dashboard) (w : header) (c : call) (now : Z) : answer * dashboard :=
  if decide (req_Method (c_req c) = "GET") then
    guard requireAuth (read_only (fun d =>
      match sessionFrom (d_store d) (c_req c) now with
      | None => refuse w "tokens listing requires a session" 401
      | Some info => json_answer w 200 (tokens_json (ListTokens (d_store d) (si_Username info)))
      end)) d w c now
  else if decide (req_Method (c_req c) = "POST") then
    guard requireElevated (fun d =>
      match sessionFrom (d_store d) (c_req c) now with
      | None => (refuse w "token creation requires a logged-in session (not another token)" 401, d)
      | Some info =>
          let '(res, s, key) := CreateToken json_error (c_world c) (d_store d) (si_Username info) (decode_lenient "label" (c_body c)) (c_rb c) now (d_key d) in
          (match res with
           | inl err => WriteErr w err
           | inr (raw, t) => json_answer w 200 (strings_json [("id", t_ID t); ("label", t_Label t); ("token", raw)])
           end, set_key s key d)
      end) d w c now
  else method_refused d w.

Definition item_of (prefix : string) (c : call) : string := TrimPrefix (req_Path (c_req c)) prefix.

Definition h_token (d : dashboard) (w : header) (c : call) (now : Z) : answer * dashboard :=
  guard requireElevated (fun d =>
    if decide (req_Method (c_req c) <> "DELETE") then method_refused d w else
    match sessionFrom (d_store d) (c_req c) now with
    | None => (refuse w "token deletion requires a logged-in session" 401, d)
    | Some info =>
        let '(err, s, key) := mutateUsers json_error (c_world c) (DeleteToken (si_Username info) (item_of "/api/users/tokens/" c)) (d_store d) (d_key d) in
        (match err with Some err => refuse w err 400 | None => json_answer w 200 (status_json "deleted") end, set_key s key d)
    end) d w c now.

Definition h_user (d : dashboard) (w : header) (c : call) (now : Z) : answer * dashboard :=
  guard requireElevated (fun d =>
    if decide (req_Method (c_req c) <> "DELETE") then method_refused d w else
    let name := item_of "/api/users/" c in
    let self := match sessionFrom (d_store d) (c_req c) now with Some info => EqualFold (si_Username info) name | None => false end in
    if self then (refuse w "cannot delete yourself" 400, d) else
    let '(err, s, key) := mutateUsers json_error (c_world c) (DeleteUser name) (d_store d) (d_key d) in
    (match err with Some err => refuse w err 400 | None => json_answer w 200 (status_json "deleted") end, set_key s key d)) d w c now.

(** ** The table *)

Definition limited (h : dashboard -> header -> answer * dashboard) (d : dashboard) (w : header) (c : call) (now : Z) : answer * dashboard :=
  let '(a, d, rl) := IntLimit.limit (fun d w _ => h d w) (d_rl d) d w (c_req c) now in (a, set_rl rl d).

Definition serve (d : dashboard) (w : header) (now : Z) (ep : endpoint) (c : call) : answer * dashboard :=
  match ep with
  | AuthStatus => (h_status d w (c_req c) now, d)
  | AuthSetup => limited (fun d w => h_setup d w c now) d w c now
  | SetupConfirm => limited (fun d w => confirm d w c now) d w c now
  | AuthLogin => limited (fun d w => (h_login d w c now, d)) d w c now
  | UserExists => limited (fun d w => (h_user_exists d w c, d)) d w c now
  | VerifyTokenKind => limited (fun d w => h_verify_token d w c now) d w c now
  | Verify2FA => limited (fun d w => (h_verify_2fa d w c now, d)) d w c now
  | Logout => (h_logout w, d)
  | UsersAll => h_users d w c now
  | UsersTokens => h_tokens d w c now
  | UsersToken => h_token d w c now
  | UsersConfirm => guard requireElevated (fun d => confirm d w c now) d w c now
  | UsersOne => h_user d w c now
  end.
End handlers.

(** * Properties *)

(** ** Accounts change for those who may change them *)

Definition accounts (d : dashboard) : list (string * string * string * string * list string * list StoredCredential) :=
  account <$> users (d_store d).

(** A confirmation goes through: its user is waiting, and the code is right. *)
Definition confirms (json_error : string -> string) (d : dashboard) (c : call) (now : Z) : Prop :=
  exists username code u, decode_strings ["Username"; "Code"] (c_body c) = Some [username; code] /\
    fst (take_pending (d_store d) username code now) = inr u.

Section serve.
Context (json_error qrDataURL : string -> string).

Lemma queue_users s n p rnd t : users (snd (queue s n p rnd t)) = users s.
Proof. unfold queue. by destruct (newUserInternal _ _ _ _ _) as [|[[? ?] ?]]. Qed.
Lemma BeginSetup_users s n p rnd saved t : users (snd (BeginSetup s n p rnd saved t)) = users s.
Proof. unfold BeginSetup. destruct (IsSetup s); [done|]. case_decide; [destruct saved; [done|]|]; by rewrite queue_users. Qed.
Lemma take_pending_users s n code t : users (snd (take_pending s n code t)) = users s.
Proof. unfold take_pending. by repeat case_match. Qed.
Lemma verifyTokenKind_accounts s raw t : account <$> users (snd (verifyTokenKind s raw t)) = account <$> users s.
Proof. pose proof (verifyTokenKind_spec s raw t) as H. destruct (verifyTokenKind s raw t) as [[? ?] ?]. by destruct H as (_ & H & _). Qed.

Lemma confirm_accounts d w c now :
  accounts (snd (confirm json_error d w c now)) = accounts d \/ confirms json_error d c now.
Proof.
  unfold confirm, confirms. case_decide; [by left|]. destruct (decode_strings _ _) as [[|n [|code [|]]]|] eqn:Hd; try by left.
  unfold ConfirmPending. pose proof (take_pending_users (d_store d) n code now) as Hu.
  destruct (take_pending (d_store d) n code now) as [[err|u] s] eqn:Ht; [|right; exists n, code, u; by rewrite Ht].
  left. unfold accounts. cbn in *. by rewrite Hu.
Qed.

Lemma limited_accounts (P : Prop) h d w c now :
  (accounts (snd (h d w)) = accounts d \/ P) -> accounts (snd (limited h d w c now)) = accounts d \/ P.
Proof.
  intros Hh. unfold limited, IntLimit.limit. destruct (IntLimit.Allow _ _ _) as [[] rl]; [|by left]. by destruct (h d w).
Qed.

(** The two guards only stamp tokens; the second lets through those who may change things. *)
Lemma requireAuth_accounts s w r now : account <$> users (snd (requireAuth s w r now)) = account <$> users s.
Proof.
  unfold requireAuth. destruct (IsSetup s); cbn [negb]; [|done]. destruct (sessionFrom s r now); [done|].
  assert (account <$> users (snd (if decide (bearerToken r <> "") then VerifyToken s (bearerToken r) now else ("", s))) = account <$> users s) as H.
  { case_decide; [|done]. unfold VerifyToken. pose proof (verifyTokenKind_accounts s (bearerToken r) now). by destruct (verifyTokenKind _ _ _) as [[? ?] ?]. }
  destruct (if decide _ then _ else _) as [u s']. by case_decide.
Qed.
Lemma requireElevated_accounts s w r now : account <$> users (snd (requireElevated s w r now)) = account <$> users s.
Proof.
  unfold requireElevated. destruct (IsSetup s); cbn [negb]; [|done].
  assert (account <$> users (snd (if decide (bearerToken r <> "") then VerifyElevatedToken s (bearerToken r) now else ("", s))) = account <$> users s) as H.
  { case_decide; [|done]. unfold VerifyElevatedToken. pose proof (verifyTokenKind_accounts s (bearerToken r) now). by destruct (verifyTokenKind _ _ _) as [[? ?] ?]. }
  destruct (if decide _ then _ else _) as [u s']. case_decide; [done|]. destruct (sessionFrom s' r now); [|done]. by case_decide.
Qed.

(** Behind the second guard a handler runs only for those. *)
Lemma guard_elevated next d w c now :
  accounts (snd (guard requireElevated next d w c now)) = accounts d \/
  (IsSetup (d_store d) = true /\ exists p, elevated (d_store d) (c_req c) now p).
Proof.
  unfold guard. pose proof (requireElevated_accounts (d_store d) w (c_req c) now) as Ha.
  destruct (requireElevated (d_store d) w (c_req c) now) as [[p|a] s'] eqn:Hg; [right|by left].
  destruct (elevation_sound _ _ _ _ _ _ Hg) as [Hs He]. split; [done|by exists p].
Qed.
Lemma guard_read g f d w c now :
  (forall s, account <$> users (snd (g s w (c_req c) now)) = account <$> users s) -> accounts (snd (guard g (read_only f) d w c now)) = accounts d.
Proof. intros Hg. unfold guard. specialize (Hg (d_store d)). by destruct (g (d_store d) w (c_req c) now) as [[p|a] s']. Qed.

(** The endpoints of api.go leave the accounts alone but for the elevated and for
    the open confirmation. *)
Lemma api_accounts d w now ep c :
  accounts (snd (serve json_error qrDataURL d w now ep c)) = accounts d \/
  (IsSetup (d_store d) = true /\ exists p, elevated (d_store d) (c_req c) now p) \/
  (ep = SetupConfirm /\ confirms json_error d c now).
Proof.
  assert (forall g, g \/ (IsSetup (d_store d) = true /\ exists p, elevated (d_store d) (c_req c) now p) ->
    g \/ (IsSetup (d_store d) = true /\ exists p, elevated (d_store d) (c_req c) now p) \/ (ep = SetupConfirm /\ confirms json_error d c now)) as Hel by tauto.
  destruct ep; cbn [serve].
  - by left.
  - left. destruct (limited_accounts False (fun d w => h_setup json_error qrDataURL d w c now) d w c now) as [?|[]]; [left|done].
    unfold h_setup. case_decide; [done|]. destruct (decode_strings _ _) as [[|n [|p [|]]]|]; try done.
    pose proof (BeginSetup_users (d_store d) n p (c_rnd c) (w_saved (c_world c)) now) as Hq. destruct (BeginSetup _ _ _ _ _ _) as [res s]. unfold accounts. cbn in *. by rewrite Hq.
  - destruct (limited_accounts (confirms json_error d c now) (fun d w => confirm json_error d w c now) d w c now) as [?|?]; [apply confirm_accounts|by left|right; by right].
  - left. by destruct (limited_accounts False (fun d w => (h_login json_error d w c now, d)) d w c now) as [?|[]]; [left|].
  - left. by destruct (limited_accounts False (fun d w => (h_user_exists json_error d w c, d)) d w c now) as [?|[]]; [left|].
  - left. destruct (limited_accounts False (fun d w => h_verify_token json_error d w c now) d w c now) as [?|[]]; [left|done].
    unfold h_verify_token. case_decide; [done|]. destruct (decode_strings _ _) as [[|tok [|]]|]; try done.
    pose proof (verifyTokenKind_accounts (d_store d) tok now) as Hq. by destruct (verifyTokenKind _ _ _) as [[? ?] ?].
  - left. by destruct (limited_accounts False (fun d w => (h_verify_2fa json_error d w c now, d)) d w c now) as [?|[]]; [left|].
  - by left.
  - unfold h_users. case_decide; [left; apply guard_read; intros; apply requireAuth_accounts|]. case_decide; [apply Hel, guard_elevated|by left].
  - unfold h_tokens. case_decide; [left; apply guard_read; intros; apply requireAuth_accounts|]. case_decide; [apply Hel, guard_elevated|by left].
  - apply Hel, guard_elevated.
  - apply Hel, guard_elevated.
  - apply Hel, guard_elevated.
Qed.
End serve.

(** ** Anyone who began the setup may finish it later

    [BeginSetup] and the open confirmation need no credentials, and the latter
    does not look whether the store is set up by now: a stranger who queued a name
    before the first user was confirmed becomes a second user afterwards. *)
Lemma queue_new s n p rnd t :
  validUsername n = true -> 8 <= len p ->
  exists u uri, u_Username u = n /\ u_TOTPSecret u = b32_encode (rn_secret rnd) /\
    queue s n p rnd t = (inr (b32_encode (rn_secret rnd), uri), set_pending (<[ToLower n := mkPendingUser u (t + pendingTTL)]> (as_pending s)) s).
Proof.
  intros Hn Hp. unfold queue, newUserInternal. rewrite Hn. cbn [negb]. rewrite decide_False by lia. eexists _, _. split; [|split; [|reflexivity]]; reflexivity.
Qed.

Lemma confirm_appends json_error w s n code t key u :
  as_redis s = false -> as_pending s !! ToLower n = Some (mkPendingUser u (t + pendingTTL)) -> verifyTOTPSecret (u_TOTPSecret u) code (unix t) = true ->
  snd (fst (ConfirmPending json_error w s n code t key)) = set_users (users s ++ [u])%list (set_pending (delete (ToLower n) (as_pending s)) s).
Proof.
  intros Hr Hp Hv. unfold ConfirmPending, take_pending. rewrite Hp. cbn [pu_expiresAt pu_user]. unfold time_after, pendingTTL, Minute, Second.
  rewrite bool_decide_false, Hv by lia. cbn [negb]. unfold mutateUsers. cbn [as_redis set_pending]. by rewrite Hr.
Qed.

Lemma stranger_joins json_error w s a m pa pm ra rm ca cm t :
  as_redis s = false -> users s = [] -> ad_CookieSecret (as_data s) <> "" -> validUsername a = true -> validUsername m = true -> ToLower a <> ToLower m ->
  8 <= len pa -> 8 <= len pm ->
  verifyTOTPSecret (b32_encode (rn_secret ra)) ca (unix t) = true -> verifyTOTPSecret (b32_encode (rn_secret rm)) cm (unix t) = true ->
  let begun := snd (BeginSetup (snd (BeginSetup s m pm rm None t)) a pa ra None t) in
  let setup := snd (fst (ConfirmPending json_error w begun a ca t None)) in
  let joined := snd (fst (ConfirmPending json_error w setup m cm t None)) in
  IsSetup setup = true /\ u_Username <$> users joined = [a; m].
Proof.
  intros Hr Hu Hc Ha Hm Hne Hpa Hpm Hca Hcm. cbv zeta.
  assert (forall s' n p r, users s' = [] -> ad_CookieSecret (as_data s') <> "" -> BeginSetup s' n p r None t = queue s' n p r t) as Hbegin.
  { intros s' n p r Hu' Hc'. unfold BeginSetup, IsSetup. rewrite Hu', bool_decide_true by done. cbn [negb]. by rewrite decide_False. }
  rewrite (Hbegin s m) by done.
  destruct (queue_new s m pm rm t Hm Hpm) as (um & urim & Hum & Hsm & ->). cbn [snd]. set (s1 := set_pending _ s).
  rewrite (Hbegin s1) by (exact Hu || exact Hc).
  destruct (queue_new s1 a pa ra t Ha Hpa) as (ua & uria & Hua & Hsa & ->). cbn [snd]. set (s2 := set_pending _ s1).
  rewrite (confirm_appends json_error w s2 a ca t None ua) by (done || (cbn; by rewrite lookup_insert_eq) || by rewrite Hsa).
  set (s3 := set_users _ _).
  rewrite (confirm_appends json_error w s3 m cm t None um); [| done | | by rewrite Hsm].
  2:{ cbn. rewrite lookup_delete_ne by done. rewrite lookup_insert_ne by done. by rewrite lookup_insert_eq. }
  assert (users s3 = [ua]) as Hs3 by (change (users s3) with (users s ++ [ua])%list; by rewrite Hu). unfold IsSetup. rewrite Hs3.
  split; [done|]. rewrite set_users_users. cbn. by rewrite Hua, Hum.
Qed.

(** ** The second factor opens the API *)

Lemma newCookie_word s u elev t :
  safe_user u -> int64 (unix t) -> int64 (unix elev) -> all_bytes word_byte (newCookie s u elev t) = true.
Proof.
  intros (_ & Hu & _) Ht He. unfold newCookie. rewrite !all_bytes_app, Hu, !FormatInt_word by done. cbn.
  apply (all_bytes_mono hex_byte); [reflexivity|apply hex_bytes].
Qed.

Lemma dash_cookie_sent r v :
  all_bytes word_byte v = true -> Values (req_Header r) "Cookie" = [sent_back (dash_cookie v)] -> Cookie r sessionCookie = Some v.
Proof.
  intros Hv Hc. apply Cookie_word; [done..|exact Hv|]. rewrite Hc. f_equal. unfold sent_back, dash_cookie. rewrite sanitize_word by done.
  change ("; Path=/; Max-Age=" +:+ ?x)%string with (String ";" (" Path=/; Max-Age=" +:+ x)%string).
  match goal with |- context [String ";" ?x] => generalize x end. intros rest.
  replace (sessionCookie +:+ "=" +:+ v +:+ String ";" rest)%string with ((sessionCookie +:+ "=" +:+ v) +:+ String ";" rest)%string by by rewrite !append_assoc.
  apply before_byte_app.
  rewrite !has_byte_app, (all_bytes_free word_byte _ _ Hv) by done. done.
Qed.

(** What the second guard says to a request with a session and no token. *)
Definition session_verdict (s : AuthStore) (w : header) (u : string) (elev t0 t1 : Z) : guarded :=
  if negb (IsSetup s) then Stop (refuse w "auth not set up" 503)
  else if decide (t1 - unix t0 * Second <= sessionLifetime /\ findUser s u <> None) then
    if decide (unix t1 > unix elev) then Stop (refuse w "2fa required" 403) else Next u
  else Stop (refuse w "unauthorized" 401).

(** What the first guard says to it. *)
Definition session_admitted (s : AuthStore) (w : header) (u : string) (t0 t1 : Z) : guarded :=
  if negb (IsSetup s) then Stop (refuse w "auth not set up" 503)
  else if decide (t1 - unix t0 * Second <= sessionLifetime /\ findUser s u <> None) then Next u
  else Stop (refuse w "unauthorized" 401).

(** C8. The second factor opens the elevated endpoints. A login that succeeds sets
    one session cookie. To this store, or to any with the same secret, a request
    that carries it as its only cookie and no bearer token is that user's at the
    endpoints behind requireAuth for eight hours, while the user exists; and at
    those behind requireElevated too if the login carried a code that was right,
    else they answer 403. Later, or once the user is gone, both answer 401. (The
    user's name is one that a cookie carries as it is.) *)
Theorem second_factor_opens_the_api json_error d w c t0 username password code s' w' r t1 :
  decode_strings ["Username"; "Password"; "Code"] (c_body c) = Some [username; password; code] ->
  a_Status (h_login json_error d w c t0) = 200 ->
  safe_user username -> 0 <= t0 -> 0 <= t1 -> int64 (unix (t0 + elevatedLifetime)) ->
  ad_CookieSecret (as_data s') = ad_CookieSecret (as_data (d_store d)) ->
  exists line, Values (a_Header (h_login json_error d w c t0)) "Set-Cookie" = (Values w "Set-Cookie" ++ [line])%list /\
    (Values (req_Header r) "Cookie" = [sent_back line] -> bearerToken r = "" ->
     requireAuth s' w' r t1 = (session_admitted s' w' username t0 t1, s') /\
     requireElevated s' w' r t1 =
       (session_verdict s' w' username
          (if decide (code <> "" /\ VerifyTOTP (d_store d) username code t0 = true) then t0 + elevatedLifetime else zeroTime) t0 t1, s')).
Proof.
  intros Hd Hst Hu H0 H1 Hel Hs. unfold h_login in *. case_decide; [done|]. rewrite Hd in *.
  destruct (IsSetup (d_store d)); cbn [negb] in *; [|done]. destruct (VerifyPassword _ _ _); cbn [negb] in *; [|done].
  assert ((if negb (bool_decide (code = "")) && VerifyTOTP (d_store d) username code t0 then t0 + elevatedLifetime else zeroTime) =
    (if decide (code <> "" /\ VerifyTOTP (d_store d) username code t0 = true) then t0 + elevatedLifetime else zeroTime)) as ->.
  { destruct (decide (code = "")) as [->|Hc]; cbn; [by rewrite decide_False by by intros [? _]|]. rewrite bool_decide_false by done. cbn.
    destruct (VerifyTOTP _ _ _ _); [by rewrite decide_True|by rewrite decide_False by by intros [_ ?]]. }
  set (elev := if decide (code <> "" /\ _) then _ else _). exists (dash_cookie (newCookie (d_store d) username elev t0)).
  assert (0 <= unix t0 <= unix (t0 + elevatedLifetime)) as Ht0.
  { unfold unix, elevatedLifetime, sessionLifetime, Hour, Minute, Second. Z.to_euclidean_division_equations. lia. }
  assert (int64 (unix t0)) as Hi0 by (unfold int64, minInt64, maxInt64 in *; lia).
  assert (int64 (unix elev)) as Hie.
  { unfold elev. destruct (decide (code <> "" /\ _)); [exact Hel|]. unfold int64. by vm_compute. }
  split.
  - unfold json_answer, WriteJSON, setSessionCookie. cbn [a_Header rs_Header]. by autorewrite with headers.
  - intros Hck Hb. apply dash_cookie_sent in Hck; [|by apply newCookie_word].
    assert (sessionFrom s' r t1 = if decide (t1 - unix t0 * Second <= sessionLifetime /\ findUser s' username <> None)
      then Some (mkSession username (unix t0) (unix elev)) else None) as Hsess.
    { unfold sessionFrom. rewrite Hck. cbn [mbind option_bind]. destruct Hu as (_ & _ & Hbar).
      by rewrite (parse_newCookie (d_store d) s' username elev t0 t1 Hbar Hi0 Hie Hs). }
    unfold requireAuth, requireElevated, session_admitted, session_verdict. rewrite Hsess, Hb. destruct (IsSetup s'); cbn [negb]; [|done].
    destruct (decide (t1 - unix t0 * Second <= sessionLifetime /\ findUser s' username <> None)); cbn [si_ElevatedUntil si_Username].
    + split; [done|]. do 2 rewrite decide_False by by intros []. rewrite Hsess. cbn [si_ElevatedUntil si_Username]. by destruct (decide (unix t1 > unix elev)).
    + split; (do 2 (rewrite decide_False by (by intros []))); [done|]. by rewrite Hsess.
Qed.

(** ** The portal asks the dashboard *)

Definition answer_text (a : answer) : string := match a with Plain r => match rs_Body r with Text s => s | _ => "" end | Html _ _ _ _ => "" end.
(** The call of the portal's or the proxy's HTTP client, from its own address;
    these handlers look neither at the host nor at the path. *)
Definition client_call (addr path body : string) : call :=
  mkCall (mkRequest "POST" "" path "" {["Content-Type" := ["application/json"]]} addr) body (mkRandoms "" "" "") "" (mkWorld None (fun _ => quiet)).

Section ask.
Context (json_error qrDataURL : string -> string).

Definition ask (d : dashboard) (addr : string) (now : Z) (ep : endpoint) (path body : string) : option (Z * string) :=
  let a := fst (serve json_error qrDataURL d ∅ now ep (client_call addr path body)) in Some (a_Status a, answer_text a).
(** The dashboard at a base URL. *)
Definition dashboard_reply (d : dashboard) (addr base : string) (now : Z) (url body : string) : option (Z * string) :=
  match CutPrefix url base with
  | Some path =>
      if decide (path = "/api/auth/login") then ask d addr now AuthLogin path body
      else if decide (path = "/api/auth/verify-token") then ask d addr now VerifyTokenKind path body
      else if decide (path = "/api/auth/user-exists") then ask d addr now UserExists path body
      else None
  | None => None
  end.

(** The limiter lets the caller's address through. *)
Definition let_through (d : dashboard) (addr : string) (now : Z) : bool := fst (IntLimit.Allow (d_rl d) (remote_host addr) now).

Lemma ask_limited h d addr now path body :
  fst (limited h d ∅ (client_call addr path body) now) =
  if let_through d addr now then fst (h d ∅) else refuse ∅ ("too many attempts " +:+ utf8 8212 +:+ " wait a few minutes") 429.
Proof.
  unfold limited, IntLimit.limit, let_through.
  assert (IntLimit.clientIP (c_req (client_call addr path body)) = remote_host addr) as -> by by (unfold IntLimit.clientIP; vm_compute (Get _ _)).
  destruct (IntLimit.Allow _ _ _) as [[] rl]; [|done]. by destruct (h d ∅).
Qed.

(** *** Bodies and replies are read back *)

Lemma decode_first_closed text l rest : closed text (JObj l) -> decode_first (text +:+ rest) = Some l.
Proof. intros Hc. unfold decode_first. rewrite Hc; [done|]. rewrite length_append. lia. Qed.

Lemma enc_values_members ms : enc_values ((fun m => (key m, snd (fst m))) <$> ms) = fst (object_text ms).
Proof. unfold enc_values, object_text. cbn [fst]. by rewrite <- list_fmap_compose. Qed.

Lemma decode_members ms rest : Forall member_readable ms -> decode_first (fst (object_text ms) +:+ rest) = Some (member_json <$> ms).
Proof. intros Hm. apply decode_first_closed. by apply closed_object. Qed.

Lemma enc_object_members l : enc_object l = fst (object_text (flat_member <$> l)).
Proof. unfold enc_object, object_text. cbn [fst]. by rewrite <- list_fmap_compose. Qed.

Lemma decode_strings_flat names l :
  Forall (fun kv => ascii_string (fst kv) /\ flat_ok (snd kv)) l ->
  decode_strings names (enc_object l) = mapM (fun n => get_string names n (json_field <$> l)) names.
Proof.
  intros Hl. unfold decode_strings. rewrite enc_object_members. rewrite <- (append_nil_r (fst _)), decode_members.
  - cbn [mbind option_bind]. by rewrite <- list_fmap_compose.
  - apply Forall_fmap. eapply Forall_impl; [exact Hl|]. intros [k v] [Hk Hv]. split; [done|]. by apply readable_flat.
Qed.

Lemma readable_bool b : readable (bool_text b) (JBool b).
Proof. destruct b; [apply readable_true|apply readable_false]. Qed.
Ltac members := repeat apply Forall_cons_2; try apply Forall_nil_2; auto with members.

Lemma login_decodes form :
  ascii_string (form_get form "username") -> ascii_string (form_get form "password") -> ascii_string (form_get form "code") ->
  decode_strings ["Username"; "Password"; "Code"] (login_body form) = Some [form_get form "username"; form_get form "password"; form_get form "code"].
Proof.
  intros Hu Hp Hc. unfold login_body. rewrite decode_strings_flat by (repeat constructor; assumption).
  generalize (form_get form "username") (form_get form "password") (form_get form "code"). intros u p c.
  change (json_field <$> [("code", inl c); ("password", inl p); ("username", inl u)])
    with (member_json (m_string "code" c) :: member_json (m_string "password" p) :: member_json (m_string "username" u) :: []).
  unfold get_string. cbn [mapM]. fields. reflexivity.
Qed.

Definition login_members (v e : bool) (n : Z) (u : string) : list member :=
  [m_bool "code_valid" v; m_int "elevated_until" n; m_bool "totp_enrolled" e; m_string "username" u].
Lemma login_reply v e n u : int64 n -> ascii_string u ->
  totp_reply (enc_values [("code_valid", bool_text v); ("elevated_until", FormatInt n); ("totp_enrolled", bool_text e); ("username", enc_string u)] +:+ newline)
  = Some (e, v).
Proof.
  intros Hn Hu. change [("code_valid", bool_text v); ("elevated_until", FormatInt n); ("totp_enrolled", bool_text e); ("username", enc_string u)]
    with ((fun m => (key m, snd (fst m))) <$> login_members v e n u).
  rewrite enc_values_members. unfold totp_reply. rewrite decode_members by (unfold login_members; members).
  cbn [mbind option_bind login_members fmap list_fmap]. unfold get_ptr, get_bool. fields. reflexivity.
Qed.

(** The store accepts a name, a password and a code. *)
Definition store_accepts (d : dashboard) (addr : string) (now : Z) (username password code : string) : Prop :=
  let_through d addr now = true /\ IsSetup (d_store d) = true /\ VerifyPassword (d_store d) username password = true /\
  (HasTOTP (d_store d) username = true -> code <> "" /\ VerifyTOTP (d_store d) username code now = true).

Lemma accepted_by_the_store d addr now s form :
  int64 (unix (now + elevatedLifetime)) ->
  ascii_string (form_get form "username") -> ascii_string (form_get form "password") -> ascii_string (form_get form "code") ->
  password_accepted (dashboard_reply d addr (ls_dashboardURL s) now) s form <->
  store_accepts d addr now (form_get form "username") (form_get form "password") (form_get form "code").
Proof.
  intros Hn Hu Hp Hc. unfold password_accepted, dashboard_reply, store_accepts. rewrite CutPrefix_app.
  rewrite decide_True by done. unfold ask. cbn [serve]. rewrite ask_limited.
  destruct (let_through d addr now); [|split; [by intros (? & ? & ? & [= ? _] & _)|by intros [? _]]].
  cbn [fst]. unfold h_login. cbn [c_req client_call req_Method c_body]. rewrite decide_False by (intros []; done). rewrite login_decodes by done.
  destruct (IsSetup (d_store d)); cbn [negb]; [|split; [by intros (? & ? & ? & [= ? _] & _)|by intros (_ & ? & _)]].
  destruct (VerifyPassword _ _ _); cbn [negb]; [|split; [by intros (? & ? & ? & [= ? _] & _)|by intros (_ & _ & ? & _)]].
  set (e := HasTOTP _ _). set (v := negb _ && _). set (elev := if v then _ else _).
  cbn [json_answer a_Status answer_text WriteJSON rs_Status rs_Body].
  assert (int64 (unix elev)) as Hel by (unfold elev; destruct v; [done|by vm_compute]).
  pose proof (login_reply v e (unix elev) (form_get form "username") Hel Hu) as Hl. set (text := (enc_values _ +:+ newline)%string) in *. clearbody text.
  split.
  - intros (b & e' & v' & [= <-] & Hr & Hev). rewrite Hl in Hr. injection Hr as <- <-. split_and!; try done.
    intros He. specialize (Hev He). unfold v in Hev. apply andb_true_iff in Hev as [H1 H2]. split; [|done].
    intros H. by rewrite H in H1.
  - intros (_ & _ & _ & Hev). exists text, e, v. split_and!; [done|done|]. intros He. destruct (Hev He) as [H1 H2].
    unfold v. by rewrite bool_decide_false, H2 by done.
Qed.

(** C3. The portal signs in the users of the store. From the browser's form to
    the users' file: the portal answers a login with a session cookie exactly
    when the request is a POST of its own form, the dashboard's limiter lets the
    portal through, the store is set up, the password is that of the user named,
    and, if the user has a second factor, a code was given and is right now; the
    cookie is then that user's, for the request's domain. (Name, password and
    code are ASCII text, which the JSON between the two programs carries as it
    is.) *)
Theorem portal_signs_in_users_of_the_store fetch d addr s w r body rnd now :
  let form := fst (ParseForm r body) in
  let resp := fst (handleLogin (dashboard_reply d addr (ls_dashboardURL s) now) fetch s w r body rnd now) in
  let username := form_get form "username" in
  let accepted := req_Method r = "POST" /\ own_form s r body /\
    store_accepts d addr now username (form_get form "password") (form_get form "code") in
  Values w "Set-Cookie" = [] -> int64 (unix (now + elevatedLifetime)) ->
  ascii_string username -> ascii_string (form_get form "password") -> ascii_string (form_get form "code") ->
  (accepted /\ session_lines resp = [cookie_String (session_cookie s username (matchDomain s (hostOnly (req_Host r))) now)]) \/
  (~ accepted /\ session_lines resp = []).
Proof.
  intros form resp username accepted Hw Hn Hu Hp Hc.
  pose proof (accepted_by_the_store d addr now s form Hn Hu Hp Hc) as Hacc.
  pose proof (login_sessions (dashboard_reply d addr (ls_dashboardURL s) now) fetch s w r body rnd now Hw) as Hs. cbv zeta in Hs.
  fold form in Hs. fold resp in Hs. unfold accepted, username. rewrite <- Hacc. tauto.
Qed.

(** *** Tokens *)

Lemma one_string name json_name s :
  field_matches [name] name json_name = true -> ascii_string json_name -> ascii_string s ->
  decode_strings [name] (enc_object [(json_name, inl s)]) = Some [s].
Proof.
  intros Hf Hn Hs. rewrite decode_strings_flat by by repeat constructor.
  change (json_field <$> [(json_name, inl s)]) with (member_json (m_string json_name s) :: []). unfold get_string. cbn [mapM].
  rewrite fv_hit by done. by rewrite fv_nil.
Qed.

(** The names a token can stand for. *)
Definition ascii_names (s : AuthStore) : Prop :=
  Forall (fun u => ascii_string (u_Username u)) (users s) /\ Forall (fun t => ascii_string (t_Label t)) (ad_ServiceTokens (as_data s)).

Lemma grant_ascii s raw p e : ascii_names s -> token_grant s raw p e -> ascii_string p.
Proof.
  intros [Hu Ht] Hg. rewrite Forall_forall in Hu. rewrite Forall_forall in Ht. inversion Hg; subst; [done|by apply Ht|by apply Hu].
Qed.

Definition token_reply_text (u : string) (e : bool) : string := enc_values [("elevated", bool_text e); ("username", enc_string u)] +:+ newline.
Lemma token_reply_decodes u e : ascii_string u ->
  elevated_reply (token_reply_text u e) = (if decide (u = "" \/ e = false) then None else Some u) /\ decode_username (token_reply_text u e) = Some u.
Proof.
  intros Hu. unfold token_reply_text.
  change [("elevated", bool_text e); ("username", enc_string u)] with ((fun m => (key m, snd (fst m))) <$> [m_bool "elevated" e; m_string "username" u]).
  rewrite enc_values_members. assert (Forall member_readable [m_bool "elevated" e; m_string "username" u]) as Hm by members. split.
  - unfold elevated_reply. rewrite decode_members by done. cbn [mbind option_bind fmap list_fmap]. unfold get_string, get_ptr. fields.
    cbn. destruct e; repeat case_decide; naive_solver.
  - pose proof (decode_members _ newline Hm) as Hd. unfold decode_first in Hd. unfold decode_username.
    destruct (parse_value _ _) as [[[] ?]|]; try done; cbn [mbind option_bind]; injection Hd as ->; unfold get_string; cbn [fmap list_fmap]; by fields.
Qed.

Lemma ask_token d addr now path tok :
  ascii_string tok -> ascii_names (d_store d) -> let_through d addr now = true ->
  match ask d addr now VerifyTokenKind path (enc_object [("token", inl tok)]) with
  | Some (200, b) => exists u e, u <> "" /\ token_grant (d_store d) tok u e /\ ascii_string u /\ b = token_reply_text u e
  | r => exists st b, r = Some (st, b) /\ st = 401
  end.
Proof.
  intros Htok Hn Ht. unfold ask. cbn [serve]. rewrite ask_limited, Ht. unfold h_verify_token. cbn [c_req client_call req_Method c_body].
  rewrite decide_False by (intros []; done). rewrite one_string by done.
  pose proof (verifyTokenKind_spec (d_store d) tok now) as Hs. destruct (verifyTokenKind (d_store d) tok now) as [[u e] s']. destruct Hs as [Hg _].
  case_decide as Hu; [cbn; by eexists _, _|]. cbn [fst json_answer a_Status answer_text WriteJSON rs_Status rs_Body]. exists u, e.
  destruct Hg as [Hg|[? _]]; [|done]. split_and!; try done. by eapply grant_ascii.
Qed.

(** C9. No service token signs anybody in. When the portal's recovery login
    gives a session, the request was a POST from this site and the submitted
    token is the dashboard's own or one of a user of the store, whose session it
    is. A token minted for another program stands for a name there, but opens no
    session. (Token and names are ASCII text.) *)
Theorem service_tokens_sign_nobody_in fetch d addr s w r body now line :
  let token := form_get (fst (ParseForm r body)) "token" in
  Values w "Set-Cookie" = [] -> ascii_string token -> ascii_names (d_store d) ->
  line ∈ session_lines (fst (handleTokenLogin (dashboard_reply d addr (ls_dashboardURL s) now) fetch s w r body now)) ->
  exists user, req_Method r = "POST" /\ sameOriginOK r = true /\ let_through d addr now = true /\ user <> "" /\
    token_grant (d_store d) token user true /\
    line = cookie_String (session_cookie s user (matchDomain s (hostOnly (req_Host r))) now).
Proof.
  intros token Hw Ht Hn Hl. apply token_session in Hl as (user & Hp & Ho & _ & (_ & b & Hb & He) & Hline); [|done].
  fold token in Hb. unfold dashboard_reply in Hb. rewrite CutPrefix_app in Hb. rewrite decide_False, decide_True in Hb by done.
  destruct (let_through d addr now) eqn:Hlt.
  - pose proof (ask_token d addr now "/api/auth/verify-token" token Ht Hn Hlt) as Ha. rewrite Hb in Ha.
    destruct Ha as (u & e & Hu & Hg & Hau & ->). rewrite (proj1 (token_reply_decodes u e Hau)) in He. case_decide as Hd; [done|]. injection He as ->.
    exists user. split_and!; try done. destruct e; [done|]. exfalso. apply Hd. by right.
  - unfold ask in Hb. cbn [serve] in Hb. rewrite ask_limited, Hlt in Hb. cbn in Hb. congruence.
Qed.

(** The proxy's gate takes a token for whoever it stands for, a service too. *)
Lemma gate_asks_the_store d addr now path tok :
  ascii_string tok -> ascii_names (d_store d) -> let_through d addr now = true ->
  let u := ask_dashboard (fun tok => ask d addr now VerifyTokenKind path (enc_object [("token", inl tok)])) tok in
  u = "" \/ exists e, token_grant (d_store d) tok u e.
Proof.
  intros Htok Hn Ht. cbv zeta. unfold ask_dashboard. pose proof (ask_token d addr now path tok Htok Hn Ht) as Ha.
  destruct (ask _ _ _ _ _ _) as [[st b]|]; [|by left]. destruct (decide (st = 200)) as [->|Hst].
  - destruct Ha as (u & e & _ & Hg & Hu & ->). rewrite (proj2 (token_reply_decodes u e Hu)). right. by exists e.
  - left. by repeat case_match; simplify_eq.
Qed.
End ask.

(** * Instances *)

Definition ex_dash : dashboard := mkDashboard ex_shared None ∅.
Definition ex_qr (u : string) : string := "".
Definition ex_addr : string := "172.18.0.5:40000".
Definition ex_gate_asks (d : dashboard) (tok : string) : string :=
  ask_dashboard (fun tok => ask id ex_qr d ex_addr 0 VerifyTokenKind "/api/auth/verify-token" (enc_object [("token", inl tok)])) tok.
Definition ex_tries (tok : string) (d : dashboard) : dashboard :=
  snd (serve id ex_qr d ∅ 0 VerifyTokenKind (client_call ex_addr "/api/auth/verify-token" (enc_object [("token", inl tok)]))).

(** The limiter knows the proxy by its one address: five bad tokens, from anybody
    on any host, and a good one is refused. *)
Example one_budget_for_all :
  ex_gate_asks ex_dash "pmt_2" = "al" /\ ex_gate_asks (Nat.iter 4 (ex_tries "pmt_bad") ex_dash) "pmt_2" = "al" /\
  ex_gate_asks (Nat.iter 5 (ex_tries "pmt_bad") ex_dash) "pmt_2" = "".
Proof. by vm_compute. Qed.

Definition ex_token_form (tok : string) : form_body := FormBody ("token=" +:+ tok +:+ "&csrf=c0ffee&redirect=").
Definition ex_asks : string -> string -> option (Z * string) := dashboard_reply id ex_qr ex_dash ex_addr (ls_dashboardURL ex_portal) 0.
Example token_login_ex :
  let resp tok := fst (handleTokenLogin ex_asks ex_routes ex_portal ∅ (ex_posted "auth.example.org") (ex_token_form tok) 0) in
  session_lines (resp "pmt_2") = [cookie_String (session_cookie ex_portal "al" "example.org" 0)] /\
  session_lines (resp "pmt_bot") = [] /\ a_Status (resp "pmt_bot") = 401.
Proof. by vm_compute. Qed.

Lemma portal_signs_in_users_of_the_store_witness :
  let r := ex_posted "auth.example.org" in
  let form := fst (ParseForm r ex_login_form) in
  let resp := fst (handleLogin ex_asks ex_routes ex_portal ∅ r ex_login_form "" 0) in
  let accepted := req_Method r = "POST" /\ own_form ex_portal r ex_login_form /\ store_accepts ex_dash ex_addr 0 "al" "pw" "123456" in
  (accepted /\ session_lines resp = [cookie_String (session_cookie ex_portal "al" "example.org" 0)]) \/ (~ accepted /\ session_lines resp = []).
Proof.
  apply (portal_signs_in_users_of_the_store id ex_qr ex_routes ex_dash ex_addr ex_portal ∅ (ex_posted "auth.example.org") ex_login_form "" 0);
    [reflexivity|by vm_compute|reflexivity..].
Defined.

Lemma service_tokens_sign_nobody_in_witness :
  let r := ex_posted "auth.example.org" in let line := cookie_String (session_cookie ex_portal "al" "example.org" 0) in
  exists user, req_Method r = "POST" /\ sameOriginOK r = true /\ let_through ex_dash ex_addr 0 = true /\ user <> "" /\
    token_grant (d_store ex_dash) "pmt_2" user true /\
    line = cookie_String (session_cookie ex_portal user (matchDomain ex_portal (hostOnly (req_Host r))) 0).
Proof.
  apply (service_tokens_sign_nobody_in id ex_qr ex_routes ex_dash ex_addr ex_portal ∅ (ex_posted "auth.example.org") (ex_token_form "pmt_2") 0);
    [reflexivity|reflexivity|split; repeat constructor|]. apply (bool_decide_unpack _). vm_compute. exact I.
Defined.

(** A user with a real hash. *)
Definition ex_hashed : AuthStore :=
  mkStore (mkData (hex "cookie-secret") [mkUser "al" (hex "salt") (hex (password_hash "password" "salt")) (b32_encode ex_key) 0 [] []] [] (mkLegacy "" "" "" 0)) ∅ false "".
Definition ex_login_call : call :=
  mkCall (mkRequest "POST" "h" "/api/auth/login" "" ∅ "10.0.0.9:1")
    (enc_object [("username", inl "al"); ("password", inl "password"); ("code", inl ex_code)]) (mkRandoms "" "" "") "" (mkWorld None (fun _ => quiet)).
Lemma ex_password : VerifyPassword ex_hashed "al" "password" = true.
Proof.
  unfold VerifyPassword. change (findUser ex_hashed "al") with (Some (mkUser "al" (hex "salt") (hex (password_hash "password" "salt")) (b32_encode ex_key) 0 [] [])).
  cbv beta iota. cbn [u_Salt u_PasswordHash]. rewrite (hex_prefix_hex (password_hash "password" "salt")), (hex_prefix_hex "salt"). apply bool_decide_eq_true_2. reflexivity.
Qed.
Lemma h_login_ok json_error d w c now u p code :
  req_Method (c_req c) = "POST" -> decode_strings ["Username"; "Password"; "Code"] (c_body c) = Some [u; p; code] ->
  IsSetup (d_store d) = true -> VerifyPassword (d_store d) u p = true -> a_Status (h_login json_error d w c now) = 200.
Proof. intros Hm Hd Hs Hp. unfold h_login. rewrite Hm, decide_False by (intros []; done). rewrite Hd, Hs, Hp. reflexivity. Qed.
Lemma ex_login_ok : a_Status (h_login id (mkDashboard ex_hashed None ∅) ∅ ex_login_call 0) = 200.
Proof. apply (h_login_ok id (mkDashboard ex_hashed None ∅) ∅ ex_login_call 0 "al" "password" ex_code); [done|by vm_compute|done|exact ex_password]. Qed.

Lemma second_factor_opens_the_api_witness :
  let d := mkDashboard ex_hashed None ∅ in let r := ex_bearer "" in
  exists line, Values (a_Header (h_login id d ∅ ex_login_call 0)) "Set-Cookie" = (Values ∅ "Set-Cookie" ++ [line])%list /\
    (Values (req_Header r) "Cookie" = [sent_back line] -> bearerToken r = "" ->
     requireAuth ex_hashed ∅ r Hour = (session_admitted ex_hashed ∅ "al" 0 Hour, ex_hashed) /\
     requireElevated ex_hashed ∅ r Hour =
       (session_verdict ex_hashed ∅ "al"
          (if decide (ex_code <> "" /\ VerifyTOTP ex_hashed "al" ex_code 0 = true) then 0 + elevatedLifetime else zeroTime) 0 Hour, ex_hashed)).
Proof.
  intros d r. apply (second_factor_opens_the_api id d ∅ ex_login_call 0 "al" "password" ex_code ex_hashed ∅ r Hour);
    [by vm_compute|exact ex_login_ok|by split_and!|by vm_compute|by vm_compute|by vm_compute|reflexivity].
Defined.
