(* ===== verification/DashPasskey.v ===== *)
(** * The passkey endpoints of the dashboard: cmd/dashboard/passkey.go

    [registerPasskeyRoutes] on the store of [AuthStore] and the guards of
    [DashApi], with the library and the pending ceremonies of [Passkey] (the code
    of the portal's manager and of the dashboard's is the same); and all the
    endpoints that change accounts, these and those of [DashApi], together. The
    dashboard has one manager, for the relying party it was configured with. *)
From S2P Require Import Prelude GoString Duration Http Sha256 Json Url Sso Net Balancer AuthGate Login OAuth Passkey Totp Users AuthStore DashApi.
Open Scope string_scope.

Definition toAdapter (u : User) : Adapter := mkAdapter (UserID (u_Username u)) (u_Username u) (Credentials (u_Credentials u)).
(** The adapter of a user that is gone: of Go's zero User. *)
Definition adapter_of (u : option User) : Adapter := toAdapter (default (mkUser "" "" "" "" 0 [] []) u).

Definition PathUnescape (s : string) : option string := unescape encodePath s.

(** What the outside gives a call: the challenge the library draws, and 18 random
    bytes or an error. *)
Inductive passkey_endpoint :=
| PkAvailable
| PkRegisterBegin (challenge : string) (rnd : string + string)
| PkRegisterFinish
| PkLoginBegin (challenge : string) (rnd : string + string)
| PkLoginFinish
| PkList
| PkDelete.

Section endpoints.
Context `{WebAuthn} (json_error qrDataURL : string -> string) (rp : string).

(** The dashboard and the ceremonies in flight. *)
Record site := mkSite { st_d : dashboard; st_regs : gmap string PendingCeremony }.
Definition set_d (d : dashboard) (x : site) : site := mkSite d (st_regs x).
Definition set_regs (m : gmap string PendingCeremony) (x : site) : site := mkSite (st_d x) m.
Definition set_as (s : AuthStore) (x : site) : site := set_d (DashApi.set_store s (st_d x)) x.
Definition site_store (x : site) : AuthStore := d_store (st_d x).

(** A handler behind a guard of the store; behind the limiter. *)
Definition guard_site (g : AuthStore -> header -> request -> Z -> guarded * AuthStore) (next : site -> answer * site)
    (x : site) (w : header) (r : request) (now : Z) : answer * site :=
  let '(res, s) := g (site_store x) w r now in
  let x := set_as s x in
  match res with Next _ => next x | Stop a => (a, x) end.
Definition limited_site (h : site -> answer * site) (x : site) (w : header) (r : request) (now : Z) : answer * site :=
  let '(a, x, rl) := IntLimit.limit (fun x _ _ => h x) (d_rl (st_d x)) x w r now in (a, set_d (set_rl rl (st_d x)) x).

(** A mutation of the users, from a handler. *)
Definition mutate (c : call) (m : mutation) (x : site) : option string * site :=
  let '(err, s, key) := mutateUsers json_error (c_world c) m (site_store x) (d_key (st_d x)) in
  (err, set_d (set_key s key (st_d x)) x).

Definition h_available (x : site) (w : header) : answer :=
  json_answer w 200 (enc_values [("available", bool_text (existsb (fun u => negb (bool_decide (u_Credentials u = []))) (users (site_store x))))]).

(** The library's options for a ceremony that is put aside under a token. *)
Definition begun_site (x : site) (w : header) (res : string + (string * session)) (username : string) (rnd : string + string) (now : Z) : answer * site :=
  match res with
  | inl err => (refuse w err 500, x)
  | inr (opts, sess) =>
      match PutCeremony (st_regs x) sess username rnd now with
      | (inl err, m) => (refuse w err 500, set_regs m x)
      | (inr tok, m) => (json_answer w 200 (enc_values [("ceremony", enc_string tok); ("options", opts)]), set_regs m x)
      end
  end.

Definition h_register_begin (x : site) (w : header) (c : call) (challenge : string) (rnd : string + string) (now : Z) : answer * site :=
  guard_site requireAuth (fun x =>
    match sessionFrom (site_store x) (c_req c) now with
    | None => (refuse w "registration requires a logged-in session (not a token)" 401, x)
    | Some info =>
        match findUser (site_store x) (si_Username info) with
        | None => (refuse w "user not found" 404, x)
        | Some u => begun_site x w (BeginRegistration rp (toAdapter u) challenge) (u_Username u) rnd now
        end
    end) x w (c_req c) now.

(** The credential a finished registration stores. *)
Definition registered (r : request) (parsed : creation) (cred : credential) (now : Z) : StoredCredential :=
  stamp (mkStored (c_ID cred) (c_PublicKey cred) (c_AAGUID cred) (c_SignCount cred) (query_get r "label") (transports parsed) 0 0 (c_Flags cred)) now.

Definition h_register_finish (x : site) (w : header) (c : call) (now : Z) : answer * site :=
  guard_site requireAuth (fun x =>
    match sessionFrom (site_store x) (c_req c) now with
    | None => (refuse w "registration requires a logged-in session" 401, x)
    | Some info =>
        let '(ceremony, m) := PopCeremony (st_regs x) (query_get (c_req c) "ceremony") now in
        let x := set_regs m x in
        match ceremony with
        | None => (refuse w expired_ceremony 400, x)
        | Some ceremony =>
            if negb (EqualFold (pc_Username ceremony) (si_Username info)) then (refuse w "ceremony username mismatch" 403, x) else
            match ParseCreation (c_body c) with
            | inl err => (refuse w ("invalid credential response: " +:+ err) 400, x)
            | inr parsed =>
                match CreateCredential rp (adapter_of (findUser (site_store x) (si_Username info))) (pc_Session ceremony) parsed with
                | inl err => (refuse w ("credential creation failed: " +:+ err) 400, x)
                | inr cred =>
                    let '(err, x) := mutate c (AddCredential (si_Username info) (registered (c_req c) parsed cred now)) x in
                    (match err with
                     | Some err => refuse w err 500
                     | None => json_answer w 200 (strings_json [("label", query_get (c_req c) "label"); ("status", "registered")])
                     end, x)
                end
            end
        end
    end) x w (c_req c) now.

Definition h_login_begin (x : site) (w : header) (challenge : string) (rnd : string + string) (now : Z) : answer * site :=
  begun_site x w (BeginDiscoverableLogin rp challenge) "" rnd now.

(** The handler given to the library: the first user with the handle. *)
Definition handle_user (s : AuthStore) (handle : string) : option User :=
  find_first (fun u => bool_decide (ad_ID (toAdapter u) = handle)) (users s).

Definition h_login_finish (x : site) (w : header) (c : call) (now : Z) : answer * site :=
  let '(ceremony, m) := PopCeremony (st_regs x) (query_get (c_req c) "ceremony") now in
  let x := set_regs m x in
  match ceremony with
  | None => (refuse w expired_ceremony 400, x)
  | Some ceremony =>
      match ParseAssertion (c_body c) with
      | inl err => (refuse w ("invalid assertion: " +:+ err) 400, x)
      | inr parsed =>
          match ValidateDiscoverableLogin rp (fun _ handle => toAdapter <$> handle_user (site_store x) handle) (pc_Session ceremony) parsed with
          | None => (refuse w "passkey verification failed" 401, x)
          | Some cred =>
              let matched := default "" (u_Username <$> handle_user (site_store x) (userHandle parsed)) in
              let '(_, x) := mutate c (updateCredential matched (c_ID cred) (c_SignCount cred) (c_Flags cred) now) x in
              let elev := now + elevatedLifetime in
              (json_answer (setSessionCookie w (newCookie (site_store x) matched elev now)) 200
                 (enc_values [("elevated_until", FormatInt (unix elev)); ("username", enc_string matched)]), x)
          end
      end
  end.

Definition passkeys_json (l : option (list PublicCredential)) : string :=
  match l with Some l => "[" +:+ Join (public_json <$> l) "," +:+ "]" | None => "null" end.
Definition h_passkeys (x : site) (w : header) (c : call) (now : Z) : answer * site :=
  guard_site requireAuth (fun x =>
    (match sessionFrom (site_store x) (c_req c) now with
     | None => refuse w "listing passkeys requires a session" 401
     | Some info => json_answer w 200 (passkeys_json (ListCredentials (site_store x) (si_Username info)))
     end, x)) x w (c_req c) now.

Definition h_passkey (x : site) (w : header) (c : call) (now : Z) : answer * site :=
  guard_site requireElevated (fun x =>
    if decide (req_Method (c_req c) <> "DELETE") then (method_not_allowed w, x) else
    match sessionFrom (site_store x) (c_req c) now with
    | None => (refuse w "deleting passkeys requires a session" 401, x)
    | Some info =>
        let key := default "" (PathUnescape (item_of "/api/users/passkeys/" c)) in
        let '(err, x) := mutate c (DeleteCredential (si_Username info) key) x in
        (match err with Some err => refuse w err 400 | None => json_answer w 200 (status_json "deleted") end, x)
    end) x w (c_req c) now.

(** ** All the endpoints of accounts *)

Inductive account_endpoint := Api (ep : endpoint) | Pk (ep : passkey_endpoint).

Definition serve_passkey (x : site) (w : header) (now : Z) (ep : passkey_endpoint) (c : call) : answer * site :=
  match ep with
  | PkAvailable => (h_available x w, x)
  | PkRegisterBegin ch rnd => h_register_begin x w c ch rnd now
  | PkRegisterFinish => h_register_finish x w c now
  | PkLoginBegin ch rnd => limited_site (fun x => h_login_begin x w ch rnd now) x w (c_req c) now
  | PkLoginFinish => limited_site (fun x => h_login_finish x w c now) x w (c_req c) now
  | PkList => h_passkeys x w c now
  | PkDelete => h_passkey x w c now
  end.
Definition serve_account (x : site) (w : header) (now : Z) (ep : account_endpoint) (c : call) : answer * site :=
  match ep with
  | Api ep => let '(a, d) := serve json_error qrDataURL (st_d x) w now ep c in (a, set_d d x)
  | Pk ep => serve_passkey x w now ep c
  end.
End endpoints.

(** * Properties *)

Section props.
Context `{WebAuthn, !WebAuthnLaws} (json_error qrDataURL : string -> string) (rp : string).
Implicit Types (x : site).

Definition site_accounts x := accounts (st_d x).

(** What [mutateUsers] makes of the users with one mutation, from a store with the
    same accounts. *)
Definition alters x (c : call) (m : mutation) x' : Prop := exists s,
  account <$> users s = account <$> users (site_store x) /\ as_redis s = as_redis (site_store x) /\
  users (site_store x') = users (snd (fst (mutateUsers json_error (c_world c) m s (d_key (st_d x))))).

(** The ceremony a request names is pending. *)
Definition pending x (c : call) (now : Z) (ceremony : PendingCeremony) : Prop :=
  st_regs x !! query_get (c_req c) "ceremony" = Some ceremony /\ now <= pc_Expires ceremony.

(** A user, known by a session of either kind, ends the registration the user
    began, and has one passkey more. *)
Definition enrols x (c : call) (now : Z) x' : Prop := exists info ceremony ad parsed cred,
  IsSetup (site_store x) = true /\ signed_session (site_store x) (c_req c) now info /\
  pending x c now ceremony /\ EqualFold (pc_Username ceremony) (si_Username info) = true /\
  ParseCreation (c_body c) = inr parsed /\ CreateCredential rp ad (pc_Session ceremony) parsed = inr cred /\
  alters x c (AddCredential (si_Username info) (registered (c_req c) parsed cred now)) x'.

(** A passkey of a user signs in: its counter, its flags and its last use change. *)
Definition signs_in x (c : call) (now : Z) x' : Prop := exists ceremony a u stored count flags,
  pending x c now ceremony /\ ParseAssertion (c_body c) = inr a /\
  u ∈ users (site_store x) /\ stored ∈ u_Credentials u /\ sc_ID stored = rawID a /\ UserID (u_Username u) = userHandle a /\
  Asserted rp (pc_Session ceremony) a (ToCredential stored) /\
  alters x c (updateCredential (u_Username u) (rawID a) count flags now) x'.

Lemma requireAuth_same s w r now p s' : requireAuth s w r now = (Next p, s') ->
  IsSetup s = true /\ account <$> users s' = account <$> users s /\ as_redis s' = as_redis s /\ same_identities s s'.
Proof.
  unfold requireAuth. destruct (IsSetup s); cbn [negb]; [|done]. intros Hg. split; [done|].
  destruct (sessionFrom s r now); [by simplify_eq|]. case_decide as Ht; cbn [decide] in Hg.
  - unfold VerifyToken in Hg. pose proof (verifyTokenKind_spec s (bearerToken r) now) as Hs. destruct (verifyTokenKind _ _ _) as [[id e] s1].
    destruct Hs as (_ & Ha & Hc & _ & Hr). case_decide; simplify_eq. split_and!; [done|done|]. split; [by apply accounts_idents|done].
  - rewrite decide_False in Hg by by intros []. done.
Qed.

Lemma begun_accounts x w res u rnd now : site_store (snd (begun_site x w res u rnd now)) = site_store x.
Proof. unfold begun_site. destruct res as [|[? ?]]; [done|]. by destruct (PutCeremony _ _ _ _ _) as [[] ?]. Qed.

Lemma guard_read_site g f x w r now :
  (forall s, account <$> users (snd (g s w r now)) = account <$> users s) -> (forall x, site_store (snd (f x)) = site_store x) ->
  site_accounts (snd (guard_site g f x w r now)) = site_accounts x.
Proof.
  intros Hg Hf. unfold guard_site, site_accounts, accounts. specialize (Hg (site_store x)). destruct (g (site_store x) w r now) as [[p|a] s']; [|done].
  fold (site_store (snd (f (set_as s' x)))). by rewrite Hf.
Qed.

Lemma mutate_alters c m x0 x s x' :
  account <$> users s = account <$> users (site_store x0) -> as_redis s = as_redis (site_store x0) ->
  site_store x = s -> d_key (st_d x) = d_key (st_d x0) -> site_store x' = site_store (snd (mutate json_error c m x)) -> alters x0 c m x'.
Proof.
  intros Ha Hr Hs Hk Hx. exists s. split_and!; [done|done|]. rewrite Hx. unfold mutate. rewrite Hs, Hk. by destruct (mutateUsers _ _ _ _ _) as [[? ?] ?].
Qed.

Lemma register_finish_changes x w c now :
  let x' := snd (h_register_finish json_error rp x w c now) in site_accounts x' = site_accounts x \/ enrols x c now x'.
Proof.
  cbv zeta. unfold h_register_finish, guard_site.
  pose proof (requireAuth_accounts (site_store x) w (c_req c) now) as Hacc.
  destruct (requireAuth (site_store x) w (c_req c) now) as [[p|a] s'] eqn:Hg; [|by left]. cbn [snd] in Hacc.
  apply requireAuth_same in Hg as (Hset & _ & Hred & Hid). change (site_store (set_as s' x)) with s'.
  destruct (sessionFrom s' (c_req c) now) as [info|] eqn:Hi; [|by left]. apply sessionFrom_signed in Hi. apply (signed_same _ _ _ _ _ Hid) in Hi.
  change (st_regs (set_as s' x)) with (st_regs x). pose proof (PopCeremony_spec (st_regs x) (query_get (c_req c) "ceremony") now) as Hpop.
  destruct (PopCeremony _ _ now) as [[ceremony|] m]; [|by left]. destruct Hpop as (Hc & Hexp & _).
  destruct (EqualFold _ _) eqn:He; cbn [negb]; [|by left]. destruct (ParseCreation _) as [|parsed] eqn:Hp; [by left|].
  destruct (CreateCredential _ _ _ _) as [|cred] eqn:Hcr; [by left|]. right. set (x1 := set_regs m (set_as s' x)) in *.
  destruct (mutate json_error c _ x1) as [err x'] eqn:Hm. exists info, ceremony, (adapter_of (findUser s' (si_Username info))), parsed, cred.
  split_and!; try done. by apply (mutate_alters c _ x x1 s'); rewrite ?Hm.
Qed.

Lemma login_finish_changes x w c now :
  let x' := snd (h_login_finish json_error rp x w c now) in site_accounts x' = site_accounts x \/ signs_in x c now x'.
Proof.
  cbv zeta. unfold h_login_finish. pose proof (PopCeremony_spec (st_regs x) (query_get (c_req c) "ceremony") now) as Hpop.
  destruct (PopCeremony _ _ now) as [[ceremony|] m]; [|by left]. destruct Hpop as (Hc & Hexp & _).
  destruct (ParseAssertion _) as [|a] eqn:Ha; [by left|]. change (site_store (set_regs m x)) with (site_store x).
  destruct (ValidateDiscoverableLogin _ _ _ _) as [cred|] eqn:Hv; [|by left]. apply validate_law in Hv as (ad & c0 & Hh & Hin & Hid & Hid' & Has).
  destruct (handle_user (site_store x) (userHandle a)) as [u|] eqn:Hu; [|done]. injection Hh as <-. cbn [default fmap option_fmap option_map from_option id].
  apply find_first_elem in Hu as [Hu Hhd]. apply bool_decide_eq_true in Hhd. cbn [ad_Creds toAdapter] in Hin. unfold Credentials in Hin.
  apply list_elem_of_fmap in Hin as (stored & -> & Hin). right. cbn [c_ID ToCredential] in *. rewrite Hid', Hid.
  destruct (mutate json_error c _ (set_regs m x)) as [err x'] eqn:Hm. exists ceremony, a, u, stored, (c_SignCount cred), (c_Flags cred). split_and!; try done.
  by apply (mutate_alters c _ x (set_regs m x) (site_store x)); rewrite ?Hm.
Qed.

Lemma limited_changes (P : site -> Prop) h x w r now :
  (forall x1 x2, site_store x1 = site_store x2 -> P x1 -> P x2) ->
  (site_accounts (snd (h x)) = site_accounts x \/ P (snd (h x))) ->
  site_accounts (snd (limited_site h x w r now)) = site_accounts x \/ P (snd (limited_site h x w r now)).
Proof.
  intros Hsame Hh. unfold limited_site, IntLimit.limit. destruct (IntLimit.Allow _ _ _) as [[] rl]; [|by left]. destruct (h x) as [a x'].
  destruct Hh as [?|?]; [by left|right]. by eapply Hsame; [|exact H1].
Qed.

(** Behind the second guard a handler runs only for the elevated. *)
Lemma guard_site_elevated next x w r now :
  site_accounts (snd (guard_site requireElevated next x w r now)) = site_accounts x \/
  (IsSetup (site_store x) = true /\ exists p, elevated (site_store x) r now p).
Proof.
  unfold guard_site. pose proof (requireElevated_accounts (site_store x) w r now) as Ha.
  destruct (requireElevated (site_store x) w r now) as [[p|a] s'] eqn:Hg; [right|by left].
  destruct (elevation_sound _ _ _ _ _ _ Hg) as [Hs He]. split; [done|by exists p].
Qed.

End props.

(** * Instances *)

Section examples.
#[local] Existing Instance demo_webauthn.
#[local] Existing Instance demo_laws.

(** A user with a second factor, and two open ceremonies. *)
Definition ex_site : site :=
  mkSite (mkDashboard ex_store None ∅) {["T" := mkPending "ch" "al" (5 * Minute); "U" := mkPending "ch2" "" (5 * Minute)]}.
Definition ex_cookie_request (path query cookie : string) : request :=
  mkRequest "POST" "h" path query {["Cookie" := [sessionCookie +:+ "=" +:+ cookie]]} "10.0.0.9:1".
Definition ex_pk_call (r : request) (body : string) : call := mkCall r body (mkRandoms "" "" "") "" (mkWorld None (fun _ => quiet)).
(** The session of a login without a code. *)
Definition ex_unproven : string := newCookie ex_store "al" zeroTime 0.
Definition ex_enrolled : site :=
  snd (serve_account id (fun _ => "") "h" ex_site ∅ 0 (Pk PkRegisterFinish)
    (ex_pk_call (ex_cookie_request "/api/auth/passkey/register/finish" "ceremony=T" ex_unproven) "c9")).
Definition ex_signed_in : answer :=
  fst (serve_account id (fun _ => "") "h" ex_enrolled ∅ 0 (Pk PkLoginFinish)
    (ex_pk_call (mkRequest "POST" "h" "/api/auth/passkey/login/finish" "ceremony=U" ∅ "10.0.0.9:1") ("c9," +:+ UserID "al" +:+ ",key-c9ch2"))).

(** A session that the second guard refuses registers a passkey, and the session
    of that passkey it lets through: the second factor has been asked for by nobody. *)
Example passkey_instead_of_the_second_factor :
  fst (requireElevated ex_store ∅ (ex_cookie_request "/api/users" "" ex_unproven) 0) = Stop (refuse ∅ "2fa required" 403) /\
  (fun u => (u_Username u, sc_ID <$> u_Credentials u)) <$> users (site_store ex_enrolled) = [("al", ["c9"])] /\
  match Values (a_Header ex_signed_in) "Set-Cookie" with
  | [line] => fst (requireElevated (site_store ex_enrolled) ∅ (mkRequest "POST" "h" "/api/users" "" {["Cookie" := [sent_back line]]} "10.0.0.9:1") 0) = Next "al"
  | _ => False
  end.
Proof. vm_compute. split_and!; reflexivity. Qed.

Definition ex_enrolling : call := ex_pk_call (ex_cookie_request "/api/auth/passkey/register/finish" "ceremony=T" ex_unproven) "c9".
End examples.
