(* ===== verification/Docker.v ===== *)
(** * The Docker daemon as the dashboard uses it: cmd/dashboard/docker.go

    The dashboard's operations on containers are conversations with the world:
    the daemon, other containers, the clock, files and the proxy. An operation is
    a [prog], a tree of questions whose branches are the answers; [run] follows
    the answers of a [world], which may depend on all that was said before, so
    that failures, other actors and lost replies at any point are worlds. *)
From S2P Require Import Prelude GoString Duration Http Sha256 Json Url Balancer AuthGate Labels LabelOverlay.
Open Scope string_scope.

(** ** Data *)

Record healthcheckSpec := mkHealthcheck { hc_Test : list string; hc_Interval : Z; hc_Timeout : Z; hc_StartPeriod : Z; hc_Retries : Z }.
Record mountSpec := mkMount { m_Type : string; m_Source : string; m_Target : string; m_ReadOnly : bool }.
Record networkAttachment := mkNetwork { na_Name : string; na_Aliases : list string }.
Record cloneSpec := mkClone {
  cs_Mounts : list mountSpec; cs_Healthcheck : option healthcheckSpec; cs_ManagedAliases : list string;
  cs_ExtraNetworks : list networkAttachment; cs_VolumeDests : list string;
}.
Record createBody := mkBody {
  cb_Image : string; cb_Labels : gmap string string; cb_Env : list string; cb_Healthcheck : option healthcheckSpec;
  cb_StopTimeout : option Z; cb_Mounts : list mountSpec; cb_ManagedAliases : list string; cb_ExtraNetworks : list networkAttachment;
}.

(** A container as [/containers/json] lists it. *)
Record container := mkCt {
  ct_ID : string; ct_Names : list string; ct_Image : string; ct_State : string; ct_Status : string;
  ct_Labels : gmap string string; ct_Networks : gmap string string;    (* network to address *)
}.

(** What the program reads of an inspect reply. *)
Record inspection := mkInspection {
  in_Name : string; in_Image : string; in_Env : list string; in_RestartCount : Z;
  in_HostMounts : list mountSpec; in_Volumes : list (string * string); in_Healthcheck : option healthcheckSpec;
  in_Aliases : gmap string (list string);
  in_HostConfig : gmap string json; in_Endpoints : gmap string (gmap string json);
  in_Cmd : option (list string); in_Entrypoint : option (list string);
}.

Record centralEnvResult := mkCentral { ce_Env : list string; ce_Version : Z; ce_Origin : string; ce_Healthcheck : option healthcheckSpec }.

(** ** Questions and answers *)

(** The daemon's reply to a call: it could not be asked, it refused with a
    status, or it did it. *)
Inductive reply (A : Type) := NoReply (err : string) | Refused (code : Z) (text : string) | Did (a : A).
Arguments NoReply {A} _. Arguments Refused {A} _ _. Arguments Did {A} _.

Inductive request :=
| ListAll (filter : string)
| CreateContainer (name network restart : string) (b : createBody)
| ConnectNetwork (network id : string) (aliases : list string)
| StartContainer (id : string)
| StopContainer (id : string) (t : Z)
| DeleteContainer (id : string) (force : bool)
| Inspect (id : string)
| InspectImage (id : string)
| PullImage (image : string)
| Probe (url : string)                 (* an HTTP GET with its timeout *)
| Snapshot (svc : string)              (* the central labels of an adopted service *)
| CentralEnabled
| CentralManaged (svc : string) (labels : gmap string string)
| CentralVersion (svc : string)
| CentralResolve (svc : string) (labels : gmap string string)
| Secret (svc name : string)
| Now
| After (d : Z)                        (* a timer, or the end of the context *)
| Sleep (d : Z)
| Refresh (url : string)
| Report (done total : nat) (replica verdict : string)    (* the progress callback *)
| Pick (n : nat).                      (* the scheduler's choice *)

Definition answer (r : request) : Type :=
  match r with
  | ListAll _ => reply (list container)
  | CreateContainer _ _ _ _ => reply string
  | ConnectNetwork _ _ _ | StartContainer _ | StopContainer _ _ | DeleteContainer _ _ => reply unit
  | Inspect _ => reply inspection
  | InspectImage _ => reply (option (list string) * option (list string))
  | Probe _ => string + Z
  | After _ => option string
  | Snapshot _ => option (gmap string string)
  | CentralEnabled | CentralManaged _ _ => bool
  | CentralVersion _ => option Z
  | CentralResolve _ _ => string + option centralEnvResult
  | Secret _ _ => string + string
  | Now => Z
  | PullImage _ | Sleep _ | Refresh _ | Report _ _ _ _ => unit
  | Pick _ => nat
  end.

Inductive event := Ev (r : request) (a : answer r).
(** The newest event first. *)
Definition history := list event.

Inductive prog (A : Type) :=
| Done (a : A)
| Ask (r : request) (k : answer r -> prog A)
| Stuck.                               (* the fuel of a loop has run out *)
Arguments Done {A} _. Arguments Ask {A} _ _. Arguments Stuck {A}.

#[export] Instance prog_ret : MRet prog := fun A a => Done a.
Fixpoint prog_bind_ {A B} (f : A -> prog B) (p : prog A) : prog B :=
  match p with
  | Done a => f a
  | Ask r k => Ask r (fun a => prog_bind_ f (k a))
  | Stuck => Stuck
  end.
#[export] Instance prog_bind : MBind prog := fun A B f p => prog_bind_ f p.
Definition ask (r : request) : prog (answer r) := Ask r Done.

Definition world := history -> forall r : request, answer r.

(** The conversation of a program with a world, after [h], and its result. *)
Fixpoint run {A} (w : world) (p : prog A) (h : history) : history * option A :=
  match p with
  | Done a => (h, Some a)
  | Ask r k => let a := w h r in run w (k a) (Ev r a :: h)
  | Stuck => (h, None)
  end.

(** ** Errors

    What [errors.As] looks for in a chain of errors is kept beside the text. *)
Inductive kind := Plain | GateFailed | Conflict (keys : list (string * string * string)) | CentrallyManaged (svc hint : string).
Record failure := mkFailure { e_text : string; e_kind : kind }.
Definition text (s : string) : failure := mkFailure s Plain.
Definition wrap (pre : string) (e : failure) : failure := mkFailure (pre +:+ e_text e) (e_kind e).
Notation result A := (failure + A)%type (only parsing).

Definition bind_ok {A B} (p : prog (result A)) (f : A -> prog (result B)) : prog (result B) :=
  p ≫= fun r => match r with inl e => Done (inl e) | inr a => f a end.
Definition fail {A} (e : failure) : prog (result A) := Done (inl e).
Definition ok {A} (a : A) : prog (result A) := Done (inr a).
Notation "x ←? p ; q" := (bind_ok p (fun x => q)) (at level 20, p at level 100, q at level 200, right associativity,
  format "x  ←?  p ; '/' q") : go_scope.
Notation "p ;;? q" := (bind_ok p (fun _ => q)) (at level 100, q at level 200, right associativity) : go_scope.
Definition wrapping {A} (pre : string) (p : prog (result A)) : prog (result A) :=
  p ≫= fun r => Done match r with inl e => inl (wrap pre e) | inr a => inr a end.
Definition or_fail (err : option string) : result unit := match err with Some e => inl (text e) | None => inr tt end.

(** A loop over a slice that returns at the first error. *)
Fixpoint each {A} (l : list A) (f : A -> prog (result unit)) : prog (result unit) :=
  match l with [] => ok tt | x :: l => f x ;;? each l f end.

(** ** The client *)

Definition managedNetwork : string := "edge".
Definition labelService : string := "proxy.service".
Definition labelCanary : string := "proxy.canary".
Definition labelHealth : string := "proxy.health".
Definition labelPort : string := "proxy.port".
Definition labelDrain : string := "proxy.drain".
Definition labelUnscalable : string := "proxy.unscalable".
Definition labelOverlap : string := "proxy.overlap".
Definition labelPrevImage : string := "proxy.previous_image".
Definition labelEnvOrigin : string := "pmgr.env.origin".
Definition labelEnvVersion : string := "pmgr.env.version".
Definition labelABPrefix : string := "proxy.ab.".
Definition labelABVariant : string := "proxy.ab.variant".
Definition composeLabelPrefix : string := "com.docker.compose.".
Definition ociImageLabelPrefix : string := "org.opencontainers.image.".

Definition lbl (m : gmap string string) (k : string) : string := default "" (m !! k).

(** The call [do] makes for a request, as its error names it. *)
Definition call_line (r : request) : string :=
  match r with
  | ListAll f => "GET /containers/json?all=true" +:+ (if decide (f = "") then "" else "&filters=" +:+ QueryEscape f)
  | CreateContainer name _ _ _ => "POST /containers/create?name=" +:+ QueryEscape name
  | ConnectNetwork n _ _ => "POST /networks/" +:+ n +:+ "/connect"
  | StartContainer id => "POST /containers/" +:+ id +:+ "/start"
  | StopContainer id t => "POST /containers/" +:+ id +:+ "/stop?t=" +:+ FormatInt t
  | DeleteContainer id force => "DELETE /containers/" +:+ id +:+ (if (force : bool) then "?force=true" else "")
  | Inspect id => "GET /containers/" +:+ id +:+ "/json"
  | InspectImage id => "GET /images/" +:+ PathEscape id +:+ "/json"
  | _ => ""
  end.
Definition do_ {A} (r : request) (a : reply A) : result A :=
  match a with
  | NoReply err => inl (text err)
  | Refused code body => inl (text ("docker " +:+ call_line r +:+ ": " +:+ FormatInt code +:+ " " +:+ body))
  | Did x => inr x
  end.

Definition ct_name (c : container) : string :=
  match ct_Names c with n :: _ => TrimPrefix n "/" | [] => take_bytes 12 (ct_ID c) end.

Definition parseHealth (status : string) : string :=
  if StrContains status "(healthy)" then "healthy"
  else if StrContains status "(unhealthy)" then "unhealthy"
  else if StrContains status "(health: starting)" then "starting" else "".

Definition listAll (filter : string) : prog (result (list container)) :=
  a ← ask (ListAll filter); Done (do_ (ListAll filter) a).
(** The filter of a service's members. *)
Definition dq : string := String (chr 34) "".
Definition filter_json (by_ what : string) : string :=
  "{" +:+ dq +:+ by_ +:+ dq +:+ ":[" +:+ dq +:+ what +:+ dq +:+ "]}".
Definition by_service (svc : string) : string := filter_json "label" (labelService +:+ "=" +:+ svc).

(** *** Creating, starting, stopping *)

Definition defaultDrainSeconds : Z := 30.
Definition maxDrainSeconds : Z := 300.
Definition drainSeconds (labels : gmap string string) : Z :=
  match labels !! labelDrain with
  | None => defaultDrainSeconds
  | Some v => match Atoi (TrimSpace v) with Some n => Z.min (Z.max n 0) maxDrainSeconds | None => defaultDrainSeconds end
  end.

(** The entries of an environment, split at the equals sign. *)
Definition splitEnvEntry (s : string) : option (string * string) :=
  match Cut s "=" with Some (k, v) => if decide (k = "") then None else Some (k, v) | None => None end.

(** The text with every occurrence of a value of six bytes or more hidden, the
    longest first. *)
Fixpoint ReplaceAll (fuel : nat) (s old new_ : string) : string :=
  match fuel with
  | O => s
  | S fuel =>
      match CutPrefix s old with
      | Some rest => new_ +:+ ReplaceAll fuel rest old new_
      | None => match s with String c s => String c (ReplaceAll fuel s old new_) | EmptyString => "" end
      end
  end.
Definition scrubEnvValues (msg : string) (env : list string) : string :=
  let vals := omap (fun e => match Cut e "=" with Some (_, v) => if decide (6 <= len v) then Some v else None | None => None end) env in
  foldl (fun m v => ReplaceAll (String.length m) m v "[redacted]") msg (SliceStable (fun a b => bool_decide (len b < len a)) vals).

Definition removeContainer (id : string) : prog (result unit) :=
  a ← ask (DeleteContainer id true); Done (do_ (DeleteContainer id true) a).

Definition connectNetwork (network id : string) (aliases : list string) : prog (result unit) :=
  a ← ask (ConnectNetwork network id aliases);
  Done match do_ (ConnectNetwork network id aliases) a with
       | inl e => if StrContains (e_text e) "already exists" || StrContains (e_text e) "already attached" then inr tt else inl e
       | inr _ => inr tt
       end.

(** [e ;; ignored] of the code: an error that is thrown away. *)
Definition ignoring {A B} (p : prog (result A)) (q : prog B) : prog B := p ≫= fun _ => q.

Definition createContainer (cname : string) (body : createBody) : prog (result string) :=
  let body := match cb_Labels body !! labelDrain with
              | Some _ => mkBody (cb_Image body) (cb_Labels body) (cb_Env body) (cb_Healthcheck body) (Some (drainSeconds (cb_Labels body)))
                            (cb_Mounts body) (cb_ManagedAliases body) (cb_ExtraNetworks body)
              | None => body
              end in
  let req := CreateContainer cname managedNetwork "unless-stopped" body in
  a ← ask req;
  match do_ req a with
  | inl e =>
      let msg := scrubEnvValues (e_text e) (cb_Env body) in
      if decide (lbl (cb_Labels body) labelEnvOrigin <> "" /\ msg <> e_text e) then fail (text msg) else fail e
  | inr id =>
      each (cb_ExtraNetworks body) (fun n =>
        r ← connectNetwork (na_Name n) id (na_Aliases n);
        match r with
        | inr _ => ok tt
        | inl e => ignoring (removeContainer id) (fail (wrap ("connect " +:+ cname +:+ " to " +:+ na_Name n +:+ ": ") e))
        end) ;;?
      ok id
  end.

(** Started already, or gone: what was wanted. *)
Definition tolerating (r : result unit) : result unit :=
  match r with
  | inl e => if StrContains (e_text e) ": 304 " || StrContains (e_text e) ": 404 " then inr tt else inl e
  | inr _ => inr tt
  end.
Definition startContainer (id : string) : prog (result unit) :=
  a ← ask (StartContainer id); Done (tolerating (do_ (StartContainer id) a)).
Definition stopContainerT (id : string) (t : Z) : prog (result unit) :=
  a ← ask (StopContainer id t); Done (tolerating (do_ (StopContainer id t) a)).
Definition stopContainer (id : string) : prog (result unit) := stopContainerT id 5.

Definition removeStopped (id : string) : prog (result unit) :=
  a ← ask (DeleteContainer id false);
  match do_ (DeleteContainer id false) a with
  | inl e => if StrContains (e_text e) ": 409 " then removeContainer id else fail e
  | inr _ => ok tt
  end.

(** *** Labels in force *)

(** [has_store]: central labels are on. *)
Section client.
Context (has_labels : bool).

Definition adoptedLabels (svc : string) : prog (option (gmap string string)) :=
  if decide (has_labels = false \/ svc = "") then Done None else ask (Snapshot svc).
Definition effectiveLabels (raw : gmap string string) : prog (gmap string string) :=
  m ← adoptedLabels (lbl raw labelService);
  Done match m with Some m => overlay_keys ManagedKeys m raw | None => raw end.

(** *** Retiring a replica *)

Definition drainStopRemove (ct : container) : prog (result unit) :=
  eff ← effectiveLabels (ct_Labels ct);
  r ← stopContainerT (ct_ID ct) (drainSeconds eff);
  match r with inl _ => removeContainer (ct_ID ct) | inr _ => removeStopped (ct_ID ct) end.

Definition drainStopRemoveParallelism : nat := 4.

(** Goroutines: [running] have their slot, [waiting] do not yet; the scheduler
    picks whose next step is taken. The results in the order they end. *)
Fixpoint interleave {A R} (fuel : nat) (running waiting : list (A * prog R)) (ended : list (A * R)) : prog (list (A * R)) :=
  match running with
  | [] => Done ended
  | _ =>
      match fuel with
      | O => Stuck
      | S fuel =>
          n ← ask (Pick (length running));
          let i := (n mod length running)%nat in
          match running !! i with
          | Some (x, Done r) => interleave fuel (delete i running ++ take 1 waiting)%list (drop 1 waiting) (ended ++ [(x, r)])%list
          | Some (x, Ask r k) => Ask r (fun a => interleave fuel (<[i := (x, k a)]> running) waiting ended)
          | _ => Stuck
          end
      end
  end.

(** A drain asks at most four times and ends. *)
Definition drainStopRemoveAll (cts : list container) : prog (list (container * result unit)) :=
  let drains := (fun ct => (ct, drainStopRemove ct)) <$> cts in
  interleave (5 * length cts) (take drainStopRemoveParallelism drains) (drop drainStopRemoveParallelism drains) [].
Definition first_error (l : list (container * result unit)) : result unit :=
  match omap (fun x => match snd x with inl e => Some e | inr _ => None end) l with e :: _ => inl e | [] => inr tt end.

(** *** Health *)

Definition canaryMaxRestarts : Z := 1.
Definition canaryPromoteHealthTimeout : Z := 30 * Second.
Definition canaryPromoteHealthPoll : Z := 3 * Second.
Definition replaceSettleDelay : Z := 5 * Second.
Definition rollingReadyTimeout : Z := 3 * Minute.

Definition inspect (id : string) : prog (result inspection) := a ← ask (Inspect id); Done (do_ (Inspect id) a).
Definition inspectEnv (id : string) : prog (result (list string)) := i ←? inspect id; ok (in_Env i).
Definition inspectRestartCount (id : string) : prog (result Z) := i ←? inspect id; ok (in_RestartCount i).

Context `{MapRange}.

(** The address on the managed network, or on any other. *)
Definition containerIP (ct : container) : string :=
  match ct_Networks ct !! managedNetwork with
  | Some ip => if decide (ip <> "") then ip else default "" (snd <$> find_first (fun n => negb (bool_decide (snd n = ""))) (range_list (ct_Networks ct)))
  | None => default "" (snd <$> find_first (fun n => negb (bool_decide (snd n = ""))) (range_list (ct_Networks ct)))
  end.

(** A verdict: [None] when healthy, else the reason. *)
Definition verdict := option string.
Definition is_2xx (st : Z) : bool := bool_decide (Z.quot st 100 = 2).

Definition checkContainerHealthy (ct : container) : prog (result verdict) :=
  if decide (parseHealth (ct_Status ct) = "unhealthy") then ok (Some (ct_name ct +:+ ": docker healthcheck reports unhealthy")) else
  restarts ←? wrapping ("inspect " +:+ ct_name ct +:+ ": ") (inspectRestartCount (ct_ID ct));
  if decide (restarts > canaryMaxRestarts) then ok (Some (ct_name ct +:+ ": restarted " +:+ FormatInt restarts +:+ " times since creation")) else
  eff ← effectiveLabels (ct_Labels ct);
  let healthPath := lbl eff labelHealth in
  if decide (healthPath = "") then ok None else
  let port := lbl (ct_Labels ct) labelPort in
  let ip := containerIP ct in
  if decide (ip = "" \/ port = "") then ok (Some (ct_name ct +:+ ": no reachable address for HTTP health probe")) else
  let url := "http://" +:+ ip +:+ ":" +:+ port +:+ healthPath in
  r ← ask (Probe url);
  match r with
  | inl err => ok (Some (ct_name ct +:+ ": health probe " +:+ url +:+ " failed: " +:+ err))
  | inr st => if is_2xx st then ok None else ok (Some (ct_name ct +:+ ": health probe " +:+ url +:+ " returned " +:+ FormatInt st))
  end.

Definition is_canary (ct : container) : bool := bool_decide (lbl (ct_Labels ct) labelCanary = "true").
Definition liveOnly (l : list container) : list container := filter (fun ct => is_canary ct = false) l.
Definition canaryOnly (l : list container) : list container := filter (fun ct => is_canary ct = true) l.
Definition runningOnly (l : list container) : list container := filter (fun ct => ct_State ct = "running") l.
Definition preferRunning (l : list container) : list container :=
  match runningOnly l with [] => l | r => r end.

(** The verdict on the first that is not healthy. *)
Fixpoint check_all (check : container -> prog (result verdict)) (l : list container) : prog (result verdict) :=
  match l with
  | [] => ok None
  | ct :: l => v ←? check ct; match v with Some reason => ok (Some reason) | None => check_all check l end
  end.

Definition no_canary (svc : string) : string := Quote svc +:+ " has no canary containers".
Definition checkCanaryHealth (svc : string) : prog (result verdict) :=
  all ←? listAll (by_service svc);
  match canaryOnly all with
  | [] => ok (Some (no_canary svc))
  | canary => check_all checkContainerHealthy canary
  end.

(** A wait of a polling loop: the timer, or the context's end. *)
Definition poll_wait (d : Z) : prog (result unit) := r ← ask (After d); Done (or_fail r).

(** Checks until healthy, until the deadline or until the context ends. *)
Fixpoint poll_until (fuel : nat) (check : prog (result verdict)) (deadline : Z) (gate : string) : prog (result unit) :=
  match fuel with
  | O => Stuck
  | S fuel =>
      v ←? check;
      match v with
      | None => ok tt
      | Some reason =>
          now ← ask Now;
          if negb (time_before now deadline) then fail (text (gate +:+ reason)) else
          poll_wait canaryPromoteHealthPoll ;;? poll_until fuel check deadline gate
      end
  end.
(** As many polls as fit the timeout, and one more. *)
Definition polls (timeout : Z) : nat := Z.to_nat (timeout / canaryPromoteHealthPoll) + 2.
Definition waitForCanaryHealthy (svc : string) : prog (result unit) :=
  start ← ask Now;
  poll_until (polls canaryPromoteHealthTimeout) (wrapping "health check: " (checkCanaryHealth svc)) (start + canaryPromoteHealthTimeout)
    "canary failed health gate: ".

(** One look at a new replica. *)
Definition check_replica (svc id : string) : prog (result verdict) :=
  all ←? wrapping "health check: " (listAll (by_service svc));
  match find_first (fun ct => bool_decide (ct_ID ct = id)) all with
  | None => fail (text "container disappeared while waiting for it to become healthy")
  | Some ct =>
      if decide (parseHealth (ct_Status ct) = "starting") then ok (Some (ct_name ct +:+ ": healthcheck still starting"))
      else wrapping "health check: " (checkContainerHealthy ct)
  end.
Definition waitReplicaReady (svc id : string) : prog (result unit) :=
  started ← ask Now;
  poll_until (polls rollingReadyTimeout) (check_replica svc id) (started + rollingReadyTimeout) "failed health gate: " ;;?
  (now ← ask Now;
   let wait := replaceSettleDelay - time_sub now started in
   if decide (wait > 0) then poll_wait wait else ok tt).
End client.

(** * Reasoning about conversations *)

#[local] Opaque ManagedKeys Managed overlay_keys.

(** ** Laws of the bind *)

Lemma bind_Done {A B} (a : A) (f : A -> prog B) : Done a ≫= f = f a.
Proof. done. Qed.
Lemma bind_Ask {A B} r (k : answer r -> prog A) (f : A -> prog B) : Ask r k ≫= f = Ask r (fun a => k a ≫= f).
Proof. done. Qed.

Definition req_of (e : event) : request := let 'Ev r _ := e in r.

(** ** What holds whatever the world answers

    [wp W G p Q h]: if every answer is one [W] allows, every question [p] asks
    after [h] is one [G] allows, and [Q] holds at its end, if it ends. *)
Section wp.
Context (W : history -> event -> Prop) (G : history -> request -> Prop).

Fixpoint wp {A} (p : prog A) (Q : A -> history -> Prop) (h : history) : Prop :=
  match p with
  | Done a => Q a h
  | Ask r k => G h r /\ forall a, W h (Ev r a) -> wp (k a) Q (Ev r a :: h)
  | Stuck => True
  end.

Lemma wp_bind {A B} (p : prog A) (f : A -> prog B) Q h : wp (p ≫= f) Q h <-> wp p (fun a h => wp (f a) Q h) h.
Proof.
  revert h. induction p as [a|r k IH|]; intros h; [done| |done]. rewrite bind_Ask. cbn. split; intros [HG Hk]; (split; [done|]); intros a HW.
  - by apply IH, Hk.
  - by apply IH, Hk.
Qed.

Lemma wp_mono {A} (p : prog A) (Q Q' : A -> history -> Prop) h :
  wp p Q h -> (forall a h, Q a h -> Q' a h) -> wp p Q' h.
Proof. intros Hp HQ. revert h Hp. induction p as [a|r k IH|]; intros h; cbn; [auto| |done]. intros [HG Hk]; split; [done|]. eauto. Qed.
End wp.

Lemma wp_weaken {A} (W W' : history -> event -> Prop) (G G' : history -> request -> Prop) (p : prog A) Q h :
  wp W G p Q h -> (forall h r, G h r -> G' h r) -> (forall h e, W' h e -> W h e) -> wp W' G' p Q h.
Proof.
  intros Hp HG HW. revert h Hp. induction p as [a|r k IH|]; intros h; cbn; [auto| |done]. intros [Hr Hk]; split; [by apply HG|]. eauto.
Qed.

(** Every event of a history was allowed when it happened. *)
Fixpoint happened (P : history -> event -> Prop) (h : history) : Prop :=
  match h with [] => True | e :: h => P h e /\ happened P h end.

Definition obeys (W : history -> event -> Prop) (w : world) : Prop := forall h r, W h (Ev r (w h r)).

Lemma wp_run {A} W G (p : prog A) Q h w :
  wp W G p Q h -> obeys W w -> happened (fun h e => G h (req_of e) /\ W h e) h ->
  let '(h', res) := run w p h in
  happened (fun h e => G h (req_of e) /\ W h e) h' /\ match res with Some a => Q a h' | None => True end.
Proof.
  intros Hp Hw. revert h Hp. induction p as [a|r k IH|]; intros h; cbn [run wp]; [by intros ? ?| |by intros ? ?].
  intros [HG Hk] Hh. apply IH; [by apply Hk|]. by split.
Qed.

Lemma happened_split P h l e l' : happened P h -> h = (l ++ e :: l')%list -> P l' e.
Proof. intros Hh ->. induction l as [|x l IH]; [by destruct Hh|]. apply IH. by destruct Hh. Qed.
Lemma happened_mono (P P' : history -> event -> Prop) h : (forall h e, P h e -> P' h e) -> happened P h -> happened P' h.
Proof. intros HP. induction h as [|e h IH]; [done|]. intros [? ?]. split; auto. Qed.

(** ** Histories that grow by some kinds of questions *)

Definition grows (P : request -> Prop) (h h' : history) : Prop := exists l, h' = (l ++ h)%list /\ Forall (fun e => P (req_of e)) l.
Lemma grows_refl P h : grows P h h.
Proof. exists []. by split; [|constructor]. Qed.
Lemma grows_trans P h1 h2 h3 : grows P h1 h2 -> grows P h2 h3 -> grows P h1 h3.
Proof. intros (l1 & -> & H1) (l2 & -> & H2). exists (l2 ++ l1)%list. split; [by rewrite app_assoc|]. by apply Forall_app. Qed.
Lemma grows_step (P : request -> Prop) h r a : P r -> grows P h (Ev r a :: h).
Proof. intros. exists [Ev r a]. split; [done|]. by repeat constructor. Qed.
Lemma grows_mono (P P' : request -> Prop) h h' : (forall r, P r -> P' r) -> grows P h h' -> grows P' h h'.
Proof. intros HP (l & -> & Hl). exists l. split; [done|]. eapply Forall_impl; [exact Hl|]. cbn. auto. Qed.
Lemma grows_elem P h h' e : grows P h h' -> e ∈ h -> e ∈ h'.
Proof. intros (l & -> & _) ?. apply elem_of_app. by right. Qed.
#[export] Hint Resolve grows_refl grows_trans grows_step grows_elem : pm.

(** A program asks only questions of a kind. *)
Fixpoint only {A} (P : request -> Prop) (p : prog A) : Prop :=
  match p with Done _ => True | Ask r k => P r /\ forall a, only P (k a) | Stuck => True end.

Lemma only_bind {A B} P (p : prog A) (f : A -> prog B) : only P p -> (forall a, only P (f a)) -> only P (p ≫= f).
Proof. intros Hp Hf. induction p as [a|r k IH|]; [apply Hf| |done]. rewrite bind_Ask. destruct Hp as [Hr Hk]. split; [done|]. intros a. by apply IH. Qed.
Lemma only_mono {A} (P P' : request -> Prop) (p : prog A) : (forall r, P r -> P' r) -> only P p -> only P' p.
Proof. intros HP. induction p as [a|r k IH|]; [done| |done]. intros [Hr Hk]. split; [by apply HP|]. intros a. by apply IH. Qed.

Lemma wp_only {A} W (P : request -> Prop) (p : prog A) h : only P p -> wp W (fun _ r => P r) p (fun _ h' => grows P h h') h.
Proof.
  intros Hp. enough (forall h0, grows P h h0 -> wp W (fun _ r => P r) p (fun _ h' => grows P h h') h0) by (by apply H, grows_refl).
  induction p as [a|r k IH|]; intros h0 Hh; [done| |done]. destruct Hp as [Hr Hk]. split; [done|]. intros a _. apply IH; [done|].
  eapply grows_trans; [exact Hh|]. by apply grows_step.
Qed.

Lemma only_bind_ok {A B} P (p : prog (result A)) (f : A -> prog (result B)) :
  only P p -> (forall a, only P (f a)) -> only P (bind_ok p f).
Proof. intros Hp Hf. apply only_bind; [done|]. intros [e|a]; [done|apply Hf]. Qed.
Lemma only_wrapping {A} P pre (p : prog (result A)) : only P p -> only P (wrapping pre p).
Proof. intros Hp. by apply only_bind; [|intros []]. Qed.
Lemma only_ask (P : request -> Prop) r : P r -> only P (ask r).
Proof. done. Qed.
Lemma only_each {A} P (l : list A) f : (forall x, x ∈ l -> only P (f x)) -> only P (each l f).
Proof.
  induction l as [|x l IH]; [done|]. intros Hf. cbn. apply only_bind_ok; [apply Hf; by left|]. intros _. apply IH. intros y Hy. apply Hf. by right.
Qed.

(** The container a question asks to stop or remove. *)
Definition retired (r : request) : option string :=
  match r with StopContainer id _ | DeleteContainer id _ => Some id | _ => None end.
Definition retired_ids (h : history) : list string := omap (retired ∘ req_of) h.

(** The containers a history has told of. *)
Definition told_by (e : event) : list string :=
  match e with
  | Ev (ListAll _) (Did cts) => ct_ID <$> cts
  | Ev (CreateContainer _ _ _ _) (Did id) => [id]
  | _ => []
  end.
Definition known (h : history) : list string := h ≫= told_by.
Definition created_as (h : history) (cname image id : string) : Prop :=
  exists b, cb_Image b = image /\ Ev (CreateContainer cname managedNetwork "unless-stopped" b) (Did id) ∈ h.

(** A container made from a body: its image, labels and environment. *)
Definition made_from (h : history) (cname : string) (body : createBody) (id : string) : Prop :=
  exists b, cb_Image b = cb_Image body /\ cb_Labels b = cb_Labels body /\ cb_Env b = cb_Env body /\
    Ev (CreateContainer cname managedNetwork "unless-stopped" b) (Did id) ∈ h.
Lemma made_created h cname body id : made_from h cname body id -> created_as h cname (cb_Image body) id.
Proof. intros (b & <- & _ & _ & Hb). by exists b. Qed.

(** Docker gives a new container an id of its own, and lists each once. *)
Definition daemon_ids (h : history) (e : event) : Prop :=
  match e with
  | Ev (CreateContainer _ _ _ _) (Did id) => id ∉ known h
  | Ev (ListAll _) (Did cts) => NoDup (ct_ID <$> cts)
  | _ => True
  end.

(** Neither makes, starts, stops nor removes a container, nor asks the proxy to refresh. *)
Definition reads (r : request) : Prop :=
  match r with
  | CreateContainer _ _ _ _ | ConnectNetwork _ _ _ | StartContainer _ | StopContainer _ _ | DeleteContainer _ _
  | Refresh _ => False
  | _ => True
  end.
(** Retires nothing but [id]. *)
Definition spares (id : string) (r : request) : Prop := forall x, retired r = Some x -> x = id.
Definition retires_none (r : request) : Prop := retired r = None.
Lemma reads_none r : reads r -> retires_none r.
Proof. by destruct r. Qed.

Lemma retired_ids_grows P h h' id : grows P h h' -> (forall r, P r -> retired r <> Some id) -> id ∈ retired_ids h' -> id ∈ retired_ids h.
Proof.
  intros (l & -> & Hl) HP. unfold retired_ids. rewrite omap_app, elem_of_app. intros [Hin|Hin]; [|done].
  apply list_elem_of_omap in Hin as (e & He & Hr). rewrite Forall_forall in Hl. by destruct (HP _ (Hl e He)).
Qed.
Lemma retired_mono P h h' id : grows P h h' -> id ∈ retired_ids h -> id ∈ retired_ids h'.
Proof. intros (l & -> & _) Hin. unfold retired_ids. rewrite omap_app. apply elem_of_app. by right. Qed.
Lemma known_grows P h h' id : grows P h h' -> id ∈ known h -> id ∈ known h'.
Proof. intros (l & -> & _) Hin. unfold known. rewrite bind_app. apply elem_of_app. by right. Qed.
Lemma created_grows P h h' cname image id : grows P h h' -> created_as h cname image id -> created_as h' cname image id.
Proof. intros Hg (b & ? & He). exists b. split; [done|by eapply grows_elem]. Qed.
Lemma made_grows P h h' cname body id : grows P h h' -> made_from h cname body id -> made_from h' cname body id.
Proof. intros Hg (b & ? & ? & ? & He). exists b. split_and!; [done|done|done|by eapply grows_elem]. Qed.
Lemma created_known h cname image id : created_as h cname image id -> id ∈ known h.
Proof. intros (b & _ & He). apply list_elem_of_bind. eexists. split; [|exact He]. cbn. by left. Qed.
#[export] Hint Resolve reads_none created_known : pm.

(** ** The client's kinds of questions *)

(** Splits a program into its questions; [tac] answers the calls it makes. *)
Ltac only_with tac :=
  repeat first
  [ done | apply only_ask; done | tac | apply only_bind_ok | apply only_wrapping | apply only_bind | apply only_each; intros ? ?
  | progress intros | progress cbv zeta | case_decide | case_match ].

Section client.
Context (has_labels : bool) `{MapRange}.

Lemma effectiveLabels_reads raw : only reads (effectiveLabels has_labels raw).
Proof. unfold effectiveLabels, adoptedLabels. only_with ltac:(fail). Qed.
Lemma listAll_reads f : only reads (listAll f).
Proof. unfold listAll. only_with ltac:(fail). Qed.
Lemma inspect_reads id : only reads (inspect id).
Proof. unfold inspect. only_with ltac:(fail). Qed.

Lemma spares_stop id t : spares id (StopContainer id t).
Proof. intros x Hx. by injection Hx. Qed.
Lemma spares_delete id force : spares id (DeleteContainer id force).
Proof. intros x Hx. by injection Hx. Qed.
Lemma reads_spares id r : reads r -> spares id r.
Proof. intros Hr x Hx. by rewrite (reads_none r Hr) in Hx. Qed.

Lemma drain_spares ct : only (spares (ct_ID ct)) (drainStopRemove has_labels ct).
Proof.
  unfold drainStopRemove, removeStopped, stopContainerT, removeContainer.
  only_with ltac:(first [apply spares_stop|apply spares_delete|apply only_ask; first [apply spares_stop|apply spares_delete]
    |eapply only_mono; [apply reads_spares|apply effectiveLabels_reads]]).
Qed.

Lemma check_reads ct : only reads (checkContainerHealthy has_labels ct).
Proof. unfold checkContainerHealthy, inspectRestartCount. only_with ltac:(first [apply inspect_reads|apply effectiveLabels_reads]). Qed.
Lemma check_all_reads check l : (forall ct, only reads (check ct)) -> only reads (check_all check l).
Proof. intros Hc. induction l as [|ct l IH]; [done|]. cbn [check_all]. only_with ltac:(first [apply Hc|apply IH]). Qed.
Lemma checkCanary_reads svc : only reads (checkCanaryHealth has_labels svc).
Proof. unfold checkCanaryHealth. only_with ltac:(first [apply listAll_reads|apply check_all_reads, check_reads]). Qed.
Lemma poll_reads fuel check d gate : only reads check -> only reads (poll_until fuel check d gate).
Proof. intros Hc. induction fuel as [|fuel IH]; [done|]. cbn [poll_until]. unfold poll_wait. only_with ltac:(first [apply IH|apply Hc]). Qed.
Lemma waitForCanary_reads svc : only reads (waitForCanaryHealthy has_labels svc).
Proof. unfold waitForCanaryHealthy. only_with ltac:(first [apply poll_reads|apply checkCanary_reads]). Qed.
Lemma check_replica_reads svc id : only reads (check_replica has_labels svc id).
Proof. unfold check_replica. only_with ltac:(first [apply listAll_reads|apply check_reads]). Qed.
Lemma waitReplicaReady_reads svc id : only reads (waitReplicaReady has_labels svc id).
Proof. unfold waitReplicaReady. unfold poll_wait at 1. only_with ltac:(first [apply poll_reads|apply check_replica_reads]). Qed.
End client.

(** ** Rules *)

Section rules.
Context (W : history -> event -> Prop) (G : history -> request -> Prop).

Lemma wp_done {A} (a : A) (Q : A -> history -> Prop) h : Q a h -> wp W G (Done a) Q h.
Proof. done. Qed.
Lemma wp_ask r (Q : answer r -> history -> Prop) h :
  G h r -> (forall a, W h (Ev r a) -> Q a (Ev r a :: h)) -> wp W G (ask r) Q h.
Proof. done. Qed.
Lemma wp_ask_bind {B} r (f : answer r -> prog B) Q h :
  G h r -> (forall a, W h (Ev r a) -> wp W G (f a) Q (Ev r a :: h)) -> wp W G (ask r ≫= f) Q h.
Proof. done. Qed.
Lemma wp_bind_ok {A B} (p : prog (result A)) (f : A -> prog (result B)) Q h :
  wp W G p (fun r h => match r with inl e => Q (inl e) h | inr a => wp W G (f a) Q h end) h -> wp W G (bind_ok p f) Q h.
Proof. intros Hp. apply wp_bind. eapply wp_mono; [exact Hp|]. by intros []. Qed.
Lemma wp_wrapping {A} pre (p : prog (result A)) Q h :
  wp W G p (fun r h => Q (match r with inl e => inl (wrap pre e) | inr a => inr a end) h) h -> wp W G (wrapping pre p) Q h.
Proof. intros Hp. apply wp_bind. eapply wp_mono; [exact Hp|]. done. Qed.
Lemma wp_ignoring {A B} (p : prog (result A)) (q : prog B) Q h :
  wp W G p (fun _ h => wp W G q Q h) h -> wp W G (ignoring p q) Q h.
Proof. intros. by apply wp_bind. Qed.

Lemma wp_and {A} (G' : history -> request -> Prop) (p : prog A) Q Q' h :
  wp W G p Q h -> wp W G' p Q' h -> wp W (fun h r => G h r /\ G' h r) p (fun a h => Q a h /\ Q' a h) h.
Proof. revert h. induction p as [a|r k IH|]; intros h; [done| |done]. intros [? ?] [? ?]. cbn. naive_solver. Qed.

(** An invariant of the history that every allowed question keeps. *)
Lemma wp_invariant {A} (I : history -> Prop) (p : prog A) Q h :
  wp W G p Q h -> (forall h r a, I h -> G h r -> W h (Ev r a) -> I (Ev r a :: h)) -> I h ->
  wp W (fun h r => I h /\ G h r) p (fun a h => I h /\ Q a h) h.
Proof.
  intros Hp HI. revert h Hp. induction p as [a|r k IH|]; intros h; [done| |done]. intros [? ?] Hh. cbn. split; [done|]. intros a HW.
  apply IH; eauto.
Qed.
End rules.

Lemma wp_grows {A} W (P : request -> Prop) (p : prog A) Q h :
  wp W (fun _ => P) p Q h -> wp W (fun h' r => grows P h h' /\ P r) p (fun a h' => grows P h h' /\ Q a h') h.
Proof.
  intros Hp. apply (wp_invariant W (fun _ => P) (grows P h)); [done| |apply grows_refl]. intros h' r a Hg Hr _.
  eapply grows_trans; [exact Hg|]. by apply grows_step.
Qed.

Lemma wp_extends {A} W G (p : prog A) Q h : wp W G p Q h -> wp W G p (fun a h' => grows (fun _ => True) h h' /\ Q a h') h.
Proof.
  intros Hp. enough (forall h0, grows (fun _ => True) h0 h -> wp W G p (fun a h' => grows (fun _ => True) h0 h' /\ Q a h') h) by (apply H, grows_refl).
  revert h Hp. induction p as [a|r k IH|]; intros h Hp h0 Hg; [done| |done]. destruct Hp as [Hr Hk]. split; [done|]. intros a HW.
  apply IH; [by apply Hk|]. eapply grows_trans; [exact Hg|]. by apply grows_step.
Qed.

(** Any program, with nothing asked of it. *)
Lemma wp_any {A} W (p : prog A) h : wp W (fun _ _ => True) p (fun _ _ => True) h.
Proof. revert h. induction p as [a|r k IH|]; intros h; cbn; auto. Qed.

(** A program known by its kinds of questions and by what it ends with. *)
Lemma wp_kind {A} W (P : request -> Prop) (p : prog A) Q h :
  only P p -> wp W (fun _ _ => True) p Q h -> wp W (fun _ r => P r) p (fun a h' => grows P h h' /\ Q a h') h.
Proof.
  intros Ho Hp. eapply wp_weaken; [apply (wp_and _ _ _ _ _ _ _ (wp_only W P p h Ho) Hp)|cbn; tauto|done].
Qed.

(** ** What the health gate has seen *)

Definition probed (h : history) (ct : container) : Prop :=
  (exists url st, Ev (Probe url) (inr st) ∈ h /\ is_2xx st = true) \/
  lbl (ct_Labels ct) labelHealth = "" \/
  exists svc m, Ev (Snapshot svc) (Some m) ∈ h /\ lbl (overlay_keys ManagedKeys m (ct_Labels ct)) labelHealth = "".
Definition healthy (h : history) (ct : container) : Prop :=
  parseHealth (ct_Status ct) <> "unhealthy" /\
  (exists i, Ev (Inspect (ct_ID ct)) (Did i) ∈ h /\ in_RestartCount i <= canaryMaxRestarts) /\ probed h ct.
Definition listed (h : history) (ct : container) : Prop := exists f cts, Ev (ListAll f) (Did cts) ∈ h /\ ct ∈ cts.
(** The daemon listed it, neither unhealthy nor still starting, and it passed. *)
Definition proven (h : history) (id : string) : Prop :=
  exists ct, ct_ID ct = id /\ listed h ct /\ healthy h ct /\ parseHealth (ct_Status ct) <> "starting".

Lemma probed_grows P h h' ct : grows P h h' -> probed h ct -> probed h' ct.
Proof. intros Hg [(u & st & Hu & ?)|[?|(svc & m & Hm & ?)]]; [left; exists u, st|right; by left|right; right; exists svc, m]; eauto with pm. Qed.
Lemma healthy_grows P h h' ct : grows P h h' -> healthy h ct -> healthy h' ct.
Proof. intros Hg (? & (i & Hi & ?) & Hp). split_and!; [done|exists i; eauto with pm|by eapply probed_grows]. Qed.
Lemma listed_grows P h h' ct : grows P h h' -> listed h ct -> listed h' ct.
Proof. intros Hg (f & cts & He & ?). exists f, cts. eauto with pm. Qed.
Lemma proven_grows P h h' id : grows P h h' -> proven h id -> proven h' id.
Proof. intros Hg (ct & ? & ? & ? & ?). exists ct. split_and!; [done|by eapply listed_grows|by eapply healthy_grows|done]. Qed.

Lemma do_Did {A} r (a : reply A) x : do_ r a = inr x -> a = Did x.
Proof. destruct a; naive_solver. Qed.

Section gate.
Context (has_labels : bool) `{MapRange} (W : history -> event -> Prop).
Notation wpt := (wp W (fun _ _ => True)).

Lemma wp_effective raw Q h :
  (forall h' eff, grows reads h h' -> (eff = raw \/ exists svc m, Ev (Snapshot svc) (Some m) ∈ h' /\ eff = overlay_keys ManagedKeys m raw) -> Q eff h') ->
  wpt (effectiveLabels has_labels raw) Q h.
Proof.
  intros HQ. unfold effectiveLabels, adoptedLabels. apply wp_bind. case_decide; [by apply HQ; [apply grows_refl|left]|].
  split; [done|]. intros [m|] _; cbn; apply HQ; try (by apply grows_step); [|by left].
  right. exists (lbl raw labelService), m. split; [by left|done].
Qed.

(** A verdict of health is what the daemon and the probe have said. *)
Lemma wp_check ct h : wpt (checkContainerHealthy has_labels ct) (fun r h' => r = inr None -> healthy h' ct) h.
Proof.
  unfold checkContainerHealthy. case_decide as Hu; [done|]. apply wp_bind_ok, wp_wrapping, wp_bind_ok. split; [done|]. intros a _.
  cbn [wp mbind prog_bind prog_bind_]. destruct (do_ (Inspect (ct_ID ct)) a) as [e|i] eqn:Ha; [done|]. apply do_Did in Ha as ->. cbn [wp ok]. case_decide as Hr; [done|].
  assert (Hi : exists i0, Ev (Inspect (ct_ID ct)) (Did i0) ∈ Ev (Inspect (ct_ID ct)) (Did i) :: h /\ in_RestartCount i0 <= canaryMaxRestarts).
  { exists i. split; [by left|]. unfold canaryMaxRestarts in *. lia. }
  apply wp_bind, wp_effective. intros h' eff Hg Heff.
  assert (Hi' : exists i0, Ev (Inspect (ct_ID ct)) (Did i0) ∈ h' /\ in_RestartCount i0 <= canaryMaxRestarts).
  { destruct Hi as (i0 & ? & ?). exists i0. eauto with pm. }
  case_decide as Hp.
  { intros _. split_and!; [done|done|]. right. destruct Heff as [->|(svc & m & Hm & ->)]; [by left|right; by exists svc, m]. }
  case_decide; [done|]. apply wp_bind. split; [done|]. intros [err|st] _; [done|]. cbn. destruct (is_2xx st) eqn:Hst; [|done]. cbn.
  intros _. destruct Hi' as (i0 & ? & ?). split_and!; [done|exists i0; by split; [right|]|]. left. eexists _, st. split; [by left|done].
Qed.

(** A loop that ends well has passed its check. *)
Lemma wp_poll (P : history -> Prop) check d gate fuel h :
  (forall h, wpt check (fun r h' => r = inr None -> P h') h) -> wpt (poll_until fuel check d gate) (fun r h' => r = inr tt -> P h') h.
Proof.
  intros Hc. revert h. induction fuel as [|fuel IH]; intros h; [done|]. cbn [poll_until]. apply wp_bind_ok.
  eapply wp_mono; [apply Hc|]. intros [e|[reason|]] h' Hr; cbv beta iota; [done| |intros _; by apply Hr].
  apply wp_ask_bind; [done|]. intros now _. destruct (negb _); [done|]. apply wp_bind_ok, wp_ask_bind; [done|]. intros [err|] _; [done|]. apply IH.
Qed.

(** The canary gate: every canary of one listing was found healthy. *)
Definition gate_passed (svc : string) (h : history) : Prop :=
  exists cts, Ev (ListAll (by_service svc)) (Did cts) ∈ h /\ canaryOnly cts <> [] /\ Forall (healthy h) (canaryOnly cts).
Lemma wp_check_all l h :
  wpt (check_all (checkContainerHealthy has_labels) l) (fun r h' => grows reads h h' /\ (r = inr None -> Forall (healthy h') l)) h.
Proof.
  revert h. induction l as [|ct l IH]; intros h; cbn [check_all]; [split; [apply grows_refl|by constructor]|]. apply wp_bind_ok.
  eapply wp_mono; [eapply wp_weaken; [apply (wp_kind W reads); [apply check_reads|apply wp_check]|done|done]|].
  intros [e|[reason|]] h1 [Hg Hh]; cbn [wp ok]; [done|done|]. eapply wp_mono; [apply IH|]. intros r h' [Hg' Hl].
  split; [by eapply grows_trans|]. intros Hr. constructor; [|by apply Hl]. eapply healthy_grows; [exact Hg'|by apply Hh].
Qed.
Lemma wp_waitCanary svc h : wpt (waitForCanaryHealthy has_labels svc) (fun r h' => r = inr tt -> gate_passed svc h') h.
Proof.
  apply wp_ask_bind; [done|]. intros start _. apply wp_poll. clear h. intros h. apply wp_wrapping. unfold checkCanaryHealth. apply wp_bind_ok, wp_bind.
  split; [done|]. intros a _. cbn [wp mbind prog_bind prog_bind_]. destruct (do_ (ListAll (by_service svc)) a) as [e|cts] eqn:Ha; [done|]. apply do_Did in Ha as ->.
  destruct (canaryOnly cts) as [|c l] eqn:Hc; [done|]. eapply wp_mono; [apply wp_check_all|]. intros [e|v] h' [Hg Hl]; [done|]. intros [= ->].
  exists cts. rewrite Hc. split_and!; [eapply grows_elem; [exact Hg|by left]|done|by apply Hl].
Qed.

Lemma wp_check_replica svc id h : wpt (check_replica has_labels svc id) (fun r h' => r = inr None -> proven h' id) h.
Proof.
  unfold check_replica. apply wp_bind_ok, wp_wrapping, wp_bind.
  split; [done|]. intros a _. cbn [wp mbind prog_bind prog_bind_]. destruct (do_ (ListAll (by_service svc)) a) as [e|cts] eqn:Ha; [done|]. apply do_Did in Ha as ->.
  set (h1 := Ev (ListAll _) _ :: h). destruct (find_first _ cts) as [ct|] eqn:Hf; [|done]. apply find_first_Some in Hf as (l1 & l2 & Hct & Hid & _).
  apply bool_decide_eq_true in Hid.
  assert (Hl : listed h1 ct). { exists (by_service svc), cts. split; [by left|]. rewrite Hct. apply elem_of_app. right. by left. }
  case_decide as Hs; [done|]. apply wp_wrapping. eapply wp_mono.
  - eapply wp_weaken; [apply (wp_kind W reads); [apply check_reads|apply wp_check]|done|done].
  - intros [e|v] h' [Hg Hh]; [done|]. intros [= ->]. exists ct. split_and!; [done|by eapply listed_grows|by apply Hh|done].
Qed.

Lemma wp_waitReady svc id h :
  wp W (fun _ r => reads r) (waitReplicaReady has_labels svc id) (fun r h' => grows reads h h' /\ (r = inr tt -> proven h' id)) h.
Proof.
  apply wp_kind; [apply waitReplicaReady_reads|]. apply wp_ask_bind; [done|]. intros started _. apply wp_bind_ok.
  eapply wp_mono; [apply (wp_poll (fun h => proven h id)), wp_check_replica|]. intros [e|[]] h' Hr; [done|]. specialize (Hr eq_refl). apply wp_ask_bind; [done|]. intros now _.
  assert (Hp : proven (Ev Now now :: h') id) by (eapply proven_grows; [by apply (grows_step reads)|done]).
  cbv zeta. case_decide; [|by intros _]. apply wp_ask_bind; [done|]. intros a _ _. eapply proven_grows; [by apply (grows_step reads)|done].
Qed.
End gate.

(** ** Ends *)

(** The least the clock can read: time passes while a timer runs. *)
Fixpoint clock (h : history) : option Z :=
  match h with
  | [] => None
  | e :: h =>
      match e with
      | Ev Now t => Some t
      | Ev (After d) None => (fun t => t + Z.max 0 d) <$> clock h
      | Ev (Sleep d) _ => (fun t => t + Z.max 0 d) <$> clock h
      | _ => clock h
      end
  end.
Definition clock_law (h : history) (e : event) : Prop :=
  match e with Ev Now t => match clock h with Some t0 => t0 <= t | None => True end | _ => True end.

Section ends.
Context (W : history -> event -> Prop).

(** Never [Stuck], whatever allowed answers come. *)
Fixpoint ends {A} (p : prog A) (h : history) : Prop :=
  match p with
  | Done _ => True
  | Ask r k => forall a, W h (Ev r a) -> ends (k a) (Ev r a :: h)
  | Stuck => False
  end.
Definition always {A} (p : prog A) : Prop := forall h, ends p h.

Lemma ends_bind {A B} (p : prog A) (f : A -> prog B) h : ends p h -> (forall a, always (f a)) -> ends (p ≫= f) h.
Proof. intros Hp Hf. revert h Hp. induction p as [a|r k IH|]; intros h; [intros _; apply Hf| |done]. intros Hk a HW. apply IH, Hk, HW. Qed.
Lemma always_done {A} (a : A) : always (Done a).
Proof. done. Qed.
Lemma always_ask r : always (ask r).
Proof. done. Qed.
Lemma always_bind {A B} (p : prog A) (f : A -> prog B) : always p -> (forall a, always (f a)) -> always (p ≫= f).
Proof. intros Hp Hf h. by apply ends_bind. Qed.
Lemma always_bind_ok {A B} (p : prog (result A)) (f : A -> prog (result B)) : always p -> (forall a, always (f a)) -> always (bind_ok p f).
Proof. intros Hp Hf. apply always_bind; [done|]. by intros []. Qed.
Lemma always_wrapping {A} pre (p : prog (result A)) : always p -> always (wrapping pre p).
Proof. intros Hp. by apply always_bind. Qed.
Lemma always_each {A} (l : list A) f : (forall x, x ∈ l -> always (f x)) -> always (each l f).
Proof.
  induction l as [|x l IH]; [done|]. intros Hf. cbn. apply always_bind_ok; [apply Hf; by left|]. intros _. apply IH. intros y Hy. apply Hf. by right.
Qed.

Lemma ends_run {A} (p : prog A) h w : obeys W w -> ends p h -> is_Some (snd (run w p h)).
Proof. intros Hw. revert h. induction p as [a|r k IH|]; intros h; [by eexists| |done]. intros Hk. cbn. by apply IH, Hk. Qed.

(** At most [n] questions. *)
Fixpoint bounded {A} (n : nat) (p : prog A) {struct p} : Prop :=
  match p with
  | Done _ => True
  | Ask _ k => match n with O => False | S n => forall a, bounded n (k a) end
  | Stuck => False
  end.
Lemma bounded_mono {A} n m (p : prog A) : (n <= m)%nat -> bounded n p -> bounded m p.
Proof. revert n m. induction p as [a|r k IH|]; intros [|n] [|m] ?; cbn; try done; [lia|]. intros Hk a. apply (IH a n); [lia|done]. Qed.
Lemma bounded_bind {A B} n m (p : prog A) (f : A -> prog B) : bounded n p -> (forall a, bounded m (f a)) -> bounded (n + m) (p ≫= f).
Proof.
  intros Hp Hf. revert n Hp. induction p as [a|r k IH|]; intros n Hp; [|destruct n; [destruct Hp|]; intros a; by apply IH|destruct Hp].
  eapply bounded_mono; [|apply Hf]. lia.
Qed.

Lemma interleave_step {X R} fuel (running waiting : list (X * prog R)) ended : running <> [] ->
  interleave (S fuel) running waiting ended =
  Ask (Pick (length running)) (fun n =>
    match running !! (n mod length running)%nat with
    | Some (x, Done r) => interleave fuel (delete (n mod length running)%nat running ++ take 1 waiting)%list (drop 1 waiting) (ended ++ [(x, r)])%list
    | Some (x, Ask r k) => Ask r (fun a => interleave fuel (<[(n mod length running)%nat := (x, k a)]> running) waiting ended)
    | _ => Stuck
    end).
Proof. by destruct running. Qed.

(** Goroutines that each ask at most so often come to an end together. *)
Lemma interleave_ends {X R} fuel (running waiting : list (X * prog R)) ended ns ms :
  Forall2 (fun x n => bounded n (snd x)) running ns -> Forall2 (fun x n => bounded n (snd x)) waiting ms ->
  (sum_list_with S ns + sum_list_with S ms <= fuel)%nat -> always (interleave fuel running waiting ended).
Proof.
  revert running waiting ended ns ms. induction fuel as [|fuel IH]; intros running waiting ended ns ms Hr Hw Hf h.
  { destruct Hr; [done|]. cbn in Hf. lia. }
  destruct (decide (running = [])) as [->|Hne]; [done|]. rewrite interleave_step by done. intros n _. cbv beta.
  set (i := (n mod length running)%nat).
  assert (Hi : (i < length running)%nat) by (apply Nat.mod_upper_bound; by destruct running).
  destruct (lookup_lt_is_Some_2 running i Hi) as [[x p] Hx].
  destruct (Forall2_lookup_l _ _ _ _ _ Hr Hx) as (b & Hb & Hpb). cbn in Hpb.
  assert (Hns : ns = (take i ns ++ b :: drop (S i) ns)%list) by (symmetry; by apply take_drop_middle).
  assert (Hsum : sum_list_with S ns = (sum_list_with S (take i ns) + (S b + sum_list_with S (drop (S i) ns)))%nat).
  { rewrite Hns at 1. by rewrite sum_list_with_app. }
  rewrite Hx. destruct p as [a|r k|]; [| |done].
  - apply (IH _ _ _ (take i ns ++ drop (S i) ns ++ take 1 ms)%list (drop 1 ms)).
    + rewrite app_assoc. apply Forall2_app; [|by apply Forall2_take]. rewrite delete_take_drop. apply Forall2_app; [by apply Forall2_take|by apply Forall2_drop].
    + by apply Forall2_drop.
    + rewrite !sum_list_with_app. pose proof (f_equal (sum_list_with S) (take_drop 1 ms)) as Hm. rewrite sum_list_with_app in Hm. lia.
  - destruct b as [|b]; [done|]. intros a _. apply (IH _ _ _ (<[i := b]> ns) ms); [|done|].
    + apply Forall2_insert; [done|apply Hpb].
    + assert (Hlen : (i < length ns)%nat) by (by apply lookup_lt_Some in Hb). rewrite insert_take_drop by done. rewrite sum_list_with_app. cbn. lia.
Qed.

Lemma only_interleave {X R} P fuel (running waiting : list (X * prog R)) ended :
  (forall n, P (Pick n)) -> Forall (fun x => only P (snd x)) running -> Forall (fun x => only P (snd x)) waiting ->
  only P (interleave fuel running waiting ended).
Proof.
  intros HP. revert running waiting ended. induction fuel as [|fuel IH]; intros running waiting ended Hr Hw; [by destruct running|].
  destruct (decide (running = [])) as [->|Hne]; [done|]. rewrite interleave_step by done. split; [apply HP|]. intros n. cbv beta.
  destruct (running !! (n mod length running)%nat) as [[x [a|r k|]]|] eqn:Hx; try done.
  - apply IH; [|by apply Forall_drop]. apply Forall_app; split; [by apply Forall_delete|by apply Forall_take].
  - pose proof (Forall_lookup_1 _ _ _ _ Hr Hx) as [Hr0 Hk]. split; [done|]. intros a. apply IH; [|done]. apply Forall_insert; [done|apply Hk].
Qed.
End ends.

(** ** The client's programs *)

Ltac always_with tac :=
  repeat first
  [ done | apply always_ask | tac | apply always_bind_ok | apply always_wrapping | apply always_bind | apply always_each; intros ? ?
  | apply always_done | progress cbv zeta | case_decide | case_match
  | match goal with |- forall _, _ => intro | |- (fun _ => _) _ => cbv beta end ].

Section client_facts.
Context (has_labels : bool) `{MapRange}.

Lemma drain_bounded ct : bounded 4 (drainStopRemove has_labels ct).
Proof.
  apply (bounded_bind 1 3); [unfold effectiveLabels, adoptedLabels; by case_decide|]. intros eff.
  apply (bounded_bind 1 2); [done|]. intros [e|u]; [done|].
  apply (bounded_bind 1 1); [done|]. intros a. destruct (do_ (DeleteContainer (ct_ID ct) false) a); [|done]. by destruct (StrContains _ _).
Qed.

Lemma wp_drain W ct h :
  wp W (fun _ => spares (ct_ID ct)) (drainStopRemove has_labels ct) (fun _ h' => grows (spares (ct_ID ct)) h h' /\ ct_ID ct ∈ retired_ids h') h.
Proof.
  apply wp_kind; [apply drain_spares|]. unfold drainStopRemove. apply wp_bind. eapply wp_mono; [apply wp_any|]. intros eff h1 _.
  apply wp_bind, wp_ask_bind; [done|]. intros a _. cbn [wp]. set (h2 := Ev _ a :: h1).
  assert (Hin : ct_ID ct ∈ retired_ids h2) by (unfold retired_ids, h2; cbn; left).
  eapply wp_mono; [apply (wp_extends W _ _ (fun _ _ => True)), wp_any|]. intros r h' [Hg _]. by eapply retired_mono.
Qed.

(** A parallel retirement retires those it was given, and ends. *)
Lemma drainAll_spares cts : only (fun r => forall x, retired r = Some x -> x ∈ ct_ID <$> cts) (drainStopRemoveAll has_labels cts).
Proof.
  set (P := fun r => _). unfold drainStopRemoveAll.
  assert (Hall : Forall (fun x => only P (snd x)) ((fun ct => (ct, drainStopRemove has_labels ct)) <$> cts)).
  { apply Forall_fmap, Forall_forall. intros ct Hct. cbn. eapply only_mono; [|apply drain_spares]. intros r Hr x Hx. apply Hr in Hx as ->.
    by apply list_elem_of_fmap_2. }
  apply only_interleave; [done|by apply Forall_take|by apply Forall_drop].
Qed.
Lemma drainAll_ends W cts : always W (drainStopRemoveAll has_labels cts).
Proof.
  unfold drainStopRemoveAll. set (ds := (fun ct => (ct, drainStopRemove has_labels ct)) <$> cts).
  assert (Hall : Forall2 (fun (x : container * prog (result unit)) n => bounded n (snd x)) ds (replicate (length cts) 4%nat)).
  { unfold ds. clear. induction cts as [|ct cts IH]; [constructor|]. constructor; [apply drain_bounded|done]. }
  apply (interleave_ends W _ _ _ _ (take drainStopRemoveParallelism (replicate (length cts) 4%nat)) (drop drainStopRemoveParallelism (replicate (length cts) 4%nat)));
    [by apply Forall2_take|by apply Forall2_drop|].
  rewrite <- sum_list_with_app, take_drop. clear. induction cts; cbn in *; lia.
Qed.
Lemma drain_ends W ct : always W (drainStopRemove has_labels ct).
Proof.
  intros h. pose proof (drain_bounded ct) as Hb. revert Hb h. generalize 4%nat. generalize (drainStopRemove has_labels ct). clear.
  intros p. induction p as [a|r k IH|]; intros n Hb h; [done| |done]. destruct n; [done|]. intros a _. by eapply IH.
Qed.

(** What [createContainer] may touch: the container the daemon has just made. *)
Definition spares_known (h0 : history) (r : request) : Prop := forall x, retired r = Some x -> x ∉ known h0.

Lemma wp_create W cname body h :
  (forall h e, W h e -> daemon_ids h e) ->
  wp W (fun _ => spares_known h) (createContainer cname body)
    (fun r h' => forall id, r = inr id -> made_from h' cname body id /\ id ∉ known h /\ grows retires_none h h') h.
Proof.
  intros HW. unfold createContainer. set (b := match _ with Some _ => _ | None => _ end). set (req := CreateContainer _ _ _ _).
  apply wp_ask_bind; [by intros x|]. intros a Ha. destruct (do_ req a) as [e|id] eqn:Hd; [by case_decide|].
  apply do_Did in Hd as ->. assert (Hnew : id ∉ known h) by (by apply HW in Ha). set (h0 := Ev req (Did id) :: h).
  assert (Hc : made_from h0 cname body id).
  { exists b. unfold b. split_and!; [by destruct (cb_Labels body !! labelDrain)..|by left]. }
  assert (H0 : grows retires_none h h0) by (by apply grows_step).
  apply wp_bind_ok. match goal with |- wp _ _ (each ?l ?f) _ _ => enough (Hloop : forall h1, grows retires_none h0 h1 ->
    wp W (fun _ => spares_known h) (each l f) (fun r h' => r = inr tt -> grows retires_none h0 h') h1) end.
  { eapply wp_mono; [by apply Hloop, grows_refl|]. intros [e|[]] h' Hg; [done|]. specialize (Hg eq_refl). intros ? [= <-].
    split_and!; [by eapply made_grows|done|by eapply grows_trans]. }
  induction (cb_ExtraNetworks b) as [|n l IH]; intros h1 Hg; [by intros _|]. cbn [each]. apply wp_bind_ok, wp_bind.
  apply wp_ask_bind; [by intros x|]. intros a _. cbn [wp].
  match goal with |- context [match ?r with inl _ => _ | inr _ => _ end] => destruct r as [e|[]] end.
  - apply wp_ask_bind; [by intros x [= <-]|]. by intros a' _.
  - cbn [wp ok]. apply IH. eapply grows_trans; [exact Hg|]. by apply grows_step.
Qed.

Lemma create_ends W cname body : always W (createContainer cname body).
Proof. unfold createContainer, connectNetwork, removeContainer, ignoring. always_with ltac:(fail). Qed.
End client_facts.

(** ** The polling loops end when the clock advances *)

Section polls.
Context (W : history -> event -> Prop) (Wclock : forall h e, W h e -> clock_law h e).

Lemma ends_bind_wp {A B} (p : prog A) (f : A -> prog B) h :
  ends W p h -> wp W (fun _ _ => True) p (fun a h' => ends W (f a) h') h -> ends W (p ≫= f) h.
Proof.
  revert h. induction p as [a|r k IH|]; intros h; [by intros _| |done]. intros Hk [_ Hw] a HW. apply IH; auto.
Qed.

Lemma ends_ask_bind {B} r (f : answer r -> prog B) h : (forall a, W h (Ev r a) -> ends W (f a) (Ev r a :: h)) -> ends W (ask r ≫= f) h.
Proof. done. Qed.

Lemma clock_step h e t : clock h = Some t -> W h e -> exists t', clock (e :: h) = Some t' /\ t <= t'.
Proof.
  intros Ht HW. apply Wclock in HW. destruct e as [r a]. destruct r; cbn in *; eauto with lia.
  - rewrite Ht in HW. eauto.
  - destruct a; rewrite ?Ht; cbn; eauto with lia.
  - rewrite Ht. cbn. eauto with lia.
Qed.
Lemma wp_clock {A} (p : prog A) h t :
  clock h = Some t -> wp W (fun _ _ => True) p (fun _ h' => exists t', clock h' = Some t' /\ t <= t') h.
Proof.
  intros Ht. enough (forall h1 t1, clock h1 = Some t1 -> t <= t1 -> wp W (fun _ _ => True) p (fun _ h' => exists t', clock h' = Some t' /\ t <= t') h1) by eauto with lia.
  clear h Ht. induction p as [a|r k IH|]; intros h1 t1 Ht Hle; [by exists t1| |done]. split; [done|]. intros a HW.
  destruct (clock_step h1 (Ev r a) t1 Ht HW) as (t2 & Ht2 & ?). eapply IH; [exact Ht2|lia].
Qed.

Lemma poll_ends check deadline gate fuel h t :
  always W check -> clock h = Some t -> deadline - t <= canaryPromoteHealthPoll * Z.of_nat fuel -> ends W (poll_until (S fuel) check deadline gate) h.
Proof.
  intros Hc. revert h t. induction fuel as [|fuel IH]; intros h t Ht Hd; cbn [poll_until];
    (apply ends_bind_wp; [apply Hc|]; eapply wp_mono; [by apply (wp_clock _ _ t)|]; intros [e|[reason|]] h' (t1 & Ht1 & Hle); [done| |done]);
    apply ends_ask_bind; intros now HW; apply Wclock in HW; cbn in HW; rewrite Ht1 in HW; unfold time_before.
  - rewrite bool_decide_false by lia. done.
  - case_bool_decide; [|done]. cbn [negb]. apply ends_bind_wp; [done|]. apply wp_ask_bind; [done|]. intros [err|] _; [done|].
    apply (IH _ (now + canaryPromoteHealthPoll)).
    + done.
    + unfold canaryPromoteHealthPoll in *. lia.
Qed.

Lemma polls_enough timeout : 0 <= timeout -> timeout <= canaryPromoteHealthPoll * Z.of_nat (polls timeout - 1).
Proof.
  intros H. unfold polls. pose proof (Z.div_pos timeout canaryPromoteHealthPoll H eq_refl).
  pose proof (Z.mod_pos_bound timeout canaryPromoteHealthPoll eq_refl). pose proof (Z.div_mod timeout canaryPromoteHealthPoll ltac:(done)).
  replace (Z.of_nat _) with (timeout / canaryPromoteHealthPoll + 1) by lia. lia.
Qed.

Section client_polls.
Context (has_labels : bool) `{MapRange}.

Lemma effective_ends raw : always W (effectiveLabels has_labels raw).
Proof. unfold effectiveLabels, adoptedLabels. always_with ltac:(fail). Qed.
Lemma check_ends ct : always W (checkContainerHealthy has_labels ct).
Proof. unfold checkContainerHealthy, inspectRestartCount, inspect. always_with ltac:(apply effective_ends). Qed.
Lemma check_all_ends check l : (forall ct, always W (check ct)) -> always W (check_all check l).
Proof. intros Hc. induction l as [|ct l IH]; [done|]. cbn [check_all]. always_with ltac:(first [apply Hc|apply IH]). Qed.
Lemma checkCanary_ends svc : always W (checkCanaryHealth has_labels svc).
Proof. unfold checkCanaryHealth, listAll. always_with ltac:(apply check_all_ends, check_ends). Qed.

Lemma gate_ends check timeout gate h : always W check -> 0 <= timeout ->
  ends W (start ← ask Now; poll_until (polls timeout) check (start + timeout) gate) h.
Proof.
  intros Hc Ht. apply ends_ask_bind. intros start _. replace (polls timeout) with (S (polls timeout - 1)) by (unfold polls; lia).
  apply (poll_ends _ _ _ _ _ start); [done|done|]. pose proof (polls_enough timeout Ht). lia.
Qed.
Lemma waitForCanary_ends svc : always W (waitForCanaryHealthy has_labels svc).
Proof. intros h. apply gate_ends; [|done]. apply always_wrapping, checkCanary_ends. Qed.
Lemma waitReplicaReady_ends svc id : always W (waitReplicaReady has_labels svc id).
Proof.
  intros h. apply ends_ask_bind. intros started HW. apply ends_bind.
  - apply (gate_ends (check_replica has_labels svc id) rollingReadyTimeout "failed health gate: " h); [|done|done].
    unfold check_replica, listAll. always_with ltac:(apply check_ends).
  - intros [e|u]; [done|]. unfold poll_wait. always_with ltac:(fail).
Qed.
End client_polls.
End polls.
