(* ===== verification/Clone.v ===== *)
(** * What a new replica copies: cmd/dashboard/serviceenv.go, centralenv.go, docker.go

    The environment, labels and host configuration a container is recreated
    with: merging of edits, secret references, central environments, and the
    refusal of what a recreate would drop. *)
From S2P Require Import Prelude GoString Duration Http Sha256 Json Url Balancer AuthGate Labels LabelOverlay Docker.
Open Scope string_scope.

(** ** Editing an environment *)

(** [at] of the code: where a key is set last. *)
Definition key_of (e : string) : option string := fst <$> splitEnvEntry e.
Fixpoint last_at (k : string) (base : list string) (i : nat) : option nat :=
  match base with
  | [] => None
  | e :: base => match last_at k base (S i) with
                 | Some j => Some j
                 | None => if decide (key_of e = Some k) then Some i else None
                 end
  end.
Definition assignment (kv : string * string) : string := fst kv +:+ "=" +:+ snd kv.

(** One edit: the environment so far, what is to be added, the conflicts. *)
Record merging := mkMerging { mg_out : list string; mg_added : list string; mg_conflicts : list (string * string * string) }.
Definition edit (base : list string) (ack : list string) (m : merging) (kv : string * string) : merging :=
  let '(k, v) := kv in
  match last_at k base 0 with
  | None => mkMerging (mg_out m) (mg_added m ++ [assignment kv]) (mg_conflicts m)
  | Some i =>
      let cur := match mg_out m !! i ≫= splitEnvEntry with Some (_, c) => c | None => "" end in
      if decide (cur = v) then m
      else if decide (k ∈ ack) then mkMerging (<[i := assignment kv]> (mg_out m)) (mg_added m) (mg_conflicts m)
      else mkMerging (mg_out m) (mg_added m) (mg_conflicts m ++ [(k, cur, v)])
  end.

Definition str_less (a b : string) : bool := String.ltb a b.
Definition conflict_text (cs : list (string * string * string)) : string :=
  "env conflict on " +:+ Join (fst ∘ fst <$> cs) ", " +:+ ": choose which value to keep".
Definition conflict (cs : list (string * string * string)) : failure := mkFailure (conflict_text cs) (Conflict cs).

Section merge.
Context `{MapRange}.

Definition mergeEnv (base : list string) (edits : gmap string string) (ack : list string) : result (list string) :=
  if decide (edits = ∅) then inr base else
  let m := foldl (edit base ack) (mkMerging base [] []) (range_list edits) in
  match mg_conflicts m with
  | [] => inr (mg_out m ++ SliceStable str_less (mg_added m))%list
  | cs => inl (conflict (SliceStable (fun a b => str_less (fst (fst a)) (fst (fst b))) cs))
  end.

Definition secretRefPrefix : string := "ref:".

(** The edits with references resolved, and the references. *)
Fixpoint resolve_refs (svc : string) (edits : list (string * string)) (resolved refs : gmap string string)
  : prog (result (gmap string string * gmap string string)) :=
  match edits with
  | [] => ok (resolved, refs)
  | (k, v) :: edits =>
      match CutPrefix v secretRefPrefix with
      | None => resolve_refs svc edits (<[k := v]> resolved) refs
      | Some n =>
          r ← ask (Secret svc n);
          match r with
          | inl err => fail (text ("env " +:+ k +:+ ": " +:+ err))
          | inr val => resolve_refs svc edits (<[k := val]> resolved) (<[k := v]> refs)
          end
      end
  end.
Definition resolveSecretRefs (svc : string) (edits : gmap string string) : prog (result (gmap string string * gmap string string)) :=
  resolve_refs svc (range_list edits) ∅ ∅.

Definition redactRefConflicts (e : failure) (refs : gmap string string) : failure :=
  match e_kind e with
  | Conflict cs =>
      if decide (refs = ∅) then e else
      conflict ((fun c => match refs !! fst (fst c) with Some ref => (fst c, ref) | None => c end) <$> cs)
  | _ => e
  end.

(** The environment of a replica that is not centrally managed. *)
Definition edited_env (svc : string) (base : list string) (edits : gmap string string) (ack : list string) : prog (result (list string)) :=
  er ←? resolveSecretRefs svc edits;
  Done match mergeEnv base (fst er) ack with inl e => inl (redactRefConflicts e (snd er)) | inr env => inr env end.
End merge.

(** ** What a container is like *)

Definition name_less (a b : networkAttachment) : bool := str_less (na_Name a) (na_Name b).

Section clone.
Context `{MapRange}.

(** The aliases a container was given, without its own name and short id. *)
Definition filterSelf (selfName id : string) (aliases : list string) : list string :=
  filter (fun a => negb (bool_decide (a = selfName) || (bool_decide (12 <= len a) && HasPrefix id a)) = true) aliases.

Definition clone_of (id : string) (i : inspection) : cloneSpec :=
  let own := filterSelf (TrimPrefix (in_Name i) "/") id in
  let sorted l := SliceStable str_less l in
  mkClone (in_HostMounts i) (in_Healthcheck i)
    (sorted (match in_Aliases i !! managedNetwork with Some l => own l | None => [] end))
    ((fun n => mkNetwork (na_Name n) (sorted (na_Aliases n))) <$>
       SliceStable name_less (omap (fun n => if decide (fst n = managedNetwork) then None else Some (mkNetwork (fst n) (own (snd n)))) (range_list (in_Aliases i))))
    (omap (fun m => if decide (fst m = "volume") then Some (snd m) else None) (in_Volumes i)).
Definition inspectCloneSpec (id : string) : prog (result cloneSpec) := i ←? inspect id; ok (clone_of id i).

Definition hostConfigRefuseFields : list string :=
  ["PortBindings"; "Binds"; "Dns"; "DnsSearch"; "DnsOptions"; "ExtraHosts"; "CapAdd"; "CapDrop"; "Privileged"; "Devices";
   "Memory"; "MemorySwap"; "NanoCpus"; "CpuShares"; "CpusetCpus"; "CpusetMems"; "PidsLimit"].
Definition endpointRefuseFields : list string := ["IPAMConfig"; "Links"; "DriverOpts"].

(** A JSON number with no digit but zero before its exponent. *)
Definition zero_number (lit : string) : bool :=
  all_bytes (fun c => has_byte c "-0.") (before_byte (before_byte lit "e") "E").
Definition isZeroJSON (v : json) : bool :=
  match v with
  | JNull => true | JBool b => negb b | JNum lit => zero_number lit | JStr s => bool_decide (s = "")
  | JArr l => bool_decide (length l = 0)%nat | JObj l => bool_decide (length l = 0)%nat
  end.
Definition set_fields (fields : list string) (m : gmap string json) : list string :=
  filter (fun f => match m !! f with Some v => isZeroJSON v | None => true end = false) fields.
(** Cmd and Entrypoint are lists of strings, null or absent. *)
Definition isZeroList (l : option (list string)) : bool := match l with Some (_ :: _) => false | _ => true end.

Definition unknown_fields (i : inspection) : list string :=
  (set_fields hostConfigRefuseFields (in_HostConfig i) ++
   (n ← range_list (in_Endpoints i);
    if decide (fst n = managedNetwork) then [] else
    (fun f => "NetworkSettings.Networks." +:+ fst n +:+ "." +:+ f) <$> set_fields endpointRefuseFields (snd n)))%list.

Definition inspectHostConfigUnknowns (id : string) : prog (result (list string)) :=
  i ←? inspect id;
  let refused := unknown_fields i in
  over ←? (if isZeroList (in_Cmd i) && isZeroList (in_Entrypoint i) then ok [] else
           a ← ask (InspectImage (in_Image i));
           match do_ (InspectImage (in_Image i)) a with
           | inl e => fail (wrap ("inspect image " +:+ in_Image i +:+ ": ") e)
           | inr (imgCmd, imgEntrypoint) =>
               ok ((if isZeroList (in_Cmd i) || bool_decide (in_Cmd i = imgCmd) then [] else ["Config.Cmd"]) ++
                   (if isZeroList (in_Entrypoint i) || bool_decide (in_Entrypoint i = imgEntrypoint) then [] else ["Config.Entrypoint"]))%list
           end);
  ok (SliceStable str_less (refused ++ over)%list).

(** ** Central environments *)

Definition healthcheckMissing (h : option healthcheckSpec) : bool :=
  match h with Some h => bool_decide (hc_Test h = []) | None => true end.
Definition without_prefix (p : string) (m : gmap string string) : gmap string string :=
  filter (fun kv => HasPrefix (fst kv) p = false) m.
Definition stampEnvLabels (src : gmap string string) (res : centralEnvResult) : gmap string string :=
  <[labelEnvVersion := FormatInt (ce_Version res)]> (<[labelEnvOrigin := ce_Origin res]> (without_prefix composeLabelPrefix src)).

Definition with_healthcheck (h : option healthcheckSpec) (cs : cloneSpec) : cloneSpec :=
  mkClone (cs_Mounts cs) h (cs_ManagedAliases cs) (cs_ExtraNetworks cs) (cs_VolumeDests cs).
(** The clone takes a health check it has none of. *)
Definition fallback_healthcheck (h : option healthcheckSpec) (cs : cloneSpec) : cloneSpec :=
  if healthcheckMissing (cs_Healthcheck cs) then match h with Some _ => with_healthcheck h cs | None => cs end else cs.

Record templateClone := mkTemplate { tc_env : list string; tc_labels : gmap string string; tc_clone : cloneSpec; tc_managed : bool }.

(** [central]: the dashboard has a resolver. *)
Context (central : bool).

Definition central_enabled : prog bool := if central then ask CentralEnabled else Done false.

Definition cloneOwnEnvAndSpec (who : container -> string) (ct : container) : prog (result templateClone) :=
  env ←? wrapping ("inspect " +:+ who ct +:+ " env: ") (inspectEnv (ct_ID ct));
  clone ←? wrapping ("inspect " +:+ who ct +:+ " clone spec: ") (inspectCloneSpec (ct_ID ct));
  ok (mkTemplate env (ct_Labels ct) clone false).

Definition cloneEnvAndSpec (svc : string) (tpl : container) : prog (result templateClone) :=
  let template ct := "template " +:+ ct_name ct in
  on ← central_enabled;
  if (on : bool) then
    a ← ask (CentralResolve svc (ct_Labels tpl));
    match a with
    | inl err => fail (text err)
    | inr None => cloneOwnEnvAndSpec template tpl
    | inr (Some res) =>
        clone ←? wrapping ("inspect template " +:+ ct_name tpl +:+ " clone spec: ") (inspectCloneSpec (ct_ID tpl));
        ok (mkTemplate (ce_Env res) (stampEnvLabels (ct_Labels tpl) res) (fallback_healthcheck (ce_Healthcheck res) clone) true)
    end
  else cloneOwnEnvAndSpec template tpl.

Definition centrally (svc hint : string) : failure :=
  mkFailure (Quote svc +:+ " is centrally managed " +:+ utf8 8212 +:+ " " +:+ hint) (CentrallyManaged svc hint).
Definition refuseCentrallyManaged (svc : string) (labels : gmap string string) (hint : string) : prog (result unit) :=
  on ← central_enabled;
  if (on : bool) then
    m ← ask (CentralManaged svc labels); if (m : bool) then fail (centrally svc hint) else ok tt
  else ok tt.

Definition no_edits : string := "env edits must go through its central env, not a replace/stage request".
(** The environment of the new replicas of a request with edits. *)
Definition request_env (svc : string) (tc : templateClone) (edits : gmap string string) (ack : list string) : prog (result (list string)) :=
  if tc_managed tc then if decide (edits = ∅) then ok (tc_env tc) else fail (centrally svc no_edits)
  else edited_env svc (tc_env tc) edits ack.

(** The body of a container like the template. *)
Definition body_of (image : string) (labels : gmap string string) (env : list string) (cs : cloneSpec) : createBody :=
  mkBody image labels env (cs_Healthcheck cs) None (cs_Mounts cs) (cs_ManagedAliases cs) (cs_ExtraNetworks cs).
End clone.
