(* ===== verification/Services.v ===== *)
(** * Services made of labelled containers: cmd/dashboard/docker.go

    Scaling, replacing all at once or one at a time, staging, scaling, promoting
    and discarding a canary, and deleting, on the world of [Docker]. *)
From S2P Require Import Prelude GoString Duration Http Sha256 Json Url Balancer AuthGate Labels LabelOverlay Docker Clone.
Open Scope string_scope.

Definition replica_name (svc : string) (n : Z) : string := "goproxy-" +:+ svc +:+ "-" +:+ FormatInt n.
Definition canary_name (svc : string) (n : Z) : string := "goproxy-" +:+ svc +:+ "-canary-" +:+ FormatInt n.
Definition pad6 (s : string) : string := String.string_of_list_ascii (replicate (6 - String.length s) "0"%char) +:+ s.
Definition abCanaryName (svc : string) (n : Z) : string := "goproxy-" +:+ svc +:+ "-canary-" +:+ pad6 (FormatInt n).

(** One more than the largest number behind the prefix. *)
Definition next_index (prefix : string) (existing : list container) : Z :=
  sint 64 (foldl (fun m ct => match CutPrefix (ct_name ct) prefix with
                     | Some rest => match Atoi rest with Some v => Z.max m v | None => m end
                     | None => m end) 0 existing + 1).
(** The [i]-th number from [start] on, an int. *)
Definition numbered (start : Z) (i : nat) : Z := sint 64 (start + Z.of_nat i).
Definition nextReplicaIndex (existing : list container) (svc : string) : Z := next_index ("goproxy-" +:+ svc +:+ "-") existing.
Definition nextCanaryReplicaIndex (existing : list container) (svc : string) : Z := next_index ("goproxy-" +:+ svc +:+ "-canary-") existing.

Record ReplaceServiceRequest := mkReplace { rq_Image : string; rq_Env : gmap string string; rq_EnvAck : list string }.

Definition isABCanary (canary : list container) : bool :=
  existsb (fun ct => negb (bool_decide (lbl (ct_Labels ct) labelABVariant = ""))) canary.

Section services.
Context `{MapRange} (has_labels central : bool).
Let effectiveLabels := effectiveLabels has_labels.
Let drainStopRemove := drainStopRemove has_labels.
Let drainStopRemoveAll := drainStopRemoveAll has_labels.
Let cloneEnvAndSpec := cloneEnvAndSpec central.
Let waitReplicaReady := waitReplicaReady has_labels.
Let waitForCanaryHealthy := waitForCanaryHealthy has_labels.

(** ** Scaling *)

Definition guardUnscalable (svc : string) (desired : Z) : prog (result unit) :=
  r ← listAll (by_service svc);
  match r with
  | inl _ => ok tt
  | inr all =>
      match preferRunning (liveOnly all) with
      | [] => ok tt
      | ct :: _ =>
          eff ← effectiveLabels (ct_Labels ct);
          if decide (lbl eff labelUnscalable = "true" /\ desired <> 1) then
            fail (text (Quote svc +:+ " is marked unscalable " +:+ utf8 8212 +:+ " replica count must stay at 1"))
          else ok tt
      end
  end.

(** Creating and starting one container; a start that fails leaves it. *)
Definition create_start (cname create_what start_what : string) (b : createBody) : prog (result string) :=
  id ←? wrapping (create_what +:+ cname +:+ ": ") (createContainer cname b);
  wrapping (start_what +:+ cname +:+ ": ") (startContainer id) ;;? ok id.

(** [n] of them, numbered from [i]. *)
Fixpoint create_many (n : nat) (i : Z) (cname : Z -> string) (create_what start_what : string) (b : createBody) : prog (result unit) :=
  match n with
  | O => ok tt
  | S n => create_start (cname i) create_what start_what b ;;? create_many n (sint 64 (i + 1)) cname create_what start_what b
  end.

(** Stopped before running, then the greater name. *)
Definition is_running (ct : container) : bool := bool_decide (ct_State ct = "running").
Definition removed_before (a b : container) : bool :=
  if decide (is_running a = is_running b) then str_less (ct_name b) (ct_name a) else negb (is_running a).
Definition ours (l : list container) : list container := filter (fun ct => HasPrefix (ct_name ct) "goproxy-" = true) l.

Definition remove_each (l : list container) : prog (result unit) :=
  each l (fun ct => wrapping ("remove " +:+ ct_name ct +:+ ": ") (drainStopRemove ct)).

Definition scaleServiceWithHealthcheck (svc : string) (desired : Z) (fallbackHC : option healthcheckSpec) : prog (result unit) :=
  if decide (desired < 0) then fail (text "replicas must be >= 0") else
  guardUnscalable svc desired ;;?
  (all ←? listAll (by_service svc);
   let existing := liveOnly all in
   match preferRunning existing with
   | [] => fail (text ("service " +:+ Quote svc +:+ " not found (no live replicas)"))
   | tpl :: _ =>
       let current := Z.of_nat (length existing) in
       if decide (current = desired) then ok tt
       else if decide (current < desired) then
         tc ←? cloneEnvAndSpec svc tpl;
         let clone := fallback_healthcheck fallbackHC (tc_clone tc) in
         create_many (Z.to_nat (desired - current)) (nextReplicaIndex existing svc) (replica_name svc) "create " "start "
           (body_of (ct_Image tpl) (tc_labels tc) (tc_env tc) clone)
       else
         let toRemove := current - desired in
         let mine := SliceStable removed_before (ours existing) in
         if decide (Z.of_nat (length mine) < toRemove) then
           fail (text ("can only scale down to " +:+ FormatInt (current - Z.of_nat (length mine)) +:+ " (the original is not removable)"))
         else remove_each (take (Z.to_nat toRemove) mine)
   end).
Definition scaleService (svc : string) (desired : Z) : prog (result unit) := scaleServiceWithHealthcheck svc desired None.

(** ** Replacing *)

Record rollingOpts := mkOpts {
  op_pinnedEnv : option (list string); op_pinnedLabels : gmap string string; op_pinnedHealthcheck : option healthcheckSpec;
  op_removeOnGateFailure : bool; op_skipPull : bool; op_includeForeign : bool; op_unstamp : bool;
  op_onReady : bool;                   (* tell the proxy when a new replica is ready *)
  op_kind : string;
}.
Definition no_opts : rollingOpts := mkOpts None ∅ None false false false false false "".
Definition rollingKindRestart : string := "restart".

Record replaceTemplate := mkReplaceTemplate {
  rt_existing : list container; rt_tplSet : list container; rt_env : list string; rt_clone : cloneSpec;
  rt_newLabels : gmap string string; rt_startIdx : Z;
}.

(** [hasHealthSignal] and [anonymousVolumes]: what an overlap must not lose. *)
Definition anonymousVolumes (cs : cloneSpec) : list string :=
  let unnamed := omap (fun m => if decide (m_Type m = "volume" /\ m_Source m = "") then Some (m_Target m) else None) (cs_Mounts cs) in
  let covered := omap (fun m => if decide (m_Type m = "volume" /\ m_Source m = "") then None
                                else if decide (m_Source m <> "") then Some (m_Target m) else None) (cs_Mounts cs) in
  SliceStable str_less (foldl (fun out d => if decide (d ∈ covered \/ d ∈ out) then out else (out ++ [d])%list) unnamed (cs_VolumeDests cs)).
Definition hasHealthSignal (hc : option healthcheckSpec) (labels : gmap string string) : bool :=
  match hc with
  | Some h => match hc_Test h with t :: _ => negb (bool_decide (t = "NONE")) | [] => false end
  | None => false
  end || negb (bool_decide (TrimSpace (lbl labels labelHealth) = "")).
Definition overlapEnabled (labels : gmap string string) : bool :=
  bool_decide (lbl labels labelUnscalable = "true") && EqualFold (TrimSpace (lbl labels labelOverlap)) "true".
Definition refuseUnsafeOverlap (svc : string) (cs : cloneSpec) (newLabels : gmap string string) : result unit :=
  match anonymousVolumes cs with
  | [] =>
      if hasHealthSignal (cs_Healthcheck cs) newLabels then inr tt
      else inl (text ("proxy.overlap requires a HEALTHCHECK or proxy.health so the new copy is proven ready (" +:+ svc +:+ " has neither)"))
  | anon => inl (text ("proxy.overlap: " +:+ svc +:+ " has anonymous volumes (" +:+ Join anon ", " +:+
                       ") that a recreate would lose; use a named volume or remove proxy.overlap"))
  end.

Definition stamped (l : list container) : list container := filter (fun ct => lbl (ct_Labels ct) labelEnvOrigin <> "") l.

Definition pinned_labels (opts : rollingOpts) (raw : gmap string string) : gmap string string :=
  let base := without_prefix composeLabelPrefix raw in
  let base := if op_unstamp opts then delete labelEnvVersion (delete labelEnvOrigin base) else base in
  op_pinnedLabels opts ∪ base.

(** The environment, labels and clone of the new replicas. *)
Definition replacement (svc : string) (tpl : container) (req : ReplaceServiceRequest) (opts : rollingOpts) : prog (result templateClone) :=
  match op_pinnedEnv opts with
  | Some env =>
      if decide (rq_Env req <> ∅) then fail (centrally svc "a pinned central env rollout takes no env edits") else
      clone ←? wrapping "inspect template clone spec: " (inspectCloneSpec (ct_ID tpl));
      ok (mkTemplate env (pinned_labels opts (ct_Labels tpl)) (fallback_healthcheck (op_pinnedHealthcheck opts) clone) true)
  | None => cloneEnvAndSpec svc tpl
  end.

Definition prepareReplaceTemplate (svc : string) (req : ReplaceServiceRequest) (opts : rollingOpts) : prog (result replaceTemplate) :=
  if decide (rq_Image req = "") then fail (text "image is required") else
  all ←? listAll (by_service svc);
  let existing := liveOnly all in
  let existing := if decide (op_pinnedEnv opts <> None /\ op_includeForeign opts = false) then stamped existing else existing in
  match preferRunning existing with
  | [] => fail (text ("service " +:+ Quote svc +:+ " not found (no live replicas)"))
  | tpl :: rest =>
      each existing (fun ct =>
        unknowns ←? wrapping ("inspect " +:+ ct_name ct +:+ ": ") (inspectHostConfigUnknowns (ct_ID ct));
        match unknowns with
        | [] => ok tt
        | _ => fail (text ("refusing to replace " +:+ Quote svc +:+ ": " +:+ ct_name ct +:+ " would drop " +:+ Join unknowns ", " +:+
                           " on recreate " +:+ utf8 8212 +:+ " resolve manually first"))
        end) ;;?
      (tc ←? replacement svc tpl req opts;
       env ←? request_env svc tc (rq_Env req) (rq_EnvAck req);
       pulled ← (if op_skipPull opts then Done tt else ask (PullImage (rq_Image req)));
       let kept := without_prefix ociImageLabelPrefix (tc_labels tc) in
       let newLabels := if decide (ct_Image tpl <> "" /\ ct_Image tpl <> rq_Image req /\ op_kind opts <> rollingKindRestart)
                        then <[labelPrevImage := ct_Image tpl]> kept else kept in
       ok (mkReplaceTemplate existing (tpl :: rest) env (tc_clone tc) newLabels (nextReplicaIndex existing svc)))
  end.

Definition new_body (image : string) (tpl : replaceTemplate) : createBody := body_of image (rt_newLabels tpl) (rt_env tpl) (rt_clone tpl).

Definition templateOverlap (tpl : replaceTemplate) : prog bool :=
  match rt_tplSet tpl with
  | ct :: _ => eff ← effectiveLabels (ct_Labels ct); Done (overlapEnabled eff)
  | [] => Done false
  end.

(** *** One at a time *)

Definition counted (i total : nat) (cname : string) : string :=
  "replaced " +:+ FormatInt (Z.of_nat i) +:+ "/" +:+ FormatInt (Z.of_nat total) +:+ " replicas, then failed on " +:+ cname +:+ ": ".

(** The address [/refresh] is posted to. *)
Context (proxyURL : string).

Definition report (progress : bool) (done total : nat) (replica verdict : string) : prog (result unit) :=
  told ← (if progress then ask (Report done total replica verdict) else Done tt); ok tt.

(** The [i]-th new replica, up to its health gate and the word to the proxy. *)
Definition bring_up (svc image : string) (tpl : replaceTemplate) (opts : rollingOpts) (i : nat) : prog (result unit) :=
  let total := length (rt_tplSet tpl) in
  let cname := replica_name svc (numbered (rt_startIdx tpl) i) in
  id ←? wrapping (counted i total cname +:+ "create: ") (createContainer cname (new_body image tpl));
  started ← startContainer id;
  match started with
  | inl e => ignoring (removeContainer id) (fail (wrap (counted i total cname +:+ "start: ") e))
  | inr _ =>
      ready ← waitReplicaReady svc id;
      match ready with
      | inl e =>
          let failed := fail (mkFailure (counted i total cname +:+ e_text e) GateFailed) in
          if op_removeOnGateFailure opts then ignoring (stopContainer id) (ignoring (removeContainer id) failed) else failed
      | inr _ => told ← (if op_onReady opts then ask (Refresh proxyURL) else Done tt); ok tt
      end
  end.
(** Then [old] is retired. *)
Definition swap (progress : bool) (svc image : string) (tpl : replaceTemplate) (opts : rollingOpts) (i : nat) (old : container) : prog (result unit) :=
  bring_up svc image tpl opts i ;;?
  ignoring (drainStopRemove old)
    (report progress (S i) (length (rt_tplSet tpl)) (replica_name svc (numbered (rt_startIdx tpl) i)) "healthy, swapped in").
Fixpoint swap_all (progress : bool) (svc image : string) (tpl : replaceTemplate) (opts : rollingOpts) (i : nat) (olds : list container) : prog (result unit) :=
  match olds with
  | [] => ok tt
  | old :: olds => swap progress svc image tpl opts i old ;;? swap_all progress svc image tpl opts (S i) olds
  end.

Definition leftovers (tpl : replaceTemplate) : list container :=
  filter (fun ct => ct_ID ct ∉ ct_ID <$> rt_tplSet tpl) (rt_existing tpl).
Definition rollTemplate (progress : bool) (svc image : string) (tpl : replaceTemplate) (opts : rollingOpts) : prog (result unit) :=
  report progress 0 (length (rt_tplSet tpl)) "" "" ;;?
  swap_all progress svc image tpl opts 0 (rt_tplSet tpl) ;;? (drained ← drainStopRemoveAll (leftovers tpl); ok tt).

Definition guard_overlap (opts : rollingOpts) : rollingOpts :=
  mkOpts (op_pinnedEnv opts) (op_pinnedLabels opts) (op_pinnedHealthcheck opts) true (op_skipPull opts) (op_includeForeign opts)
    (op_unstamp opts) true (op_kind opts).

Definition replaceServiceRolling (progress : bool) (svc : string) (req : ReplaceServiceRequest) (opts : rollingOpts) : prog (result unit) :=
  tpl ←? prepareReplaceTemplate svc req opts;
  overlap ← templateOverlap tpl;
  if decide (op_kind opts = rollingKindRestart /\ overlap = false) then
    fail (text (Quote svc +:+ " is no longer proxy.overlap-enabled " +:+ utf8 8212 +:+ " not restarting by recreate"))
  else if decide (overlap = true /\ op_pinnedEnv opts = None) then
    eff ← effectiveLabels (rt_newLabels tpl);
    Done (refuseUnsafeOverlap svc (rt_clone tpl) eff) ;;? rollTemplate progress svc (rq_Image req) tpl (guard_overlap opts)
  else rollTemplate progress svc (rq_Image req) tpl opts.

Definition rollOverlap (svc image : string) (tpl : replaceTemplate) : prog (result unit) :=
  eff ← effectiveLabels (rt_newLabels tpl);
  Done (refuseUnsafeOverlap svc (rt_clone tpl) eff) ;;?
  rollTemplate false svc image tpl (guard_overlap no_opts) ;;?
  (told ← ask (Refresh proxyURL); ok tt).

(** *** All at once *)

(** What was created so far is removed when one cannot be created or started;
    the one that does not start is not among them. *)
Fixpoint create_all (n : nat) (i : Z) (svc : string) (b : createBody) (newIDs : list string) : prog (result unit) :=
  match n with
  | O => ok tt
  | S n =>
      let cname := replica_name svc i in
      let back e := ignoring (each newIDs (fun id => ignoring (removeContainer id) (ok tt))) (fail e) in
      r ← createContainer cname b;
      match r with
      | inl e => back (wrap ("create " +:+ cname +:+ ": ") e)
      | inr id =>
          s ← startContainer id;
          match s with
          | inl e => back (wrap ("start " +:+ cname +:+ ": ") e)
          | inr _ => create_all n (sint 64 (i + 1)) svc b (newIDs ++ [id])%list
          end
      end
  end.

Definition replaceService (svc : string) (req : ReplaceServiceRequest) : prog (result unit) :=
  tpl ←? prepareReplaceTemplate svc req no_opts;
  overlap ← templateOverlap tpl;
  if (overlap : bool) then rollOverlap svc (rq_Image req) tpl else
  create_all (length (rt_tplSet tpl)) (rt_startIdx tpl) svc (new_body (rq_Image req) tpl) [] ;;?
  (slept ← ask (Sleep replaceSettleDelay);
   drained ← drainStopRemoveAll (rt_existing tpl);
   ok tt).

(** ** Canaries *)

Definition createCanaryReplicas (svc : string) (req : ReplaceServiceRequest) (count : Z) (extraLabels : gmap string string) : prog (result unit) :=
  if decide (rq_Image req = "") then fail (text "image is required") else
  all ←? listAll (by_service svc);
  if decide (canaryOnly all <> []) then fail (text (Quote svc +:+ " already has a canary " +:+ utf8 8212 +:+ " promote or discard it first")) else
  match preferRunning (liveOnly all) with
  | [] => fail (text ("service " +:+ Quote svc +:+ " has no live replicas"))
  | tpl :: _ =>
      tc ←? cloneEnvAndSpec svc tpl;
      env ←? request_env svc tc (rq_Env req) (rq_EnvAck req);
      let labels := extraLabels ∪ <[labelPrevImage := ct_Image tpl]> (<[labelCanary := "true"]> (tc_labels tc)) in
      pulled ← ask (PullImage (rq_Image req));
      create_many (Z.to_nat count) (nextReplicaIndex all svc)
        (if decide (lbl extraLabels labelABVariant <> "") then abCanaryName svc else canary_name svc) "create canary " "start canary "
        (body_of (rq_Image req) labels env (tc_clone tc))
  end.

Definition stageCanary (svc : string) (req : ReplaceServiceRequest) : prog (result unit) :=
  all ←? listAll (by_service svc);
  createCanaryReplicas svc req (Z.of_nat (length (preferRunning (liveOnly all)))) ∅.

Definition greater_name (a b : container) : bool := str_less (ct_name b) (ct_name a).

Definition scaleCanary (svc : string) (target : Z) : prog (result unit) :=
  if decide (target < 0) then fail (text "replicas must be >= 0") else
  all ←? listAll (by_service svc);
  let existing := canaryOnly all in
  match preferRunning existing with
  | [] => fail (text ("service " +:+ Quote svc +:+ " has no canary replicas"))
  | tpl :: _ =>
      let current := Z.of_nat (length existing) in
      if decide (current = target) then ok tt
      else if decide (current < target) then
        tc ←? cloneEnvAndSpec svc tpl;
        create_many (Z.to_nat (target - current)) (nextCanaryReplicaIndex all svc) (canary_name svc) "create canary " "start canary "
          (body_of (ct_Image tpl) (tc_labels tc) (tc_env tc) (tc_clone tc))
      else remove_each (take (Z.to_nat (current - target)) (SliceStable greater_name existing))
  end.

(** A canary staged on another version of its central environment. *)
Definition stale_canary (svc : string) (canary : list container) : prog (result unit) :=
  match canary with
  | first :: _ =>
      if isABCanary canary || negb central then ok tt else
      m ← ask (CentralManaged svc (ct_Labels first));
      if negb m then ok tt else
      v ← ask (CentralVersion svc);
      match v with
      | None => ok tt
      | Some cur => each canary (fun ct =>
          let at_ := lbl (ct_Labels ct) labelEnvVersion in
          if decide (at_ = FormatInt cur) then ok tt else
          fail (centrally svc ("its canary was staged on central env v" +:+ at_ +:+ " but the current version is v" +:+ FormatInt cur +:+
                               " " +:+ utf8 8212 +:+ " discard and restage it")))
      end
  | [] => ok tt
  end.

(** A new container as the code appends it to the list it numbers from. *)
Definition just_named (id cname : string) : container := mkCt id ["/" +:+ cname] "" "" "" ∅ ∅.

Fixpoint promote_each (svc : string) (ab : bool) (all canary : list container) : prog (result unit) :=
  match canary with
  | [] => ok tt
  | ct :: canary =>
      tc ←? (if ab then cloneOwnEnvAndSpec ct_name ct else cloneEnvAndSpec svc ct);
      let labels := delete labelCanary (without_prefix labelABPrefix (tc_labels tc)) in
      let cname := replica_name svc (nextReplicaIndex all svc) in
      id ←? create_start cname "create promoted " "start promoted " (body_of (ct_Image ct) labels (tc_env tc) (tc_clone tc));
      ignoring (drainStopRemove ct) (promote_each svc ab (all ++ [just_named id cname])%list canary)
  end.

Definition promoteCanary (svc : string) : prog (result unit) :=
  all ←? listAll (by_service svc);
  let canary := canaryOnly all in
  if decide (canary = []) then fail (text ("no canary to promote for " +:+ Quote svc)) else
  stale_canary svc canary ;;?
  wrapping ("promote " +:+ svc +:+ ": ") (waitForCanaryHealthy svc) ;;?
  promote_each svc (isABCanary canary) all canary ;;?
  (drained ← drainStopRemoveAll (liveOnly all); ok tt).

Definition discardCanary (svc : string) : prog (result unit) :=
  all ←? listAll (by_service svc);
  let canary := canaryOnly all in
  if decide (canary = []) then fail (text ("no canary to discard for " +:+ Quote svc)) else
  drained ← drainStopRemoveAll canary; Done (first_error drained).

(** How many were removed, and the first error. *)
Definition deleteService (svc : string) : prog (Z * result unit) :=
  r ← listAll (by_service svc);
  match r with
  | inl e => Done (0, inl e)
  | inr existing =>
      drained ← drainStopRemoveAll existing;
      Done (Z.of_nat (length (omap (fun x => match snd x with inr _ => Some tt | inl _ => None end) drained)), first_error drained)
  end.
End services.
