(* ===== verification/Rolling.v ===== *)
(** * Replacing a service one replica at a time keeps its capacity

    The rolling replace of [Services], run against any world in which Docker
    gives new containers new ids and the clock does not go back: it ends, and at
    every moment as many containers serve as did when it began. *)
From S2P Require Import Prelude GoString Duration Http Sha256 Json Url Balancer AuthGate Labels LabelOverlay Docker Clone Services.
Open Scope string_scope.

#[local] Opaque ManagedKeys Managed overlay_keys.

(** Docker's ids and the clock are as documented, and a listing fits a slice. *)
Definition lawful (h : history) (e : event) : Prop :=
  daemon_ids h e /\ clock_law h e /\ match e with Ev (ListAll _) (Did cts) => Z.of_nat (length cts) <= maxInt64 | _ => True end.

Lemma numbered_inj s j k : Z.of_nat j <= maxInt64 -> Z.of_nat k <= maxInt64 -> numbered s j = numbered s k -> j = k.
Proof.
  unfold numbered, sint, maxInt64. intros Hj Hk E. set (c := 2 ^ (64 - 1)) in *. assert (c = 9223372036854775808) by done.
  assert (Hm : (s + Z.of_nat j + c) mod 2 ^ 64 = (s + Z.of_nat k + c) mod 2 ^ 64) by lia.
  apply Z.cong_iff_0 in Hm. replace (s + Z.of_nat j + c - (s + Z.of_nat k + c)) with (Z.of_nat j - Z.of_nat k) in Hm by lia.
  apply Z.mod_divide in Hm as [q Hq]; [|done]. change (2 ^ 64) with 18446744073709551616 in Hq. change (2 ^ 63) with c in *. nia.
Qed.
Lemma numbered_range s i : minInt64 <= numbered s i <= maxInt64.
Proof. pose proof (sint_range 64 (s + Z.of_nat i) eq_refl) as Hr. unfold numbered, minInt64, maxInt64. set (c := 2 ^ (64 - 1)) in *. lia. Qed.
Lemma replica_name_inj svc m n : minInt64 <= m <= maxInt64 -> minInt64 <= n <= maxInt64 -> replica_name svc m = replica_name svc n -> m = n.
Proof.
  intros Hm Hn E. unfold replica_name in E. repeat apply (inj (String.append _)) in E.
  apply (f_equal ParseInt) in E. rewrite !ParseInt_FormatInt in E by done. congruence.
Qed.

(** ** A rolling replace keeps its capacity *)

(** A successor of the [j]-th replica: made for it, proven, and not retired. *)
Definition successor (svc image : string) (tpl : replaceTemplate) (j : nat) (h : history) (id : string) : Prop :=
  created_as h (replica_name svc (numbered (rt_startIdx tpl) j)) image id /\ proven h id /\ id ∉ retired_ids h.
(** Every replica of the template serves, or its successor does. *)
Definition covered (svc image : string) (tpl : replaceTemplate) (h : history) : Prop :=
  forall j old, rt_tplSet tpl !! j = Some old -> ct_ID old ∈ retired_ids h -> exists new, successor svc image tpl j h new.

Section rolling.
Context `{MapRange} (has_labels central : bool) (proxyURL svc image : string) (tpl : replaceTemplate).
Context (Hsub : rt_tplSet tpl ⊆ rt_existing tpl) (Hnd : NoDup (ct_ID <$> rt_tplSet tpl)).
(** Containers known from the start that the replace is not about. *)
Context (others : list string) (Hothers : forall id, id ∈ others -> id ∉ ct_ID <$> rt_existing tpl).
Notation existing_ids := (ct_ID <$> rt_existing tpl).
Notation W := lawful.

(** The first [i] are replaced, the others untouched. *)
Record swapped (i : nat) (h : history) : Prop := {
  sw_known : forall id, id ∈ existing_ids \/ id ∈ others -> id ∈ known h;
  sw_done : forall j old, (j < i)%nat -> rt_tplSet tpl !! j = Some old -> exists new, successor svc image tpl j h new /\ new ∉ existing_ids;
  sw_todo : forall j old, (i <= j)%nat -> rt_tplSet tpl !! j = Some old -> ct_ID old ∉ retired_ids h;
  sw_others : forall id, id ∈ others -> id ∉ retired_ids h;
}.
Definition fine (h : history) : Prop := covered svc image tpl h /\ forall id, id ∈ others -> id ∉ retired_ids h.

Lemma swapped_fine i h : swapped i h -> fine h.
Proof.
  intros Hs. split; [|by apply Hs]. intros j old Hj Hr. destruct (decide (j < i)%nat) as [Hlt|Hge].
  - destruct (sw_done _ _ Hs j old Hlt Hj) as (new & ? & _). by exists new.
  - by destruct (sw_todo _ _ Hs j old ltac:(lia) Hj).
Qed.

Lemma successor_grows P j h h' new : grows P h h' -> (forall r, P r -> retired r <> Some new) -> successor svc image tpl j h new -> successor svc image tpl j h' new.
Proof.
  intros Hg HP (Hc & Hp & Hr). split_and!; [by eapply created_grows|by eapply proven_grows|].
  intros Hin. by eapply Hr, retired_ids_grows.
Qed.

Lemma existing_of j old : rt_tplSet tpl !! j = Some old -> ct_ID old ∈ existing_ids.
Proof. intros Hj. apply list_elem_of_fmap_2, Hsub. by eapply list_elem_of_lookup_2. Qed.

(** Retirements of containers not known at [h] change nothing. *)
Lemma swapped_grows i h h' : swapped i h -> grows (spares_known h) h h' -> swapped i h'.
Proof.
  intros [Hk Hd Ht Hot] Hg. split.
  - intros id ?. eapply known_grows; eauto.
  - intros j old Hj Ho. destruct (Hd j old Hj Ho) as (new & Hs & ?). exists new. split; [|done].
    eapply successor_grows; [exact Hg| |exact Hs]. intros r HP Hrn. apply (HP new Hrn). destruct Hs as (Hc & _). by eapply created_known.
  - intros j old Hj Ho Hin. apply (Ht j old Hj Ho). eapply retired_ids_grows; [exact Hg| |exact Hin].
    intros r HP Hrn. apply (HP _ Hrn), Hk. left. by eapply existing_of.
  - intros id Hid Hin. apply (Hot id Hid). eapply retired_ids_grows; [exact Hg| |exact Hin]. intros r HP Hrn. apply (HP _ Hrn), Hk. by right.
Qed.

Lemma swapped_S i h h' old : swapped i h -> rt_tplSet tpl !! i = Some old ->
  (exists new, successor svc image tpl i h new /\ new ∉ existing_ids) -> grows (spares (ct_ID old)) h h' -> swapped (S i) h'.
Proof.
  intros [Hk Hd Ht Hot] Ho (new & Hs & Hne) Hg. pose proof (existing_of _ _ Ho) as Hex.
  assert (Hkeep : forall id, id ∉ existing_ids -> forall r, spares (ct_ID old) r -> retired r <> Some id).
  { intros id Hid r Hsp Hrn. apply Hsp in Hrn as ->. by apply Hid. }
  split.
  - intros id ?. eapply known_grows; eauto.
  - intros j oldj Hj Hoj. destruct (decide (j < i)%nat) as [Hlt|Hge].
    + destruct (Hd j oldj Hlt Hoj) as (newj & Hsj & Hnj). exists newj. split; [|done]. eapply successor_grows; eauto.
    + replace j with i by lia. exists new. split; [|done]. eapply successor_grows; eauto.
  - intros j oldj Hj Hoj Hin. apply (Ht j oldj ltac:(lia) Hoj). eapply retired_ids_grows; [exact Hg| |exact Hin].
    intros r Hsp Hrn. apply Hsp in Hrn. assert (j = i); [|lia].
    eapply NoDup_lookup; [exact Hnd| |]; rewrite list_lookup_fmap; [by rewrite Hoj|rewrite Ho; cbn; by rewrite Hrn].
  - intros id Hid Hin. apply (Hot id Hid). eapply retired_ids_grows; [exact Hg| |exact Hin]. apply Hkeep. by apply Hothers.
Qed.

(** What is asked of a swap: at every moment the capacity is there. *)
Definition keeps (h : history) (r : request) : Prop := forall a : answer r, fine (Ev r a :: h).

(** The retired are known. *)
Definition accounted (h : history) : Prop := forall id, id ∈ retired_ids h -> id ∈ known h.

Lemma wp_stage {A} i h (p : prog A) Q :
  swapped i h -> wp W (fun _ => spares_known h) p Q h ->
  wp W keeps p (fun r h' => swapped i h' /\ Q r h') h.
Proof.
  intros Hs Hp. eapply wp_mono; [eapply wp_weaken; [apply wp_grows, Hp| |done]|].
  - intros h' r [Hg Hr] a. eapply swapped_fine, swapped_grows; [exact Hs|]. eapply grows_trans; [exact Hg|]. by apply grows_step.
  - intros r h' [Hg HQ]. split; [|done]. by eapply swapped_grows.
Qed.

Notation bring_up := (bring_up has_labels proxyURL svc image tpl).
Notation cname i := (replica_name svc (numbered (rt_startIdx tpl) i)).

Lemma wp_reads {A} (p : prog A) h0 Q h : only reads p -> wp W (fun _ => reads) p Q h -> wp W (fun _ => spares_known h0) p (fun a h' => grows retires_none h h' /\ Q a h') h.
Proof.
  intros Ho Hp. eapply wp_mono; [eapply wp_weaken; [apply wp_grows, Hp| |done]|].
  - intros h' r [_ Hr] x Hx. by rewrite (reads_none r Hr) in Hx.
  - intros a h' [Hg HQ]. split; [|done]. eapply grows_mono; [apply reads_none|exact Hg].
Qed.

Lemma wp_bring_up opts i h :
  wp W (fun _ => spares_known h) (bring_up opts i)
    (fun r h' => r = inr tt -> exists id, created_as h' (cname i) image id /\ id ∉ known h /\ proven h' id /\ grows retires_none h h') h.
Proof.
  cbv beta delta [bring_up]. apply wp_bind_ok, wp_wrapping. eapply wp_mono; [apply wp_create; by intros ? ? []|].
  intros [e|id] h1 Hc; [done|]. destruct (Hc id eq_refl) as (Hcr%made_created & Hnew & Hg1). apply wp_bind, wp_ask_bind; [by intros x|]. intros a _. cbn [wp].
  set (h2 := Ev _ a :: h1). assert (Hg2 : grows retires_none h h2) by (eapply grows_trans; [exact Hg1|by apply grows_step]).
  destruct (tolerating _) as [e|u].
  { apply wp_ignoring, wp_ask_bind; [by intros x [= <-]|]. by intros a' _. }
  apply wp_bind. eapply wp_mono; [apply wp_reads; [apply waitReplicaReady_reads|apply wp_waitReady]|].
  intros [e|[]] h3 [Hg3 [_ Hp]].
  { destruct (op_removeOnGateFailure opts); [|done]. apply wp_ignoring, wp_ask_bind; [by intros x [= <-]|]. intros a2 _.
    apply wp_ignoring, wp_ask_bind; [by intros x [= <-]|]. by intros a3 _. }
  specialize (Hp eq_refl).
  assert (Hend : forall h4, grows retires_none h3 h4 -> exists id, created_as h4 (cname i) image id /\ id ∉ known h /\ proven h4 id /\ grows retires_none h h4).
  { intros h4 Hg4. exists id. assert (Hg24 : grows retires_none h2 h4) by (by eapply grows_trans).
    split_and!; [|done|by eapply proven_grows; [exact Hg4|]|by eapply grows_trans; [exact Hg2|]].
    eapply created_grows; [exact Hg24|]. eapply created_grows; [|exact Hcr]. by apply (grows_step retires_none). }
  destruct (op_onReady opts); apply wp_bind.
  - apply wp_ask; [by intros x|]. intros [] _ _. apply Hend. by apply grows_step.
  - intros _. apply Hend, grows_refl.
Qed.

Lemma wp_swap progress opts i old h :
  swapped i h -> accounted h -> rt_tplSet tpl !! i = Some old ->
  wp W keeps (swap has_labels proxyURL progress svc image tpl opts i old)
    (fun r h' => fine h' /\ (r = inr tt -> swapped (S i) h' /\ accounted h' /\ ct_ID old ∈ retired_ids h')) h.
Proof.
  intros Hs Ha Ho. unfold swap. apply wp_bind_ok. eapply wp_mono; [apply (wp_stage i), wp_bring_up; done|].
  intros [e|[]] h1 [Hs1 Hb]; [split; [by eapply swapped_fine|done]|].
  destruct (Hb eq_refl) as (id & Hc & Hnew & Hp & Hg).
  assert (Hsucc : exists new, successor svc image tpl i h1 new /\ new ∉ existing_ids).
  { exists id. split; [split_and!; [done|done|]|intros Hin; by apply Hnew, (sw_known _ _ Hs); left].
    intros Hin. apply Hnew, Ha. eapply retired_ids_grows; [exact Hg|by intros r ->|exact Hin]. }
  assert (Ha1 : accounted h1).
  { intros x Hx. eapply known_grows; [exact Hg|]. apply Ha. eapply retired_ids_grows; [exact Hg|by intros r ->|exact Hx]. }
  set (P := spares (ct_ID old)).
  assert (HP : wp W (fun _ => P) (ignoring (Docker.drainStopRemove has_labels old) (report progress (S i) (length (rt_tplSet tpl)) (cname i) "healthy, swapped in"))
                 (fun _ h' => ct_ID old ∈ retired_ids h') h1).
  { apply wp_ignoring. eapply wp_mono; [apply wp_drain|]. intros _ h' [_ Hin].
    assert (Ho' : only P (report progress (S i) (length (rt_tplSet tpl)) (cname i) "healthy, swapped in")) by (apply only_bind; [by destruct progress|done]).
    eapply wp_mono; [by apply wp_only|]. intros r2 h2 Hg2. by eapply retired_mono; [exact Hg2|]. }
  assert (Hall : forall h', grows P h1 h' -> swapped (S i) h') by (intros h' Hg'; by apply (swapped_S i h1 _ old)).
  eapply wp_mono; [eapply wp_weaken; [apply wp_grows, HP| |done]|].
  - intros h' r [Hg' Hr] a. eapply swapped_fine, Hall. eapply grows_trans; [exact Hg'|]. by apply grows_step.
  - intros r h' [Hg' Hin]. pose proof (Hall h' Hg') as HS. split; [by eapply swapped_fine|]. intros _. split_and!; [done| |done].
    intros x Hx. destruct (decide (x = ct_ID old)) as [->|Hne]; [eapply sw_known; [exact HS|left; by eapply existing_of]|].
    eapply known_grows; [exact Hg'|]. apply Ha1. eapply retired_ids_grows; [exact Hg'| |exact Hx]. intros r' HPr Hrx. by apply HPr in Hrx.
Qed.

Lemma wp_swap_all progress opts i h :
  swapped i h -> accounted h ->
  wp W keeps (swap_all has_labels proxyURL progress svc image tpl opts i (drop i (rt_tplSet tpl)))
    (fun r h' => fine h' /\ (r = inr tt -> swapped (length (rt_tplSet tpl)) h' /\ accounted h' /\
       forall j old, (i <= j)%nat -> rt_tplSet tpl !! j = Some old -> ct_ID old ∈ retired_ids h')) h.
Proof.
  remember (drop i (rt_tplSet tpl)) as olds eqn:Ho. revert i h Ho. induction olds as [|old olds IH]; intros i h Ho Hs Ha.
  { cbn [swap_all wp ok]. split; [by eapply swapped_fine|]. intros _.
    assert (length (rt_tplSet tpl) <= i)%nat by (apply (f_equal length) in Ho; rewrite length_drop in Ho; cbn in Ho; lia).
    split_and!; [|done|intros j o Hj Hoj; apply lookup_lt_Some in Hoj; lia]. destruct Hs as [Hk Hd Ht Hot]. split; [done| | |done].
    - intros j o Hj Hoj. apply (Hd j o); [lia|done].
    - intros j o Hj Hoj. apply lookup_lt_Some in Hoj. lia. }
  assert (Hi : rt_tplSet tpl !! i = Some old) by (rewrite <- (Nat.add_0_r i), <- lookup_drop, <- Ho; done).
  cbn [swap_all]. apply wp_bind_ok. eapply wp_mono; [by apply wp_swap|]. intros [e|[]] h' [Hc Hr]; [done|].
  destruct (Hr eq_refl) as (HS & HA & Hin).
  eapply wp_mono; [apply wp_extends, IH; [|done|done]; rewrite <- Nat.add_1_r, <- drop_drop, <- Ho; done|].
  intros r h2 (Hg & Hc2 & Hr2). split; [done|]. intros ->. destruct (Hr2 eq_refl) as (? & ? & Hrest). split_and!; [done|done|].
  intros j o Hj Hoj. destruct (decide (j = i)) as [->|]; [|apply (Hrest j o); [lia|done]].
  rewrite Hi in Hoj. injection Hoj as <-. by eapply retired_mono.
Qed.

(** The leftovers of the template were not serving; they are retired last. *)
Lemma leftovers_existing x : x ∈ ct_ID <$> leftovers tpl -> x ∈ existing_ids /\ x ∉ ct_ID <$> rt_tplSet tpl.
Proof.
  intros (ct & -> & Hct)%list_elem_of_fmap. apply list_elem_of_filter in Hct as [Hn Hct]. split; [by apply list_elem_of_fmap_2|done].
Qed.

Lemma wp_roll progress opts h :
  swapped 0 h -> accounted h ->
  wp W keeps (rollTemplate has_labels proxyURL progress svc image tpl opts)
    (fun r h' => fine h' /\ (r = inr tt -> forall j old, rt_tplSet tpl !! j = Some old -> ct_ID old ∈ retired_ids h' /\ exists new, successor svc image tpl j h' new)) h.
Proof.
  intros Hs Ha. unfold rollTemplate. apply wp_bind_ok.
  assert (Hrep : only reads (report progress 0 (length (rt_tplSet tpl)) "" "")) by (by destruct progress).
  eapply wp_mono; [apply (wp_stage 0); [done|]; apply wp_reads; [exact Hrep|by apply wp_only]|].
  intros [e|[]] h1 [Hs1 [Hg _]]; [split; [by eapply swapped_fine|done]|]. apply wp_bind_ok.
  assert (Ha1 : accounted h1).
  { intros x Hx. eapply known_grows; [exact Hg|]. apply Ha. eapply retired_ids_grows; [exact Hg|by intros r ->|exact Hx]. }
  eapply wp_mono; [by apply (wp_swap_all progress opts 0)|]. intros [e|[]] h2 [Hc Hr]; [done|]. destruct (Hr eq_refl) as (HS & HA & Hin).
  set (P := fun r => forall x, retired r = Some x -> x ∈ ct_ID <$> leftovers tpl).
  assert (Hall : forall h', grows P h2 h' -> swapped (length (rt_tplSet tpl)) h').
  { intros h' Hg'. destruct HS as [Hk Hd Ht Hot]. split.
    - intros id ?. eapply known_grows; [exact Hg'|by apply Hk].
    - intros j o Hj Hoj. destruct (Hd j o Hj Hoj) as (new & Hsn & Hne). exists new. split; [|done]. eapply successor_grows; [exact Hg'| |exact Hsn].
      intros r HP Hrn. apply HP, leftovers_existing in Hrn. tauto.
    - intros j o Hj Hoj. apply lookup_lt_Some in Hoj. lia.
    - intros id Hid Hin'. apply (Hot id Hid). eapply retired_ids_grows; [exact Hg'| |exact Hin'].
      intros r HP Hrn. apply HP, leftovers_existing in Hrn as [? _]. by apply (Hothers id). }
  apply wp_bind. eapply wp_mono; [eapply wp_weaken; [apply wp_grows, wp_only, drainAll_spares| |done]|].
  - intros h' r [Hg' Hrr] a. eapply swapped_fine, Hall. eapply grows_trans; [exact Hg'|]. by apply grows_step.
  - intros r h' [Hg' _]. pose proof (Hall h' Hg') as HS'. cbn. split; [by eapply swapped_fine|]. intros _ j old Hj.
    split; [eapply retired_mono; [exact Hg'|]; apply (Hin j); [lia|done]|].
    destruct (sw_done _ _ HS' j old) as (new & ? & _); [by eapply lookup_lt_Some|done|by exists new].
Qed.
End rolling.

(** ** The whole operation *)

Section replace.
Context `{MapRange} (has_labels central : bool) (proxyURL svc : string) (progress : bool) (req : ReplaceServiceRequest) (opts : rollingOpts).

(** The live members a replace is about: those that are no canaries and, when it
    pins an environment and is not to include foreign ones, carry the label of
    one. Those that serve: the running ones, or all of them if none runs. *)
Definition selected (all : list container) : list container :=
  filter (fun ct => lbl (ct_Labels ct) "proxy.canary" <> "true" /\
            (op_pinnedEnv opts <> None /\ op_includeForeign opts = false -> lbl (ct_Labels ct) "pmgr.env.origin" <> "")) all.
Definition serving (all : list container) : list container :=
  if existsb (fun ct => bool_decide (ct_State ct = "running")) (selected all)
  then filter (fun ct => ct_State ct = "running") (selected all) else selected all.

Lemma selected_code all :
  (if decide (op_pinnedEnv opts <> None /\ op_includeForeign opts = false) then stamped (liveOnly all) else liveOnly all) = selected all.
Proof.
  assert (Hc : forall ct, is_canary ct = false <-> lbl (ct_Labels ct) "proxy.canary" <> "true") by (intros; apply bool_decide_eq_false).
  unfold selected, stamped, liveOnly. case_decide as Hd.
  - rewrite list_filter_filter. apply list_filter_iff. intros ct. rewrite Hc. tauto.
  - apply list_filter_iff. intros ct. rewrite Hc. tauto.
Qed.
Lemma serving_code all : preferRunning (selected all) = serving all.
Proof.
  unfold preferRunning, serving, runningOnly. set (l := selected all).
  assert (Hf : existsb (fun ct => bool_decide (ct_State ct = "running")) l = negb (bool_decide (filter (fun ct => ct_State ct = "running") l = []))).
  { clearbody l. clear. induction l as [|ct l IH]; [done|]. cbn [existsb]. rewrite filter_cons, IH. case_decide as Hs.
    - rewrite (bool_decide_true (ct_State ct = "running")) by done. by rewrite (bool_decide_false (_ :: _ = [])).
    - by rewrite (bool_decide_false (ct_State ct = "running")). }
  rewrite Hf. destruct (filter _ l) eqn:E; [by rewrite bool_decide_true|]. rewrite bool_decide_false by done. by rewrite <- E.
Qed.

Lemma selected_sub all : selected all ⊆ all.
Proof. intros ct Hct. by apply list_elem_of_filter in Hct as [_ ?]. Qed.
Lemma preferRunning_sub l : preferRunning l ⊆ l.
Proof.
  unfold preferRunning, runningOnly. destruct (filter _ l) eqn:Hf; [done|]. rewrite <- Hf. intros x Hx. by apply list_elem_of_filter in Hx as [_ ?].
Qed.
Lemma preferRunning_sublist l : preferRunning l `sublist_of` l.
Proof. unfold preferRunning. destruct (runningOnly l) eqn:Hf; [done|]. rewrite <- Hf. apply sublist_filter. Qed.
Lemma selected_sublist all : selected all `sublist_of` all.
Proof. apply sublist_filter. Qed.
Lemma serving_sub all : serving all ⊆ all.
Proof. rewrite <- serving_code. etrans; [apply preferRunning_sub|apply selected_sub]. Qed.
Lemma serving_sublist all : serving all `sublist_of` all.
Proof. rewrite <- serving_code. etrans; [apply preferRunning_sublist|apply selected_sublist]. Qed.

Lemma clone_reads who ct : only reads (cloneOwnEnvAndSpec who ct).
Proof. unfold cloneOwnEnvAndSpec, inspectEnv, inspectCloneSpec. only_with ltac:(apply inspect_reads). Qed.
Lemma cloneEnv_reads s tpl : only reads (cloneEnvAndSpec central s tpl).
Proof.
  unfold cloneEnvAndSpec, central_enabled, inspectCloneSpec. only_with ltac:(first [apply clone_reads|apply inspect_reads]).
Qed.
Lemma resolve_reads s l r1 r2 : only reads (resolve_refs s l r1 r2).
Proof. revert r1 r2. induction l as [|[k v] l IH]; intros r1 r2; [done|]. cbn [resolve_refs]. only_with ltac:(apply IH). Qed.
Lemma request_env_reads s tc edits ack : only reads (request_env s tc edits ack).
Proof. unfold request_env, edited_env, resolveSecretRefs. only_with ltac:(apply resolve_reads). Qed.
Lemma unknowns_reads id : only reads (inspectHostConfigUnknowns id).
Proof. unfold inspectHostConfigUnknowns. only_with ltac:(apply inspect_reads). Qed.
Lemma replacement_reads tpl : only reads (replacement central svc tpl req opts).
Proof. unfold replacement, inspectCloneSpec. only_with ltac:(first [apply cloneEnv_reads|apply inspect_reads]). Qed.
Lemma prepare_reads : only reads (prepareReplaceTemplate central svc req opts).
Proof.
  unfold prepareReplaceTemplate.
  only_with ltac:(first [apply listAll_reads|apply replacement_reads|apply request_env_reads|apply unknowns_reads]).
Qed.

(** The template is made of the first listing. *)
Definition template_of (all : list container) (tpl : replaceTemplate) : Prop :=
  rt_existing tpl = selected all /\ rt_tplSet tpl = serving all /\ rt_startIdx tpl = nextReplicaIndex (selected all) svc.

Lemma wp_prepare h :
  wp lawful (fun _ => reads) (prepareReplaceTemplate central svc req opts)
    (fun r h' => forall tpl, r = inr tpl -> exists l all,
       h' = (l ++ Ev (ListAll (by_service svc)) (Did all) :: h)%list /\ NoDup (ct_ID <$> all) /\ template_of all tpl) h.
Proof.
  pose proof prepare_reads as Hall. revert Hall. unfold prepareReplaceTemplate. case_decide; [done|]. unfold listAll. intros Hall.
  apply wp_bind_ok, wp_bind, wp_ask_bind; [done|]. intros a Ha. cbn [wp]. set (h0 := Ev _ a :: h).
  destruct (do_ (ListAll (by_service svc)) a) as [e|all] eqn:Hd; [done|]. apply do_Did in Hd as ->. destruct Ha as [Hids _].
  rewrite selected_code. destruct (preferRunning (selected all)) as [|tpl rest] eqn:Hpr; [done|].
  match goal with |- wp _ _ ?p _ _ => assert (Hp : only reads p) end.
  { clear Hall. only_with ltac:(first [apply listAll_reads|apply replacement_reads|apply request_env_reads|apply unknowns_reads]). }
  match goal with |- wp _ _ ?p _ _ => assert (Hr : wp lawful (fun _ _ => True) p (fun r h' => forall t, r = inr t -> template_of all t) h0) end.
  { apply wp_bind_ok. eapply wp_mono; [apply wp_any|]. intros [e|[]] h1 _; [done|]. apply wp_bind_ok. eapply wp_mono; [apply wp_any|].
    intros [e|tc] h2 _; [done|]. apply wp_bind_ok. eapply wp_mono; [apply wp_any|]. intros [e|env] h3 _; [done|]. apply wp_bind.
    eapply wp_mono; [apply wp_any|]. intros u h4 _. cbn [wp ok]. intros t [= <-]. split_and!; [done|by rewrite <- serving_code|done]. }
  eapply wp_mono; [apply wp_kind; [exact Hp|exact Hr]|]. intros r h' [(l & -> & _) HQ].
  intros t Ht. exists l, all. split_and!; [done|exact Hids|by apply HQ].
Qed.

(** At every moment as many distinct containers serve as did at the first
    listing: those themselves, or new ones that have been proven. *)
Definition capacity (h : history) : Prop := forall l all,
  h = (l ++ [Ev (ListAll (by_service svc)) (Did all)])%list ->
  exists ids, NoDup ids /\ length ids = length (serving all) /\
    forall id, id ∈ ids -> id ∉ retired_ids h /\
      (id ∈ ct_ID <$> serving all \/ (exists n, created_as h (replica_name svc n) (rq_Image req) id) /\ proven h id).

Lemma choose_list {A B} (R : nat -> A -> B -> Prop) (l : list A) :
  (forall j x, l !! j = Some x -> exists y, R j x y) ->
  exists l' : list B, length l' = length l /\ forall j x y, l !! j = Some x -> l' !! j = Some y -> R j x y.
Proof.
  revert R. induction l as [|x l IH]; intros R HR; [by exists []|].
  destruct (HR 0%nat x eq_refl) as [y Hy]. destruct (IH (fun j => R (S j))) as (l' & Hlen & Hl'); [intros j; apply (HR (S j))|].
  exists (y :: l'). split; [cbn; by rewrite Hlen|]. intros [|j] x' y'; cbn; [by intros [= <-] [= <-]|apply Hl'].
Qed.

Lemma created_once h c1 i1 c2 i2 id : happened lawful h -> created_as h c1 i1 id -> created_as h c2 i2 id -> c1 = c2.
Proof.
  induction h as [|e h IH]; [by intros _ (? & _ & ?%not_elem_of_nil)|]. intros [[Hids _] Hh] (b1 & Hb1 & H1) (b2 & Hb2 & H2).
  apply elem_of_cons in H1, H2. destruct H1 as [<-|H1], H2 as [E|H2].
  - by injection E.
  - destruct Hids. apply (created_known h c2 i2). by exists b2.
  - subst e. destruct Hids. apply (created_known h c1 i1). by exists b1.
  - apply IH; [done|by exists b1|by exists b2].
Qed.
Lemma created_fresh l f all c i id :
  happened lawful (l ++ [Ev (ListAll f) (Did all)])%list -> created_as (l ++ [Ev (ListAll f) (Did all)])%list c i id -> id ∉ ct_ID <$> all.
Proof.
  induction l as [|e l IH]; cbn [app].
  { intros _ (b & _ & Hb). apply list_elem_of_singleton in Hb. by simplify_eq. }
  intros [[Hids _] Hh] (b & Hb & Hin). apply elem_of_cons in Hin as [<-|Hin]; [|by apply IH; [|exists b]].
  intros Hall. apply Hids. unfold known. rewrite bind_app. apply elem_of_app. right. cbn. by rewrite app_nil_r.
Qed.

Lemma listing_inj f all all' : [Ev (ListAll f) (Did all)] = [Ev (ListAll f) (Did all')] -> all = all'.
Proof.
  intros E. pose (g := fun e => match e with Ev (ListAll _) (Did cts) => Some cts | _ => None end).
  apply (f_equal (fun l => head l ≫= g)) in E. cbn in E. by injection E.
Qed.

Lemma covered_capacity h all l tpl :
  h = (l ++ [Ev (ListAll (by_service svc)) (Did all)])%list -> happened lawful h -> template_of all tpl ->
  covered svc (rq_Image req) tpl h -> capacity h.
Proof.
  intros -> Hh (_ & Hset & Hidx) Hc l' all' Heq. apply app_inj_2 in Heq as [-> Heq]; [|done].
  assert (all = all') as -> by (by apply listing_inj in Heq).
  set (h := (l' ++ [Ev (ListAll (by_service svc)) (Did all')])%list) in *.
  set (R := fun (j : nat) (old : container) (id : string) => id ∉ retired_ids h /\
    (id = ct_ID old \/ created_as h (replica_name svc (numbered (rt_startIdx tpl) j)) (rq_Image req) id /\ proven h id)).
  destruct (choose_list R (serving all')) as (ids & Hlen & HR).
  { intros j old Hj. destruct (decide (ct_ID old ∈ retired_ids h)) as [Hin|Hout].
    - rewrite <- Hset in Hj. destruct (Hc j old Hj Hin) as (new & ? & ? & ?). exists new. split; [done|by right].
    - exists (ct_ID old). split; [done|by left]. }
  pose proof (happened_split _ _ l' _ [] Hh eq_refl) as (Hids & _ & Hlen').
  assert (Hnd : NoDup (ct_ID <$> serving all')).
  { eapply sublist_NoDup; [|apply fmap_sublist; apply serving_sublist].
    exact Hids. }
  assert (Hfew : Z.of_nat (length (serving all')) <= maxInt64).
  { etrans; [|exact Hlen']. apply Nat2Z.inj_le, sublist_length. apply serving_sublist. }
  assert (Hold : forall k old, serving all' !! k = Some old -> forall c i, ~ created_as h c i (ct_ID old)).
  { intros k old Hk c i Hcr. apply (created_fresh _ _ _ _ _ _ Hh Hcr). apply list_elem_of_fmap_2.
    eapply serving_sub, list_elem_of_lookup_2. exact Hk. }
  exists ids. split_and!; [|done|].
  - apply NoDup_alt. intros j k id Hj Hk.
    assert (Hx : exists x, serving all' !! j = Some x) by (apply lookup_lt_is_Some_2; rewrite <- Hlen; by eapply lookup_lt_Some).
    assert (Hy : exists y, serving all' !! k = Some y) by (apply lookup_lt_is_Some_2; rewrite <- Hlen; by eapply lookup_lt_Some).
    destruct Hx as [x Hx], Hy as [y Hy]. destruct (HR j x id Hx Hj) as [_ [->|[Hcj _]]], (HR k y _ Hy Hk) as [_ [E|[Hck _]]].
    + eapply NoDup_lookup; [exact Hnd| |]; rewrite list_lookup_fmap; [by rewrite Hx|rewrite Hy; cbn; by rewrite <- E].
    + by destruct (Hold j x Hx _ _ Hck).
    + subst id. by destruct (Hold k y Hy _ _ Hcj).
    + pose proof (created_once h _ _ _ _ _ Hh Hcj Hck) as Hn. apply replica_name_inj in Hn; [|apply numbered_range|apply numbered_range].
      apply lookup_lt_Some in Hx, Hy. apply numbered_inj in Hn; [done|lia|lia].
  - intros id [j Hj]%list_elem_of_lookup.
    assert (Hx : exists x, serving all' !! j = Some x) by (apply lookup_lt_is_Some_2; rewrite <- Hlen; by eapply lookup_lt_Some).
    destruct Hx as [x Hx]. destruct (HR j x id Hx Hj) as [Hn [->|[? ?]]]; (split; [done|]).
    + left. by apply list_elem_of_fmap_2, (list_elem_of_lookup_2 _ j).
    + right. split; [by eexists|done].
Qed.

(** The other members of the service, its canaries among them, are left alone. *)
Definition untouched (h : history) : Prop := forall l all,
  h = (l ++ [Ev (ListAll (by_service svc)) (Did all)])%list ->
  forall id, id ∈ ct_ID <$> all -> id ∉ ct_ID <$> selected all -> id ∉ retired_ids h.
(** All that served are retired. *)
Definition renewed (h : history) : Prop := forall l all,
  h = (l ++ [Ev (ListAll (by_service svc)) (Did all)])%list -> forall id, id ∈ ct_ID <$> serving all -> id ∈ retired_ids h.

(** What is kept at every moment. *)
Definition kept (h : history) : Prop := happened lawful h -> capacity h /\ untouched h.
Definition keeps_all (h : history) (r : request) : Prop := forall a : answer r, kept (Ev r a :: h).

Lemma idle_kept h : retired_ids h = [] -> kept h.
Proof.
  intros Hr Hh. split; intros l all ->; [|intros id _ _; rewrite Hr; apply not_elem_of_nil].
  pose proof (happened_split _ _ l _ [] Hh eq_refl) as (Hids & _). exists (ct_ID <$> serving all). split_and!.
  - eapply sublist_NoDup; [exact Hids|apply fmap_sublist]. apply serving_sublist.
  - apply length_fmap.
  - intros id Hid. rewrite Hr. split; [apply not_elem_of_nil|by left].
Qed.
Lemma reading_kept h : grows reads [] h -> kept h.
Proof.
  intros Hg. apply idle_kept. destruct (retired_ids h) as [|id l] eqn:Hr; [done|]. exfalso.
  apply (not_elem_of_nil id). change [] with (retired_ids []). eapply retired_ids_grows; [exact Hg| |rewrite Hr; by left].
  intros r Hrd. by rewrite (reads_none r Hrd).
Qed.
Lemma wp_reading {A} (p : prog A) Q h :
  grows reads [] h -> wp lawful (fun _ => reads) p Q h -> wp lawful keeps_all p (fun a h' => grows reads [] h' /\ Q a h') h.
Proof.
  intros Hg Hp. eapply wp_mono; [eapply wp_weaken; [apply wp_grows, Hp| |done]|].
  - intros h' r [Hg' Hr] a. apply reading_kept. eapply grows_trans; [exact Hg|]. eapply grows_trans; [exact Hg'|]. by apply grows_step.
  - intros a h' [Hg' HQ]. split; [by eapply grows_trans|done].
Qed.

(** The members the replace is not about. *)
Definition bystanders (all : list container) : list string := filter (fun id => id ∉ ct_ID <$> selected all) (ct_ID <$> all).

Lemma fine_kept all tpl l h :
  h = (l ++ [Ev (ListAll (by_service svc)) (Did all)])%list -> template_of all tpl ->
  fine svc (rq_Image req) tpl (bystanders all) h -> kept h.
Proof.
  intros Hl Htpl [Hc Ho] Hh. split; [by eapply covered_capacity|]. intros l' all' Hl' id Hin Hout. rewrite Hl in Hl'.
  apply app_inj_2 in Hl' as [_ Heq]; [|done]. apply listing_inj in Heq as <-. apply Ho, list_elem_of_filter. by split.
Qed.

(** The listing a replace begins with fits its template. *)
Lemma template_swapped all tpl l h :
  h = (l ++ [Ev (ListAll (by_service svc)) (Did all)])%list -> grows reads [] h -> template_of all tpl ->
  swapped svc (rq_Image req) tpl (bystanders all) 0 h /\ accounted h.
Proof.
  intros -> Hg (He & Hs & _). assert (Hr : forall id, id ∉ retired_ids (l ++ [Ev (ListAll (by_service svc)) (Did all)])%list).
  { intros id Hid. apply (not_elem_of_nil id). change [] with (retired_ids []). eapply retired_ids_grows; [exact Hg| |exact Hid].
    intros r Hrd. by rewrite (reads_none r Hrd). }
  split; [|by intros id ?%Hr]. split; [|by intros; lia|by intros * _ _; apply Hr|by intros * _; apply Hr].
  intros id Hid. unfold known. rewrite bind_app, elem_of_app. right. cbn. rewrite app_nil_r.
  destruct Hid as [Hid|Hid]; [|by apply list_elem_of_filter in Hid as [_ ?]].
  rewrite He in Hid. apply list_elem_of_fmap in Hid as (ct & -> & Hct). by apply list_elem_of_fmap_2, selected_sub.
Qed.

Lemma wp_roll_kept opts' all tpl l h :
  h = (l ++ [Ev (ListAll (by_service svc)) (Did all)])%list -> NoDup (ct_ID <$> all) -> grows reads [] h -> template_of all tpl ->
  wp lawful keeps_all (rollTemplate has_labels proxyURL progress svc (rq_Image req) tpl opts')
    (fun r h' => kept h' /\ (r = inr tt -> renewed h')) h.
Proof.
  intros Hl Hids Hg Htpl. pose proof (template_swapped _ _ _ _ Hl Hg Htpl) as [Hs Ha]. pose proof Htpl as (He & Hset & _).
  assert (Hsub : rt_tplSet tpl ⊆ rt_existing tpl) by (rewrite Hset, He; rewrite <- serving_code; apply preferRunning_sub).
  assert (Hnd : NoDup (ct_ID <$> rt_tplSet tpl)).
  { rewrite Hset. eapply sublist_NoDup; [exact Hids|apply fmap_sublist]. apply serving_sublist. }
  assert (Hoth : forall id, id ∈ bystanders all -> id ∉ ct_ID <$> rt_existing tpl).
  { intros id Hid. rewrite He. by apply list_elem_of_filter in Hid as [? _]. }
  assert (Hk : forall h', grows (fun _ => True) h h' -> fine svc (rq_Image req) tpl (bystanders all) h' -> kept h').
  { intros h' (l' & -> & _). apply (fine_kept all tpl (l' ++ l)); [by rewrite Hl, app_assoc|done]. }
  pose proof (wp_roll has_labels proxyURL svc (rq_Image req) tpl Hsub Hnd (bystanders all) Hoth progress opts' h Hs Ha) as Hw.
  eapply wp_mono; [eapply wp_weaken; [apply (wp_invariant _ _ (grows (fun _ => True) h) _ _ _ Hw)| |done]|].
  - intros h' r a Hg' _ _. eapply grows_trans; [exact Hg'|]. by apply grows_step.
  - apply grows_refl.
  - intros h' r [Hg' Hr] a. apply Hk, Hr. eapply grows_trans; [exact Hg'|]. by apply grows_step.
  - intros r h' [Hg' [Hf Hall]]. split; [by apply Hk|]. intros Hr l' all' Hl' id Hid. destruct Hg' as (l2 & -> & _).
    rewrite Hl, app_assoc in Hl'. apply app_inj_2 in Hl' as [_ Heq]; [|done]. apply listing_inj in Heq as <-.
    apply list_elem_of_fmap in Hid as (ct & -> & [j Hj]%list_elem_of_lookup). rewrite <- Hset in Hj. by apply (Hall Hr j ct Hj).
Qed.

Lemma wp_replace : wp lawful keeps_all (replaceServiceRolling has_labels central proxyURL progress svc req opts)
  (fun r h' => kept h' /\ (r = inr tt -> renewed h')) [].
Proof.
  unfold replaceServiceRolling. apply wp_bind_ok. eapply wp_mono; [apply wp_reading, wp_prepare; apply grows_refl|].
  intros [e|tpl] h [Hg Hp]; [split; [by apply reading_kept|done]|]. destruct (Hp tpl eq_refl) as (l & all & Hl & Hids & Htpl).
  assert (Hread : forall A (p : prog A) h1, (exists l1, h1 = (l1 ++ [Ev (ListAll (by_service svc)) (Did all)])%list) -> grows reads [] h1 -> only reads p ->
    wp lawful keeps_all p (fun _ h2 => grows reads [] h2 /\ exists l2, h2 = (l2 ++ [Ev (ListAll (by_service svc)) (Did all)])%list) h1).
  { intros A p h1 [l1 Hl1] Hg1 Ho. eapply wp_mono; [apply wp_reading; [done|by apply wp_only]|]. intros _ h2 [Hg2 (l2 & -> & _)].
    split; [done|]. exists (l2 ++ l1)%list. by rewrite Hl1, app_assoc. }
  apply wp_bind. eapply wp_mono; [apply Hread; [by exists l|done|]|].
  { unfold templateOverlap. only_with ltac:(apply effectiveLabels_reads). }
  intros overlap h1 [Hg1 [l1 Hl1]]. case_decide; [split; [by apply reading_kept|done]|]. case_decide; [|by eapply wp_roll_kept].
  apply wp_bind. eapply wp_mono; [apply Hread; [by exists l1|done|apply effectiveLabels_reads]|].
  intros eff h2 [Hg2 [l2 Hl2]]. apply wp_bind_ok. cbn [wp]. destruct (refuseUnsafeOverlap _ _ _) as [e|[]]; [split; [by apply reading_kept|done]|].
  by eapply wp_roll_kept.
Qed.

(** ** It ends *)

Lemma lawful_clock h e : lawful h e -> clock_law h e.
Proof. by intros (_ & ? & _). Qed.

Lemma resolve_ends s l r1 r2 : always lawful (resolve_refs s l r1 r2).
Proof. revert r1 r2. induction l as [|[k v] l IH]; intros r1 r2; [done|]. cbn [resolve_refs]. always_with ltac:(apply IH). Qed.
Lemma prepare_ends : always lawful (prepareReplaceTemplate central svc req opts).
Proof.
  unfold prepareReplaceTemplate, replacement, cloneEnvAndSpec, central_enabled, cloneOwnEnvAndSpec, inspectEnv, inspectCloneSpec,
    inspectHostConfigUnknowns, request_env, edited_env, resolveSecretRefs, listAll, inspect.
  always_with ltac:(apply resolve_ends).
Qed.
Lemma bring_up_ends image tpl o i : always lawful (bring_up has_labels proxyURL svc image tpl o i).
Proof.
  unfold bring_up. apply always_bind_ok; [apply always_wrapping, create_ends|]. intros id.
  apply always_bind; [unfold startContainer; always_with ltac:(fail)|]. intros [e|[]].
  { unfold removeContainer, ignoring. always_with ltac:(fail). }
  apply always_bind; [apply waitReplicaReady_ends, lawful_clock|]. intros [e|[]].
  - unfold stopContainer, stopContainerT, removeContainer, ignoring. always_with ltac:(fail).
  - always_with ltac:(fail).
Qed.
Lemma roll_ends image tpl o : always lawful (rollTemplate has_labels proxyURL progress svc image tpl o).
Proof.
  assert (Hswap : forall olds i, always lawful (swap_all has_labels proxyURL progress svc image tpl o i olds)).
  { induction olds as [|old olds IH]; intros i; [done|]. cbn [swap_all]. unfold swap, report, ignoring.
    always_with ltac:(first [apply IH|apply bring_up_ends|apply drain_ends]). }
  unfold rollTemplate, report. always_with ltac:(first [apply Hswap|apply drainAll_ends]).
Qed.
Lemma replace_ends : always lawful (replaceServiceRolling has_labels central proxyURL progress svc req opts).
Proof.
  unfold replaceServiceRolling, templateOverlap.
  always_with ltac:(first [apply prepare_ends|apply effective_ends|apply roll_ends]).
Qed.

Lemma run_kept (p : prog (result unit)) (R : history -> Prop) w h r :
  wp lawful keeps_all p (fun r h' => kept h' /\ (r = inr tt -> R h')) [] -> always lawful p -> obeys lawful w -> run w p [] = (h, r) ->
  is_Some r /\ (forall h', h' `suffix_of` h -> capacity h' /\ untouched h') /\ (r = Some (inr tt) -> R h).
Proof.
  intros Hp He Hw Heq. pose proof (wp_run _ _ _ _ [] w Hp Hw I) as Hrun. pose proof (ends_run _ _ [] w Hw (He [])) as Hends.
  rewrite Heq in Hrun, Hends. cbn in Hends. destruct Hrun as [Hh HQ].
  split_and!; [done| |by intros ->; apply HQ]. intros h' [l ->]. clear HQ Heq. induction l as [|e l IH]; [|apply IH, Hh].
  destruct h' as [|[q a] h']; [by apply idle_kept|]. apply (proj1 Hh). eapply happened_mono; [|exact Hh]. by intros h1 e [_ ?].
Qed.

End replace.

(** ** A daemon that does what it is asked *)

Section daemon.
Context (svc : string) (old : list container).

Definition made (e : event) : option container :=
  match e with
  | Ev (CreateContainer cname _ _ b) (Did id) => Some (mkCt id ["/" +:+ cname] (cb_Image b) "running" "Up 5 seconds" (cb_Labels b) {[managedNetwork := "10.0.0.9"]})
  | _ => None
  end.
Fixpoint distinct (l : list container) : list container :=
  match l with
  | [] => []
  | ct :: l => let l := distinct l in if decide (ct_ID ct ∈ ct_ID <$> l) then l else ct :: l
  end.
Definition standing (h : history) : list container :=
  let l := distinct (filter (fun ct => ct_ID ct ∉ retired_ids h) (old ++ omap made h)%list) in
  if decide (Z.of_nat (length l) <= maxInt64) then l else [].
(** No known id is as long. *)
Definition new_id (h : history) : string := String.concat "" (("c" +:+ FormatInt (Z.of_nat (length h))) :: known h).

Definition daemon : world := fun h r =>
  match r with
  | ListAll _ => Did (standing h)
  | CreateContainer _ _ _ _ => Did (new_id h)
  | ConnectNetwork _ _ _ | StartContainer _ | StopContainer _ _ | DeleteContainer _ _ => Did tt
  | Inspect _ => Did (mkInspection "/x" "sha256:1" ["A=1"] 0 [] [] None ∅ ∅ ∅ None None)
  | InspectImage _ => Did (None, None)
  | Probe _ => inr 200
  | After _ => None
  | Snapshot _ => None
  | CentralEnabled | CentralManaged _ _ => false
  | CentralVersion _ => None
  | CentralResolve _ _ => inr None
  | Secret _ _ => inl "no such secret"
  | Now => default 0 (clock h)
  | PullImage _ | Sleep _ | Refresh _ | Report _ _ _ _ => tt
  | Pick _ => 0%nat
  end.

Lemma distinct_NoDup l : NoDup (ct_ID <$> distinct l).
Proof. induction l as [|ct l IH]; [constructor|]. cbn. case_decide; [done|]. by constructor. Qed.
Lemma length_concat x l : String.length (String.concat "" (x :: l)) = (String.length x + String.length (String.concat "" l))%nat.
Proof. destruct l as [|y l]; [cbn; lia|]. change (String.concat "" (x :: y :: l)) with (x +:+ "" +:+ String.concat "" (y :: l)). by rewrite !length_append. Qed.
Lemma concat_long x l : x ∈ l -> (String.length x <= String.length (String.concat "" l))%nat.
Proof. induction 1; rewrite length_concat; lia. Qed.
Lemma daemon_lawful : obeys lawful daemon.
Proof.
  intros h r. split_and!.
  - destruct r; try exact I; cbn.
    + unfold standing. case_decide; [apply distinct_NoDup|constructor].
    + change (new_id h ∉ known h). intros Hin%concat_long. unfold new_id in Hin. rewrite length_concat, length_append in Hin. cbn in Hin. lia.
  - destruct r; try exact I. cbn. by destruct (clock h).
  - destruct r; try exact I. cbn. unfold standing. by case_decide.
Qed.
End daemon.

Definition ex_replica (id name state : string) : container :=
  mkCt id ["/" +:+ name] "img:1" state "Up 2 hours" {["proxy.service" := "web"]} {[managedNetwork := "10.0.0.2"]}.
(** A replica that serves, one that has exited, and a canary. *)
Definition ex_web : list container :=
  [ex_replica "aaa" "web-1" "running"; ex_replica "bbb" "goproxy-web-7" "exited";
   mkCt "ccc" ["/goproxy-web-canary-1"] "img:2" "running" "Up" {["proxy.service" := "web"; "proxy.canary" := "true"]} ∅].
Definition ex_replace : prog (result unit) :=
  replaceServiceRolling false false "http://proxy" false "web" (mkReplace "img:2" ∅ []) no_opts.
Definition ex_run : history * option (result unit) := run (daemon ex_web) ex_replace [].
Lemma ex_replaced :
  snd ex_run = Some (inr tt) /\ retired_ids (fst ex_run) = ["bbb"; "bbb"; "aaa"; "aaa"] /\
  (fun ct => (ct_Names ct, ct_Image ct)) <$> standing ex_web (fst ex_run) = [(["/goproxy-web-canary-1"], "img:2"); (["/goproxy-web-8"], "img:2")].
Proof. vm_compute. split_and!; reflexivity. Qed.
