(* ===== verification/Promote.v ===== *)
(** * Promoting a canary and scaling touch only what they may

    [promoteCanary] and [scaleService] of [Services] run against any world that
    keeps Docker's and the clock's laws. *)
From S2P Require Import Prelude GoString Duration Http Sha256 Json Url Balancer AuthGate Labels LabelOverlay Docker Clone Services Rolling.
Open Scope string_scope.

#[local] Opaque ManagedKeys Managed overlay_keys.

Lemma accounted_grows P h h' : grows P h h' -> (forall r x, P r -> retired r = Some x -> x ∈ known h) -> accounted h -> accounted h'.
Proof.
  intros Hg HP Ha x Hx. eapply known_grows; [exact Hg|]. destruct (decide (x ∈ known h)); [done|].
  apply Ha. eapply retired_ids_grows; [exact Hg| |exact Hx]. intros r Hr Hrx. by apply (HP r x) in Hrx.
Qed.

(** ** Promotion *)

Section promote.
Context `{MapRange} (has_labels central : bool) (svc : string).

(** A new live container was made of the canary's image and started, and stays. *)
Definition promoted (all : list container) (h : history) (ct : container) : Prop := exists n b id a,
  cb_Image b = ct_Image ct /\ cb_Labels b !! labelCanary = None /\
  Ev (CreateContainer (replica_name svc n) managedNetwork "unless-stopped" b) (Did id) ∈ h /\
  Ev (StartContainer id) a ∈ h /\ tolerating (do_ (StartContainer id) a) = inr tt /\
  id ∉ ct_ID <$> all /\ id ∉ retired_ids h.

Lemma promoted_grows P all h h' ct :
  grows P h h' -> (forall r x, P r -> retired r = Some x -> x ∈ ct_ID <$> all \/ x ∉ known h) -> promoted all h ct -> promoted all h' ct.
Proof.
  intros Hg HP (n & b & id & a & Hi & Hl & Hc & Hs & Ht & Hn & Hr). exists n, b, id, a. split_and!; eauto using grows_elem.
  intros Hin. apply Hr. eapply retired_ids_grows; [exact Hg| |exact Hin]. intros r Hpr Hx. destruct (HP r id Hpr Hx) as [?|Hk]; [done|].
  apply Hk, list_elem_of_bind. eexists. split; [|exact Hc]. by left.
Qed.

Section from_listing.
Context (all : list container).
(** What one promotion may retire after [h]. *)
Definition retires_canaries (h : history) (r : request) : Prop :=
  forall x, retired r = Some x -> x ∈ ct_ID <$> canaryOnly all \/ x ∉ known h.

Lemma canaries_sub : canaryOnly all ⊆ all.
Proof. intros ct Hct. by apply list_elem_of_filter in Hct as [_ ?]. Qed.
Lemma canary_listed x : x ∈ ct_ID <$> canaryOnly all -> x ∈ ct_ID <$> all.
Proof. intros (ct & -> & Hct)%list_elem_of_fmap. by apply list_elem_of_fmap_2, canaries_sub. Qed.

Lemma clone_own_reads s (ab : bool) ct : only reads (if ab then cloneOwnEnvAndSpec ct_name ct else cloneEnvAndSpec central s ct).
Proof. destruct ab; [apply clone_reads|apply cloneEnv_reads]. Qed.

Lemma wp_create_start cname cw sw b h :
  wp lawful (fun _ => spares_known h) (create_start cname cw sw b)
    (fun r h' => forall id, r = inr id -> made_from h' cname b id /\ id ∉ known h /\ grows retires_none h h' /\
       exists a, Ev (StartContainer id) a ∈ h' /\ tolerating (do_ (StartContainer id) a) = inr tt) h.
Proof.
  unfold create_start. apply wp_bind_ok, wp_wrapping. eapply wp_mono; [apply wp_create; by intros ? ? []|].
  intros [e|id] h1 Hc; [done|]. destruct (Hc id eq_refl) as (Hm & Hn & Hg). apply wp_bind_ok, wp_wrapping, wp_ask_bind; [by intros x|]. intros a _. cbn [wp].
  destruct (tolerating _) as [e|[]] eqn:Ht; [done|]. intros id' [= <-]. split_and!; [|done|by eapply grows_trans, grows_step|exists a; by split; [left|]].
  eapply made_grows; [by apply (grows_step retires_none)|done].
Qed.

Lemma known_mono P h h' r : grows P h h' -> retires_canaries h' r -> retires_canaries h r.
Proof. intros Hg Hr x Hx. destruct (Hr x Hx) as [?|Hk]; [by left|]. right. intros ?. by eapply Hk, known_grows. Qed.
Lemma reads_canaries h r : reads r -> retires_canaries h r.
Proof. intros Hr x Hx. by rewrite (reads_none r Hr) in Hx. Qed.

Lemma wp_promote_each ab others l h :
  l ⊆ canaryOnly all -> (forall id, id ∈ ct_ID <$> all -> id ∈ known h) -> accounted h ->
  wp lawful (fun _ => retires_canaries h) (promote_each has_labels central svc ab others l)
    (fun r h' => r = inr tt -> Forall (promoted all h') l) h.
Proof.
  revert others h. induction l as [|ct l IH]; intros others h Hl Hk Ha; [by constructor|]. cbn [promote_each].
  assert (Hct : ct ∈ canaryOnly all) by (apply Hl; by left).
  assert (Hid : ct_ID ct ∈ ct_ID <$> canaryOnly all) by (by apply list_elem_of_fmap_2).
  apply wp_bind_ok. eapply wp_mono; [eapply wp_weaken; [apply wp_only, clone_own_reads|intros h0 r; apply reads_canaries|done]|].
  intros [e|tc] h1 Hg1; [done|]. set (body := body_of _ _ _ _). set (n := nextReplicaIndex others svc). apply wp_bind_ok.
  eapply wp_mono; [eapply wp_weaken; [apply wp_create_start| |done]|].
  { intros h0 r Hr x Hx. right. intros ?. apply (Hr x Hx). by eapply known_grows. }
  intros [e|id] h2 Hc; [done|]. destruct (Hc id eq_refl) as ((b & Hi & Hlb & _ & Hm) & Hnew & Hg2 & a & Hs & Ht).
  apply wp_ignoring. eapply wp_mono; [eapply wp_weaken; [apply (wp_drain has_labels lawful ct)| |done]|].
  { intros h0 r Hr x Hx. left. by rewrite (Hr x Hx). }
  intros _ h3 [Hg3 _].
  assert (Hg12 : grows retires_none h h2) by (eapply grows_trans; [eapply grows_mono; [apply reads_none|exact Hg1]|exact Hg2]).
  assert (Ha2 : accounted h2) by (eapply accounted_grows; [exact Hg12|by intros r x ->|exact Ha]).
  assert (Ha3 : accounted h3).
  { eapply accounted_grows; [exact Hg3| |exact Ha2]. intros r x Hr Hx. rewrite (Hr x Hx). eapply known_grows; [exact Hg12|]. by apply Hk, canary_listed. }
  assert (Hk1 : forall x, x ∈ ct_ID <$> all -> x ∈ known h1) by (intros x Hx; eapply known_grows; [exact Hg1|by apply Hk]).
  assert (Hk3 : forall x, x ∈ ct_ID <$> all -> x ∈ known h3).
  { intros x Hx. eapply known_grows; [exact Hg3|]. eapply known_grows; [exact Hg2|by apply Hk1]. }
  assert (Hp : promoted all h3 ct).
  { eapply promoted_grows; [exact Hg3|intros r x Hr Hx; left; rewrite (Hr x Hx); by apply canary_listed|].
    exists n, b, id, a. rewrite Hi, Hlb. split_and!; [done|apply lookup_delete_eq|done|done|done|by intros ?%Hk1|].
    intros Hin. apply Hnew.
    assert (Ha1 : accounted h1) by (eapply accounted_grows; [exact Hg1|by intros r x Hr%reads_none Hx; rewrite Hr in Hx|exact Ha]).
    apply Ha1. eapply retired_ids_grows; [exact Hg2|by intros r ->|exact Hin]. }
  eapply wp_mono; [eapply wp_weaken; [apply wp_grows, IH|intros h0 r [_ Hr]|done]|].
  - intros c Hc'. apply Hl. by right.
  - done.
  - done.
  - eapply known_mono; [exact Hg12|]. by eapply known_mono.
  - intros r h' [Hg4 Hr] ->. constructor; [|by apply Hr]. eapply promoted_grows; [exact Hg4| |exact Hp].
    intros r x Hrc Hx. destruct (Hrc x Hx) as [?|?]; [left; by apply canary_listed|by right].
Qed.
End from_listing.

Lemma stale_reads canary : only reads (stale_canary central svc canary).
Proof. unfold stale_canary. only_with ltac:(fail). Qed.

(** The first listing of a promotion. *)
Notation first_listing all := (Ev (ListAll (by_service svc)) (Did all)).
(** A live member of that listing is retired only when the gate is passed and
    each canary has its live successor. *)
Definition careful (h : history) (q : request) : Prop := forall l all id,
  h = (l ++ [first_listing all])%list -> retired q = Some id -> id ∈ ct_ID <$> liveOnly all ->
  gate_passed svc h /\ Forall (promoted all h) (canaryOnly all).
Definition finished (h : history) : Prop := forall l all,
  h = (l ++ [first_listing all])%list -> gate_passed svc h /\ Forall (promoted all h) (canaryOnly all).

Lemma reads_careful h r : reads r -> careful h r.
Proof. intros Hr l all id _ Hx. by rewrite (reads_none r Hr) in Hx. Qed.

(** Canaries and live members are different containers. *)
Lemma live_canary all id : NoDup (ct_ID <$> all) -> id ∈ ct_ID <$> liveOnly all -> id ∉ ct_ID <$> canaryOnly all.
Proof.
  intros Hnd (c & -> & Hc)%list_elem_of_fmap (d & Hid & Hd)%list_elem_of_fmap. apply list_elem_of_filter in Hc as [Hcl Hc], Hd as [Hdl Hd].
  apply list_elem_of_lookup in Hc as [i Hi], Hd as [j Hj].
  assert (i = j) as ->; [|congruence].
  eapply NoDup_lookup; [exact Hnd| |]; rewrite list_lookup_fmap; [by rewrite Hi|rewrite Hj; cbn; by rewrite Hid].
Qed.

Lemma wp_promote : wp lawful careful (promoteCanary has_labels central svc) (fun r h' => r = inr tt -> finished h') [].
Proof.
  unfold promoteCanary. apply wp_bind_ok, wp_bind, wp_ask_bind; [by apply reads_careful|]. intros a (Hids & _). cbn [wp].
  destruct (do_ (ListAll (by_service svc)) a) as [e|all] eqn:Hd; [done|]. apply do_Did in Hd as ->. set (h0 := [_]). cbn in Hids.
  assert (Hfirst : forall h l all', grows (fun _ => True) h0 h -> h = (l ++ [first_listing all'])%list -> all' = all).
  { intros h l all' (l' & -> & _) Heq. apply app_inj_2 in Heq as [_ Heq]; [|done]. by apply listing_inj in Heq. }
  assert (Hk : forall h id, grows (fun _ => True) h0 h -> id ∈ ct_ID <$> all -> id ∈ known h).
  { intros h id Hg Hid. eapply known_grows; [exact Hg|]. cbn. by rewrite app_nil_r. }
  case_decide; [done|]. apply wp_bind_ok. eapply wp_mono; [eapply wp_weaken; [apply wp_only, stale_reads|intros h r; apply reads_careful|done]|].
  intros [e|[]] h1 Hg1; [done|]. apply wp_bind_ok, wp_wrapping.
  eapply wp_mono; [eapply wp_weaken; [apply (wp_kind _ reads); [apply waitForCanary_reads|apply wp_waitCanary]|intros h r; apply reads_careful|done]|].
  intros [e|[]] h2 [Hg2 Hgate]; [done|]. specialize (Hgate eq_refl).
  assert (Hg02 : grows reads h0 h2) by (by eapply grows_trans).
  assert (HT : forall P h h', grows P h h' -> grows (fun _ => True) h h') by (intros P h h'; by apply (grows_mono P (fun _ => True))).
  pose proof (HT _ _ _ Hg02) as Hg02T.
  assert (Ha2 : accounted h2).
  { eapply accounted_grows; [exact Hg02|by intros r x Hr%reads_none Hx; rewrite Hr in Hx|]. intros x Hx. by apply elem_of_nil in Hx. }
  apply wp_bind_ok. eapply wp_mono; [eapply wp_weaken; [apply wp_grows, (wp_promote_each all); [done|by eauto|done]| |done]|].
  { intros h r [Hg Hr] l all' id Heq Hx Hid. rewrite (Hfirst h l all' (grows_trans _ _ _ _ Hg02T (HT _ _ _ Hg)) Heq) in Hid.
    destruct (Hr id Hx) as [Hc|Hc]; [by eapply live_canary in Hc|]. destruct Hc. apply Hk; [done|].
    apply list_elem_of_fmap in Hid as (c & -> & [_ ?]%list_elem_of_filter). by apply list_elem_of_fmap_2. }
  intros [e|[]] h3 [Hg3 Hall]; [done|]. specialize (Hall eq_refl).
  assert (Hg03 : grows (fun _ => True) h0 h3) by (eapply grows_trans; [exact Hg02T|by eapply HT]).
  assert (Hfin : forall h, grows (fun r => forall x, retired r = Some x -> x ∈ ct_ID <$> liveOnly all) h3 h -> finished h).
  { intros h Hg l all' Heq. rewrite (Hfirst h l all' (grows_trans _ _ _ _ Hg03 (HT _ _ _ Hg)) Heq). split.
    - destruct Hgate as (cts & Hc & Hne & Hh). assert (Hg2h : grows (fun _ => True) h2 h) by exact (grows_trans _ _ _ _ (HT _ _ _ Hg3) (HT _ _ _ Hg)).
      exists cts. split_and!; [by apply (grows_elem _ _ _ _ Hg2h)|done|]. eapply Forall_impl; [exact Hh|]. intros c. by apply (healthy_grows _ _ _ _ Hg2h).
    - eapply Forall_impl; [exact Hall|]. intros c. apply (promoted_grows _ _ _ _ _ Hg). intros r x Hr Hx. left. apply Hr in Hx.
      apply list_elem_of_fmap in Hx as (d & -> & [_ ?]%list_elem_of_filter). by apply list_elem_of_fmap_2. }
  apply wp_bind. eapply wp_mono; [eapply wp_weaken; [apply wp_grows, wp_only, drainAll_spares| |done]|].
  - intros h r [Hg _] l all' id Heq _ _. by eapply Hfin.
  - intros r h [Hg _] _. by apply Hfin.
Qed.
Lemma promote_ends : always lawful (promoteCanary has_labels central svc).
Proof.
  assert (Hstart : forall cname cw sw b, always lawful (create_start cname cw sw b)).
  { intros *. unfold create_start, startContainer. apply always_bind_ok; [apply always_wrapping, create_ends|]. always_with ltac:(fail). }
  assert (Hstale : forall canary, always lawful (stale_canary central svc canary)) by (unfold stale_canary; intros; always_with ltac:(fail)).
  assert (Heach : forall canary ab all, always lawful (promote_each has_labels central svc ab all canary)).
  { induction canary as [|ct canary IH]; intros ab all; [done|]. cbn [promote_each]. apply always_bind_ok.
    { unfold cloneOwnEnvAndSpec, cloneEnvAndSpec, central_enabled, cloneOwnEnvAndSpec, inspectEnv, inspectCloneSpec, inspect. always_with ltac:(fail). }
    intros tc. apply always_bind_ok; [apply Hstart|]. intros id. apply always_bind; [apply drain_ends|]. intros _. apply IH. }
  unfold promoteCanary. apply always_bind_ok; [unfold listAll; always_with ltac:(fail)|]. intros all. cbv zeta. case_decide; [done|].
  apply always_bind_ok; [apply Hstale|]. intros _. apply always_bind_ok; [apply always_wrapping, waitForCanary_ends, lawful_clock|]. intros _.
  apply always_bind_ok; [apply Heach|]. intros _. apply always_bind; [apply drainAll_ends|done].
Qed.

End promote.

(** ** Scaling *)

Section scale.
Context `{MapRange} (has_labels central : bool) (svc : string) (desired : Z) (fallbackHC : option healthcheckSpec).

(** Of the members listed, only live ones that the dashboard named are retired,
    and as many live ones are left as are wanted, or all of them. *)
Definition spared (h : history) : Prop := retired_ids h = [] \/ exists cts,
  Ev (ListAll (by_service svc)) (Did cts) ∈ h /\
  (forall id, id ∈ retired_ids h -> id ∈ ct_ID <$> cts -> exists ct, ct ∈ liveOnly cts /\ ct_ID ct = id /\ HasPrefix (ct_name ct) "goproxy-" = true) /\
  Z.min desired (Z.of_nat (length (liveOnly cts))) <= Z.of_nat (length (filter (fun ct => ct_ID ct ∉ retired_ids h) (liveOnly cts))).

(** Striking out [c] leaves all but as many as it has. *)
Lemma strike_out (l c : list container) (ids : list string) : NoDup (ct_ID <$> l) -> (forall ct, ct ∈ l -> ct_ID ct ∈ ids -> ct_ID ct ∈ ct_ID <$> c) ->
  (length l <= length (filter (fun ct => ct_ID ct ∉ ids) l) + length c)%nat.
Proof.
  intros Hnd Hc.
  assert (Hsplit : length l = (length (filter (fun ct => ct_ID ct ∉ ids) l) + length (filter (fun ct => ct_ID ct ∈ ids) l))%nat).
  { clear. induction l as [|x l IH]; [done|]. rewrite !filter_cons. repeat case_decide; cbn; try lia; tauto. }
  enough (length (filter (fun ct => ct_ID ct ∈ ids) l) <= length c)%nat by lia.
  rewrite <- (length_fmap ct_ID), <- (length_fmap ct_ID c). apply submseteq_length, NoDup_submseteq.
  - eapply sublist_NoDup; [exact Hnd|]. apply fmap_sublist, sublist_filter.
  - intros id (ct & -> & [Hin Hct]%list_elem_of_filter)%list_elem_of_fmap. by apply Hc.
Qed.

Lemma nothing_retired h : grows reads [] h -> retired_ids h = [].
Proof.
  intros Hg. destruct (retired_ids h) as [|id l] eqn:Hr; [done|]. exfalso. apply (not_elem_of_nil id). change [] with (retired_ids []).
  eapply retired_ids_grows; [exact Hg| |rewrite Hr; by left]. intros r Hrd. by rewrite (reads_none r Hrd).
Qed.

Lemma spared_grows (P : request -> Prop) cts chosen h h' :
  Ev (ListAll (by_service svc)) (Did cts) ∈ h -> NoDup (ct_ID <$> cts) -> retired_ids h = [] -> grows P h h' ->
  (forall r x, P r -> retired r = Some x -> x ∈ ct_ID <$> chosen \/ x ∉ ct_ID <$> cts) ->
  chosen ⊆ ours (liveOnly cts) -> Z.of_nat (length chosen) <= Z.max 0 (Z.of_nat (length (liveOnly cts)) - desired) -> spared h'.
Proof.
  intros He Hnd Hr0 Hg HP Hours Hlen. right. exists cts.
  assert (Hr : forall id, id ∈ retired_ids h' -> id ∈ ct_ID <$> cts -> id ∈ ct_ID <$> chosen).
  { intros id Hid Hin. destruct (decide (id ∈ ct_ID <$> chosen)) as [|Hn]; [done|]. exfalso. apply (not_elem_of_nil id). rewrite <- Hr0.
    eapply retired_ids_grows; [exact Hg| |exact Hid]. intros r Hpr Hx. by destruct (HP r id Hpr Hx). }
  split_and!; [by eapply grows_elem| |].
  - intros id Hid Hin. pose proof (Hr id Hid Hin) as (ct & -> & Hct)%list_elem_of_fmap. apply Hours, list_elem_of_filter in Hct as [? ?]. by exists ct.
  - unshelve epose proof (strike_out (liveOnly cts) chosen (retired_ids h') _ _) as Hs.
    + eapply sublist_NoDup; [exact Hnd|apply fmap_sublist, sublist_filter].
    + intros ct Hct Hin. apply Hr; [done|]. apply list_elem_of_fmap_2. by apply list_elem_of_filter in Hct as [_ ?].
    + lia.
Qed.

Lemma wp_create_many (P : request -> Prop) n i cname cw sw b h :
  (forall h' r, grows (fun _ => True) h h' -> spares_known h' r -> P r) ->
  wp lawful (fun _ => P) (create_many n i cname cw sw b) (fun _ _ => True) h.
Proof.
  revert i h. induction n as [|n IH]; intros i h HP; [done|]. cbn [create_many]. apply wp_bind_ok.
  eapply wp_mono; [eapply wp_weaken; [apply wp_create_start|intros h' r; apply HP, grows_refl|done]|]. intros [e|id] h1 Hc; [done|].
  destruct (Hc id eq_refl) as (_ & _ & Hg & _). apply IH. intros h' r Hg'. apply HP. eapply grows_trans; [|exact Hg']. by eapply grows_mono; [|exact Hg].
Qed.

Lemma guard_reads : only reads (guardUnscalable has_labels svc desired).
Proof. unfold guardUnscalable. only_with ltac:(first [apply listAll_reads|apply effectiveLabels_reads]). Qed.

Lemma wp_scale : wp lawful (fun h r => forall a : answer r, spared (Ev r a :: h))
  (scaleServiceWithHealthcheck has_labels central svc desired fallbackHC) (fun _ _ => True) [].
Proof.
  set (G := fun h r => _). assert (HG : forall h r, grows reads [] h -> reads r -> G h r).
  { intros h r Hg Hr a. left. apply nothing_retired. eapply grows_trans; [exact Hg|]. by apply grows_step. }
  unfold scaleServiceWithHealthcheck. case_decide; [done|]. apply wp_bind_ok.
  eapply wp_mono; [eapply wp_weaken; [apply wp_grows, (wp_only _ reads), guard_reads|intros h r [? ?]; by apply HG|done]|].
  intros [e|[]] h [Hg _]; [done|]. apply wp_bind_ok, wp_bind, wp_ask_bind; [by apply HG|]. intros a (Hids & _). cbn [wp].
  destruct (do_ (ListAll (by_service svc)) a) as [e|cts] eqn:Hd; [done|]. apply do_Did in Hd as ->. set (h0 := _ :: h).
  assert (Hg0 : grows reads [] h0) by (eapply grows_trans; [exact Hg|by apply grows_step]).
  assert (Hin : Ev (ListAll (by_service svc)) (Did cts) ∈ h0) by (by left).
  pose proof (nothing_retired h0 Hg0) as Hr0.
  destruct (preferRunning (liveOnly cts)) as [|tpl rest]; [done|]. cbv zeta. case_decide; [done|]. case_decide as Hup.
  - apply wp_bind_ok.
    eapply wp_mono; [eapply wp_weaken; [apply wp_grows, (wp_only _ reads), cloneEnv_reads|intros h1 r [? ?]; apply HG; [by eapply grows_trans|done]|done]|].
    intros [e|tc] h1 [Hg1 _]; [done|]. set (P := fun r => forall x, retired r = Some x -> x ∉ ct_ID <$> cts).
    eapply wp_mono; [eapply wp_weaken; [apply wp_grows, (wp_create_many P)| |done]|done].
    + intros h' r Hg' Hr x Hx Hc. apply (Hr x Hx). eapply known_grows; [exact Hg'|]. eapply known_grows; [exact Hg1|]. unfold known. cbn. apply elem_of_app. by left.
    + intros h' r [Hg' Hr] a. eapply (spared_grows P cts [] h1); [by eapply grows_elem|done|apply nothing_retired; by eapply grows_trans| | | |cbn; lia].
      * eapply grows_trans; [exact Hg'|by apply grows_step].
      * intros r' x Hr' Hx. right. by apply Hr'.
      * intros x Hx. by apply elem_of_nil in Hx.
  - case_decide as Hfew; [done|]. set (chosen := take _ _).
    set (P := fun r => forall x, retired r = Some x -> x ∈ ct_ID <$> chosen).
    assert (Honly : only P (remove_each has_labels chosen)).
    { apply only_each. intros ct Hct. apply only_wrapping. eapply only_mono; [|apply drain_spares]. intros r Hr x Hx. rewrite (Hr x Hx). by apply list_elem_of_fmap_2. }
    eapply wp_mono; [eapply wp_weaken; [apply wp_grows, wp_only, Honly| |done]|done]. intros h' r [Hg' Hr] a.
    eapply (spared_grows P cts chosen h0); [done|done|done| | | |].
    + eapply grows_trans; [exact Hg'|by apply grows_step].
    + intros r' x Hr' Hx. left. by apply Hr'.
    + intros ct Hct. unfold chosen in Hct. apply elem_of_take in Hct as (i & Hct & _). rewrite <- (elem_of_SliceStable removed_before). by eapply list_elem_of_lookup_2.
    + unfold chosen. rewrite length_take. lia.
Qed.

Lemma scale_ends : always lawful (scaleServiceWithHealthcheck has_labels central svc desired fallbackHC).
Proof.
  assert (Hmany : forall n i cname cw sw b, always lawful (create_many n i cname cw sw b)).
  { induction n as [|n IH]; intros *; [done|]. cbn [create_many]. apply always_bind_ok; [|intros _; apply IH].
    unfold create_start, startContainer. apply always_bind_ok; [apply always_wrapping, create_ends|]. always_with ltac:(fail). }
  unfold scaleServiceWithHealthcheck. case_decide; [done|].
  apply always_bind_ok; [unfold guardUnscalable, listAll; always_with ltac:(apply effective_ends)|]. intros _.
  apply always_bind_ok; [unfold listAll; always_with ltac:(fail)|]. intros all. cbv zeta. case_match; [done|]. case_decide; [done|]. case_decide.
  { apply always_bind_ok; [|intros tc; apply Hmany].
    unfold cloneEnvAndSpec, central_enabled, cloneOwnEnvAndSpec, inspectEnv, inspectCloneSpec, inspect. always_with ltac:(fail). }
  case_decide; [done|]. apply always_each. intros ct _. apply always_wrapping, drain_ends.
Qed.

(** Scaling removes only what it may, in every world that keeps Docker's and
    the clock's laws. It ends, and after each of its steps: of the members listed
    only live ones that the dashboard itself had named have been asked to stop or
    be removed, so neither canaries nor the original container are, and the live
    ones not so asked are at least as many as were wanted, or all there were. *)
Theorem scaling_spares (w : world) h r : obeys lawful w ->
  run w (scaleServiceWithHealthcheck has_labels central svc desired fallbackHC) [] = (h, r) ->
  is_Some r /\ (forall h', h' `suffix_of` h -> spared h').
Proof.
  intros Hw Hrun. pose proof (wp_run _ _ _ _ [] w wp_scale Hw I) as Hw1. pose proof (ends_run _ _ [] w Hw (scale_ends [])) as He.
  rewrite Hrun in Hw1, He. destruct Hw1 as [Hh _]. split; [done|]. intros h' [l ->]. clear Hrun He. induction l as [|e l IH]; [|apply IH, Hh].
  destruct h' as [|[q a] h']; [by left|]. by apply (proj1 Hh).
Qed.
End scale.

(** ** Examples *)

Definition ex_promotion : history * option (result unit) := run (daemon ex_web) (promoteCanary false false "web") [].
Lemma ex_promoted :
  snd ex_promotion = Some (inr tt) /\ remove_dups (retired_ids (fst ex_promotion)) = ["bbb"; "aaa"; "ccc"] /\
  (fun ct => (ct_Names ct, ct_Image ct, ct_Labels ct !! labelCanary)) <$> standing ex_web (fst ex_promotion) = [(["/goproxy-web-8"], "img:2", None)].
Proof. vm_compute. split_and!; reflexivity. Qed.

Definition ex_scaling : history * option (result unit) := run (daemon ex_web) (scaleService false false "web" 1) [].
Lemma ex_scaled :
  snd ex_scaling = Some (inr tt) /\ retired_ids (fst ex_scaling) = ["bbb"; "bbb"].
Proof. vm_compute. split; reflexivity. Qed.
Lemma scaling_spares_witness :
  obeys lawful (daemon ex_web) /\ retired_ids (fst ex_scaling) = ["bbb"; "bbb"] /\
  is_Some (snd ex_scaling) /\ (forall h', h' `suffix_of` fst ex_scaling -> spared "web" 1 h').
Proof.
  pose proof (scaling_spares false false "web" 1 None (daemon ex_web) (fst ex_scaling) (snd ex_scaling) (daemon_lawful ex_web)
    (surjective_pairing ex_scaling)) as (Hr & Hs).
  split_and!; [apply daemon_lawful|apply ex_scaled|exact Hr|exact Hs].
Defined.

(** A container that does not start is left behind by the all-at-once replace. *)
Definition no_start (old : list container) : world := fun h r =>
  match r with StartContainer _ => Refused 500 "driver failed" | r => daemon old h r end.
Example replace_leaves_what_does_not_start :
  let '(h, r) := run (no_start ex_web) (replaceService false false "http://proxy" "web" (mkReplace "img:2" ∅ [])) [] in
  (if r is Some (inl _) then true else false) = true /\ retired_ids h = [] /\
  ["/goproxy-web-8"] ∈ ct_Names <$> standing ex_web h.
Proof. vm_compute. split_and!; [reflexivity|reflexivity|repeat constructor]. Qed.

(** Scaling down compares names as strings: the ninth goes before the tenth. *)
Example ninth_before_tenth :
  removed_before (ex_replica "a" "goproxy-web-9" "running") (ex_replica "b" "goproxy-web-10" "running") = true.
Proof. reflexivity. Qed.
