(* ===== verification/PeerMerge.v ===== *)
(** * Peer routes: cmd/proxy/peermerge.go, cmd/proxy/peersync.go and the route
    overlay of cmd/proxy/abmesh.go

    What a proxy learns from its peers, how it is overlaid on the groups a
    refresh assembled, and what the proxy advertises itself. A peer's
    experiments come validated: [abPeerExp] is what validatePeerExperiments
    keeps, and [fingerprint] its summary for change detection. *)
From S2P Require Import Prelude GoString Float64 Http Balancer.
Open Scope string_scope.

Record peerRouteInfo := mkInfo {
  i_Host : string;
  i_PathPrefix : string;
  i_StripPrefix : bool;
  i_Name : string;
  i_Service : string;
  i_Backends : Z;
  i_Weight : Z;
  i_RateLimit : bool;
  i_RateRPM : Z;
  i_Spread : bool;
  i_ABID : string;
  i_BBackends : Z;
  i_BWeight : Z;
}.

Record learnedRoute := mkLearned {
  lr_peerID : string;
  lr_advertise : string;
  lr_name : string;
  lr_stripPrefix : bool;
  lr_rateLimit : bool;
  lr_rateRPM : Z;
  lr_spread : bool;
  lr_service : string;
  lr_backends : Z;
  lr_weight : Z;
  lr_abID : string;
  lr_bBackends : Z;
  lr_bWeight : Z;
  lr_lastSeen : Z;
}.

(** The fields of an [abPeerExp] that routing reads. *)
Record abPeerExp := mkExp {
  e_service : string;
  e_id : string;
  e_cfg : abConfig;
  e_phase : string;
  e_phaseAt : Z;
  e_latched : bool;
  e_bBackends : Z;
}.

Record PeerRouteStore := mkStore {
  s_routes : gmap string (gmap string learnedRoute);   (* by host|path, then peer *)
  s_ttl : Z;
  s_exps : gmap string (gmap string abPeerExp);        (* by peer, then service *)
  s_expSeen : gmap string Z;
}.

Definition newPeerRouteStore (ttl : Z) : PeerRouteStore := mkStore ∅ ttl ∅ ∅.
Definition set_routes (m : gmap string (gmap string learnedRoute)) (s : PeerRouteStore) : PeerRouteStore :=
  mkStore m (s_ttl s) (s_exps s) (s_expSeen s).
Definition set_exps (e : gmap string (gmap string abPeerExp)) (t : gmap string Z) (s : PeerRouteStore)
  : PeerRouteStore := mkStore (s_routes s) (s_ttl s) e t.

Definition routeKey (host path : string) : string := host +:+ "|" +:+ path.
(** [strings.SplitN(key, "|", 2)]. *)
Definition splitRouteKey (key : string) : string * string := default (key, "") (Cut key "|").

Definition peerWeight (r : peerRouteInfo) : Z := if decide (i_Weight r > 0) then i_Weight r else i_Backends r.

(** [abIDRe]. *)
Definition abIDRe (s : string) : bool :=
  bool_decide (4 <= len s <= 16) && all_bytes (fun c => in_range c "a" "z" || is_digit c) s.

Definition peerRouteAB (r : peerRouteInfo) : string * Z * Z :=
  if decide (i_ABID r = "") then ("", 0, 0)
  else if negb (abIDRe (i_ABID r)) then ("", 0, 0)
  else if decide (i_BBackends r <= 0 \/ i_BBackends r > i_Backends r \/ i_BWeight r < 0) then ("", 0, 0)
  else let bw := if decide (i_BWeight r = 0) then i_BBackends r else i_BWeight r in
       if decide (bw > peerWeight r) then ("", 0, 0) else (i_ABID r, i_BBackends r, bw).

(** ** Receiving a push *)

Section store.
Context `{MapRange} (fingerprint : abPeerExp -> string).

Definition learn (peer advertise : string) (now : Z) (r : peerRouteInfo) : learnedRoute :=
  let '(abID, bBackends, bWeight) := peerRouteAB r in
  mkLearned peer advertise (i_Name r) (i_StripPrefix r) (i_RateLimit r) (i_RateRPM r) (i_Spread r) (i_Service r)
    (i_Backends r) (peerWeight r) abID bBackends bWeight now.

(** What makes a refresh necessary about a route already known. *)
Definition route_changed (prev : option learnedRoute) (r : peerRouteInfo) : bool :=
  let '(abID, bBackends, bWeight) := peerRouteAB r in
  match prev with
  | None => true
  | Some p =>
      negb (Bool.eqb (lr_spread p) (i_Spread r)) || negb (bool_decide (lr_weight p = peerWeight r)) ||
      negb (bool_decide (lr_abID p = abID)) || negb (bool_decide (lr_bBackends p = bBackends)) ||
      negb (bool_decide (lr_bWeight p = bWeight)) ||
      (negb (bool_decide (abID = "")) && negb (bool_decide (lr_backends p = i_Backends r)))
  end.

Fixpoint merge_routes (peer advertise : string) (now : Z) (rs : list peerRouteInfo)
    (m : gmap string (gmap string learnedRoute)) (changed : bool)
  : gmap string (gmap string learnedRoute) * bool :=
  match rs with
  | [] => (m, changed)
  | r :: rs =>
      if decide (i_Backends r <= 0) then merge_routes peer advertise now rs m changed
      else
        let key := routeKey (i_Host r) (i_PathPrefix r) in
        let peers := default ∅ (m !! key) in
        let changed := changed || bool_decide (m !! key = None) || route_changed (peers !! peer) r in
        merge_routes peer advertise now rs (<[key := <[peer := learn peer advertise now r]> peers]> m) changed
  end.

Definition exps_changed (prev exps : gmap string abPeerExp) : bool :=
  negb (bool_decide (size prev = size exps)) ||
  existsb (fun '(svc, e) => match prev !! svc with
                            | None => true
                            | Some p => negb (bool_decide (fingerprint p = fingerprint e))
                            end) (range_list exps).

(** [merge] of a payload whose experiments validated to [exps]. *)
Definition merge (peer advertise : string) (routes : list peerRouteInfo) (exps : gmap string abPeerExp) (now : Z)
    (s : PeerRouteStore) : bool * PeerRouteStore :=
  let changed := exps_changed (default ∅ (s_exps s !! peer)) exps in
  let s := if decide (exps = ∅) then set_exps (delete peer (s_exps s)) (delete peer (s_expSeen s)) s
           else set_exps (<[peer := exps]> (s_exps s)) (<[peer := now]> (s_expSeen s)) s in
  let '(m, changed) := merge_routes peer advertise now routes (s_routes s) changed in
  (changed, set_routes m s).

(** ** Overlay *)

Inductive learnedABSplit := abSplitLegacy | abSplitAOnly | abSplitBoth.

Definition exp_of (s : PeerRouteStore) (peer svc : string) : option abPeerExp := m ← s_exps s !! peer; m !! svc.

(** Whether a peer's experiment is the test [testID]. *)
Definition runs_test (s : PeerRouteStore) (peer svc testID : string) : bool :=
  match exp_of s peer svc with Some e => bool_decide (e_id e = testID) | None => false end.

Definition abSplitFor (s : PeerRouteStore) (g : RouteGroup) (testID : string) (lr : learnedRoute) : learnedABSplit :=
  if decide (testID = "") then abSplitLegacy
  else if g_static g then abSplitLegacy
  else if decide (lr_abID lr = "" \/ lr_bBackends lr <= 0) then abSplitLegacy
  else if negb (bool_decide (lr_abID lr = testID)) then abSplitAOnly
  else if runs_test s (lr_peerID lr) (g_Service g) testID then abSplitBoth else abSplitAOnly.

(** The peer's B side. *)
Definition as_variant_B (lr : learnedRoute) (b : Backend) : Backend :=
  mkBackend (b_URL b) (b_Weight b) ("peer:" +:+ lr_peerID lr +:+ ":B") (b_HealthPath b) (b_proxy b) (b_healthyFlag b)
    (backendStickyID (lr_advertise lr +:+ "|B")) (b_consecFails b) (b_DockerUnhealthy b) (b_Learned b) (b_PeerID b)
    "B" (b_peerTestID b) (b_ContainerID b) (b_draining b) (b_transport b).

(** [makePeerBackendAuth]; [parses] says which URLs [url.Parse] accepts. *)
Definition makePeerBackendAuth (parses : string -> bool) (lr : learnedRoute) (weight : Z) : option Backend :=
  if parses (lr_advertise lr) then Some (makePeerBackend (lr_advertise lr) (lr_peerID lr) weight) else None.

Definition peerBackendsFor (parses : string -> bool) (lr : learnedRoute) (split : learnedABSplit) : list Backend :=
  match split with
  | abSplitLegacy => option_list (makePeerBackendAuth parses lr (lr_weight lr))
  | _ =>
      (if decide (lr_backends lr - lr_bBackends lr > 0)
       then option_list (makePeerBackendAuth parses lr (lr_weight lr - lr_bWeight lr)) else []) ++
      match split with
      | abSplitBoth => option_list (as_variant_B lr <$> makePeerBackendAuth parses lr (lr_bWeight lr))
      | _ => []
      end
  end%list.

Fixpoint local_tests (gs : list RouteGroup) (ids : gmap string string) : gmap string string :=
  match gs with
  | [] => ids
  | g :: gs =>
      local_tests gs
        (if g_static g || bool_decide (g_Service g = "") then ids
         else match g_abCfg g, g_abLocal g with
              | Some c, _ | None, Some c => <[g_Service g := ab_ID c]> ids
              | None, None => ids
              end)
  end.

Definition better_exp (cur : option abPeerExp) (e : abPeerExp) : bool :=
  match cur with
  | None => true
  | Some c => (e_id e <? e_id c)%string || (bool_decide (e_id e = e_id c) && bool_decide (e_phaseAt e > e_phaseAt c))
  end.

Definition sorted_keys {A} (m : gmap string A) : list string := merge_sort String.le (range_list m).*1.

Definition adopt_peer (ids : gmap string string) (exps : gmap string abPeerExp) (adopt : gmap string abPeerExp)
  : gmap string abPeerExp :=
  fold_left (fun adopt '(svc, e) =>
    if decide (is_Some (ids !! svc) \/ e_bBackends e <= 0) then adopt
    else if better_exp (adopt !! svc) e then <[svc := e]> adopt else adopt) (range_list exps) adopt.

Definition abTestIDs (s : PeerRouteStore) (gs : list RouteGroup) : gmap string string * gmap string abPeerExp :=
  let ids := local_tests gs ∅ in
  let adopt := fold_left (fun adopt p => adopt_peer ids (default ∅ (s_exps s !! p)) adopt) (sorted_keys (s_exps s)) ∅ in
  ((e_id <$> adopt) ∪ ids, adopt).

(** The groups under construction, where each key's group stands in them, and
    the heap of backends. *)
Record overlaid := mkOverlaid {
  o_groups : list RouteGroup;
  o_byKey : gmap string nat;
  o_heap : gmap loc Backend;
  o_next : loc;
}.

Fixpoint alloc_all (bs : list Backend) (h : gmap loc Backend) (next : loc) : list loc * gmap loc Backend * loc :=
  match bs with
  | [] => ([], h, next)
  | b :: bs => let '(ls, h, n) := alloc_all bs (<[next := b]> h) (Pos.succ next) in (next :: ls, h, n)
  end.

Definition index_groups (gs : list RouteGroup) : gmap string nat :=
  fold_left (fun m '(i, g) => <[routeKey (g_Host g) (g_PathPrefix g) := i]> m) (zip (seq 0 (length gs)) gs) ∅.

Definition entry_expired (s : PeerRouteStore) (now seen : Z) : bool := bool_decide (time_sub now seen > s_ttl s).

(** A group for a route only peers know: their rate limit and service, and this
    host's own replicas of that service. *)
Definition synthesize (host path : string) (lr : learnedRoute) (byService : gmap string (list loc)) : RouteGroup :=
  set_g_Backends (if decide (lr_service lr = "") then [] else default [] (byService !! lr_service lr))
    (set_g_RateRPM (lr_rateRPM lr) (set_g_RateLimit (lr_rateLimit lr)
      (new_group host path (lr_name lr) (lr_service lr) (lr_stripPrefix lr)))).

Section overlay.
Context (parses : string -> bool) (byService : gmap string (list loc)) (now : Z).

(** The backends a fresh peer route contributes to a group. *)
Definition contribution (s : PeerRouteStore) (testIDs : gmap string string) (peerID : string) (lr : learnedRoute)
    (g : RouteGroup) : list Backend :=
  let testID := default "" (testIDs !! g_Service g) in
  let bs := peerBackendsFor parses lr (abSplitFor s g testID lr) in
  if negb (bool_decide (testID = "")) && negb (g_static g) && runs_test s peerID (g_Service g) testID
  then set_peerTestID testID <$> bs else bs.

Definition add_backends (lr : learnedRoute) (ls : list loc) (g : RouteGroup) : RouteGroup :=
  set_g_Backends (g_Backends g ++ ls)%list (if lr_spread lr then set_g_Spread true g else g).

Definition overlay_peer (s : PeerRouteStore) (testIDs : gmap string string) (key : string) (o : overlaid)
    (p : string * learnedRoute) : overlaid :=
  let '(peerID, lr) := p in
  if entry_expired s now (lr_lastSeen lr) then o else
  let '(host, path) := splitRouteKey key in
  let '(i, o) := match o_byKey o !! key with
                 | Some i => (i, o)
                 | None => (length (o_groups o),
                            mkOverlaid (o_groups o ++ [synthesize host path lr byService])%list
                              (<[key := length (o_groups o)]> (o_byKey o)) (o_heap o) (o_next o))
                 end in
  match o_groups o !! i with
  | None => o
  | Some g =>
      match contribution s testIDs peerID lr g with
      | [] => o
      | bs => let '(ls, h, n) := alloc_all bs (o_heap o) (o_next o) in
              mkOverlaid (alter (add_backends lr ls) i (o_groups o)) (o_byKey o) h n
      end
  end.

Definition overlay_routes (s : PeerRouteStore) (testIDs : gmap string string) (o : overlaid) : overlaid :=
  fold_left (fun o '(key, peers) => fold_left (overlay_peer s testIDs key) (range_list peers) o)
    (range_list (s_routes s)) o.

(** The entries the loops drop: experiments first, then routes, and the keys
    left without a peer. *)
Definition evict_exps (s : PeerRouteStore) : PeerRouteStore :=
  let gone p := match s_expSeen s !! p with Some t => entry_expired s now t | None => false end in
  set_exps (filter (fun pe => gone (fst pe) = false) (s_exps s)) (filter (fun pt => gone (fst pt) = false) (s_expSeen s)) s.
Definition evict_routes (s : PeerRouteStore) : PeerRouteStore :=
  set_routes
    (omap (fun peers =>
       let kept := filter (fun pl => entry_expired s now (lr_lastSeen (snd pl)) = false) peers in
       if decide (kept = ∅) then None else Some kept) (s_routes s)) s.

Definition hasBBackend (h : gmap loc Backend) (g : RouteGroup) : bool :=
  existsb (fun l => match h !! l with Some b => bool_decide (b_Variant b = "B") | None => false end) (g_Backends g).

Definition abAttach1 (h : gmap loc Backend) (adopt : gmap string abPeerExp) (g : RouteGroup) : RouteGroup :=
  if bool_decide (is_Some (g_abCfg g)) || g_static g || negb (hasBBackend h g) then g
  else match g_abLocal g with
       | Some c => set_g_abCfg (Some c) g
       | None => match adopt !! g_Service g with
                 | Some e => set_g_abCfg (Some (e_cfg e)) g
                 | None => g
                 end
       end.
Definition abAttach (h : gmap loc Backend) (adopt : gmap string abPeerExp) (gs : list RouteGroup) : list RouteGroup :=
  abAttach1 h adopt <$> gs.

Definition overlay (gs : list RouteGroup) (h : gmap loc Backend) (next : loc) (s : PeerRouteStore)
  : list RouteGroup * gmap loc Backend * loc * PeerRouteStore :=
  let s := evict_exps s in
  let '(testIDs, adopt) := abTestIDs s gs in
  let o := overlay_routes s testIDs (mkOverlaid gs (index_groups gs) h next) in
  (abAttach (o_heap o) adopt (o_groups o), o_heap o, o_next o, evict_routes s).
End overlay.

Definition hasExpired (s : PeerRouteStore) (now : Z) : bool :=
  existsb (fun '(_, peers) => existsb (fun '(_, lr) => entry_expired s now (lr_lastSeen lr)) (range_list peers))
    (range_list (s_routes s)) ||
  existsb (fun '(_, seen) => entry_expired s now seen) (range_list (s_expSeen s)).
End store.

(** ** Advertising *)

(** A backend this host vouches for: its own, and not about to exit. *)
Definition advertisable (b : Backend) : bool := negb (b_Learned b) && negb (b_draining b).

Definition count1 (h : gmap loc Backend) (acc : Z * Z * Z * Z) (l : loc) : Z * Z * Z * Z :=
  let '(n, w, bn, bw) := acc in
  match h !! l with
  | Some b => if advertisable b then
                let isB := bool_decide (b_Variant b = "B") in
                (n + 1, sint 64 (w + b_Weight b), (if isB then bn + 1 else bn),
                 (if isB then sint 64 (bw + b_Weight b) else bw))
              else acc
  | None => acc
  end.
Definition count_local (h : gmap loc Backend) (ls : list loc) : Z * Z * Z * Z := fold_left (count1 h) ls (0, 0, 0, 0).

Definition advertise (h : gmap loc Backend) (g : RouteGroup) : option peerRouteInfo :=
  let '(n, w, bn, bw) := count_local h (g_Backends g) in
  if decide (n = 0) then None else
  let '(id, bn, bw) := match g_abCfg g with
                       | Some c => if decide (bn > 0) then (ab_ID c, bn, bw) else ("", 0, 0)
                       | None => ("", 0, 0)
                       end in
  Some (mkInfo (g_Host g) (g_PathPrefix g) (g_StripPrefix g) (g_Name g) (g_Service g) n w (g_RateLimit g) (g_RateRPM g)
          (g_SpreadLocal g) id bn bw).

(** The routes of [buildPeerPayload]; nothing is sent when there are none. *)
Definition payload_routes (h : gmap loc Backend) (gs : list RouteGroup) : list peerRouteInfo := omap (advertise h) gs.

(** ** The endpoint *)

Record push := mkPush {
  pu_peer : string; pu_advertise : string; pu_routes : list peerRouteInfo; pu_exps : gmap string abPeerExp }.

(** [peerRoutesHandler]: the status, the store, and whether a refresh is run.
    [payload] is what the body decodes to. *)
Definition peerRoutesHandler `{MapRange} (fingerprint : abPeerExp -> string) (secret method authorization : string)
    (payload : option push) (now : Z) (s : PeerRouteStore) : Z * PeerRouteStore * bool :=
  if decide (secret = "") then (404, s, false)
  else if negb (bool_decide (method = "POST")) then (405, s, false)
  else if negb (bool_decide (authorization = ("Bearer " +:+ secret)%string)) then (401, s, false)
  else match payload with
       | None => (400, s, false)
       | Some p =>
           let '(changed, s) := merge fingerprint (pu_peer p) (pu_advertise p) (pu_routes p) (pu_exps p) now s in
           (204, s, changed)
       end.

(** * Properties *)

(** ** The store *)

Definition key_ok (key : string) : Prop := has_byte "|" key = true.
(** What [merge] and [overlay] keep: every key is host|path and has a peer, and
    each entry is filed under the peer it is from. *)
Definition store_ok (s : PeerRouteStore) : Prop :=
  forall key peers, s_routes s !! key = Some peers ->
    key_ok key /\ peers <> ∅ /\ forall pid lr, peers !! pid = Some lr -> lr_peerID lr = pid.

Lemma routeKey_ok h p : key_ok (routeKey h p).
Proof. unfold key_ok, routeKey. rewrite has_byte_app. cbn. apply orb_true_r. Qed.

Lemma splitRouteKey_key key : key_ok key -> routeKey (fst (splitRouteKey key)) (snd (splitRouteKey key)) = key.
Proof.
  unfold key_ok, splitRouteKey, routeKey. intros Hk. destruct (Cut key "|") as [[a b]|] eqn:Hc; cbn [default fst snd].
  - by apply Cut_Some in Hc as [-> _].
  - exfalso. revert Hk Hc. induction key as [|c key IH]; [done|]. unfold has_byte in *. cbn.
    destruct (Ascii.eqb c "|"); [done|]. cbn. intros Hk. specialize (IH Hk). destruct (Cut key "|") as [[]|]; [done|].
    by intros _; apply IH.
Qed.

Section facts.
Context `{MapRange} (fingerprint : abPeerExp -> string).

Lemma merge_routes_ok peer adv now rs m c s :
  store_ok (set_routes m s) -> store_ok (set_routes (fst (merge_routes peer adv now rs m c)) s).
Proof.
  revert m c. induction rs as [|r rs IH]; intros m c Hok; [done|]. cbn [merge_routes]. case_decide; [by apply IH|].
  apply IH. intros key peers. cbn [set_routes s_routes]. destruct (decide (key = routeKey (i_Host r) (i_PathPrefix r))) as [->|Hne].
  - rewrite lookup_insert_eq. intros [= <-]. split_and!; [apply routeKey_ok|apply insert_non_empty|].
    intros pid lr. destruct (decide (pid = peer)) as [->|Hp].
    + rewrite lookup_insert_eq. intros [= <-]. unfold learn. by destruct (peerRouteAB r) as [[? ?] ?].
    + rewrite lookup_insert_ne by done. destruct (m !! _) as [old|] eqn:Hm; cbn [default from_option id].
      * by apply (Hok _ _ Hm).
      * by rewrite lookup_empty.
  - rewrite lookup_insert_ne by done. apply Hok.
Qed.

Lemma merge_ok peer adv rs exps now s :
  store_ok s -> store_ok (snd (merge fingerprint peer adv rs exps now s)).
Proof.
  intros Hok. unfold merge. set (s1 := if decide (exps = ∅) then _ else _).
  assert (s_routes s1 = s_routes s) as Hr by (unfold s1; by case_decide).
  destruct (merge_routes _ _ _ _ _ _) as [m c] eqn:Hm. cbn [snd].
  pose proof (merge_routes_ok peer adv now rs (s_routes s1)
    (exps_changed fingerprint (default ∅ (s_exps s !! peer)) exps) s1) as Hmr.
  rewrite Hm in Hmr. apply Hmr. unfold store_ok. cbn [set_routes s_routes]. rewrite Hr. exact Hok.
Qed.

Lemma evict_exps_routes now s : s_routes (evict_exps now s) = s_routes s.
Proof. done. Qed.
Lemma evict_exps_ttl now s : s_ttl (evict_exps now s) = s_ttl s.
Proof. done. Qed.

Lemma evict_routes_lookup now s key kept :
  s_routes (evict_routes now s) !! key = Some kept ->
  exists peers, s_routes s !! key = Some peers /\ kept <> ∅ /\
    kept = filter (fun pl => entry_expired s now (lr_lastSeen (snd pl)) = false) peers.
Proof.
  cbn [evict_routes set_routes s_routes]. rewrite lookup_omap. destruct (s_routes s !! key) as [peers|]; cbn; [|done].
  case_decide as Hk; [done|]. intros [= <-]. by exists peers.
Qed.

Lemma overlay_store parses byS now gs h n s :
  snd (overlay parses byS now gs h n s) = evict_routes now (evict_exps now s).
Proof. unfold overlay. by destruct (abTestIDs _ _). Qed.

Lemma overlay_store_ok parses byS now gs h n s :
  store_ok s -> store_ok (snd (overlay parses byS now gs h n s)).
Proof.
  intros Hok. rewrite overlay_store. intros key kept (peers & Hp & Hne & ->)%evict_routes_lookup.
  destruct (Hok _ _ Hp) as (Hk & _ & Hid). split_and!; [done|done|].
  intros pid lr [Hl _]%map_lookup_filter_Some. by apply Hid.
Qed.

(** The stores pushes and refreshes lead to. *)
Inductive store_reach : PeerRouteStore -> Prop :=
| SR_new ttl : store_reach (newPeerRouteStore ttl)
| SR_merge peer adv rs exps now s :
    store_reach s -> store_reach (snd (merge fingerprint peer adv rs exps now s))
| SR_overlay parses byS now gs h n s :
    store_reach s -> store_reach (snd (overlay parses byS now gs h n s)).

Lemma store_reach_ok s : store_reach s -> store_ok s.
Proof.
  induction 1; [|by apply merge_ok|by apply overlay_store_ok]. intros key peers. cbn. by rewrite lookup_empty.
Qed.

Lemma existsb_false {A} (f : A -> bool) l : existsb f l = false <-> forall x, x ∈ l -> f x = false.
Proof.
  induction l as [|x l IH]; cbn; [split; [intros _ x Hx; by apply not_elem_of_nil in Hx|done]|].
  rewrite orb_false_iff, IH. split.
  - intros [Hx Hl] y [->|Hy]%elem_of_cons; auto.
  - intros Hall. split; [apply Hall; by left|]. intros y Hy. apply Hall. by right.
Qed.

Lemma hasExpired_false s now :
  hasExpired s now = false <->
  (forall key peers pid lr, s_routes s !! key = Some peers -> peers !! pid = Some lr ->
     entry_expired s now (lr_lastSeen lr) = false) /\
  (forall p t, s_expSeen s !! p = Some t -> entry_expired s now t = false).
Proof.
  unfold hasExpired. rewrite orb_false_iff, !existsb_false. split.
  - intros [H1 H2]. split.
    + intros key peers pid lr Hk Hp. specialize (H1 (key, peers) ltac:(by apply elem_of_range)).
      cbn in H1. rewrite existsb_false in H1. by apply (H1 (pid, lr)), elem_of_range.
    + intros p t Hp. by apply (H2 (p, t)), elem_of_range.
  - intros [H1 H2]. split.
    + intros [key peers] Hk%elem_of_range. apply existsb_false. intros [pid lr] Hp%elem_of_range. by eapply H1.
    + intros [p t] Hp%elem_of_range. by eapply H2.
Qed.

(** [hasExpired] and [overlay] never disagree: for every store pushes and
    refreshes lead to, at a given time, [hasExpired] is false exactly when
    [overlay] leaves the store as it is, and after [overlay] it is false. *)
Theorem hasExpired_iff_evicts parses byS now gs h n s :
  store_reach s ->
  (hasExpired s now = false <-> snd (overlay parses byS now gs h n s) = s) /\
  hasExpired (snd (overlay parses byS now gs h n s)) now = false.
Proof.
  intros Hok%store_reach_ok. rewrite overlay_store.
  assert (hasExpired (evict_routes now (evict_exps now s)) now = false) as Hafter.
  { apply hasExpired_false. split.
    - intros key kept pid lr (peers & _ & _ & ->)%evict_routes_lookup [_ Hf]%map_lookup_filter_Some. exact Hf.
    - intros p t [Ht Hg]%map_lookup_filter_Some. cbn [fst] in Hg. by rewrite Ht in Hg. }
  split; [|exact Hafter]. split; [|intros Heq; by rewrite Heq in Hafter].
  rewrite hasExpired_false. intros [Hr He]. destruct s as [rs ttl exps seen].
  unfold evict_routes, evict_exps, set_routes, set_exps. cbn [s_routes s_ttl s_exps s_expSeen] in *. f_equal.
  - apply map_eq. intros key. rewrite lookup_omap. destruct (rs !! key) as [peers|] eqn:Hk; cbn; [|done].
    rewrite map_filter_id.
    + destruct (Hok key peers Hk) as (_ & Hne & _). by rewrite decide_False.
    + intros pid lr Hp. by eapply Hr.
  - apply map_filter_id. intros p m Hm. cbn. destruct (seen !! p) as [t|] eqn:Ht; [|done]. by eapply He.
  - apply map_filter_id. intros p t Ht. cbn. rewrite Ht. by eapply He.
Qed.
End facts.

(** ** The overlay *)

Section overlay_facts.
Context `{MapRange} (parses : string -> bool) (byService : gmap string (list loc)) (now : Z).

(** A live entry of the store under a key. *)
Definition fresh_entry (s : PeerRouteStore) (key : string) (lr : learnedRoute) : Prop :=
  exists peers pid, s_routes s !! key = Some peers /\ peers !! pid = Some lr /\
    entry_expired s now (lr_lastSeen lr) = false.

(** A backend that forwards to a peer which advertised the route in time. *)
Definition from_peer (s : PeerRouteStore) (h : gmap loc Backend) (key : string) (l : loc) : Prop :=
  exists b lr, h !! l = Some b /\ fresh_entry s key lr /\
    b_Learned b = true /\ b_PeerID b = lr_peerID lr /\ b_URL b = lr_advertise lr /\ 1 <= b_Weight b.

(** A test that a peer, heard of in time, advertised for a service it runs B
    replicas of. *)
Definition peer_test (s : PeerRouteStore) (svc : string) (c : abConfig) : Prop :=
  exists pid es e, s_exps s !! pid = Some es /\ es !! svc = Some e /\ 0 < e_bBackends e /\ c = e_cfg e /\
    forall t, s_expSeen s !! pid = Some t -> entry_expired s now t = false.

Definition has_b (h : gmap loc Backend) (g : RouteGroup) : Prop :=
  exists l b, l ∈ g_Backends g /\ h !! l = Some b /\ b_Variant b = "B".

(** How a group's test may change: not at all when it has one, or for a group of
    routes.json. A group without one may get the test of its own labels, or a
    peer's when it has no labels of its own; and only with a B backend. *)
Definition test_attached (s : PeerRouteStore) (h : gmap loc Backend) (g g' : RouteGroup) : Prop :=
  g_abCfg g' = g_abCfg g \/
  (g_abCfg g = None /\ g_static g = false /\ has_b h g' /\ exists c, g_abCfg g' = Some c /\
     (g_abLocal g = Some c \/ (g_abLocal g = None /\ peer_test s (g_Service g) c))).

(** A group without its backends, its spread flag and its test. *)
Definition own_config (g : RouteGroup) : RouteGroup := set_g_Backends [] (set_g_Spread false (set_g_abCfg None g)).

Definition g_key (g : RouteGroup) : string := routeKey (g_Host g) (g_PathPrefix g).

Record grown (s : PeerRouteStore) (h : gmap loc Backend) (g g' : RouteGroup) : Prop := {
  gr_config : own_config g' = own_config g;
  gr_backends : exists ls, g_Backends g' = (g_Backends g ++ ls)%list /\ Forall (from_peer s h (g_key g)) ls;
  gr_spread : g_Spread g' = true -> g_Spread g = true \/ exists lr, fresh_entry s (g_key g) lr /\ lr_spread lr = true;
  gr_test : test_attached s h g g';
}.

Definition synthesized (s : PeerRouteStore) (g : RouteGroup) : Prop :=
  exists key lr, fresh_entry s key lr /\
    g = synthesize (fst (splitRouteKey key)) (snd (splitRouteKey key)) lr byService /\ g_key g = key.

Definition heap_fresh (h : gmap loc Backend) (n : loc) : Prop := forall l, (n <= l)%positive -> h !! l = None.

Lemma from_peer_mono s h h' key l : h ⊆ h' -> from_peer s h key l -> from_peer s h' key l.
Proof. intros Hs (b & lr & Hl & ?). exists b, lr. split; [by eapply lookup_weaken|done]. Qed.
Lemma grown_mono s h h' g g' : h ⊆ h' -> grown s h g g' -> grown s h' g g'.
Proof.
  intros Hs [Hc (ls & Hb & Hl) Hsp Ht]. split; [done| |done|].
  - exists ls. split; [done|]. eapply Forall_impl; [done|]. intros l. by apply from_peer_mono.
  - destruct Ht as [?|(? & ? & (l & b & Hin & Hlb & Hv) & ?)]; [by left|right]. split_and!; try done. exists l, b. split_and!; try done.
    by eapply lookup_weaken.
Qed.
Lemma grown_refl s h g : grown s h g g.
Proof. split; [done| |by left|by left]. exists []. by rewrite app_nil_r. Qed.

Lemma config_key g g' : own_config g' = own_config g -> g_key g' = g_key g.
Proof. destruct g, g'. unfold own_config, g_key. cbn. by intros [=]; subst. Qed.

Lemma alloc_all_spec bs h n ls h' n' :
  alloc_all bs h n = (ls, h', n') -> heap_fresh h n ->
  heap_fresh h' n' /\ h ⊆ h' /\ Forall2 (fun l b => h' !! l = Some b) ls bs.
Proof.
  revert h n ls h' n'. induction bs as [|b bs IH]; intros h n ls h' n'; cbn [alloc_all].
  { intros [= <- <- <-] Hf. split_and!; [done|done|constructor]. }
  destruct (alloc_all bs _ _) as [[ls1 h1] n1] eqn:Ha. intros [= <- <- <-] Hf.
  destruct (IH _ _ _ _ _ Ha) as (Hf1 & Hs1 & Hl1).
  { intros l Hl. rewrite lookup_insert_ne by lia. apply Hf. lia. }
  assert (h ⊆ <[n:=b]> h) as Hs0 by (apply insert_subseteq, Hf; lia).
  split_and!; [done|by etrans|]. constructor; [|done]. eapply lookup_weaken; [|done]. apply lookup_insert_eq.
Qed.

Lemma makePeerBackendAuth_spec lr w b :
  b ∈ option_list (makePeerBackendAuth parses lr w) ->
  b_Learned b = true /\ b_PeerID b = lr_peerID lr /\ b_URL b = lr_advertise lr /\ 1 <= b_Weight b.
Proof.
  unfold makePeerBackendAuth. destruct (parses _); cbn; [|intros Hb; by apply not_elem_of_nil in Hb].
  intros ->%list_elem_of_singleton. cbn. split_and!; try done. case_decide; lia.
Qed.

Lemma contribution_spec s tests pid lr g b :
  b ∈ contribution parses s tests pid lr g ->
  b_Learned b = true /\ b_PeerID b = lr_peerID lr /\ b_URL b = lr_advertise lr /\ 1 <= b_Weight b.
Proof.
  unfold contribution. assert (forall b, b ∈ peerBackendsFor parses lr (abSplitFor s g (default "" (tests !! g_Service g)) lr) ->
    b_Learned b = true /\ b_PeerID b = lr_peerID lr /\ b_URL b = lr_advertise lr /\ 1 <= b_Weight b) as Hb.
  { clear b. intros b. unfold peerBackendsFor. destruct (abSplitFor _ _ _ _); [apply makePeerBackendAuth_spec|..];
      rewrite elem_of_app; (intros [Hb|Hb]; [case_decide; [by eapply makePeerBackendAuth_spec|by apply not_elem_of_nil in Hb]|]).
    - by apply not_elem_of_nil in Hb.
    - destruct (makePeerBackendAuth parses lr (lr_bWeight lr)) as [b0|] eqn:Hm; cbn in Hb; [|by apply not_elem_of_nil in Hb].
      apply list_elem_of_singleton in Hb as ->.
      apply (makePeerBackendAuth_spec lr (lr_bWeight lr) b0). rewrite Hm. by left. }
  destruct (_ && _); [|apply Hb]. intros (b0 & -> & Hb0)%list_elem_of_fmap. exact (Hb b0 Hb0).
Qed.

Record overlay_inv (s : PeerRouteStore) (h0 : gmap loc Backend) (gs : list RouteGroup) (o : overlaid) : Prop := {
  oi_fresh : heap_fresh (o_heap o) (o_next o);
  oi_heap : h0 ⊆ o_heap o;
  oi_groups : exists syn, Forall (synthesized s) syn /\ Forall2 (grown s (o_heap o)) (gs ++ syn)%list (o_groups o);
  oi_index : forall key i, o_byKey o !! key = Some i -> exists g, o_groups o !! i = Some g /\ g_key g = key;
}.

Lemma grow s h h' lr ls bs g g' :
  grown s h g g' -> h ⊆ h' -> fresh_entry s (g_key g) lr ->
  Forall2 (fun l b => h' !! l = Some b) ls bs ->
  (forall b, b ∈ bs -> b_Learned b = true /\ b_PeerID b = lr_peerID lr /\ b_URL b = lr_advertise lr /\ 1 <= b_Weight b) ->
  grown s h' g (add_backends lr ls g').
Proof.
  intros Hg Hs Hf Hls Hbs. apply (grown_mono s h h') in Hg as [Hc (ls0 & Hb & Hl) Hsp Ht]; [|done]. unfold add_backends.
  assert (g_Backends (if lr_spread lr then set_g_Spread true g' else g') = g_Backends g') as Hbk by by destruct (lr_spread lr).
  split.
  - rewrite <- Hc. by destruct (lr_spread lr).
  - exists (ls0 ++ ls)%list. split; [cbn; by rewrite Hb, app_assoc|]. apply Forall_app. split; [done|].
    apply Forall_forall. intros l Hel. eapply list_elem_of_lookup in Hel as [i Hi].
    eapply Forall2_lookup_l in Hls as (b & Hbi & Hlb); [|done]. exists b, lr. split; [done|]. split; [done|].
    apply Hbs. by eapply list_elem_of_lookup_2.
  - intros Hs'. destruct (lr_spread lr) eqn:Hsl; [right; by exists lr|]. apply Hsp. by cbn in Hs'.
  - assert (g_abCfg (if lr_spread lr then set_g_Spread true g' else g') = g_abCfg g') as Ha by by destruct (lr_spread lr).
    unfold test_attached. cbn [set_g_Backends g_abCfg]. rewrite Ha. destruct Ht as [?|(? & ? & (l & b & Hin & Hlb & Hv) & ?)]; [by left|right].
    split_and!; try done. exists l, b. split_and!; try done. cbn [set_g_Backends g_Backends]. apply elem_of_app. by left.
Qed.

Lemma overlay_peer_inv s h0 gs tests key o pid lr :
  key_ok key -> (exists peers, s_routes s !! key = Some peers /\ peers !! pid = Some lr) ->
  overlay_inv s h0 gs o -> overlay_inv s h0 gs (overlay_peer parses byService now s tests key o (pid, lr)).
Proof.
  intros Hkey (peers & Hpeers & Hlr) Hinv. unfold overlay_peer. destruct (entry_expired _ _ _) eqn:Hexp; [done|].
  assert (fresh_entry s key lr) as Hfresh by by exists peers, pid.
  pose proof (splitRouteKey_key key Hkey) as Hsplit. destruct (splitRouteKey key) as [host path] eqn:Hhp. cbn [fst snd] in Hsplit.
  set (io := match o_byKey o !! key with Some i => (i, o) | None => _ end).
  assert (overlay_inv s h0 gs (snd io) /\ exists g, o_groups (snd io) !! fst io = Some g /\ g_key g = key) as [Hinv1 (g & Hg & Hgk)].
  { unfold io. destruct (o_byKey o !! key) as [i|] eqn:Hi; cbn [fst snd].
    { split; [done|]. by apply (oi_index _ _ _ _ Hinv). }
    destruct Hinv as [H1 H2 (syn & Hsyn & Hgr) H4].
    set (g := synthesize host path lr byService). assert (g_key g = key) as Hgk by done. split.
    - split; cbn [o_groups o_byKey o_heap o_next]; [done|done| |].
      + exists (syn ++ [g])%list. split.
        * apply Forall_app. split; [done|]. apply Forall_singleton. exists key, lr. by rewrite Hhp.
        * rewrite app_assoc. apply Forall2_app; [done|]. constructor; [apply grown_refl|constructor].
      + intros k i. destruct (decide (k = key)) as [->|Hne].
        * rewrite lookup_insert_eq. intros [= <-]. exists g. split; [|done]. by rewrite lookup_app_r, Nat.sub_diag by lia.
        * rewrite lookup_insert_ne by done. intros (g0 & Hg0 & Hk0)%H4. exists g0. split; [|done]. by apply lookup_app_l_Some.
    - exists g. split; [|done]. cbn [o_groups]. by rewrite lookup_app_r, Nat.sub_diag by lia. }
  destruct io as [i o1]. cbn [fst snd] in *. rewrite Hg.
  destruct (contribution parses s tests pid lr g) as [|b0 bs0] eqn:Hbs; [done|]. set (bs := b0 :: bs0) in *.
  destruct (alloc_all bs (o_heap o1) (o_next o1)) as [[ls h1] n1] eqn:Ha.
  destruct Hinv1 as [H1 H2 (syn & Hsyn & Hgr) H4].
  destruct (alloc_all_spec _ _ _ _ _ _ Ha H1) as (Hf1 & Hs1 & Hls).
  split; cbn [o_groups o_byKey o_heap o_next]; [done|by etrans| |].
  - exists syn. split; [done|]. apply Forall2_alter_r.
    + eapply Forall2_impl; [done|]. intros x y. by apply grown_mono.
    + intros x y Hx Hy Hxy. rewrite Hg in Hy. injection Hy as <-.
      eapply grow; [by eapply Forall2_lookup_lr|done| |done|].
      * by rewrite <- (config_key _ _ (gr_config _ _ _ _ Hxy)), Hgk.
      * intros b Hb. eapply contribution_spec. by rewrite Hbs.
  - intros k j (g0 & Hg0 & Hk0)%H4. destruct (decide (j = i)) as [->|Hne].
    + rewrite list_lookup_alter_eq, Hg0. exists (add_backends lr ls g0). split; [done|]. unfold add_backends.
      by destruct (lr_spread lr).
    + rewrite list_lookup_alter_ne by done. by exists g0.
Qed.

(** Every loop over the store keeps the invariant. *)
Lemma overlay_routes_inv s h0 gs tests o :
  store_ok s -> overlay_inv s h0 gs o -> overlay_inv s h0 gs (overlay_routes parses byService now s tests o).
Proof.
  intros Hok Hinv. unfold overlay_routes.
  assert (forall kp, kp ∈ range_list (s_routes s) -> s_routes s !! fst kp = Some (snd kp)) as Hr.
  { intros [k p]. cbn. by rewrite elem_of_range. }
  revert o Hinv Hr. generalize (range_list (s_routes s)) as l.
  induction l as [|[key peers] l IH]; intros o Hinv Hr; [done|]. cbn [fold_left]. apply IH; [|intros; apply Hr; by right].
  assert (s_routes s !! key = Some peers) as Hk by (apply (Hr (key, peers)); by left).
  destruct (Hok _ _ Hk) as [Hkey _]. clear IH Hr.
  assert (forall pl, pl ∈ range_list peers -> peers !! fst pl = Some (snd pl)) as Hp.
  { intros [p lr]. cbn. by rewrite elem_of_range. }
  revert o Hinv Hp. generalize (range_list peers) as ps.
  induction ps as [|[pid lr] ps IH]; intros o Hinv Hp; [done|]. cbn [fold_left].
  apply IH; [|intros; apply Hp; by right]. apply overlay_peer_inv; [done| |done].
  exists peers. split; [done|]. apply (Hp (pid, lr)). by left.
Qed.

Lemma index_groups_ok gs key i :
  index_groups gs !! key = Some i -> exists g, gs !! i = Some g /\ g_key g = key.
Proof.
  unfold index_groups.
  assert (forall l (m : gmap string nat),
    (forall p, p ∈ l -> gs !! fst p = Some (snd p)) ->
    (forall k i, m !! k = Some i -> exists g, gs !! i = Some g /\ g_key g = k) ->
    forall k i, fold_left (fun m '(i, g) => <[routeKey (g_Host g) (g_PathPrefix g) := i]> m) l m !! k = Some i ->
    exists g, gs !! i = Some g /\ g_key g = k) as Hgen.
  { induction l as [|[j g] l IH]; intros m Hl Hm k i'; [apply Hm|]. cbn [fold_left].
    apply IH; [intros p Hp; apply Hl; by right|]. intros k' i2.
    destruct (decide (k' = routeKey (g_Host g) (g_PathPrefix g))) as [->|Hne].
    - rewrite lookup_insert_eq. intros [= <-]. exists g. split; [|done]. apply (Hl (j, g)). by left.
    - rewrite lookup_insert_ne by done. apply Hm. }
  apply Hgen.
  - intros [j g] (k & Hk)%list_elem_of_lookup. cbn. apply lookup_zip_with_Some in Hk as (x & y & [= -> ->] & Hx & Hy).
    apply lookup_seq in Hx as [-> _]. exact Hy.
  - intros k j. by rewrite lookup_empty.
Qed.

Lemma hasB_spec h g : hasBBackend h g = true <-> has_b h g.
Proof.
  unfold hasBBackend, has_b. rewrite existsb_exists. split.
  - intros (l & Hl & Hb). destruct (h !! l) as [b|] eqn:Hlb; [|done]. apply bool_decide_eq_true in Hb.
    exists l, b. by rewrite list_elem_of_In.
  - intros (l & b & Hl & Hlb & Hb). exists l. rewrite <- list_elem_of_In. split; [done|]. rewrite Hlb. by apply bool_decide_eq_true.
Qed.

(** An adopted test is one of a peer that runs B replicas. *)
Lemma adopted s gs tests adopt svc e :
  abTestIDs s gs = (tests, adopt) -> adopt !! svc = Some e ->
  exists pid es, s_exps s !! pid = Some es /\ es !! svc = Some e /\ 0 < e_bBackends e.
Proof.
  unfold abTestIDs. intros [= _ <-]. set (ids := local_tests gs ∅).
  set (good := fun (m : gmap string abPeerExp) => forall svc e, m !! svc = Some e ->
    exists pid es, s_exps s !! pid = Some es /\ es !! svc = Some e /\ 0 < e_bBackends e).
  enough (forall ps m, good m -> good (fold_left (fun adopt p => adopt_peer ids (default ∅ (s_exps s !! p)) adopt) ps m)) as Hf.
  { apply (Hf _ ∅). intros ? ?. by rewrite lookup_empty. }
  induction ps as [|p ps IH]; intros m Hm; [done|]. cbn [fold_left]. apply IH. clear IH. unfold adopt_peer.
  destruct (s_exps s !! p) as [es|] eqn:Hp; cbn [default from_option id].
  2: { assert (range_list (∅ : gmap string abPeerExp) = []) as ->; [|done]. apply Permutation_nil_r. by rewrite range_perm, map_to_list_empty. }
  assert (forall kv, kv ∈ range_list es -> es !! fst kv = Some (snd kv)) as Hr by (intros [k v]; cbn; by rewrite elem_of_range).
  revert m Hm Hr. generalize (range_list es) as l. induction l as [|[k v] l IH]; intros m Hm Hr; [done|]. cbn [fold_left].
  apply IH; [|intros; apply Hr; by right]. case_decide as Hd; [done|]. destruct (better_exp _ _); [|done].
  intros svc' e' [[<- <-]|[_ He]]%lookup_insert_Some; [|by apply Hm].
  exists p, es. split_and!; [done|by apply (Hr (k, v)); left|]. apply Decidable.not_or in Hd as [_ Hd]. lia.
Qed.

Lemma evicted_peer_test s svc e pid es :
  s_exps (evict_exps now s) !! pid = Some es -> es !! svc = Some e -> 0 < e_bBackends e -> peer_test s svc (e_cfg e).
Proof.
  unfold evict_exps. cbn [set_exps s_exps]. intros [Hp Hg]%map_lookup_filter_Some He Hb. exists pid, es, e. split_and!; try done.
  intros t Ht. cbn [fst] in Hg. by rewrite Ht in Hg.
Qed.

Lemma abAttach1_grown s h adopt g g' :
  (forall svc e, adopt !! svc = Some e -> peer_test s svc (e_cfg e)) ->
  grown s h g g' -> grown s h g (abAttach1 h adopt g').
Proof.
  intros Hadopt [Hc Hb Hs Ht].
  assert (g_abLocal g' = g_abLocal g /\ g_static g' = g_static g /\ g_Service g' = g_Service g) as (Hloc & Hst & Hsvc).
  { clear -Hc. destruct g, g'. unfold own_config in Hc. cbn in *. by injection Hc. }
  unfold abAttach1. destruct (_ || _) eqn:Hcond; [done|].
  apply orb_false_iff in Hcond as [[Hnone Hstat]%orb_false_iff Hhas%negb_false_iff]. apply bool_decide_eq_false in Hnone.
  assert (g_abCfg g' = None) as Hn by (destruct (g_abCfg g'); [|done]; by destruct Hnone).
  assert (g_abCfg g = None) as Hn0 by (destruct Ht as [Ht|(? & _)]; [by rewrite <- Ht|done]).
  assert (forall c, (g_abLocal g = Some c \/ (g_abLocal g = None /\ peer_test s (g_Service g) c)) -> grown s h g (set_g_abCfg (Some c) g')) as Hset.
  { intros c Hc'. split; [by rewrite <- Hc|done|done|]. right. split_and!; [done|by rewrite <- Hst|by apply hasB_spec|]. by exists c. }
  destruct (g_abLocal g') as [c|]; [apply Hset; by left|]. destruct (adopt !! _) as [e|] eqn:He; [|done].
  apply Hset. right. split; [done|]. rewrite <- Hsvc. by apply Hadopt.
Qed.

(** A group with a test in its own labels has one once a B backend is there. *)
Lemma abAttach1_local h adopt g :
  g_static g = false -> has_b h g -> is_Some (g_abLocal g) -> is_Some (g_abCfg (abAttach1 h adopt g)).
Proof.
  intros Hs Hb%hasB_spec [c Hc]. unfold abAttach1. rewrite Hs, Hb, Hc. cbn [negb]. rewrite !orb_false_r. case_bool_decide; [done|by eexists].
Qed.

(** What [overlay] makes of the assembled groups: each of them, grown, in its
    place, then the groups for routes only peers know, grown. *)
Lemma overlay_spec gs h n s gs' h' n' s' :
  store_ok s -> heap_fresh h n -> overlay parses byService now gs h n s = (gs', h', n', s') ->
  h ⊆ h' /\ (exists syn, Forall (synthesized s) syn /\ Forall2 (grown s h') (gs ++ syn)%list gs') /\
  Forall (fun g' => g_static g' = false -> has_b h' g' -> is_Some (g_abLocal g') -> is_Some (g_abCfg g')) gs'.
Proof.
  intros Hok Hfresh. unfold overlay. destruct (abTestIDs _ _) as [tests adopt] eqn:Htests. intros [= <- <- <- <-].
  assert (store_ok (evict_exps now s)) as Hok' by exact Hok.
  pose proof (overlay_routes_inv (evict_exps now s) h gs tests
    (mkOverlaid gs (index_groups gs) h n) Hok') as [_ Hh (syn & Hsyn & Hgr) _].
  { split; cbn [o_groups o_byKey o_heap o_next]; [done|done| |apply index_groups_ok].
    exists []. split; [constructor|]. rewrite app_nil_r. apply Forall_Forall2_diag, Forall_true. intros g. apply grown_refl. }
  assert (forall svc e, adopt !! svc = Some e -> peer_test s svc (e_cfg e)) as Hadopt.
  { intros svc e He. destruct (adopted _ _ _ _ _ _ Htests He) as (pid & es & Hp & Hes & Hpos). by eapply evicted_peer_test. }
  split; [exact Hh|]. split.
  - exists syn. split; [exact Hsyn|]. unfold abAttach. apply Forall2_fmap_r. eapply Forall2_impl; [exact Hgr|].
    intros g g' [Hc Hb Hsp Ht]. apply abAttach1_grown; [done|]. split; [done|done|done|].
    destruct Ht as [?|(? & ? & ? & c & Hg & Hl)]; [by left|right]. split_and!; try done. exists c. split; [done|].
    destruct Hl as [?|[? (pid & es & e & Hp & He & Hpos & -> & _)]]; [by left|right]. split; [done|]. by eapply evicted_peer_test.
  - unfold abAttach. apply Forall_fmap, Forall_true. intros g. cbn.
    assert (g_static (abAttach1 (o_heap (overlay_routes parses byService now (evict_exps now s) tests (mkOverlaid gs (index_groups gs) h n))) adopt g) = g_static g /\
      g_abLocal (abAttach1 (o_heap (overlay_routes parses byService now (evict_exps now s) tests (mkOverlaid gs (index_groups gs) h n))) adopt g) = g_abLocal g /\
      g_Backends (abAttach1 (o_heap (overlay_routes parses byService now (evict_exps now s) tests (mkOverlaid gs (index_groups gs) h n))) adopt g) = g_Backends g) as (Hs & Hl & Hb).
    { unfold abAttach1. destruct (_ || _); [done|]. destruct (g_abLocal g) eqn:Hl; [done|]. by destruct (adopt !! _). }
    unfold has_b. rewrite Hs, Hl, Hb. apply abAttach1_local.
Qed.

(** C27. The host's own configuration wins over what peers push. After a refresh
    each assembled group is still in its place. Besides its backends, its
    [Spread] flag and its A/B test, no field changed. Backends are only added,
    behind its own, each marked learned and forwarding to a peer that advertised
    this very route no longer than the TTL ago. [Spread] is on only if it was, or
    if such a peer asks for it. The test of a group that has one, and of a group
    of routes.json, stays what it is; a group without one gets the test of its
    own labels as soon as there is a B backend, and only a group without such
    labels may get, with a B backend, a test that a peer heard of in time
    advertised for its service. Groups added are for routes live peers advertise,
    and existing backends are not touched. *)
Theorem local_config_wins fingerprint gs h n s gs' h' n' s' :
  store_reach fingerprint s -> heap_fresh h n ->
  overlay parses byService now gs h n s = (gs', h', n', s') ->
  h ⊆ h' /\
  (forall i g, gs !! i = Some g -> exists g', gs' !! i = Some g' /\ grown s h' g g' /\
     (g_static g = false -> has_b h' g' -> is_Some (g_abLocal g) -> is_Some (g_abCfg g'))) /\
  (forall i g', (length gs <= i)%nat -> gs' !! i = Some g' -> exists g, synthesized s g /\ grown s h' g g').
Proof.
  intros Hok%store_reach_ok Hf Ho. destruct (overlay_spec _ _ _ _ _ _ _ _ Hok Hf Ho) as (Hh & (syn & Hsyn & Hgr) & Hlocal).
  split_and!; [done|..].
  - intros i g Hi. eapply Forall2_lookup_l in Hgr as (g' & Hg' & Hgr); [|by apply lookup_app_l_Some].
    exists g'. split_and!; [done|done|]. eapply Forall_lookup_1 in Hlocal; [|exact Hg'].
    assert (g_abLocal g' = g_abLocal g /\ g_static g' = g_static g) as [<- <-]; [|done].
    destruct Hgr as [Hc _ _ _]. clear -Hc. destruct g, g'. unfold own_config in Hc. cbn in *. by injection Hc.
  - intros i g' Hi Hg'. eapply Forall2_lookup_r in Hgr as (g & Hg & Hgr); [|done]. exists g. split; [|done].
    rewrite lookup_app_r in Hg by lia. eapply Forall_lookup_1; [exact Hsyn|exact Hg].
Qed.

(** *** What is advertised *)

(** An advertisement without its A/B share. *)
Definition core (i : peerRouteInfo) : peerRouteInfo :=
  mkInfo (i_Host i) (i_PathPrefix i) (i_StripPrefix i) (i_Name i) (i_Service i) (i_Backends i) (i_Weight i)
    (i_RateLimit i) (i_RateRPM i) (i_Spread i) "" 0 0.

Lemma count_local_grown s h h' key bs ls :
  h ⊆ h' -> valid h bs -> Forall (from_peer s h' key) ls -> count_local h' (bs ++ ls) = count_local h bs.
Proof.
  intros Hs Hv Hls. unfold count_local. rewrite fold_left_app.
  assert (forall acc, fold_left (count1 h') bs acc = fold_left (count1 h) bs acc) as ->.
  { clear Hls. induction Hv as [|l bs [b Hb] Hv IH]; intros acc; [done|]. cbn [fold_left].
    rewrite <- IH. unfold count1 at 2 4. by rewrite Hb, (lookup_weaken _ _ _ _ Hb Hs). }
  generalize (fold_left (count1 h) bs (0, 0, 0, 0)). clear Hv.
  induction Hls as [|l ls (b & lr & Hb & _ & Hl & _) _ IH]; intros acc; [done|]. cbn [fold_left].
  rewrite IH. unfold count1. destruct acc as [[[m w] bm] bw]. rewrite Hb. unfold advertisable. by rewrite Hl.
Qed.

Lemma advertise_core h g :
  core <$> advertise h g =
  let '(n, w, _, _) := count_local h (g_Backends g) in
  if decide (n = 0) then None
  else Some (mkInfo (g_Host g) (g_PathPrefix g) (g_StripPrefix g) (g_Name g) (g_Service g) n w (g_RateLimit g) (g_RateRPM g)
          (g_SpreadLocal g) "" 0 0).
Proof.
  unfold advertise. destruct (count_local _ _) as [[[n w] bn] bw]. case_decide; [done|].
  destruct (g_abCfg g) as [c|]; [|done]. by case_decide.
Qed.

Lemma advertise_grown s h h' g g' :
  h ⊆ h' -> valid h (g_Backends g) -> grown s h' g g' -> core <$> advertise h' g' = core <$> advertise h g.
Proof.
  intros Hs Hv [Hc (ls & Hb & Hls) _ _]. rewrite !advertise_core, Hb. rewrite (count_local_grown s h h' _ _ _ Hs Hv Hls).
  destruct (count_local _ _) as [[[n w] bn] bw]. clear -Hc. destruct g, g'. unfold own_config in Hc. cbn in *.
  injection Hc as. by subst.
Qed.

Lemma count_local_some h ls n w bn bw :
  count_local h ls = (n, w, bn, bw) -> n <> 0 -> exists l b, l ∈ ls /\ h !! l = Some b /\ advertisable b = true.
Proof.
  revert n w bn bw. unfold count_local. induction ls as [|l ls IH] using rev_ind; intros n w bn bw.
  { cbn. by intros [= <- _ _ _]. }
  rewrite fold_left_app. cbn [fold_left]. destruct (fold_left _ ls _) as [[[n0 w0] bn0] bw0] eqn:E. intros Heq Hn.
  destruct (h !! l) as [b|] eqn:Hb; [destruct (advertisable b) eqn:Ha|].
  { exists l, b. split_and!; [|done|done]. apply elem_of_app. right. by left. }
  all: unfold count1 in Heq; rewrite Hb, ?Ha in Heq; injection Heq as <- <- <- <-;
    destruct (IH _ _ _ _ eq_refl Hn) as (l' & b' & Hl & ?); exists l', b'; split; [|done];
    apply elem_of_app; by left.
Qed.

(** What a proxy learned from its peers is never advertised back. For each
    group the refresh assembled, the advertisement (its A/B share aside) is the
    one the proxy would send without any peer, the spread flag included; and a
    group made for a peer's route is advertised only when this host has a
    replica of its own behind it, found by the service's name. *)
Theorem mesh_does_not_recycle fingerprint gs h n s gs' h' n' s' :
  store_reach fingerprint s -> heap_fresh h n -> Forall (fun g => valid h (g_Backends g)) gs ->
  overlay parses byService now gs h n s = (gs', h', n', s') ->
  core <$> payload_routes h' (take (length gs) gs') = core <$> payload_routes h gs /\
  forall g', g' ∈ drop (length gs) gs' -> is_Some (advertise h' g') ->
    exists ls l b, byService !! g_Service g' = Some ls /\ l ∈ ls /\ h' !! l = Some b /\ advertisable b = true.
Proof.
  intros Hok%store_reach_ok Hf Hv Ho. destruct (overlay_spec _ _ _ _ _ _ _ _ Hok Hf Ho) as (Hh & (syn & Hsyn & Hgr) & _).
  apply Forall2_app_inv_l in Hgr as (g1 & g2 & Hg1 & Hg2 & ->). rewrite (Forall2_length _ _ _ Hg1).
  rewrite take_app_length, drop_app_length. split.
  - unfold payload_routes. clear Ho Hg2 Hsyn. induction Hg1 as [|g g' gs g1 Hg _ IH]; [done|].
    apply Forall_cons in Hv as [Hvg Hv]. specialize (IH Hv). pose proof (advertise_grown s h h' g g' Hh Hvg Hg) as Ha.
    cbn [omap list_omap]. destruct (advertise h' g'), (advertise h g); cbn in *; try done.
    apply (inj Some) in Ha. by rewrite Ha, IH.
  - intros g' (i & Hi)%list_elem_of_lookup [info Ha].
    eapply Forall2_lookup_r in Hg2 as (g & Hg & [Hc (ls & Hb & Hls) _ _]); [|done].
    eapply Forall_lookup_1 in Hsyn as (key & lr & _ & Hsg & _); [|done].
    unfold advertise in Ha. destruct (count_local _ _) as [[[m w] bm] bw] eqn:Hcl. case_decide as Hm; [done|].
    eapply count_local_some in Hcl as (l & b & Hl & Hlb & Hab); [|done]. rewrite Hb, elem_of_app in Hl.
    destruct Hl as [Hl|Hl].
    + assert (g_Service g' = g_Service g) as ->.
      { clear -Hc. destruct g, g'. unfold own_config in Hc. cbn in *. by injection Hc. }
      rewrite Hsg in Hl |- *. unfold synthesize in *. cbn [set_g_Backends g_Backends g_Service] in *.
      case_decide; [by apply not_elem_of_nil in Hl|].
      change (g_Service _) with (lr_service lr).
      destruct (byService !! lr_service lr) as [ls0|]; [|by apply not_elem_of_nil in Hl]. by exists ls0, l, b.
    + eapply Forall_forall in Hls as (b' & lr' & Hb' & _ & Hl' & _); [|done]. rewrite Hb' in Hlb. injection Hlb as ->.
      unfold advertisable in Hab. by rewrite Hl' in Hab.
Qed.

(** *** Live routes are served *)

(** A group for a route has a backend forwarding to a peer's URL. *)
Definition reaches (h : gmap loc Backend) (gs : list RouteGroup) (key url : string) : Prop :=
  exists i g l b, gs !! i = Some g /\ g_key g = key /\ l ∈ g_Backends g /\ h !! l = Some b /\ b_Learned b = true /\ b_URL b = url.

Lemma contribution_plain s tests pid lr g :
  lr_abID lr = "" -> parses (lr_advertise lr) = true -> exists b, contribution parses s tests pid lr g = [b].
Proof.
  intros Hab Hp. unfold contribution.
  assert (abSplitFor s g (default "" (tests !! g_Service g)) lr = abSplitLegacy) as ->.
  { unfold abSplitFor. case_decide; [done|]. destruct (g_static g); [done|]. rewrite decide_True; [done|by left]. }
  cbn [peerBackendsFor]. unfold makePeerBackendAuth. rewrite Hp. cbn [option_list]. destruct (_ && _); by eexists.
Qed.

Lemma add_backends_key lr ls g : g_key (add_backends lr ls g) = g_key g.
Proof. unfold add_backends. by destruct (lr_spread lr). Qed.
Lemma add_backends_Backends lr ls g : g_Backends (add_backends lr ls g) = (g_Backends g ++ ls)%list.
Proof. unfold add_backends. by destruct (lr_spread lr). Qed.

(** What a step of the loop does to the groups: perhaps a group at the end, and
    perhaps backends for the group of the entry's key. *)
Lemma overlay_peer_shape s h0 gs tests key o pid lr :
  key_ok key -> (exists peers, s_routes s !! key = Some peers /\ peers !! pid = Some lr) ->
  overlay_inv s h0 gs o -> entry_expired s now (lr_lastSeen lr) = false ->
  exists ext f i g ls h,
    (o_groups o ++ ext)%list !! i = Some g /\ g_key g = key /\ o_heap o ⊆ h /\
    Forall2 (fun l b => h !! l = Some b) ls (contribution parses s tests pid lr g) /\
    (forall g, g_key (f g) = g_key g /\ g_Backends (f g) = (g_Backends g ++ ls)%list) /\
    o_groups (overlay_peer parses byService now s tests key o (pid, lr)) = alter f i (o_groups o ++ ext)%list /\
    o_heap (overlay_peer parses byService now s tests key o (pid, lr)) = h.
Proof.
  intros Hkey _ [Hfresh _ _ Hidx] Hexp. unfold overlay_peer. rewrite Hexp.
  pose proof (splitRouteKey_key key Hkey) as Hsplit. destruct (splitRouteKey key) as [host path] eqn:Hhp. cbn [fst snd] in Hsplit.
  set (io := match o_byKey o !! key with Some i => (i, o) | None => _ end).
  assert (exists ext g, o_groups (snd io) = (o_groups o ++ ext)%list /\ o_heap (snd io) = o_heap o /\ o_next (snd io) = o_next o /\
    o_groups (snd io) !! fst io = Some g /\ g_key g = key) as (ext & g & Hext & Hh & Hn & Hg & Hgk).
  { unfold io. destruct (o_byKey o !! key) as [i|] eqn:Hi; cbn [fst snd].
    - destruct (Hidx _ _ Hi) as (g & ? & ?). exists [], g. by rewrite app_nil_r.
    - exists [synthesize host path lr byService], (synthesize host path lr byService). cbn [o_groups o_heap o_next].
      split_and!; try done. by rewrite lookup_app_r, Nat.sub_diag by lia. }
  destruct io as [i o1]. cbn [fst snd] in *. rewrite Hg.
  destruct (contribution parses s tests pid lr g) as [|b0 bs0] eqn:Hbs.
  - exists ext, id, i, g, [], (o_heap o1). rewrite <- Hext, Hbs. split_and!; try first [done | by rewrite Hh | constructor].
    + done.
    + by rewrite app_nil_r.
    + symmetry. by apply list_alter_id.
  - destruct (alloc_all (b0 :: bs0) (o_heap o1) (o_next o1)) as [[ls h1] n1] eqn:Ha.
    destruct (alloc_all_spec _ _ _ _ _ _ Ha) as (Hf1 & Hs1 & Hls); [by rewrite Hh, Hn|].
    exists ext, (add_backends lr ls), i, g, ls, h1. rewrite <- Hext, Hbs. split_and!; try first [done | by rewrite <- Hh].
    intros g0. split; [apply add_backends_key|apply add_backends_Backends].
Qed.

Lemma reaches_step h h' gs ext f i key url ls :
  h ⊆ h' -> (forall g, g_key (f g) = g_key g /\ g_Backends (f g) = (g_Backends g ++ ls)%list) ->
  reaches h gs key url -> reaches h' (alter f i (gs ++ ext)%list) key url.
Proof.
  intros Hs Hf (j & g & l & b & Hj & Hk & Hl & Hb & HL & HU). apply (lookup_app_l_Some _ ext) in Hj.
  destruct (decide (j = i)) as [->|Hne].
  - destruct (Hf g) as [Hfk Hfb]. exists i, (f g), l, b. rewrite list_lookup_alter_eq, Hj, Hfk, Hfb. split_and!; try done; [|by eapply lookup_weaken].
    apply elem_of_app. by left.
  - exists j, g, l, b. rewrite list_lookup_alter_ne by done. split_and!; try done. by eapply lookup_weaken.
Qed.

Lemma overlay_peer_reaches s h0 gs tests key o pid lr k url :
  key_ok key -> (exists peers, s_routes s !! key = Some peers /\ peers !! pid = Some lr) -> overlay_inv s h0 gs o ->
  reaches (o_heap o) (o_groups o) k url ->
  let o' := overlay_peer parses byService now s tests key o (pid, lr) in reaches (o_heap o') (o_groups o') k url.
Proof.
  intros Hkey Hin Hinv Hr o'. destruct (entry_expired s now (lr_lastSeen lr)) eqn:He.
  { unfold o', overlay_peer. by rewrite He. }
  destruct (overlay_peer_shape s h0 gs tests key o pid lr Hkey Hin Hinv He)
    as (ext & f & i & g & ls & h & _ & _ & Hs & _ & Hf & Hg & Hh).
  unfold o'. rewrite Hg, Hh. by eapply reaches_step.
Qed.

Lemma overlay_peer_adds s h0 gs tests key o pid lr :
  key_ok key -> (exists peers, s_routes s !! key = Some peers /\ peers !! pid = Some lr) -> overlay_inv s h0 gs o ->
  entry_expired s now (lr_lastSeen lr) = false -> lr_abID lr = "" -> parses (lr_advertise lr) = true ->
  let o' := overlay_peer parses byService now s tests key o (pid, lr) in
  reaches (o_heap o') (o_groups o') key (lr_advertise lr).
Proof.
  intros Hkey Hin Hinv He Hab Hp o'.
  destruct (overlay_peer_shape s h0 gs tests key o pid lr Hkey Hin Hinv He)
    as (ext & f & i & g & ls & h & Hi & Hk & Hs & Hls & Hf & Hg & Hh).
  destruct (contribution_plain s tests pid lr g Hab Hp) as [b Hb]. rewrite Hb in Hls.
  apply Forall2_cons_inv_r in Hls as (l & ls0 & Hl & Hnil & ->). apply Forall2_nil_inv_r in Hnil as ->.
  destruct (contribution_spec s tests pid lr g b) as (HL & _ & HU & _); [rewrite Hb; by left|].
  unfold o'. rewrite Hg, Hh. destruct (Hf g) as [Hfk Hfb].
  exists i, (f g), l, b. rewrite list_lookup_alter_eq, Hi, Hfk, Hfb. split_and!; try done.
  apply elem_of_app. right. by left.
Qed.

Lemma fold_peers_reaches s h0 gs tests key peers ps o :
  key_ok key -> s_routes s !! key = Some peers -> (forall pl, pl ∈ ps -> peers !! fst pl = Some (snd pl)) ->
  overlay_inv s h0 gs o ->
  let o' := fold_left (overlay_peer parses byService now s tests key) ps o in
  overlay_inv s h0 gs o' /\
  (forall k url, reaches (o_heap o) (o_groups o) k url -> reaches (o_heap o') (o_groups o') k url) /\
  (forall pid lr, (pid, lr) ∈ ps -> entry_expired s now (lr_lastSeen lr) = false -> lr_abID lr = "" ->
     parses (lr_advertise lr) = true -> reaches (o_heap o') (o_groups o') key (lr_advertise lr)).
Proof.
  intros Hkey Hk. revert o. induction ps as [|[pid lr] ps IH]; intros o Hps Hinv.
  { split_and!; [done|done|]. intros ? ? Hn. by apply not_elem_of_nil in Hn. }
  assert (peers !! pid = Some lr) as Hpl by (apply (Hps (pid, lr)); by left).
  assert (exists peers, s_routes s !! key = Some peers /\ peers !! pid = Some lr) as Hin by by exists peers.
  cbn [fold_left]. destruct (IH (overlay_peer parses byService now s tests key o (pid, lr))) as (H1 & H2 & H3).
  { intros pl Hpl'. apply Hps. by right. }
  { by apply overlay_peer_inv. }
  split_and!; [done| |].
  - intros k url Hr. apply H2. by eapply overlay_peer_reaches.
  - intros pid' lr' [[= -> ->]|Hel]%elem_of_cons He Hab Hp; [|by eapply H3]. apply H2. by eapply overlay_peer_adds.
Qed.

Lemma overlay_routes_reaches s h0 gs tests o key peers pid lr :
  store_ok s -> overlay_inv s h0 gs o -> s_routes s !! key = Some peers -> peers !! pid = Some lr ->
  entry_expired s now (lr_lastSeen lr) = false -> lr_abID lr = "" -> parses (lr_advertise lr) = true ->
  let o' := overlay_routes parses byService now s tests o in reaches (o_heap o') (o_groups o') key (lr_advertise lr).
Proof.
  intros Hok Hinv Hk Hp He Hab Hpa. unfold overlay_routes.
  assert ((key, peers) ∈ range_list (s_routes s)) as Hel by by apply elem_of_range.
  assert (forall kp, kp ∈ range_list (s_routes s) -> s_routes s !! fst kp = Some (snd kp)) as Hr.
  { intros [k p]. cbn. by rewrite elem_of_range. }
  cbv zeta. revert o Hinv Hel Hr. generalize (range_list (s_routes s)) as l.
  assert (forall l o, overlay_inv s h0 gs o -> (forall kp, kp ∈ l -> s_routes s !! fst kp = Some (snd kp)) ->
    forall k url, reaches (o_heap o) (o_groups o) k url ->
    let o' := fold_left (fun o '(key, peers) => fold_left (overlay_peer parses byService now s tests key) (range_list peers) o) l o in
    reaches (o_heap o') (o_groups o') k url) as Hkeep.
  { induction l as [|[k1 p1] l IH]; intros o Hinv Hr k url Hre; [done|]. cbn [fold_left].
    assert (s_routes s !! k1 = Some p1) as Hk1 by (apply (Hr (k1, p1)); by left). destruct (Hok _ _ Hk1) as [Hk1ok _].
    destruct (fold_peers_reaches s h0 gs tests k1 p1 (range_list p1) o Hk1ok Hk1) as (H1 & H2 & _); [|done|].
    { intros [q r]. cbn. by rewrite elem_of_range. }
    apply IH; [done| |by apply H2]. intros kp Hkp. apply Hr. by right. }
  induction l as [|[k1 p1] l IH]; intros o Hinv Hel Hr; [by apply not_elem_of_nil in Hel|]. cbn [fold_left].
  assert (s_routes s !! k1 = Some p1) as Hk1 by (apply (Hr (k1, p1)); by left). destruct (Hok _ _ Hk1) as [Hk1ok _].
  destruct (fold_peers_reaches s h0 gs tests k1 p1 (range_list p1) o Hk1ok Hk1) as (H1 & _ & H3); [|done|].
  { intros [q r]. cbn. by rewrite elem_of_range. }
  assert (forall kp, kp ∈ l -> s_routes s !! fst kp = Some (snd kp)) as Hr' by (intros kp Hkp; apply Hr; by right).
  apply elem_of_cons in Hel as [[= -> ->]|Hel]; [|by apply IH].
  apply Hkeep; [done|done|]. apply (H3 pid); [|done..]. by apply elem_of_range.
Qed.

Lemma abAttach_reaches h h' adopt gs key url : reaches h gs key url -> reaches h (abAttach h' adopt gs) key url.
Proof.
  intros (i & g & l & b & Hi & Hk & Hl & Hb). exists i, (abAttach1 h' adopt g), l, b.
  unfold abAttach. rewrite list_lookup_fmap, Hi. split; [done|].
  assert (g_key (abAttach1 h' adopt g) = g_key g /\ g_Backends (abAttach1 h' adopt g) = g_Backends g) as [-> ->]; [|done].
  unfold abAttach1. destruct (_ || _); [done|]. destruct (g_abLocal g); [done|]. by destruct (adopt !! _).
Qed.

(** *** A push *)

Definition learned_at (adv : string) (t : Z) (lr : learnedRoute) : Prop :=
  lr_advertise lr = adv /\ lr_lastSeen lr = t /\ lr_abID lr = "".

Lemma learn_at peer adv t r : i_ABID r = "" -> learned_at adv t (learn peer adv t r).
Proof. intros Hab. unfold learned_at, learn, peerRouteAB. by rewrite decide_True. Qed.

Lemma merge_routes_learned peer adv t rs m c key :
  Forall (fun r => i_ABID r = "") rs ->
  (exists peers lr, m !! key = Some peers /\ peers !! peer = Some lr /\ learned_at adv t lr) \/
  (exists r, r ∈ rs /\ 0 < i_Backends r /\ routeKey (i_Host r) (i_PathPrefix r) = key) ->
  exists peers lr, fst (merge_routes peer adv t rs m c) !! key = Some peers /\ peers !! peer = Some lr /\ learned_at adv t lr.
Proof.
  revert m c. induction rs as [|r rs IH]; intros m c Hab Hor.
  { destruct Hor as [Hm|(r & Hr & _)]; [done|by apply not_elem_of_nil in Hr]. }
  apply Forall_cons in Hab as [Hr Hab]. cbn [merge_routes]. case_decide as Hb.
  - apply IH; [done|]. destruct Hor as [Hm|(r' & [->|Hr']%elem_of_cons & Hpos & Hk)]; [by left|lia|right; by exists r'].
  - apply IH; [done|]. destruct (decide (routeKey (i_Host r) (i_PathPrefix r) = key)) as [Hk|Hk].
    + left. rewrite Hk. eexists _, _. rewrite lookup_insert_eq. split; [done|]. rewrite lookup_insert_eq.
      split; [done|]. by apply learn_at.
    + destruct Hor as [Hm|(r' & [->|Hr']%elem_of_cons & Hpos & Hk')]; [left|done|right; by exists r'].
      by rewrite lookup_insert_ne.
Qed.

(** C34. A pushed route is served. When a peer that runs no A/B test pushes a
    route with at least one backend, then any refresh no later than the TTL after
    the push yields a group identified by that host and path with a backend that
    forwards to the peer's advertised URL, whatever the store held before,
    provided that URL parses. *)
Theorem pushed_route_is_served fingerprint peer adv rs exps t s r gs h n :
  store_reach fingerprint s -> Forall (fun r => i_ABID r = "") rs -> r ∈ rs -> 0 < i_Backends r ->
  parses adv = true -> heap_fresh h n -> time_sub now t <= s_ttl s ->
  let '(gs', h', _, _) := overlay parses byService now gs h n (snd (merge fingerprint peer adv rs exps t s)) in
  reaches h' gs' (routeKey (i_Host r) (i_PathPrefix r)) adv.
Proof.
  intros Hreach Hab Hr Hpos Hp Hf Ht.
  pose proof (SR_merge fingerprint peer adv rs exps t s Hreach) as Hok%store_reach_ok.
  set (s1 := snd (merge fingerprint peer adv rs exps t s)) in *.
  assert (exists peers lr, s_routes s1 !! routeKey (i_Host r) (i_PathPrefix r) = Some peers /\ peers !! peer = Some lr /\ learned_at adv t lr)
    as (peers & lr & Hk & Hl & Hadv & Hseen & Hid).
  { unfold s1, merge. set (s0 := if decide (exps = ∅) then _ else _).
    pose proof (merge_routes_learned peer adv t rs (s_routes s0) (exps_changed fingerprint (default ∅ (s_exps s !! peer)) exps)
      (routeKey (i_Host r) (i_PathPrefix r)) Hab ltac:(right; by exists r)) as Hm.
    by destruct (merge_routes _ _ _ _ _ _). }
  assert (s_ttl s1 = s_ttl s) as Httl.
  { unfold s1, merge. destruct (merge_routes _ _ _ _ _ _). cbn. by case_decide. }
  unfold overlay. destruct (abTestIDs _ _) as [tests adopt]. apply abAttach_reaches. rewrite <- Hadv.
  apply (overlay_routes_reaches _ h gs tests _ _ peers peer); try done.
  - split; cbn [o_groups o_byKey o_heap o_next]; [done|done| |apply index_groups_ok].
    exists []. split; [constructor|]. rewrite app_nil_r. apply Forall_Forall2_diag, Forall_true. intros g. apply grown_refl.
  - unfold entry_expired. cbn [evict_exps set_exps s_ttl]. rewrite Hseen, Httl. apply bool_decide_eq_false. lia.
  - by rewrite Hadv.
Qed.

(** A group made for a peer's route has no authentication, even with this
    host's own replicas behind it. *)
Lemma synthesized_unauthenticated s h g g' :
  synthesized s g -> grown s h g g' -> g_AuthRequired g' = false /\ g_DropHeaders g' = [].
Proof.
  intros (key & lr & _ & -> & _) [Hc _ _ _]. unfold own_config, synthesize in Hc. destruct g'. cbn in Hc. by injection Hc.
Qed.
End overlay_facts.

(** A push without the shared secret, or that is not a well-formed POST, is
    answered with an error and changes nothing. *)
Lemma push_rejected `{MapRange} fingerprint secret method authorization payload now s :
  secret = "" \/ method <> "POST" \/ authorization <> ("Bearer " +:+ secret)%string \/ payload = None ->
  let '(status, s', refresh) := peerRoutesHandler fingerprint secret method authorization payload now s in
  400 <= status /\ s' = s /\ refresh = false.
Proof.
  intros Hbad. unfold peerRoutesHandler. case_decide; [done|]. case_bool_decide; cbn [negb]; [|done].
  case_bool_decide; cbn [negb]; [|done]. destruct payload; [|done]. by destruct Hbad as [?|[?|[?|?]]].
Qed.

(** ** Instances *)

Definition ex_info (host : string) (spread : bool) : peerRouteInfo :=
  mkInfo host "" false "App" "svc" 2 3 false 0 spread "" 0 0.
Definition no_fp : abPeerExp -> string := fun _ => "".
Definition ex_push_store : PeerRouteStore :=
  snd (merge no_fp "p1" "http://10.0.0.2:80" [ex_info "a.com" true; ex_info "b.com" false] ∅ 100 (newPeerRouteStore 1000)).
Definition ex_local : RouteGroup := set_g_AuthRequired true (set_g_Backends [1%positive] (new_group "a.com" "" "A" "svc" false)).
Definition ex_heap : gmap loc Backend := {[1%positive := makeBackend "http://1.1.1.1:80" 1 "c" ""]}.
Definition ex_services : gmap string (list loc) := {["svc" := [1%positive]]}.

Lemma ex_push_reach : store_reach no_fp ex_push_store.
Proof. apply SR_merge, SR_new. Qed.
Lemma ex_heap_fresh : heap_fresh ex_heap 2.
Proof. intros l Hl. unfold ex_heap. rewrite lookup_singleton_ne; [done|lia]. Qed.

Lemma hasExpired_iff_evicts_witness :
  store_reach no_fp ex_push_store /\
  (hasExpired ex_push_store 1200 = false <->
     snd (overlay (fun _ => true) ∅ 1200 [ex_local] ex_heap 2 ex_push_store) = ex_push_store) /\
  hasExpired (snd (overlay (fun _ => true) ∅ 1200 [ex_local] ex_heap 2 ex_push_store)) 1200 = false.
Proof.
  split; [exact ex_push_reach|].
  exact (hasExpired_iff_evicts no_fp (fun _ => true) ∅ 1200 [ex_local] ex_heap 2 ex_push_store ex_push_reach).
Defined.

(** The learned host b.com is appended with this host's own replica behind it. *)
Definition ex_overlay := overlay (fun _ => true) ex_services 500 [ex_local] ex_heap 2 ex_push_store.
Example ex_overlay_groups :
  (fun g => (g_Host g, g_Backends g, g_AuthRequired g, g_Spread g)) <$> ex_overlay.1.1.1
  = [("a.com", [1; 2]%positive, true, true); ("b.com", [1; 3]%positive, false, false)] \/
  (fun g => (g_Host g, g_Backends g, g_AuthRequired g, g_Spread g)) <$> ex_overlay.1.1.1
  = [("a.com", [1; 3]%positive, true, true); ("b.com", [1; 2]%positive, false, false)].
Proof. vm_compute. first [by left|by right]. Qed.

Lemma local_config_wins_witness :
  let '(gs', h', n', s') := ex_overlay in
  ex_heap ⊆ h' /\ exists g', gs' !! 0%nat = Some g' /\ grown 500 ex_push_store h' ex_local g' /\ g_abCfg g' = None.
Proof.
  destruct ex_overlay as [[[gs' h'] n'] s'] eqn:Ho.
  destruct (local_config_wins (fun _ => true) ex_services 500 no_fp [ex_local] ex_heap 2 ex_push_store gs' h' n' s'
    ex_push_reach ex_heap_fresh Ho) as (Hh & Hgs & _). split; [exact Hh|].
  destruct (Hgs 0%nat ex_local eq_refl) as (g' & Hg' & Hgr & _). exists g'. split_and!; [exact Hg'|exact Hgr|].
  destruct (gr_test _ _ _ _ _ Hgr) as [Ht|(_ & _ & _ & c & _ & [Hl|[_ (pid & es & e & Hp & _)]])]; [exact Ht|by cbn in Hl|].
  vm_compute in Hp. discriminate.
Defined.

Lemma mesh_does_not_recycle_witness :
  let '(gs', h', n', s') := ex_overlay in
  core <$> payload_routes h' (take (length [ex_local]) gs') = core <$> payload_routes ex_heap [ex_local] /\
  forall g', g' ∈ drop (length [ex_local]) gs' -> is_Some (advertise h' g') ->
    exists ls l b, ex_services !! g_Service g' = Some ls /\ l ∈ ls /\ h' !! l = Some b /\ advertisable b = true.
Proof.
  destruct ex_overlay as [[[gs' h'] n'] s'] eqn:Ho.
  apply (mesh_does_not_recycle (fun _ => true) ex_services 500 no_fp [ex_local] ex_heap 2 ex_push_store gs' h' n' s'
    ex_push_reach ex_heap_fresh); [|exact Ho].
  repeat constructor. by eexists.
Defined.

Lemma pushed_route_is_served_witness :
  let '(gs', h', _, _) := overlay (fun _ => true) ∅ 900 [ex_local] ex_heap 2
      (snd (merge no_fp "p1" "http://10.0.0.2:80" [ex_info "c.com" false] ∅ 100 ex_push_store)) in
  reaches h' gs' (routeKey "c.com" "") "http://10.0.0.2:80".
Proof.
  apply (pushed_route_is_served (fun _ => true) ∅ 900 no_fp "p1" "http://10.0.0.2:80" [ex_info "c.com" false] ∅ 100
    ex_push_store (ex_info "c.com" false) [ex_local] ex_heap 2);
    [exact ex_push_reach|by repeat constructor|by left|done|done|exact ex_heap_fresh|by vm_compute].
Defined.
