(* ===== verification/AbConfig.v ===== *)
(** * The configuration of an A/B test: cmd/proxy/abtest.go

    [parseABConfig] on the proxy.ab.* labels, its validators, and [abScan],
    which decides from all containers which backends are B and which test each
    service runs. *)
From S2P Require Import Prelude GoString Float64 Duration Http Balancer LabelOverlay PeerMerge.
Open Scope string_scope.

(** [strconv.ParseFloat] and [strconv.FormatFloat(_, 'g', -1, 64)] on finite
    numbers: the shortest text reads back as the same number. *)
Class FloatText := {
  ParseFloat : string -> option float64;
  FormatFloat : float64 -> string;
  ParseFloat_repr s f : ParseFloat s = Some f -> repr f;
  ParseFloat_empty : ParseFloat "" = None;
  ParseFloat_FormatFloat f : repr f -> ParseFloat (FormatFloat f) = Some f;
}.

(** ** Validators *)

Definition abGroupNameRe (s : string) : bool :=
  bool_decide (1 <= len s <= 32) && all_bytes (fun c => in_range c "a" "z" || is_digit c || has_byte c "_-") s.
Definition abUIDRe (s : string) : bool :=
  bool_decide (1 <= len s <= 64) && all_bytes (fun c => is_alpha c || is_digit c || has_byte c "_-") s.
Definition lower_hex (c : ascii) : bool := is_digit c || in_range c "a" "f".
Definition abAnonRe (s : string) : bool := bool_decide (len s = 16) && all_bytes lower_hex s.

Definition abMaxTokenLen : Z := 64.
Definition isToken (s : string) : bool := bool_decide (len s <= abMaxTokenLen) && is_token s.

Definition splitTrimmed (s : string) : list string := if decide (s = "") then [] else trimmed_parts s.

Definition no_control (s : string) : bool := all_bytes (fun c => negb (in_N c 0 31) && negb (in_N c 127 127)) s.
Definition abMaxPrefixes : nat := 32.
Definition abMaxPrefixLen : Z := 256.
Definition parsePrefixes (v : string) : option (list string) :=
  let parts := splitTrimmed v in
  if decide (abMaxPrefixes < length parts)%nat then None
  else if forallb (fun p => HasPrefix p "/" && bool_decide (len p <= abMaxPrefixLen) && no_control p) parts
  then Some parts else None.

Definition abMaxGroups : nat := 32.
Definition variant_name (v : string) : bool := bool_decide (v = "A") || bool_decide (v = "B").
Fixpoint read_groups (parts : list string) (out : gmap string string) : option (gmap string string) :=
  match parts with
  | [] => Some out
  | p :: parts =>
      '(name, variant) ← Cut p ":";
      if abGroupNameRe name && variant_name variant then read_groups parts (<[name := variant]> out) else None
  end.
Definition parseABGroups (v : string) : option (gmap string string) :=
  let parts := splitTrimmed v in
  if decide (abMaxGroups < length parts)%nat then None else read_groups parts ∅.

Definition within (lo hi n : Z) : option Z := if decide (lo <= n <= hi) then Some n else None.
Definition parseABInt (lo hi : Z) (v : string) : option Z := n ← Atoi v; within lo hi n.
Definition parseABDuration (lo hi : Z) (v : string) : option Z := d ← ParseDuration v; within lo hi d.
Definition parseABBool (v : string) : option bool :=
  if decide (v = "true") then Some true else if decide (v = "false") then Some false else None.
Definition parseUnix (v : string) : option Z := n ← ParseInt v; if decide (n <= 0) then None else Some n.
Definition one_of (l : list string) (v : string) : option string := if decide (v ∈ l) then Some v else None.

Definition parse_assign (v : string) : option (string * string) :=
  if decide (v = "cookie" \/ v = "random") then Some (v, "")
  else match CutPrefix v "header:" with
       | Some name =>
           let canon := CanonicalHeaderKey name in
           if isToken name && negb (bool_decide (canon = "Cookie")) && negb (bool_decide (canon = "Host"))
           then Some ("header", canon) else None
       | None => None
       end.

Definition parse_static (v : string) : option (list string) := if decide (v = "none") then Some [] else parsePrefixes v.

Definition token (v : string) : option string := if isToken v then Some v else None.

Definition Day : Z := 24 * Hour.
Definition day_s : Z := 86400.

(** ** parseABConfig *)

Section config.
Context `{FloatText} (labels : gmap string string) (now : Z).   (* now: Unix seconds *)

Definition parseABFloat (lo hi : float64) (v : string) : option float64 := f ← ParseFloat v; within lo hi f.
Definition parse_time (v : string) : option Z :=
  n ← parseUnix v; if decide (now - 90 * day_s <= n <= now + day_s) then Some n else None.

(** A label that is present and not empty. *)
Definition given (key : string) : option string :=
  match labels !! key with Some v => if decide (v = "") then None else Some v | None => None end.
(** The field's value: the default unless the label parses. *)
Definition field {A} (key : string) (parse : string -> option A) (dflt : A) : A :=
  match given key with Some v => default dflt (parse v) | None => dflt end.
(** Whether the label is reported to [warn]. *)
Definition bad {A} (key : string) (parse : string -> option A) : list string :=
  match given key with Some v => match parse v with Some _ => [] | None => [key] end | None => [] end.

Definition session_idle : Z := field "proxy.ab.session_idle" (parseABDuration (5 * Minute) (24 * Hour)) (30 * Minute).
Definition pin_bound : Z := Z.quot session_idle 2.

Definition ab_fraction (n d : Z) : float64 := fdiv (of_int n) (of_int d).

Definition parseABConfig : abConfig :=
  let assign := field "proxy.ab.assign" parse_assign ("cookie", "") in
  {| ab_ID := default "" (labels !! "proxy.ab.id");
     ab_Assign := fst assign;
     ab_Header := snd assign;
     ab_Split := field "proxy.ab.split" (parseABInt 0 100) 10;
     ab_Groups := field "proxy.ab.groups" parseABGroups ∅;
     ab_UIDCookie := field "proxy.ab.uid_cookie" token "ab_uid";
     ab_GroupCookie := field "proxy.ab.group_cookie" token "ab_group";
     ab_Anon := field "proxy.ab.anon" parseABBool true;
     ab_SessionIdle := session_idle;
     ab_PinRefresh := field "proxy.ab.pin_refresh" (parseABDuration Minute pin_bound) (Z.min (5 * Minute) pin_bound);
     ab_MaxSession := field "proxy.ab.max_session" (parseABDuration Hour (7 * Day)) (24 * Hour);
     ab_Started := field "proxy.ab.started" parse_time 0;
     ab_Epoch := field "proxy.ab.epoch" parse_time 0;
     ab_Phase := field "proxy.ab.phase" (one_of ["running"; "aborted"; "promoting"; "discarding"]) "running";
     ab_PhaseAt := field "proxy.ab.phase_at" parse_time 0;
     ab_AbortReason := field "proxy.ab.abort_reason" (one_of ["errors"; "latency"; "manual"]) "";
     ab_Exclude := field "proxy.ab.exclude" parsePrefixes [];
     ab_Static := field "proxy.ab.static" parse_static ["/_next/static/"];
     ab_CookieJS := field "proxy.ab.cookie_js" parseABBool false;
     ab_Override := field "proxy.ab.override" parseABBool false;
     ab_AutoAbort := field "proxy.ab.autoabort" parseABBool true;
     ab_MinSamples := field "proxy.ab.min_samples" (parseABInt 1 10000000) 500;
     ab_MinRuntime := field "proxy.ab.min_runtime" (parseABDuration 0 (24 * Hour)) (15 * Minute);
     ab_Warmup := field "proxy.ab.warmup" (parseABDuration 0 Hour) (3 * Minute);
     ab_Window := field "proxy.ab.window" (parseABDuration Minute Hour) (5 * Minute);
     ab_Windows := field "proxy.ab.windows" (parseABInt 1 12) 2;
     ab_WindowMinSamples := field "proxy.ab.window_min_samples" (parseABInt 1 1000000) 50;
     ab_ErrDelta := field "proxy.ab.err_delta" (parseABFloat (ab_fraction 1 10) (of_int 100)) (of_int 2);
     ab_ErrRatio := field "proxy.ab.err_ratio" (parseABFloat (of_int 1) (of_int 100)) (of_int 2);
     ab_P95Ratio := field "proxy.ab.p95_ratio" (parseABFloat (of_int 1) (of_int 100)) (ab_fraction 3 2);
     ab_P95Slack := field "proxy.ab.p95_slack" (parseABDuration 0 (60 * Second)) (200 * 1000000) |}.

(** The labels reported, in the order of the code. *)
Definition ab_warnings : list string :=
  (bad "proxy.ab.assign" parse_assign ++ bad "proxy.ab.split" (parseABInt 0 100) ++
   bad "proxy.ab.groups" parseABGroups ++ bad "proxy.ab.uid_cookie" token ++ bad "proxy.ab.group_cookie" token ++
   bad "proxy.ab.anon" parseABBool ++ bad "proxy.ab.cookie_js" parseABBool ++ bad "proxy.ab.override" parseABBool ++
   bad "proxy.ab.autoabort" parseABBool ++ bad "proxy.ab.session_idle" (parseABDuration (5 * Minute) (24 * Hour)) ++
   bad "proxy.ab.max_session" (parseABDuration Hour (7 * Day)) ++
   bad "proxy.ab.min_runtime" (parseABDuration 0 (24 * Hour)) ++ bad "proxy.ab.warmup" (parseABDuration 0 Hour) ++
   bad "proxy.ab.window" (parseABDuration Minute Hour) ++ bad "proxy.ab.p95_slack" (parseABDuration 0 (60 * Second)) ++
   bad "proxy.ab.pin_refresh" (parseABDuration Minute pin_bound) ++
   bad "proxy.ab.min_samples" (parseABInt 1 10000000) ++ bad "proxy.ab.windows" (parseABInt 1 12) ++
   bad "proxy.ab.window_min_samples" (parseABInt 1 1000000) ++
   bad "proxy.ab.err_delta" (parseABFloat (ab_fraction 1 10) (of_int 100)) ++
   bad "proxy.ab.err_ratio" (parseABFloat (of_int 1) (of_int 100)) ++
   bad "proxy.ab.p95_ratio" (parseABFloat (of_int 1) (of_int 100)) ++
   bad "proxy.ab.started" parse_time ++ bad "proxy.ab.epoch" parse_time ++ bad "proxy.ab.phase_at" parse_time ++
   bad "proxy.ab.phase" (one_of ["running"; "aborted"; "promoting"; "discarding"]) ++
   bad "proxy.ab.abort_reason" (one_of ["errors"; "latency"; "manual"]) ++
   bad "proxy.ab.exclude" parsePrefixes ++ bad "proxy.ab.static" parse_static)%list.
End config.

(** ** abScan *)

Record abScanResult := mkScan {
  sc_configs : gmap string abConfig;
  sc_bNames : gset string;
  sc_excluded : gset string;
}.

Definition c_name (c : dockerContainer) : string :=
  match c_Names c with n :: _ => TrimPrefix n "/" | [] => "?" end.

(** What one container's labels make of it: nothing to do with a test, left out
    of routing, or a candidate B of a service. *)
Inductive ab_class := NoTest | Excluded | Candidate (svc id : string).
Definition classify (c : dockerContainer) : ab_class :=
  match c_Labels c !! "proxy.ab.variant" with
  | None => NoTest
  | Some v =>
      if decide (v = "A") then NoTest
      else if negb (bool_decide (v = "B")) then Excluded
      else let id := label c "proxy.ab.id" in
           if negb (abIDRe id) then Excluded
           else let svc := label c "proxy.service" in
                if decide (svc = "") then Excluded else Candidate svc id
  end.

Record cand := mkCand { ca_name : string; ca_id : string }.
Definition cand_before (a b : cand) : bool :=
  if decide (ca_id a = ca_id b) then (ca_name a <? ca_name b)%string else (ca_id a <? ca_id b)%string.

Definition candidates (cs : list dockerContainer) (svc : string) : list cand :=
  omap (fun c => match classify c with
                 | Candidate s id => if decide (s = svc) then Some (mkCand (c_name c) id) else None
                 | _ => None
                 end) cs.
Definition services (cs : list dockerContainer) : list string :=
  remove_dups (omap (fun c => match classify c with Candidate s _ => Some s | _ => None end) cs).

(** The labels kept under a candidate's name: the last container's. *)
Definition labels_by_name (cs : list dockerContainer) : gmap string (gmap string string) :=
  fold_left (fun m c => match classify c with Candidate _ _ => <[c_name c := c_Labels c]> m | _ => m end) cs ∅.

(** The loop body for one service: the first candidate in order of id and name
    decides which test the service runs. *)
Definition scan_service `{FloatText} cs (byName : gmap string (gmap string string)) (now : Z)
    (r : abScanResult) (svc : string) : abScanResult :=
  match SliceStable cand_before (candidates cs svc) with
  | [] => r
  | (win :: _) as sorted =>
      let ours := filter (fun c => ca_id c = ca_id win) sorted in
      let others := filter (fun c => ca_id c <> ca_id win) sorted in
      mkScan (<[svc := parseABConfig (default ∅ (byName !! ca_name win)) now]> (sc_configs r))
        (list_to_set (ca_name <$> ours) ∪ sc_bNames r) (list_to_set (ca_name <$> others) ∪ sc_excluded r)
  end.

Definition abScan `{FloatText} (cs : list dockerContainer) (now : Z) : abScanResult :=
  let byName := labels_by_name cs in
  let init := mkScan ∅ ∅
    (list_to_set (omap (fun c => match classify c with Excluded => Some (c_name c) | _ => None end) cs)) in
  fold_left (scan_service cs byName now) (services cs) init.

(** * Properties *)

(** ** Configurations are well formed *)

Section config_facts.
Context `{FloatText}.

(** A path prefix a test may carry in a label. *)
Definition prefix_ok (p : string) : Prop := HasPrefix p "/" = true /\ len p <= 256 /\ no_control p = true.

(** Every field the run-time computes with is in its range; in particular the
    window is positive, and a pin is refreshed before it idles out. A float64
    is a whole number of its smallest positive number: [<=] compares them. *)
Record config_wf (c : abConfig) : Prop := {
  cw_split : 0 <= ab_Split c <= 100;
  cw_idle : 5 * Minute <= ab_SessionIdle c <= 24 * Hour;
  cw_refresh : Minute <= ab_PinRefresh c /\ 2 * ab_PinRefresh c <= ab_SessionIdle c;
  cw_max : Hour <= ab_MaxSession c <= 7 * Day;
  cw_window : Minute <= ab_Window c <= Hour;
  cw_windows : 1 <= ab_Windows c <= 12;
  cw_warmup : 0 <= ab_Warmup c <= Hour;
  cw_runtime : 0 <= ab_MinRuntime c <= 24 * Hour;
  cw_samples : 1 <= ab_MinSamples c <= 10000000 /\ 1 <= ab_WindowMinSamples c <= 1000000;
  cw_slack : 0 <= ab_P95Slack c <= 60 * Second;
  cw_delta : fdiv (of_int 1) (of_int 10) <= ab_ErrDelta c <= of_int 100;
  cw_ratio : of_int 1 <= ab_ErrRatio c <= of_int 100;
  cw_p95 : of_int 1 <= ab_P95Ratio c <= of_int 100;
  cw_phase : ab_Phase c ∈ ["running"; "aborted"; "promoting"; "discarding"];
  cw_reason : ab_AbortReason c ∈ [""; "errors"; "latency"; "manual"];
  cw_cookies : isToken (ab_UIDCookie c) = true /\ isToken (ab_GroupCookie c) = true;
  cw_assign : ab_Assign c ∈ ["cookie"; "random"; "header"];
  cw_header : ab_Assign c = "header" -> ab_Header c <> "Cookie" /\ ab_Header c <> "Host" /\ ab_Header c <> "";
  cw_groups : map_Forall (fun n v => abGroupNameRe n = true /\ variant_name v = true) (ab_Groups c);
  cw_paths : Forall prefix_ok (ab_Exclude c ++ ab_Static c) /\
    (length (ab_Exclude c) <= 32)%nat /\ (length (ab_Static c) <= 32)%nat;
}.

(** The times of a test, in Unix seconds: unset, or positive and no older than
    90 days and no more than a day ahead. *)
Definition time_ok (now t : Z) : Prop := t = 0 \/ (0 < t /\ now - 90 * 86400 <= t <= now + 86400).
Definition times_ok (now : Z) (c : abConfig) : Prop :=
  time_ok now (ab_Started c) /\ time_ok now (ab_Epoch c) /\ time_ok now (ab_PhaseAt c).

Lemma field_ind {A} labels key (parse : string -> option A) dflt (P : A -> Prop) :
  P dflt -> (forall v x, parse v = Some x -> P x) -> P (field labels key parse dflt).
Proof.
  intros Hd Hp. unfold field. destruct (given labels key) as [v|]; [|done].
  destruct (parse v) as [x|] eqn:Hv; [by eapply Hp|done].
Qed.

Lemma within_Some lo hi n m : within lo hi n = Some m -> lo <= m <= hi.
Proof. unfold within. case_decide; [|done]. by intros [= <-]. Qed.

Lemma field_within labels key lo hi dflt (parse : string -> option Z) :
  (forall v x, parse v = Some x -> lo <= x <= hi) -> lo <= dflt <= hi -> lo <= field labels key parse dflt <= hi.
Proof. intros Hp Hd. by apply (field_ind labels key parse dflt (fun x => lo <= x <= hi)). Qed.

Lemma parseABInt_within lo hi v n : parseABInt lo hi v = Some n -> lo <= n <= hi.
Proof. unfold parseABInt. destruct (Atoi v); cbn; [|done]. apply within_Some. Qed.
Lemma parseABDuration_within lo hi v n : parseABDuration lo hi v = Some n -> lo <= n <= hi.
Proof. unfold parseABDuration. destruct (ParseDuration v); cbn; [|done]. apply within_Some. Qed.

Lemma parseABFloat_within lo hi v f : parseABFloat lo hi v = Some f -> lo <= f <= hi.
Proof. unfold parseABFloat. destruct (ParseFloat v); cbn; [|done]. apply within_Some. Qed.

Lemma field_token_ok labels key dflt : isToken dflt = true -> isToken (field labels key token dflt) = true.
Proof.
  intros Hd. apply (field_ind labels key token dflt (fun x => isToken x = true)); [done|].
  intros v x. unfold token. destruct (isToken v) eqn:Hv; [|done]. by intros [= <-].
Qed.

Lemma parse_time_ok labels now key : time_ok now (field labels key (parse_time now) 0).
Proof.
  apply (field_ind labels key (parse_time now) 0 (time_ok now)); [by left|]. intros v n. unfold parse_time, parseUnix.
  destruct (ParseInt v) as [m|]; cbn; [|done]. case_decide; [done|]. cbn. case_decide as Hr; [|done].
  intros [= <-]. right. unfold day_s in Hr. lia.
Qed.

(** Every time of a parsed configuration is near the clock, whatever the labels say. *)
Lemma config_times labels now : times_ok now (parseABConfig labels now).
Proof. split_and!; apply parse_time_ok. Qed.

Lemma one_of_elem l v x : one_of l v = Some x -> x ∈ l.
Proof. unfold one_of. case_decide; [|done]. by intros [= <-]. Qed.

Lemma read_groups_ok parts out m :
  map_Forall (fun n v => abGroupNameRe n = true /\ variant_name v = true) out ->
  read_groups parts out = Some m -> map_Forall (fun n v => abGroupNameRe n = true /\ variant_name v = true) m.
Proof.
  revert out. induction parts as [|p parts IH]; intros out Ho; cbn [read_groups]; [by intros [= <-]|].
  destruct (Cut p ":") as [[n v]|]; cbn; [|done]. destruct (_ && _) eqn:Hb; [|done].
  apply andb_true_iff in Hb. apply IH. by apply map_Forall_insert_2.
Qed.

Lemma parsePrefixes_ok v l : parsePrefixes v = Some l -> Forall prefix_ok l /\ (length l <= 32)%nat.
Proof.
  unfold parsePrefixes. case_decide as Hl; [done|]. destruct (forallb _ _) eqn:Hf; [|done]. intros [= <-].
  split; [|unfold abMaxPrefixes in Hl; lia].
  apply Forall_forall. intros p Hp. rewrite forallb_forall in Hf. specialize (Hf p ltac:(by apply list_elem_of_In)).
  by apply andb_true_iff in Hf as [[? ?%bool_decide_eq_true]%andb_true_iff ?].
Qed.

Lemma prefixes_ok labels key (parse : string -> option (list string)) dflt :
  (forall v l, parse v = Some l -> Forall prefix_ok l /\ (length l <= 32)%nat) ->
  Forall prefix_ok dflt /\ (length dflt <= 32)%nat ->
  Forall prefix_ok (field labels key parse dflt) /\ (length (field labels key parse dflt) <= 32)%nat.
Proof. intros Hp Hd. by apply (field_ind labels key parse dflt (fun l => Forall prefix_ok l /\ (length l <= 32)%nat)). Qed.

Lemma parse_static_ok v l : parse_static v = Some l -> Forall prefix_ok l /\ (length l <= 32)%nat.
Proof.
  unfold parse_static. case_decide; [|apply parsePrefixes_ok].
  intros [= <-]. split; [constructor|cbn; lia].
Qed.

Lemma parse_assign_ok v a h :
  parse_assign v = Some (a, h) ->
  a ∈ ["cookie"; "random"; "header"] /\ (a = "header" -> h <> "Cookie" /\ h <> "Host" /\ h <> "").
Proof.
  unfold parse_assign. case_decide as Hv.
  { intros [= <- <-]. destruct Hv as [->| ->]; (split; [set_solver|done]). }
  destruct (CutPrefix v "header:") as [name|]; [|done]. destruct (_ && _) eqn:Hb; [|done]. intros [= <- <-].
  apply andb_true_iff in Hb as [[Ht Hc]%andb_true_iff Hh]. apply negb_true_iff, bool_decide_eq_false in Hc, Hh.
  split; [set_solver|]. intros _. split_and!; try done. unfold isToken, is_token in Ht.
  apply andb_true_iff in Ht as [_ [Hne Htok]%andb_true_iff]. apply negb_true_iff, bool_decide_eq_false in Hne.
  unfold CanonicalHeaderKey. rewrite Htok. by destruct name.
Qed.

(** Whatever the labels say, the configuration is well formed: every invalid
    value is replaced by its default, so each field is in range. *)
Lemma config_is_wf labels now : config_wf (parseABConfig labels now).
Proof.
  assert (forall key lo hi dflt, lo <= dflt <= hi -> lo <= field labels key (parseABInt lo hi) dflt <= hi) as Hint.
  { intros. apply field_within; [|done]. intros ??. apply parseABInt_within. }
  assert (forall key lo hi dflt, lo <= dflt <= hi -> lo <= field labels key (parseABDuration lo hi) dflt <= hi) as Hdur.
  { intros. apply field_within; [|done]. intros ??. apply parseABDuration_within. }
  assert (forall key lo hi dflt, lo <= dflt <= hi -> lo <= field labels key (parseABFloat lo hi) dflt <= hi) as Hfloat.
  { intros. apply field_within; [|done]. intros ??. apply parseABFloat_within. }
  assert (5 * Minute <= session_idle labels <= 24 * Hour) as Hidle by (apply Hdur; by vm_compute).
  assert (forall x, Minute <= x <= pin_bound labels -> Minute <= x /\ 2 * x <= session_idle labels) as Hpin.
  { unfold pin_bound. intros x Hx. pose proof (Z.mul_quot_le (session_idle labels) 2) as Hq.
    assert (0 <= session_idle labels) by (unfold Minute, Second in Hidle; lia). specialize (Hq ltac:(done) ltac:(lia)). lia. }
  split; cbn -[Z.mul Z.quot field of_int fdiv ab_fraction isToken prefix_ok];
    lazymatch goal with
    | |- _ <= field _ _ (parseABInt _ _) _ <= _ => apply Hint; by vm_compute
    | |- _ <= field _ _ (parseABDuration _ _) _ <= _ => apply Hdur; by vm_compute
    | |- _ <= field _ _ (parseABFloat _ _) _ <= _ => apply Hfloat; by vm_compute
    | |- _ <= session_idle _ <= _ => exact Hidle
    | _ => idtac
    end.
  - apply Hpin, field_within; [intros ??; apply parseABDuration_within|]. unfold pin_bound.
    assert (Z.quot (5 * Minute) 2 <= Z.quot (session_idle labels) 2) by (apply Z.quot_le_mono; lia).
    change (Z.quot (5 * Minute) 2) with 150000000000 in *. unfold Minute, Second in *. lia.
  - split; apply Hint; by vm_compute.
  - apply (field_ind _ _ _ _ (fun p => p ∈ _)); [set_solver|]. intros ??. apply one_of_elem.
  - apply (field_ind _ _ _ _ (fun p => p ∈ _)); [set_solver|]. intros ?? ?%one_of_elem. by right.
  - split; by apply field_token_ok.
  - apply (field_ind _ _ _ _ (fun p => fst p ∈ _)); [set_solver|]. intros v [a h] Hp. by apply parse_assign_ok in Hp as [? _].
  - apply (field_ind _ _ _ _ (fun p => fst p = "header" -> snd p <> "Cookie" /\ snd p <> "Host" /\ snd p <> "")); [done|].
    intros v [a h] Hp. by apply parse_assign_ok in Hp as [_ ?].
  - apply (field_ind _ _ _ _ (fun m => map_Forall _ m)); [apply map_Forall_empty|]. intros v m. unfold parseABGroups.
    case_decide; [done|]. apply read_groups_ok, map_Forall_empty.
  - destruct (prefixes_ok labels "proxy.ab.exclude" parsePrefixes []) as [? ?]; [apply parsePrefixes_ok|split; [constructor|cbn; lia]|].
    destruct (prefixes_ok labels "proxy.ab.static" parse_static ["/_next/static/"]) as [? ?]; [apply parse_static_ok|by split; [apply Forall_singleton; by vm_compute|cbn; lia]|].
    split_and!; [by apply Forall_app|done..].
Qed.
End config_facts.

(** ** One test per service, everything else fails closed *)

(** The candidate whose container decides a service's test. *)
Definition winner cs svc : option cand := head (SliceStable cand_before (candidates cs svc)).

Section scan_facts.
Context `{FloatText}.

Lemma scan_service_spec cs byName now r svc :
  let r' := scan_service cs byName now r svc in
  (forall s, sc_configs r' !! s =
     if decide (s = svc)
     then match winner cs svc with
          | Some w => Some (parseABConfig (default ∅ (byName !! ca_name w)) now)
          | None => sc_configs r !! s
          end
     else sc_configs r !! s) /\
  (forall n, n ∈ sc_bNames r' <-> n ∈ sc_bNames r \/
     exists w, winner cs svc = Some w /\ mkCand n (ca_id w) ∈ candidates cs svc) /\
  (forall n, n ∈ sc_excluded r' <-> n ∈ sc_excluded r \/
     exists w id, winner cs svc = Some w /\ id <> ca_id w /\ mkCand n id ∈ candidates cs svc).
Proof.
  unfold scan_service, winner. pose proof (elem_of_SliceStable cand_before (candidates cs svc)) as Hel.
  destruct (SliceStable cand_before (candidates cs svc)) as [|w l] eqn:Hs; cbn [head sc_configs sc_bNames sc_excluded].
  { split_and!; [intros s; by case_decide|intros n; split; [auto|]..]; [intros [?|(w & ? & _)]|intros [?|(w & id & ? & _)]]; done. }
  rewrite <- Hs in *. split_and!.
  - intros s. case_decide as Hc; [subst; by rewrite lookup_insert_eq|by rewrite lookup_insert_ne].
  - intros n. rewrite elem_of_union, elem_of_list_to_set, list_elem_of_fmap. split.
    + intros [([n' id] & -> & [He Hin]%list_elem_of_filter)|?]; [right|by left]. cbn in He. subst id.
      exists w. split; [done|]. by apply Hel in Hin.
    + intros [?|(w' & [= <-] & Hin)]; [by right|left]. exists (mkCand n (ca_id w)). split; [done|].
      apply list_elem_of_filter. split; [done|]. by apply Hel.
  - intros n. rewrite elem_of_union, elem_of_list_to_set, list_elem_of_fmap. split.
    + intros [([n' id] & -> & [He Hin]%list_elem_of_filter)|?]; [right|by left]. cbn in He.
      exists w, id. split_and!; [done..|]. by apply Hel in Hin.
    + intros [?|(w' & id & [= <-] & Hne & Hin)]; [by right|left]. exists (mkCand n id). split; [done|].
      apply list_elem_of_filter. split; [done|]. by apply Hel.
Qed.

Lemma scan_services_spec cs byName now svcs r :
  let r' := fold_left (scan_service cs byName now) svcs r in
  (forall s, sc_configs r' !! s =
     match winner cs s with
     | Some w => if decide (s ∈ svcs) then Some (parseABConfig (default ∅ (byName !! ca_name w)) now) else sc_configs r !! s
     | None => sc_configs r !! s
     end) /\
  (forall n, n ∈ sc_bNames r' <-> n ∈ sc_bNames r \/
     exists svc w, svc ∈ svcs /\ winner cs svc = Some w /\ mkCand n (ca_id w) ∈ candidates cs svc) /\
  (forall n, n ∈ sc_excluded r' <-> n ∈ sc_excluded r \/
     exists svc w id, svc ∈ svcs /\ winner cs svc = Some w /\ id <> ca_id w /\ mkCand n id ∈ candidates cs svc).
Proof.
  revert r. induction svcs as [|svc svcs IH]; intros r; cbn [fold_left].
  { split_and!; [intros s; destruct (winner cs s); [by rewrite decide_False by set_solver|done]|set_solver..]. }
  destruct (IH (scan_service cs byName now r svc)) as (Hc & Hb & He).
  destruct (scan_service_spec cs byName now r svc) as (Hc1 & Hb1 & He1). split_and!.
  - intros s. rewrite Hc, Hc1. destruct (decide (s = svc)) as [->|Hne].
    + destruct (winner cs svc); [|done]. rewrite (decide_True (P := svc ∈ svc :: svcs)) by set_solver. by case_decide.
    + destruct (winner cs s); [|done].
      rewrite (decide_ext (s ∈ svc :: svcs) (s ∈ svcs)); [done|]. rewrite elem_of_cons. naive_solver.
  - intros n. rewrite Hb, Hb1. setoid_rewrite elem_of_cons. clear. naive_solver.
  - intros n. rewrite He, He1. setoid_rewrite elem_of_cons. clear. naive_solver.
Qed.
End scan_facts.

(** ** The order of candidates *)

Lemma cand_before_asym x y : cand_before x y = true -> cand_before y x = false.
Proof. unfold cand_before. repeat case_decide; try congruence; apply ltb_asym. Qed.

#[export] Instance cand_order_trans : Transitive (not_before cand_before).
Proof.
  apply not_before_trans; unfold cand_before; intros [n1 i1] [n2 i2].
  - intros [n3 i3]. cbn [ca_name ca_id]. repeat case_decide; subst; try congruence; try done; try apply ltb_trans.
    intros H1 H2. by rewrite (ltb_asym _ _ H1) in H2.
  - cbn [ca_name ca_id]. repeat case_decide; subst; try congruence; intros H1 H2; [f_equal|exfalso].
    + by apply ltb_total.
    + by apply H, ltb_total.
Qed.

Lemma winner_minimal cs svc w :
  winner cs svc = Some w ->
  w ∈ candidates cs svc /\ forall x, x ∈ candidates cs svc -> cand_before x w = false.
Proof. apply SliceStable_head; [apply cand_before_asym|apply _]. Qed.

Lemma winner_exists cs svc : candidates cs svc <> [] -> is_Some (winner cs svc).
Proof.
  unfold winner. intros Hne. destruct (SliceStable cand_before (candidates cs svc)) as [|w l] eqn:Hs; [|by eexists].
  destruct (candidates cs svc) as [|x l] eqn:Hc; [done|].
  assert (x ∈ SliceStable cand_before (x :: l)) as Hx by (apply elem_of_SliceStable; left). by rewrite Hs in Hx; inversion Hx.
Qed.

Lemma elem_of_candidates cs svc n id :
  mkCand n id ∈ candidates cs svc <-> exists c, c ∈ cs /\ classify c = Candidate svc id /\ c_name c = n.
Proof.
  unfold candidates. rewrite list_elem_of_omap. split.
  - intros (c & Hc & He). exists c. destruct (classify c) as [| |s i]; [done..|].
    case_decide as Hs; [|done]. injection He as -> ->. by subst s.
  - intros (c & Hc & Hcl & Hn). exists c. split; [done|]. rewrite Hcl, decide_True by done. by rewrite Hn.
Qed.

(** The labels remembered for a name come from a candidate of that name. *)
Lemma labels_by_name_spec cs :
  (forall n l, labels_by_name cs !! n = Some l -> exists c svc id, c ∈ cs /\ classify c = Candidate svc id /\ c_Labels c = l) /\
  (forall c svc id, c ∈ cs -> classify c = Candidate svc id -> is_Some (labels_by_name cs !! c_name c)).
Proof.
  unfold labels_by_name. set (f := fun m c => _).
  assert (forall cs m, (forall n l, fold_left f cs m !! n = Some l -> m !! n = Some l \/ exists c svc id, c ∈ cs /\ classify c = Candidate svc id /\ c_Labels c = l) /\
    (forall n, is_Some (m !! n) \/ (exists c svc id, c ∈ cs /\ classify c = Candidate svc id /\ c_name c = n) -> is_Some (fold_left f cs m !! n))) as Hf.
  { clear cs. intros cs. induction cs as [|c cs IH]; intros m; cbn [fold_left].
    { split; [auto|]. intros n [?|(c & _ & _ & Hc & _)]; [done|]. by apply not_elem_of_nil in Hc. }
    destruct (IH (f m c)) as [I1 I2]. split.
    - intros n l [Hm|(c' & svc & id & ? & ? & ?)]%I1; [|right; exists c', svc, id; split_and!; [by right|done..]].
      unfold f in Hm. destruct (classify c) as [| |svc id] eqn:Hc; [by left..|]. apply lookup_insert_Some in Hm as [[_ <-]|[_ Hm]]; [|by left].
      right. exists c, svc, id. split_and!; [by left|done..].
    - intros n Hn. apply I2. unfold f. destruct Hn as [Hm|(c' & svc & id & [-> |Hin]%elem_of_cons & Hc & Hcn)].
      + left. destruct (classify c); [done..|]. apply lookup_insert_is_Some'. by right.
      + left. rewrite Hc, Hcn, lookup_insert_eq. by eexists.
      + right. by exists c', svc, id. }
  destruct (Hf cs ∅) as [H1 H2]. split.
  - intros n l [Hm|?]%H1; [|done]. by rewrite lookup_empty in Hm.
  - intros c svc id Hc Hcl. apply H2. right. by exists c, svc, id.
Qed.

Lemma Candidate_labels c svc id : classify c = Candidate svc id -> c_Labels c !! "proxy.ab.id" = Some id /\ abIDRe id = true.
Proof.
  unfold classify. destruct (c_Labels c !! "proxy.ab.variant") as [v|]; [|done]. case_decide; [done|]. destruct (negb _); [done|].
  destruct (abIDRe (label c "proxy.ab.id")) eqn:Hid; [|done]. cbn [negb]. case_decide; [done|]. intros [= <- <-]. split; [|done].
  unfold label in *. by destruct (c_Labels c !! "proxy.ab.id").
Qed.

Lemma elem_of_services cs svc : svc ∈ services cs <-> candidates cs svc <> [].
Proof.
  unfold services. rewrite elem_of_remove_dups, list_elem_of_omap. split.
  - intros (c & Hc & He). destruct (classify c) as [| |s id] eqn:Hcl; [done..|]. injection He as ->.
    intros Hn. assert (mkCand (c_name c) id ∈ candidates cs svc) as Hi by (apply elem_of_candidates; eauto).
    rewrite Hn in Hi. by inversion Hi.
  - intros Hne. destruct (candidates cs svc) as [|[n id] l] eqn:He; [done|].
    assert (mkCand n id ∈ candidates cs svc) as Hi by (rewrite He; left).
    apply elem_of_candidates in Hi as (c & Hc & Hcl & _). exists c. by rewrite Hcl.
Qed.

Lemma unique_name cs c d : NoDup (c_name <$> cs) -> c ∈ cs -> d ∈ cs -> c_name c = c_name d -> c = d.
Proof.
  intros Hnd [i Hi]%list_elem_of_lookup [j Hj]%list_elem_of_lookup Hn.
  assert (i = j) as ->; [|congruence]. eapply NoDup_lookup; [exact Hnd|rewrite list_lookup_fmap, Hi; done|].
  by rewrite list_lookup_fmap, Hj; cbn; rewrite Hn.
Qed.

(** With one container per name, the labels under a candidate's name are its own. *)
Lemma labels_by_name_own cs c svc id :
  NoDup (c_name <$> cs) -> c ∈ cs -> classify c = Candidate svc id -> labels_by_name cs !! c_name c = Some (c_Labels c).
Proof.
  unfold labels_by_name. generalize (∅ : gmap string (gmap string string)). intros m0 Hnd Hc Hcl. revert m0 Hnd.
  induction cs as [|d cs IH]; intros m0; cbn [fmap list_fmap fold_left]; [by inversion Hc|].
  intros [Hd Hnd]%NoDup_cons. apply elem_of_cons in Hc as [->|Hc]; [|by apply IH].
  rewrite Hcl. clear IH Hnd. assert (<[c_name d := c_Labels d]> m0 !! c_name d = Some (c_Labels d)) as Hm by apply lookup_insert_eq.
  revert Hm. generalize (<[c_name d := c_Labels d]> m0). induction cs as [|e cs IH]; intros m Hm; cbn [fold_left]; [done|].
  apply not_elem_of_cons in Hd as [Hne Hd]. apply IH; [done|]. destruct (classify e); [done..|].
  by rewrite lookup_insert_ne.
Qed.

(** C35. Every test a scan hands to routing is usable, whatever is written in the
    labels: its id matches the pattern, and every setting the run-time computes
    with is in its range. The split is a percentage, the windows and intervals
    are positive and bounded, a pin is refreshed before it idles out, the sample
    counts and the thresholds the judge uses (the error difference and ratio,
    the 95th percentile's ratio and slack) are in theirs, the cookie names are
    tokens, the groups name variants, the path prefixes are absolute, short and
    without control characters, at most 32 of each, the assignment mode, the
    phase and the reason of an abort are among the known ones, the assignment header is not one of the
    two the program reads itself, and each of the three times is unset or no
    older than 90 days and at most a day ahead. *)
Theorem abScan_wf `{FloatText} cs now :
  map_Forall (fun _ cfg => config_wf cfg /\ times_ok now cfg /\ abIDRe (ab_ID cfg) = true) (sc_configs (abScan cs now)).
Proof.
  intros svc cfg Hc. unfold abScan in Hc. destruct (scan_services_spec cs (labels_by_name cs) now (services cs)
    (mkScan ∅ ∅ (list_to_set (omap (fun c => match classify c with Excluded => Some (c_name c) | _ => None end) cs)))) as (Hs & _ & _).
  rewrite Hs in Hc. cbn [sc_configs] in Hc. destruct (winner cs svc) as [w|] eqn:Hw; [|done].
  case_decide; [|done]. injection Hc as <-. split_and!; [apply config_is_wf|apply config_times|].
  destruct (winner_minimal _ _ _ Hw) as [Hin _]. destruct w as [n id]. apply elem_of_candidates in Hin as (c & Hc & Hcl & Hn).
  destruct (labels_by_name_spec cs) as [H1 H2]. destruct (H2 c svc id Hc Hcl) as [l Hl]. cbn [ca_name]. rewrite <- Hn, Hl.
  apply H1 in Hl as (c' & svc' & id' & _ & Hcl' & <-). apply Candidate_labels in Hcl' as [Hid Hre].
  cbn [default from_option Datatypes.id parseABConfig ab_ID]. by rewrite Hid.
Qed.

(** The labels of all containers decide a single test per service, and
    anything they leave unclear is kept out of routing: a container without a
    variant label (or with A) is neither a B nor left out; one with another
    variant, a malformed test id or no service is left out; among the Bs of a
    service the first in order of id and name supplies the service's test,
    those with its id are the Bs, and those with another id are left out. *)
Theorem abScan_fails_closed `{FloatText} cs now c :
  NoDup (c_name <$> cs) -> c ∈ cs ->
  let r := abScan cs now in
  match classify c with
  | NoTest => c_name c ∉ sc_bNames r /\ c_name c ∉ sc_excluded r
  | Excluded => c_name c ∉ sc_bNames r /\ c_name c ∈ sc_excluded r
  | Candidate svc id =>
      exists w wid, w ∈ cs /\ classify w = Candidate svc wid /\
        (forall d did, d ∈ cs -> classify d = Candidate svc did ->
           cand_before (mkCand (c_name d) did) (mkCand (c_name w) wid) = false) /\
        sc_configs r !! svc = Some (parseABConfig (c_Labels w) now) /\
        (if decide (id = wid) then c_name c ∈ sc_bNames r /\ c_name c ∉ sc_excluded r
         else c_name c ∉ sc_bNames r /\ c_name c ∈ sc_excluded r)
  end.
Proof.
  intros Hnd Hc r. subst r. unfold abScan.
  match goal with |- context [fold_left (scan_service cs ?b now) ?l ?i] =>
    destruct (scan_services_spec cs b now l i) as (Hcfg & Hb & He); set (r := fold_left (scan_service cs b now) l i) in * end.
  cbn [sc_configs sc_bNames sc_excluded] in Hcfg, Hb, He.
  (* a name determines its container's class *)
  assert (forall svc id, mkCand (c_name c) id ∈ candidates cs svc <-> classify c = Candidate svc id) as Hcand.
  { intros svc id. rewrite elem_of_candidates. split; [|by exists c]. intros (d & Hd & Hcl & Hn).
    by rewrite <- (unique_name cs d c Hnd Hd Hc Hn). }
  assert (c_name c ∈ (list_to_set (omap (fun d => match classify d with Excluded => Some (c_name d) | _ => None end) cs) : gset string)
            <-> classify c = Excluded) as Hex.
  { rewrite elem_of_list_to_set, list_elem_of_omap. split; [|intros Hcl; exists c; by rewrite Hcl].
    intros (d & Hd & Heq). destruct (classify d) eqn:Hcl; try done. injection Heq as Hn.
    by rewrite <- (unique_name cs d c Hnd Hd Hc Hn). }
  pose proof (Hb (c_name c)) as Hb1. pose proof (He (c_name c)) as He1. rewrite Hex in He1. setoid_rewrite Hcand in Hb1.
  setoid_rewrite Hcand in He1. clear Hb He Hex.
  destruct (classify c) as [| |svc id] eqn:Hcl.
  - rewrite Hb1, He1. set_solver.
  - rewrite Hb1, He1. set_solver.
  - assert (svc ∈ services cs) as Hsvc.
    { apply elem_of_services. intros Hn. specialize (Hcand svc id). rewrite Hn in Hcand.
      by apply (not_elem_of_nil (mkCand (c_name c) id)), Hcand. }
    destruct (winner_exists cs svc) as [[wn wid] Hw]; [by apply elem_of_services|].
    destruct (winner_minimal cs svc _ Hw) as [Hin Hmin].
    apply elem_of_candidates in Hin as (w & Hwc & Hwcl & <-). exists w, wid. split_and!; [done|done|..].
    + intros d did Hd Hdcl. apply Hmin, elem_of_candidates. eauto.
    + rewrite Hcfg, Hw, decide_True by done. cbn. by rewrite (labels_by_name_own cs w svc wid).
    + case_decide as Hid; rewrite Hb1, He1; subst; (split; [|]).
      * right. by eexists svc, _.
      * intros [?|(s & w' & i & _ & Hw' & Hne & Heq)]; [done|]. injection Heq as -> ->. rewrite Hw in Hw'. by injection Hw' as <-.
      * intros [?|(s & w' & _ & Hw' & Heq)]; [set_solver|]. injection Heq as -> ->. rewrite Hw in Hw'. by injection Hw' as <-.
      * right. by eexists svc, _, id.
Qed.

Definition ab_ex_container (name : string) (variant id svc : string) : dockerContainer :=
  mkContainer "" ["/" +:+ name] "running" "" (list_to_map [("proxy.ab.variant", variant); ("proxy.ab.id", id); ("proxy.service", svc)]) ∅.
Definition ab_ex_containers : list dockerContainer :=
  [ab_ex_container "web-b2" "B" "test1" "web"; ab_ex_container "web-b1" "B" "test1" "web";
   ab_ex_container "web-x" "B" "test2" "web"; ab_ex_container "web-c" "C" "test1" "web"; ab_ex_container "web-a" "A" "" "web"].

(** A concrete text for numbers, with which the laws of [FloatText] hold: a
    sign and the binary digits from the lowest. *)
Fixpoint bits (p : positive) : string :=
  match p with xH => "1" | xO p => String "0" (bits p) | xI p => String "i" (bits p) end.
Fixpoint unbits (s : string) : option positive :=
  match s with
  | EmptyString => None
  | String c s => if Ascii.eqb c "0" then xO <$> unbits s else if Ascii.eqb c "i" then xI <$> unbits s
                  else if Ascii.eqb c "1" && bool_decide (s = "") then Some xH else None
  end.
Lemma unbits_bits p : unbits (bits p) = Some p.
Proof. by induction p as [p IH|p IH|]; cbn; rewrite ?IH. Qed.

Definition bits_parse (s : string) : option float64 :=
  f ← match s with
      | "z" => Some 0
      | String "p" s => Zpos <$> unbits s
      | String "n" s => Zneg <$> unbits s
      | _ => None
      end;
  if decide (round f 1 = f) then Some f else None.
Definition bits_format (f : float64) : string :=
  match f with Z0 => "z" | Zpos p => String "p" (bits p) | Zneg p => String "n" (bits p) end.
#[export] Program Instance bits_text : FloatText := {| ParseFloat := bits_parse; FormatFloat := bits_format |}.
Next Obligation.
  unfold bits_parse. intros s f. destruct (match s with "z" => _ | _ => _ end) as [g|]; cbn; [|done].
  case_decide; [|done]. by intros [= <-].
Qed.
Next Obligation. done. Qed.
Next Obligation.
  intros f Hf. unfold bits_parse, bits_format. destruct f; cbn -[round]; rewrite ?unbits_bits; cbn -[round]; by rewrite decide_True.
Qed.

Example ab_ex_scan :
  let r := abScan ab_ex_containers 0 in
  (elements (sc_bNames r), elements (sc_excluded r)) = (["web-b1"; "web-b2"], ["web-c"; "web-x"]).
Proof. vm_compute. reflexivity. Qed.

Lemma abScan_fails_closed_witness :
  let r := abScan ab_ex_containers 0 in "web-c" ∉ sc_bNames r /\ "web-c" ∈ sc_excluded r.
Proof.
  apply (abScan_fails_closed ab_ex_containers 0 (ab_ex_container "web-c" "C" "test1" "web")).
  - apply (bool_decide_eq_true_1 _). by vm_compute.
  - do 3 right. left.
Defined.
