(* ===== verification/AbLabels.v ===== *)
(** * A test's configuration as labels: cmd/proxy/abtest.go, abConfig.labels

    The configuration a proxy advertises and reports is written back in label
    form, and a peer parses it again. What is written reads back as the same
    configuration, without a warning. *)
From S2P Require Import Prelude GoString Float64 Duration DurationText Http Balancer LabelOverlay PeerMerge Labels AbConfig.
Open Scope string_scope.

Definition FormatBool (b : bool) : string := if b then "true" else "false".

Definition assign_text (a h : string) : string := if decide (a = "header") then "header:" +:+ h else a.
Definition group_text (kv : string * string) : string := fst kv +:+ ":" +:+ snd kv.
Definition static_text (l : list string) : string := if decide (l = []) then "none" else Join l ",".

Section labels.
Context `{FloatText} `{MapRange}.

Definition groups_text (m : gmap string string) : string :=
  Join (merge_sort String.le (group_text <$> range_list m)) ",".

(** The map literal of [labels]. *)
Definition label_list (c : abConfig) : list (string * string) :=
  [("proxy.ab.variant", "B"); ("proxy.ab.id", ab_ID c); ("proxy.ab.assign", assign_text (ab_Assign c) (ab_Header c));
   ("proxy.ab.split", FormatInt (ab_Split c)); ("proxy.ab.groups", groups_text (ab_Groups c));
   ("proxy.ab.uid_cookie", ab_UIDCookie c); ("proxy.ab.group_cookie", ab_GroupCookie c);
   ("proxy.ab.anon", FormatBool (ab_Anon c)); ("proxy.ab.session_idle", Duration_String (ab_SessionIdle c));
   ("proxy.ab.pin_refresh", Duration_String (ab_PinRefresh c)); ("proxy.ab.max_session", Duration_String (ab_MaxSession c));
   ("proxy.ab.started", FormatInt (ab_Started c)); ("proxy.ab.epoch", FormatInt (ab_Epoch c)); ("proxy.ab.phase", ab_Phase c);
   ("proxy.ab.phase_at", FormatInt (ab_PhaseAt c)); ("proxy.ab.abort_reason", ab_AbortReason c);
   ("proxy.ab.exclude", Join (ab_Exclude c) ","); ("proxy.ab.static", static_text (ab_Static c));
   ("proxy.ab.cookie_js", FormatBool (ab_CookieJS c)); ("proxy.ab.override", FormatBool (ab_Override c));
   ("proxy.ab.autoabort", FormatBool (ab_AutoAbort c)); ("proxy.ab.min_samples", FormatInt (ab_MinSamples c));
   ("proxy.ab.min_runtime", Duration_String (ab_MinRuntime c)); ("proxy.ab.warmup", Duration_String (ab_Warmup c));
   ("proxy.ab.window", Duration_String (ab_Window c)); ("proxy.ab.windows", FormatInt (ab_Windows c));
   ("proxy.ab.window_min_samples", FormatInt (ab_WindowMinSamples c)); ("proxy.ab.err_delta", FormatFloat (ab_ErrDelta c));
   ("proxy.ab.err_ratio", FormatFloat (ab_ErrRatio c)); ("proxy.ab.p95_ratio", FormatFloat (ab_P95Ratio c));
   ("proxy.ab.p95_slack", Duration_String (ab_P95Slack c))].

(** Unresolved timestamps are omitted. *)
Definition drop_zero (key : string) (t : Z) (m : gmap string string) : gmap string string :=
  if decide (t = 0) then delete key m else m.
Definition ab_labels (c : abConfig) : gmap string string :=
  drop_zero "proxy.ab.started" (ab_Started c) (drop_zero "proxy.ab.epoch" (ab_Epoch c)
    (drop_zero "proxy.ab.phase_at" (ab_PhaseAt c) (list_to_map (label_list c)))).

Definition time_key (k : string) : bool :=
  bool_decide (k ∈ ["proxy.ab.started"; "proxy.ab.epoch"; "proxy.ab.phase_at"]).

Lemma label_list_NoDup c : NoDup (label_list c).*1.
Proof. apply (bool_decide_eq_true_1 _). reflexivity. Qed.

Lemma drop_zero_ne key t m k : k <> key -> drop_zero key t m !! k = m !! k.
Proof. intros Hk. unfold drop_zero. case_decide; [by rewrite lookup_delete_ne|done]. Qed.

Lemma ab_labels_lookup c k v : (k, v) ∈ label_list c -> time_key k = false -> ab_labels c !! k = Some v.
Proof.
  intros Hin Hk. apply bool_decide_eq_false in Hk. rewrite !not_elem_of_cons in Hk. unfold ab_labels.
  destruct Hk as (H1 & H2 & H3 & _). rewrite (drop_zero_ne _ _ _ _ H1), (drop_zero_ne _ _ _ _ H2), (drop_zero_ne _ _ _ _ H3).
  apply elem_of_list_to_map_1; [apply label_list_NoDup|done].
Qed.

(** A timestamp's label: absent for 0. *)
Lemma ab_labels_time c k t :
  (k, FormatInt t) ∈ label_list c -> (k, t) ∈ [("proxy.ab.started", ab_Started c); ("proxy.ab.epoch", ab_Epoch c); ("proxy.ab.phase_at", ab_PhaseAt c)] ->
  ab_labels c !! k = if decide (t = 0) then None else Some (FormatInt t).
Proof.
  intros Hin Hk. assert (list_to_map (label_list c) !! k = Some (FormatInt t)) as Hm
    by (apply elem_of_list_to_map_1; [apply label_list_NoDup|done]).
  unfold ab_labels. rewrite !elem_of_cons in Hk.
  destruct Hk as [Hk|[Hk|[Hk|Hk]]]; [..|by apply not_elem_of_nil in Hk]; apply pair_eq in Hk as [-> ->].
  - unfold drop_zero at 1. case_decide; [apply lookup_delete_eq|]. by rewrite !drop_zero_ne.
  - rewrite drop_zero_ne by done. unfold drop_zero at 1. case_decide; [apply lookup_delete_eq|]. by rewrite !drop_zero_ne.
  - rewrite !drop_zero_ne by done. unfold drop_zero at 1. case_decide; [apply lookup_delete_eq|done].
Qed.

(** ** Reading a printed value back *)

(** The printed value is empty and stands for the default, or parses to itself. *)
Definition reads {A} (parse : string -> option A) (print : A -> string) (dflt x : A) : Prop :=
  (print x = "" /\ x = dflt) \/ (print x <> "" /\ parse (print x) = Some x).

Lemma field_reads {A} labels labels' key (parse : string -> option A) print dflt :
  reads parse print dflt dflt -> (forall v x, parse v = Some x -> reads parse print dflt x) ->
  labels' !! key = Some (print (field labels key parse dflt)) ->
  field labels' key parse dflt = field labels key parse dflt /\ bad labels' key parse = [].
Proof.
  intros Hd Hp Hl. assert (reads parse print dflt (field labels key parse dflt)) as Hr
    by (by apply (field_ind labels key parse dflt (reads parse print dflt))).
  set (x := field labels key parse dflt) in *. unfold field, bad, given. rewrite Hl.
  destruct Hr as [[Hr Hx]|[Hr Hx]]; [by rewrite Hr, Hx|]. rewrite decide_False by done. by rewrite Hx.
Qed.

Lemma reads_int lo hi dflt n : minInt64 <= lo -> hi <= maxInt64 -> lo <= n <= hi -> reads (parseABInt lo hi) FormatInt dflt n.
Proof.
  intros Hlo Hhi Hn. right. assert (ParseInt (FormatInt n) = Some n) as Hp by (apply ParseInt_FormatInt; lia). split.
  - intros He. by rewrite He in Hp.
  - unfold parseABInt, Atoi. rewrite Hp. cbn. unfold within. by rewrite decide_True.
Qed.

Lemma reads_duration lo hi dflt d :
  0 <= lo -> hi <= maxInt64 -> lo <= d <= hi -> reads (parseABDuration lo hi) Duration_String dflt d.
Proof.
  intros Hlo Hhi Hd. right. split; [apply Duration_String_ne; lia|]. unfold parseABDuration.
  rewrite ParseDuration_String by lia. cbn. unfold within. by rewrite decide_True.
Qed.

Lemma reads_float lo hi dflt f : repr f -> lo <= f <= hi -> reads (parseABFloat lo hi) FormatFloat dflt f.
Proof.
  intros Hr Hf. right. split.
  - intros He. pose proof (ParseFloat_FormatFloat f Hr) as Hp. by rewrite He, ParseFloat_empty in Hp.
  - unfold parseABFloat. rewrite ParseFloat_FormatFloat by done. cbn. unfold within. by rewrite decide_True.
Qed.
Lemma parseABFloat_ok lo hi v f : parseABFloat lo hi v = Some f -> repr f /\ lo <= f <= hi.
Proof.
  unfold parseABFloat. destruct (ParseFloat v) as [g|] eqn:Hg; cbn; [|done]. unfold within. case_decide; [|done].
  intros [= <-]. split; [by eapply ParseFloat_repr|done].
Qed.

Lemma reads_bool dflt b : reads parseABBool FormatBool dflt b.
Proof. right. by destruct b. Qed.

Lemma reads_one_of l dflt v : v <> "" -> v ∈ l -> reads (one_of l) id dflt v.
Proof. intros Hv Hl. right. split; [done|]. unfold one_of. by rewrite decide_True. Qed.

Lemma reads_token dflt v : isToken v = true -> reads token id dflt v.
Proof.
  intros Hv. right. cbn. unfold token. rewrite Hv. split; [|done]. by intros ->.
Qed.
Lemma token_ok v x : token v = Some x -> isToken x = true.
Proof. unfold token. destruct (isToken v) eqn:Hv; [|done]. by intros [= <-]. Qed.

(** *** Assignment *)

Lemma canon_bytes_tchar b s : all_bytes is_tchar (canon_bytes b s) = all_bytes is_tchar s.
Proof.
  rewrite <- (all_tchar_lower (canon_bytes b s)), <- (all_tchar_lower s). f_equal.
  revert b. unfold ToLower. induction s as [|c s IH]; intros b; [done|]. cbn. rewrite IH. f_equal.
  destruct b; [|apply lower_byte_idem].
  pose proof (byte_check (fun c => Ascii.eqb (lower_byte (upper_byte c)) (lower_byte c)) eq_refl c) as Hb. by apply Ascii.eqb_eq in Hb.
Qed.

Lemma canon_idem s : CanonicalHeaderKey (CanonicalHeaderKey s) = CanonicalHeaderKey s.
Proof.
  unfold CanonicalHeaderKey. destruct (all_bytes is_tchar s) eqn:Hs; [|by rewrite Hs]. rewrite canon_bytes_tchar, Hs.
  generalize true. clear Hs. induction s as [|c s IH]; intros b; [done|]. cbn.
  assert (forall c, Ascii.eqb (upper_byte c) "-" = Ascii.eqb c "-") as Hup.
  { intros d. pose proof (byte_check (fun c => eqb (Ascii.eqb (upper_byte c) "-") (Ascii.eqb c "-")) eq_refl d) as Hb.
    by apply eqb_prop in Hb. }
  destruct b; rewrite ?Hup, ?dash_lower, IH; f_equal.
  - pose proof (byte_check (fun c => Ascii.eqb (upper_byte (upper_byte c)) (upper_byte c)) eq_refl c) as Hb. by apply Ascii.eqb_eq in Hb.
  - apply lower_byte_idem.
Qed.

Lemma canon_len s : len (CanonicalHeaderKey s) = len s.
Proof.
  unfold CanonicalHeaderKey. destruct (all_bytes is_tchar s); [|done]. unfold len. f_equal. generalize true.
  induction s as [|c s IH]; intros b; [done|]. cbn. by rewrite IH.
Qed.

Lemma isToken_canon s : isToken (CanonicalHeaderKey s) = isToken s.
Proof.
  unfold isToken, is_token. rewrite canon_len. f_equal. unfold CanonicalHeaderKey.
  destruct (all_bytes is_tchar s) eqn:Hs; rewrite ?canon_bytes_tchar, ?Hs; [|done]. by destruct s.
Qed.

Lemma reads_assign dflt a h v : parse_assign v = Some (a, h) -> reads parse_assign (fun ah => assign_text (fst ah) (snd ah)) dflt (a, h).
Proof.
  unfold parse_assign. case_decide as Hv.
  { intros [= <- <-]. right. cbn [fst snd]. unfold assign_text. destruct Hv as [-> | ->]; done. }
  destruct (CutPrefix v "header:") as [name|]; [|done]. destruct (_ && _) eqn:Hb; [|done]. intros [= <- <-]. right.
  cbn [fst snd]. unfold assign_text. rewrite decide_True by done. split; [done|].
  rewrite decide_False by (by intros [?|?]). rewrite CutPrefix_app, isToken_canon, canon_idem. by rewrite Hb.
Qed.

(** *** Lists *)

Lemma splitTrimmed_Join l : l <> [] -> Forall list_item l -> splitTrimmed (Join l ",") = l.
Proof. intros Hne Hl. unfold splitTrimmed. rewrite decide_False by (by apply Join_ne). by apply trimmed_parts_Join. Qed.

Lemma splitTrimmed_items v : Forall list_item (splitTrimmed v).
Proof. unfold splitTrimmed. case_decide; [constructor|apply trimmed_parts_items]. Qed.

Lemma prefixes_again v l :
  parsePrefixes v = Some l -> l <> [] -> Join l "," <> "" /\ parsePrefixes (Join l ",") = Some l /\ Join l "," <> "none".
Proof.
  intros Hp Hne. pose proof (proj1 (parsePrefixes_ok _ _ Hp)) as Hpre. unfold parsePrefixes in *. pose proof (splitTrimmed_items v) as Hit.
  case_decide as Hlen; [done|]. destruct (forallb _ (splitTrimmed v)) eqn:Hf; [|done]. injection Hp as <-.
  split_and!; [by apply Join_ne| |].
  - rewrite splitTrimmed_Join by done. by rewrite decide_False, Hf by done.
  - destruct (splitTrimmed v) as [|p l]; [done|]. apply Forall_inv in Hpre as [Hpre _]. destruct p as [|c p]; [done|].
    destruct l; cbn; intros [= -> _]; done.
Qed.

Lemma reads_prefixes v l : parsePrefixes v = Some l -> reads parsePrefixes (fun l => Join l ",") [] l.
Proof.
  intros Hp. destruct (decide (l = [])) as [->|Hne]; [by left|right]. by destruct (prefixes_again v l Hp Hne) as (? & ? & _).
Qed.

Lemma reads_static dflt v l : parse_static v = Some l -> reads parse_static static_text dflt l.
Proof.
  intros Hp. right. unfold static_text. destruct (decide (l = [])) as [->|Hne]; [done|].
  unfold parse_static in *. case_decide; [congruence|]. destruct (prefixes_again v l Hp Hne) as (? & ? & ?).
  split; [done|]. by rewrite decide_False.
Qed.

(** *** Groups *)

Definition group_ok (kv : string * string) : Prop := abGroupNameRe (fst kv) = true /\ variant_name (snd kv) = true.

Lemma group_byte c :
  in_range c "a" "z" || is_digit c || has_byte c "_-" = true -> is_space c = false /\ Ascii.eqb c "," = false /\ Ascii.eqb c ":" = false.
Proof.
  intros Hc. pose proof (byte_check (fun c => negb (in_range c "a" "z" || is_digit c || has_byte c "_-") ||
    negb (is_space c || Ascii.eqb c "," || Ascii.eqb c ":")) eq_refl c) as Hb. cbn beta in Hb. rewrite Hc in Hb. cbn in Hb.
  by apply negb_true_iff, orb_false_iff in Hb as [[? ?]%orb_false_iff ?].
Qed.

Lemma group_name_free (n : string) : abGroupNameRe n = true ->
  all_bytes (fun c => negb (is_space c)) n = true /\ has_byte "," n = false /\ has_byte ":" n = false.
Proof.
  unfold abGroupNameRe. intros [_ Hn]%andb_true_iff. unfold has_byte. rewrite !negb_false_iff.
  induction n as [|c n IH]; [done|]. cbn [all_bytes] in *. apply andb_true_iff in Hn as [Hc Hn].
  destruct (group_byte c Hc) as (Hs & Hk & Hl). destruct (IH Hn) as (H1 & H2 & H3). by rewrite Hs, Hk, Hl, H1, H2, H3.
Qed.

Lemma group_item kv : group_ok kv -> list_item (group_text kv) /\ Cut (group_text kv) ":" = Some kv.
Proof.
  destruct kv as [n v]. intros [Hn Hv]. cbn [fst snd] in *. destruct (group_name_free n Hn) as (Hs & Hc & Hl). unfold group_text. cbn [fst snd].
  assert (v = "A" \/ v = "B") as Hab.
  { unfold variant_name in Hv. apply orb_true_iff in Hv as [H1|H1]; apply bool_decide_eq_true in H1; auto. }
  split.
  - split_and!; [by destruct n| |].
    + apply TrimSpace_id. rewrite !all_bytes_app, Hs. by destruct Hab as [-> | ->].
    + rewrite !has_byte_app, Hc. by destruct Hab as [-> | ->].
  - by apply Cut_Some.
Qed.

Lemma read_groups_text kvs out :
  Forall group_ok kvs -> NoDup kvs.*1 -> (forall n, n ∈ kvs.*1 -> out !! n = None) ->
  read_groups (group_text <$> kvs) out = Some (list_to_map kvs ∪ out).
Proof.
  intros Hok. revert out. induction Hok as [|[n v] kvs Hkv Hok IH]; intros out Hnd Hout; cbn [fmap list_fmap read_groups fst].
  { by rewrite list_to_map_nil, map_empty_union. }
  destruct (group_item _ Hkv) as [_ ->]. cbn [mbind option_bind]. destruct Hkv as [Hn Hv]. cbn [fst snd] in Hn, Hv. rewrite Hn, Hv. cbn [andb].
  cbn [fmap list_fmap fst] in Hnd, Hout. apply NoDup_cons in Hnd as [Hni Hnd]. rewrite IH; [|done|].
  - rewrite list_to_map_cons. f_equal. rewrite <- insert_union_r by (by apply not_elem_of_list_to_map_1). by rewrite insert_union_l.
  - intros m Hm. rewrite lookup_insert_ne by (by intros ->). apply Hout. by right.
Qed.

Lemma read_groups_size parts out m :
  read_groups parts out = Some m -> (size m <= length parts + size out)%nat.
Proof.
  revert out. induction parts as [|p parts IH]; intros out; cbn [read_groups length]; [intros [= <-]; lia|].
  destruct (Cut p ":") as [[n v]|]; cbn; [|done]. destruct (_ && _); [|done]. intros Hr%IH. rewrite map_size_insert in Hr.
  destruct (out !! n); cbn in *; lia.
Qed.

Lemma reads_groups v m : parseABGroups v = Some m -> reads parseABGroups groups_text ∅ m.
Proof.
  unfold parseABGroups at 1. case_decide as Hlen; [done|]. intros Hr.
  pose proof (read_groups_size _ _ _ Hr) as Hsz. rewrite map_size_empty in Hsz.
  assert (map_Forall (fun n v => abGroupNameRe n = true /\ variant_name v = true) m) as Hok
    by (eapply read_groups_ok; [|exact Hr]; apply map_Forall_empty).
  assert (exists kvs, merge_sort String.le (group_text <$> range_list m) = group_text <$> kvs /\ kvs ≡ₚ map_to_list m) as (kvs & Hkvs & Hperm).
  { destruct (Permutation_map_inv group_text (l1 := merge_sort String.le (group_text <$> range_list m)) (range_list m)) as (kvs & Hk & Hp).
    - apply merge_sort_Permutation.
    - exists kvs. split; [exact Hk|]. rewrite <- Hp. apply range_perm. }
  assert (Forall group_ok kvs) as Hkok.
  { rewrite Hperm. apply Forall_forall. intros [n x] Hin%elem_of_map_to_list. exact (Hok n x Hin). }
  assert (NoDup kvs.*1) as Hnd by (rewrite Hperm; apply NoDup_fst_map_to_list).
  assert (list_to_map kvs = m) as Hm by (rewrite <- (list_to_map_to_list m); by apply list_to_map_proper).
  unfold groups_text, reads. rewrite Hkvs. destruct (decide (kvs = [])) as [->|Hne]; [left; split; [done|by rewrite <- Hm]|right].
  assert (Forall list_item (group_text <$> kvs)) as Hit.
  { apply Forall_fmap. eapply Forall_impl; [exact Hkok|]. intros kv Hkv. by apply group_item. }
  assert (group_text <$> kvs <> []) as Hne' by (by destruct kvs).
  split; [by apply Join_ne|]. unfold parseABGroups. rewrite splitTrimmed_Join by done. rewrite decide_False.
  - rewrite read_groups_text; [|done|done|]. { by rewrite Hm, map_union_empty. } intros. apply lookup_empty.
  - rewrite length_fmap, Hperm, length_map_to_list. lia.
Qed.

(** *** Timestamps *)

Lemma parse_time_again now v t : parse_time now v = Some t -> t <> 0 /\ parse_time now (FormatInt t) = Some t.
Proof.
  unfold parse_time, parseUnix. destruct (ParseInt v) as [n|] eqn:Hn; cbn; [|done]. case_decide; [done|]. cbn.
  case_decide as Hr; [|done]. intros [= <-]. split; [lia|].
  assert (minInt64 <= n <= maxInt64) as Hb.
  { unfold ParseInt in Hn. destruct v as [|c r]; [done|].
    assert (forall o : option Z, (x ← o; in_int64 x) = Some n -> minInt64 <= n <= maxInt64) as Hin.
    { clear. intros [x|]; [|done]. cbn. unfold in_int64. case_decide; [|done]. intros; by simplify_eq. }
    destruct (Ascii.eqb c "-").
    - case_decide; [done|]. destruct (parse_digits r 0) as [x|]; [|done]. cbn in Hn. apply (Hin (Some (- x))). exact Hn.
    - destruct (Ascii.eqb c "+"); [case_decide; [done|]|]; by eapply Hin. }
  rewrite ParseInt_FormatInt by done. cbn. rewrite decide_False by done. cbn. by rewrite decide_True.
Qed.

Lemma field_time labels labels' now key :
  labels' !! key = (if decide (field labels key (parse_time now) 0 = 0) then None else Some (FormatInt (field labels key (parse_time now) 0))) ->
  field labels' key (parse_time now) 0 = field labels key (parse_time now) 0 /\ bad labels' key (parse_time now) = [].
Proof.
  intros Hl. assert (forall t, t = field labels key (parse_time now) 0 -> t <> 0 -> parse_time now (FormatInt t) = Some t) as Hp.
  { intros t ->. apply (field_ind labels key (parse_time now) 0 (fun t => t <> 0 -> parse_time now (FormatInt t) = Some t)); [done|].
    intros v x Hx _. by apply parse_time_again in Hx as [_ ?]. }
  specialize (Hp _ eq_refl). set (t := field labels key (parse_time now) 0) in *. unfold field, bad, given. rewrite Hl.
  case_decide as Ht; [done|]. specialize (Hp Ht). rewrite decide_False by (intros He; by rewrite He in Hp). by rewrite Hp.
Qed.

(** ** The configuration reads back *)

Lemma wf_max_bounds : 7 * Day <= maxInt64 /\ 0 <= 5 * Minute.
Proof. by vm_compute. Qed.

Ltac entry := repeat first [left; reflexivity | right].
(** One field: find its label, then its parser's lemma. *)
Ltac reread l print := apply (field_reads l _ _ _ print); [| |apply ab_labels_lookup; [entry|reflexivity]].
Ltac reread_int l := reread l FormatInt; [apply reads_int; by vm_compute|intros ? ? ?%parseABInt_within; apply reads_int; try done; by vm_compute].
Ltac reread_dur l := reread l Duration_String; [apply reads_duration; by vm_compute|intros ? ? ?%parseABDuration_within; apply reads_duration; try done; by vm_compute].
Ltac reread_bool l := reread l FormatBool; [apply reads_bool|intros ? ? _; apply reads_bool].

Section reread.
Context (l : gmap string string) (now : Z).
Notation c := (parseABConfig l now).
Notation l' := (ab_labels c).

Lemma reread_idle : session_idle l' = session_idle l /\ bad l' "proxy.ab.session_idle" (parseABDuration (5 * Minute) (24 * Hour)) = [].
Proof. reread_dur l. Qed.

Lemma pin_bound_range : 150 * Second <= pin_bound l <= 12 * Hour.
Proof.
  assert (5 * Minute <= session_idle l <= 24 * Hour) as Hi.
  { apply field_within; [intros ??; apply parseABDuration_within|by vm_compute]. }
  unfold pin_bound. pose proof (Z.quot_le_mono (5 * Minute) (session_idle l) 2) as H1.
  pose proof (Z.quot_le_mono (session_idle l) (24 * Hour) 2) as H2.
  change (Z.quot (5 * Minute) 2) with (150 * Second) in H1. change (Z.quot (24 * Hour) 2) with (12 * Hour) in H2. lia.
Qed.

Lemma reread_pin : ab_PinRefresh (parseABConfig l' now) = ab_PinRefresh c /\
  bad l' "proxy.ab.pin_refresh" (parseABDuration Minute (pin_bound l')) = [].
Proof.
  pose proof pin_bound_range as Hb. cbn [ab_PinRefresh parseABConfig].
  assert (pin_bound l' = pin_bound l) as -> by (unfold pin_bound; by rewrite (proj1 reread_idle)).
  assert (forall d, Minute <= d <= pin_bound l ->
    reads (parseABDuration Minute (pin_bound l)) Duration_String (Z.min (5 * Minute) (pin_bound l)) d) as Hr.
  { intros d Hd. apply reads_duration; [by vm_compute| |done]. transitivity (12 * Hour); [lia|by vm_compute]. }
  reread l Duration_String; [apply Hr; unfold Minute, Second in *; lia|intros ? ? Hp; apply parseABDuration_within in Hp; by apply Hr].
Qed.

Lemma reread_assign : field l' "proxy.ab.assign" parse_assign ("cookie", "") = field l "proxy.ab.assign" parse_assign ("cookie", "") /\
  bad l' "proxy.ab.assign" parse_assign = [].
Proof.
  apply (field_reads l l' "proxy.ab.assign" parse_assign (fun ah => assign_text (fst ah) (snd ah))).
  - by right.
  - intros v [a h] Hp. by eapply reads_assign.
  - apply ab_labels_lookup; [entry|reflexivity].
Qed.

Lemma repr_fraction n d : 0 < of_int d -> repr (ab_fraction n d).
Proof. intros Hd. by apply repr_round. Qed.

Lemma reread_float key lo hi dflt :
  (key, FormatFloat (field l key (parseABFloat lo hi) dflt)) ∈ label_list c -> time_key key = false ->
  repr dflt -> lo <= dflt <= hi ->
  field l' key (parseABFloat lo hi) dflt = field l key (parseABFloat lo hi) dflt /\ bad l' key (parseABFloat lo hi) = [].
Proof.
  intros Hin Hk Hr Hd. apply (field_reads l _ _ _ FormatFloat).
  - by apply reads_float.
  - intros v x [Hx Hb]%parseABFloat_ok. by apply reads_float.
  - by apply ab_labels_lookup.
Qed.

Lemma reread_floats :
  (ab_ErrDelta (parseABConfig l' now) = ab_ErrDelta c /\ bad l' "proxy.ab.err_delta" (parseABFloat (ab_fraction 1 10) (of_int 100)) = []) /\
  (ab_ErrRatio (parseABConfig l' now) = ab_ErrRatio c /\ bad l' "proxy.ab.err_ratio" (parseABFloat (of_int 1) (of_int 100)) = []) /\
  (ab_P95Ratio (parseABConfig l' now) = ab_P95Ratio c /\ bad l' "proxy.ab.p95_ratio" (parseABFloat (of_int 1) (of_int 100)) = []).
Proof.
  split; [|split]; apply reread_float.
  1: by apply (list_elem_of_lookup_2 _ 27).
  4: by apply (list_elem_of_lookup_2 _ 28).
  7: by apply (list_elem_of_lookup_2 _ 29).
  1,4,7: reflexivity.
  1,3,5: apply (bool_decide_eq_true_1 _); vm_compute; reflexivity.
  all: apply (bool_decide_eq_true_1 _); vm_compute; reflexivity.
Qed.

Lemma reread_times :
  (ab_Started (parseABConfig l' now) = ab_Started c /\ bad l' "proxy.ab.started" (parse_time now) = []) /\
  (ab_Epoch (parseABConfig l' now) = ab_Epoch c /\ bad l' "proxy.ab.epoch" (parse_time now) = []) /\
  (ab_PhaseAt (parseABConfig l' now) = ab_PhaseAt c /\ bad l' "proxy.ab.phase_at" (parse_time now) = []).
Proof.
  split; [|split]; apply field_time; match goal with |- ab_labels _ !! ?k = if decide (?t = 0) then _ else _ => apply (ab_labels_time c k t) end; by entry.
Qed.

Lemma reread_words :
  (ab_Phase (parseABConfig l' now) = ab_Phase c /\ bad l' "proxy.ab.phase" (one_of ["running"; "aborted"; "promoting"; "discarding"]) = []) /\
  (ab_AbortReason (parseABConfig l' now) = ab_AbortReason c /\ bad l' "proxy.ab.abort_reason" (one_of ["errors"; "latency"; "manual"]) = []) /\
  (ab_UIDCookie (parseABConfig l' now) = ab_UIDCookie c /\ bad l' "proxy.ab.uid_cookie" token = []) /\
  (ab_GroupCookie (parseABConfig l' now) = ab_GroupCookie c /\ bad l' "proxy.ab.group_cookie" token = []).
Proof.
  assert (forall ws v x, Forall (fun w => w <> "") ws -> one_of ws v = Some x -> x <> "" /\ x ∈ ws) as Hone.
  { intros ws v x Hws Hx%one_of_elem. rewrite Forall_forall in Hws. auto. }
  split; [|split; [|split]]; apply (field_reads l _ _ _ id); try (apply ab_labels_lookup; [entry|reflexivity]).
  - by right.
  - intros v x Hx. apply Hone in Hx as [? ?]; [by apply reads_one_of|by repeat constructor].
  - by left.
  - intros v x Hx. apply Hone in Hx as [? ?]; [by apply reads_one_of|by repeat constructor].
  - by right.
  - intros v x Hx. apply token_ok in Hx. by apply reads_token.
  - by right.
  - intros v x Hx. apply token_ok in Hx. by apply reads_token.
Qed.

Lemma reread_lists :
  (ab_Groups (parseABConfig l' now) = ab_Groups c /\ bad l' "proxy.ab.groups" parseABGroups = []) /\
  (ab_Exclude (parseABConfig l' now) = ab_Exclude c /\ bad l' "proxy.ab.exclude" parsePrefixes = []) /\
  (ab_Static (parseABConfig l' now) = ab_Static c /\ bad l' "proxy.ab.static" parse_static = []).
Proof.
  split; [|split].
  - apply (field_reads l _ _ _ groups_text); [left; split; [|done]| |apply ab_labels_lookup; [entry|reflexivity]].
    + unfold groups_text. assert (range_list (∅ : gmap string string) = []) as -> by (apply Permutation_nil; rewrite range_perm; by rewrite map_to_list_empty). done.
    + intros v m. apply reads_groups.
  - apply (field_reads l _ _ _ (fun x => Join x ",")); [by left| |apply ab_labels_lookup; [entry|reflexivity]]. apply reads_prefixes.
  - apply (field_reads l _ _ _ static_text); [by right| |apply ab_labels_lookup; [entry|reflexivity]]. intros v x. apply reads_static.
Qed.

Lemma reread_ints :
  (ab_Split (parseABConfig l' now) = ab_Split c /\ bad l' "proxy.ab.split" (parseABInt 0 100) = []) /\
  (ab_MinSamples (parseABConfig l' now) = ab_MinSamples c /\ bad l' "proxy.ab.min_samples" (parseABInt 1 10000000) = []) /\
  (ab_Windows (parseABConfig l' now) = ab_Windows c /\ bad l' "proxy.ab.windows" (parseABInt 1 12) = []) /\
  (ab_WindowMinSamples (parseABConfig l' now) = ab_WindowMinSamples c /\
     bad l' "proxy.ab.window_min_samples" (parseABInt 1 1000000) = []).
Proof. split; [|split; [|split]]; reread_int l. Qed.

Lemma reread_durations :
  (ab_MaxSession (parseABConfig l' now) = ab_MaxSession c /\ bad l' "proxy.ab.max_session" (parseABDuration Hour (7 * Day)) = []) /\
  (ab_MinRuntime (parseABConfig l' now) = ab_MinRuntime c /\ bad l' "proxy.ab.min_runtime" (parseABDuration 0 (24 * Hour)) = []) /\
  (ab_Warmup (parseABConfig l' now) = ab_Warmup c /\ bad l' "proxy.ab.warmup" (parseABDuration 0 Hour) = []) /\
  (ab_Window (parseABConfig l' now) = ab_Window c /\ bad l' "proxy.ab.window" (parseABDuration Minute Hour) = []) /\
  (ab_P95Slack (parseABConfig l' now) = ab_P95Slack c /\ bad l' "proxy.ab.p95_slack" (parseABDuration 0 (60 * Second)) = []).
Proof. split; [|split; [|split; [|split]]]; reread_dur l. Qed.

Lemma reread_bools :
  (ab_Anon (parseABConfig l' now) = ab_Anon c /\ bad l' "proxy.ab.anon" parseABBool = []) /\
  (ab_CookieJS (parseABConfig l' now) = ab_CookieJS c /\ bad l' "proxy.ab.cookie_js" parseABBool = []) /\
  (ab_Override (parseABConfig l' now) = ab_Override c /\ bad l' "proxy.ab.override" parseABBool = []) /\
  (ab_AutoAbort (parseABConfig l' now) = ab_AutoAbort c /\ bad l' "proxy.ab.autoabort" parseABBool = []).
Proof. split; [|split; [|split]]; reread_bool l. Qed.

Lemma reread_id : ab_ID (parseABConfig l' now) = ab_ID c.
Proof. cbn [ab_ID parseABConfig]. by rewrite (ab_labels_lookup c "proxy.ab.id" (ab_ID c)) by (by entry). Qed.

Lemma abConfig_eta x : x = mkAbConfig (ab_ID x) (ab_Assign x) (ab_Header x) (ab_Split x) (ab_Groups x) (ab_UIDCookie x) (ab_GroupCookie x)
  (ab_Anon x) (ab_SessionIdle x) (ab_PinRefresh x) (ab_MaxSession x) (ab_Started x) (ab_Epoch x) (ab_Phase x) (ab_PhaseAt x)
  (ab_AbortReason x) (ab_Exclude x) (ab_Static x) (ab_CookieJS x) (ab_Override x) (ab_AutoAbort x) (ab_MinSamples x)
  (ab_MinRuntime x) (ab_Warmup x) (ab_Window x) (ab_Windows x) (ab_WindowMinSamples x) (ab_ErrDelta x) (ab_ErrRatio x)
  (ab_P95Ratio x) (ab_P95Slack x).
Proof. by destruct x. Qed.

(** A configuration survives the mesh: whatever labels a test was read from,
    writing the configuration back as labels and parsing those gives the same
    configuration, and the parser has nothing to report. *)
Lemma labels_roundtrip : parseABConfig (ab_labels c) now = c /\ ab_warnings (ab_labels c) now = [].
Proof.
  pose proof reread_id as Hid. destruct reread_assign as [Ha Wa]. destruct reread_idle as [Hi Wi].
  destruct reread_pin as [Hp Wp]. destruct reread_ints as ([Hsp Wsp] & [Hms Wms] & [Hw Ww] & [Hwm Wwm]).
  destruct reread_durations as ([Hmx Wmx] & [Hmr Wmr] & [Hwu Wwu] & [Hwi Wwi] & [Hsl Wsl]).
  destruct reread_bools as ([Han Wan] & [Hcj Wcj] & [Hov Wov] & [Hab Wab]).
  destruct reread_floats as ([Hed Wed] & [Her Wer] & [Hpr Wpr]).
  destruct reread_times as ([Hst Wst] & [Hep Wep] & [Hpa Wpa]).
  destruct reread_words as ([Hph Wph] & [Har War] & [Hu Wu] & [Hg Wg]).
  destruct reread_lists as ([Hgr Wgr] & [Hex Wex] & [Hsa Wsa]). split.
  - assert (ab_Assign (parseABConfig l' now) = ab_Assign c /\ ab_Header (parseABConfig l' now) = ab_Header c) as [Has Hhd]
      by (cbn [ab_Assign ab_Header parseABConfig]; by rewrite Ha).
    assert (ab_SessionIdle (parseABConfig l' now) = ab_SessionIdle c) as Hsi by exact Hi.
    rewrite (abConfig_eta (parseABConfig l' now)). rewrite Hid, Has, Hhd, Hsp, Hgr, Hu, Hg, Han, Hsi, Hp, Hmx, Hst, Hep, Hph, Hpa, Har, Hex, Hsa,
      Hcj, Hov, Hab, Hms, Hmr, Hwu, Hwi, Hw, Hwm, Hed, Her, Hpr, Hsl.
    symmetry. apply abConfig_eta.
  - unfold ab_warnings. by rewrite Wa, Wi, Wp, Wsp, Wms, Ww, Wwm, Wmx, Wmr, Wwu, Wwi, Wsl, Wan, Wcj, Wov, Wab, Wed, Wer, Wpr, Wst, Wep,
      Wpa, Wph, War, Wu, Wg, Wgr, Wex, Wsa.
Qed.
End reread.
End labels.

(** It computes: the parser's numbers come back in their printed form. *)
Definition ex_labels : gmap string string :=
  list_to_map [("proxy.ab.id", "test1"); ("proxy.ab.groups", " staff:B , ops:A"); ("proxy.ab.session_idle", "8m");
               ("proxy.ab.assign", "header:x-tenant"); ("proxy.ab.split", "250"); ("proxy.ab.static", "none");
               ("proxy.ab.started", "1700000000")].
Example relabelled :
  let c := parseABConfig ex_labels 1700000500 in
  parseABConfig (ab_labels c) 1700000500 = c /\ ab_Header c = "X-Tenant" /\ ab_PinRefresh c = 4 * Minute /\ ab_Split c = 10 /\
  ab_labels c !! "proxy.ab.groups" = Some "ops:A,staff:B".
Proof. split; [apply (labels_roundtrip ex_labels 1700000500)|]. by vm_compute. Qed.
