(* ===== verification/AbRun.v ===== *)
(** * The run of an A/B test: cmd/proxy/abtest.go and cmd/proxy/abmesh.go

    [abRun] holds one test's counters, its ring of windows, its abort latch and
    what peers reported. [record] counts a request, [judge] decides from closed
    windows whether B must be aborted, [applyPeer] folds a peer's report in. *)
From S2P Require Import Prelude GoString Float64 Duration DurationText Http Balancer Router LabelOverlay PeerMerge AbConfig AbLabels.
Open Scope string_scope.

(** ** Variants *)

(** An array indexed by [abIdx]. *)
Record two (A : Type) := mkTwo { vA : A; vB : A }.
Arguments mkTwo {A}. Arguments vA {A}. Arguments vB {A}.

Definition abIdx (v : string) : bool := bool_decide (v = "B").
Definition sel {A} (i : bool) (t : two A) : A := if i then vB t else vA t.
Definition upd {A} (i : bool) (f : A -> A) (t : two A) : two A := if i then mkTwo (vA t) (f (vB t)) else mkTwo (f (vA t)) (vB t).
Definition both {A} (x : A) : two A := mkTwo x x.

(** ** Counters *)

Definition abHistBuckets : nat := 64.

Record abCounters := mkCounters {
  c_Requests : Z;
  c_Err5xx : Z;
  c_Transport : Z;
  c_Failover : Z;
  c_Hist : list Z;
}.
Definition no_counters : abCounters := mkCounters 0 0 0 0 (replicate abHistBuckets 0).

(** uint64 addition. *)
Definition u64 (a b : Z) : Z := uint 64 (a + b).

Definition c_plus (c o : abCounters) : abCounters :=
  mkCounters (u64 (c_Requests c) (c_Requests o)) (u64 (c_Err5xx c) (c_Err5xx o)) (u64 (c_Transport c) (c_Transport o))
    (u64 (c_Failover c) (c_Failover o)) (zip_with u64 (c_Hist c) (c_Hist o)).

Definition samples (c : abCounters) : Z := u64 (u64 (c_Requests c) (c_Transport c)) (c_Failover c).

Definition errRate (c : abCounters) : float64 :=
  let n := samples c in
  if decide (n = 0) then 0
  else fdiv (of_int (u64 (u64 (c_Err5xx c) (c_Transport c)) (c_Failover c))) (of_int n).

(** The bucket edges, 1.2^(i+1) milliseconds, multiplied up in float64. *)
Definition abHistRatio : float64 := fdiv (of_int 6) (of_int 5).
Fixpoint hist_bounds (n : nat) (v : float64) : list float64 :=
  match n with O => [] | S n => let v := fmul v abHistRatio in v :: hist_bounds n v end.
Definition abHistBounds : list float64 := hist_bounds abHistBuckets one.

(** [sort.SearchFloat64s]: the first edge not below [ms]. *)
Fixpoint search (bs : list float64) (ms : float64) : nat :=
  match bs with [] => 0 | b :: bs => if decide (ms <= b) then 0 else S (search bs ms) end.
Definition abHistBucket (ms : float64) : nat :=
  let i := search abHistBounds ms in if decide (abHistBuckets <= i)%nat then (abHistBuckets - 1)%nat else i.

Definition milliseconds (latency : Z) : float64 := fdiv (of_int latency) (of_int 1000000).

Section percentile.
Context `{FloatUnit}.

Fixpoint percentile_from (target cum lo : float64) (buckets : list (Z * float64)) : option float64 :=
  match buckets with
  | [] => None
  | (n, hi) :: bs =>
      if decide (n = 0) then percentile_from target cum hi bs
      else if decide (target <= fadd cum (of_int n)) then
        let frac := fdiv (fsub target cum) (of_int n) in Some (mul_add frac (fsub hi lo) lo)
      else percentile_from target (fadd cum (of_int n)) hi bs
  end.

Definition percentile (q : float64) (c : abCounters) : float64 :=
  let total := fold_left u64 (c_Hist c) 0 in
  if decide (total = 0) then 0
  else default (List.last abHistBounds 0)
    (percentile_from (fmul q (of_int total)) 0 0 (zip (c_Hist c) abHistBounds)).
End percentile.

(** ** Windows *)

Record abWindow := mkWindow { w_Index : Z; w_V : two abCounters }.
Definition new_window (idx : Z) : abWindow := mkWindow idx (both no_counters).

Record abSummary := mkSummary { s_Cumulative : two abCounters; s_Windows : list abWindow }.

Definition abRingSize : Z := 3.
Definition abPinnedCap : nat := N.to_nat 50000.

(** The tumbling window, -1 during warm-up. Times are in nanoseconds. *)
Definition abWindowIndex (cfg : abConfig) (now : Z) : Z :=
  let anchor := ab_Epoch cfg * Second + ab_Warmup cfg in
  if time_before now anchor then -1 else Z.quot (time_sub now anchor) (ab_Window cfg).

(** ** The judge's state *)

(** What [Detail] prints: two rates in percent, two latencies in milliseconds,
    or a peer's text. *)
Inductive ab_detail := NoDetail | ErrorRates (b a : float64) | Latencies (b a : float64) | Said (s : string).

Record abJudgeState := mkJudge {
  j_Seen : bool;
  j_LastIdx : Z;
  j_Streak : Z;
  j_Reason : string;
  j_Detail : ab_detail;
}.
Definition new_judge : abJudgeState := mkJudge false 0 0 "" NoDetail.

Record abVerdict := mkVerdict { v_Abort : bool; v_Reason : string; v_Detail : ab_detail; v_Status : string }.
Definition status (s : string) : abVerdict := mkVerdict false "" NoDetail s.

Record abAbortInfo := mkAbort { a_Reason : string; a_Detail : ab_detail; a_At : Z; a_Source : string }.

(** What a validated peer experiment carries beyond its routing part. *)
Record abPeerFull := mkPeerFull {
  pf_exp : abPeerExp;
  pf_abort : option abAbortInfo;
  pf_pinned : two (Z * Z);
  pf_sum : abSummary;
}.
Record abPeerSnap := mkSnap { ps_exp : abPeerFull; ps_at : Z }.

Record abRun := mkRun {
  r_service : string;
  r_id : string;
  r_firstSeen : Z;
  r_latched : bool;
  r_cfg : option abConfig;
  r_attached : bool;
  r_bLocal : Z;
  r_abort : abAbortInfo;
  r_cum : two abCounters;
  r_warm : two abCounters;
  r_ring : list abWindow;
  r_js : abJudgeState;
  r_verdict : abVerdict;
  r_failover : two Z;
  r_draining : two Z;
  r_hopErrors : Z;
  r_staticFallbacks : Z;
  r_pinnedLast : two Z;
  r_pinnedNonces : two (gmap string Z);
  r_peers : gmap string abPeerSnap;
  r_syncInterval : Z;
}.

Definition empty_ring : list abWindow := replicate (Z.to_nat abRingSize) (new_window (-1)).

Definition newABRun (service id : string) (now : Z) : abRun :=
  mkRun service id now false None false 0 (mkAbort "" NoDetail 0 "") (both no_counters) (both no_counters) empty_ring new_judge
    (mkVerdict false "" NoDetail "") (both 0) (both 0) 0 0 (both 0) (both ∅) ∅ 0.

Definition set_r_latched (x : bool) (r : abRun) : abRun :=
  mkRun (r_service r) (r_id r) (r_firstSeen r) x (r_cfg r) (r_attached r) (r_bLocal r) (r_abort r) (r_cum r)
    (r_warm r) (r_ring r) (r_js r) (r_verdict r) (r_failover r) (r_draining r) (r_hopErrors r)
    (r_staticFallbacks r) (r_pinnedLast r) (r_pinnedNonces r) (r_peers r) (r_syncInterval r).
Definition set_r_cfg (x : option abConfig) (r : abRun) : abRun :=
  mkRun (r_service r) (r_id r) (r_firstSeen r) (r_latched r) x (r_attached r) (r_bLocal r) (r_abort r) (r_cum
    r) (r_warm r) (r_ring r) (r_js r) (r_verdict r) (r_failover r) (r_draining r) (r_hopErrors r)
    (r_staticFallbacks r) (r_pinnedLast r) (r_pinnedNonces r) (r_peers r) (r_syncInterval r).
Definition set_r_attached (x : bool) (r : abRun) : abRun :=
  mkRun (r_service r) (r_id r) (r_firstSeen r) (r_latched r) (r_cfg r) x (r_bLocal r) (r_abort r) (r_cum r)
    (r_warm r) (r_ring r) (r_js r) (r_verdict r) (r_failover r) (r_draining r) (r_hopErrors r)
    (r_staticFallbacks r) (r_pinnedLast r) (r_pinnedNonces r) (r_peers r) (r_syncInterval r).
Definition set_r_bLocal (x : Z) (r : abRun) : abRun :=
  mkRun (r_service r) (r_id r) (r_firstSeen r) (r_latched r) (r_cfg r) (r_attached r) x (r_abort r) (r_cum r)
    (r_warm r) (r_ring r) (r_js r) (r_verdict r) (r_failover r) (r_draining r) (r_hopErrors r)
    (r_staticFallbacks r) (r_pinnedLast r) (r_pinnedNonces r) (r_peers r) (r_syncInterval r).
Definition set_r_abort (x : abAbortInfo) (r : abRun) : abRun :=
  mkRun (r_service r) (r_id r) (r_firstSeen r) (r_latched r) (r_cfg r) (r_attached r) (r_bLocal r) x (r_cum r)
    (r_warm r) (r_ring r) (r_js r) (r_verdict r) (r_failover r) (r_draining r) (r_hopErrors r)
    (r_staticFallbacks r) (r_pinnedLast r) (r_pinnedNonces r) (r_peers r) (r_syncInterval r).
Definition set_r_cum (x : two abCounters) (r : abRun) : abRun :=
  mkRun (r_service r) (r_id r) (r_firstSeen r) (r_latched r) (r_cfg r) (r_attached r) (r_bLocal r) (r_abort r)
    x (r_warm r) (r_ring r) (r_js r) (r_verdict r) (r_failover r) (r_draining r) (r_hopErrors r)
    (r_staticFallbacks r) (r_pinnedLast r) (r_pinnedNonces r) (r_peers r) (r_syncInterval r).
Definition set_r_warm (x : two abCounters) (r : abRun) : abRun :=
  mkRun (r_service r) (r_id r) (r_firstSeen r) (r_latched r) (r_cfg r) (r_attached r) (r_bLocal r) (r_abort r)
    (r_cum r) x (r_ring r) (r_js r) (r_verdict r) (r_failover r) (r_draining r) (r_hopErrors r)
    (r_staticFallbacks r) (r_pinnedLast r) (r_pinnedNonces r) (r_peers r) (r_syncInterval r).
Definition set_r_ring (x : list abWindow) (r : abRun) : abRun :=
  mkRun (r_service r) (r_id r) (r_firstSeen r) (r_latched r) (r_cfg r) (r_attached r) (r_bLocal r) (r_abort r)
    (r_cum r) (r_warm r) x (r_js r) (r_verdict r) (r_failover r) (r_draining r) (r_hopErrors r)
    (r_staticFallbacks r) (r_pinnedLast r) (r_pinnedNonces r) (r_peers r) (r_syncInterval r).
Definition set_r_js (x : abJudgeState) (r : abRun) : abRun :=
  mkRun (r_service r) (r_id r) (r_firstSeen r) (r_latched r) (r_cfg r) (r_attached r) (r_bLocal r) (r_abort r)
    (r_cum r) (r_warm r) (r_ring r) x (r_verdict r) (r_failover r) (r_draining r) (r_hopErrors r)
    (r_staticFallbacks r) (r_pinnedLast r) (r_pinnedNonces r) (r_peers r) (r_syncInterval r).
Definition set_r_verdict (x : abVerdict) (r : abRun) : abRun :=
  mkRun (r_service r) (r_id r) (r_firstSeen r) (r_latched r) (r_cfg r) (r_attached r) (r_bLocal r) (r_abort r)
    (r_cum r) (r_warm r) (r_ring r) (r_js r) x (r_failover r) (r_draining r) (r_hopErrors r)
    (r_staticFallbacks r) (r_pinnedLast r) (r_pinnedNonces r) (r_peers r) (r_syncInterval r).
Definition set_r_failover (x : two Z) (r : abRun) : abRun :=
  mkRun (r_service r) (r_id r) (r_firstSeen r) (r_latched r) (r_cfg r) (r_attached r) (r_bLocal r) (r_abort r)
    (r_cum r) (r_warm r) (r_ring r) (r_js r) (r_verdict r) x (r_draining r) (r_hopErrors r) (r_staticFallbacks
    r) (r_pinnedLast r) (r_pinnedNonces r) (r_peers r) (r_syncInterval r).
Definition set_r_draining (x : two Z) (r : abRun) : abRun :=
  mkRun (r_service r) (r_id r) (r_firstSeen r) (r_latched r) (r_cfg r) (r_attached r) (r_bLocal r) (r_abort r)
    (r_cum r) (r_warm r) (r_ring r) (r_js r) (r_verdict r) (r_failover r) x (r_hopErrors r) (r_staticFallbacks
    r) (r_pinnedLast r) (r_pinnedNonces r) (r_peers r) (r_syncInterval r).
Definition set_r_hopErrors (x : Z) (r : abRun) : abRun :=
  mkRun (r_service r) (r_id r) (r_firstSeen r) (r_latched r) (r_cfg r) (r_attached r) (r_bLocal r) (r_abort r)
    (r_cum r) (r_warm r) (r_ring r) (r_js r) (r_verdict r) (r_failover r) (r_draining r) x (r_staticFallbacks
    r) (r_pinnedLast r) (r_pinnedNonces r) (r_peers r) (r_syncInterval r).
Definition set_r_staticFallbacks (x : Z) (r : abRun) : abRun :=
  mkRun (r_service r) (r_id r) (r_firstSeen r) (r_latched r) (r_cfg r) (r_attached r) (r_bLocal r) (r_abort r)
    (r_cum r) (r_warm r) (r_ring r) (r_js r) (r_verdict r) (r_failover r) (r_draining r) (r_hopErrors r) x
    (r_pinnedLast r) (r_pinnedNonces r) (r_peers r) (r_syncInterval r).
Definition set_r_pinnedLast (x : two Z) (r : abRun) : abRun :=
  mkRun (r_service r) (r_id r) (r_firstSeen r) (r_latched r) (r_cfg r) (r_attached r) (r_bLocal r) (r_abort r)
    (r_cum r) (r_warm r) (r_ring r) (r_js r) (r_verdict r) (r_failover r) (r_draining r) (r_hopErrors r)
    (r_staticFallbacks r) x (r_pinnedNonces r) (r_peers r) (r_syncInterval r).
Definition set_r_pinnedNonces (x : two (gmap string Z)) (r : abRun) : abRun :=
  mkRun (r_service r) (r_id r) (r_firstSeen r) (r_latched r) (r_cfg r) (r_attached r) (r_bLocal r) (r_abort r)
    (r_cum r) (r_warm r) (r_ring r) (r_js r) (r_verdict r) (r_failover r) (r_draining r) (r_hopErrors r)
    (r_staticFallbacks r) (r_pinnedLast r) x (r_peers r) (r_syncInterval r).
Definition set_r_peers (x : gmap string abPeerSnap) (r : abRun) : abRun :=
  mkRun (r_service r) (r_id r) (r_firstSeen r) (r_latched r) (r_cfg r) (r_attached r) (r_bLocal r) (r_abort r)
    (r_cum r) (r_warm r) (r_ring r) (r_js r) (r_verdict r) (r_failover r) (r_draining r) (r_hopErrors r)
    (r_staticFallbacks r) (r_pinnedLast r) (r_pinnedNonces r) x (r_syncInterval r).
Definition set_r_syncInterval (x : Z) (r : abRun) : abRun :=
  mkRun (r_service r) (r_id r) (r_firstSeen r) (r_latched r) (r_cfg r) (r_attached r) (r_bLocal r) (r_abort r)
    (r_cum r) (r_warm r) (r_ring r) (r_js r) (r_verdict r) (r_failover r) (r_draining r) (r_hopErrors r)
    (r_staticFallbacks r) (r_pinnedLast r) (r_pinnedNonces r) (r_peers r) x.

(** ** The run's operations *)

Definition resetRing (r : abRun) : abRun := set_r_js new_judge (set_r_ring empty_ring r).

Definition phase (r : abRun) (cfg : abConfig) : string :=
  if decide (ab_Phase cfg = "running" /\ r_latched r = true) then "aborted" else ab_Phase cfg.
Definition abFrozen (phase : string) : bool := bool_decide (phase = "aborted") || bool_decide (phase = "discarding").

Inductive abOutcome := abServed | abTransport | abFailover.
#[export] Instance abOutcome_eq_dec : EqDecision abOutcome.
Proof. solve_decision. Defined.

(** The counters one request adds. *)
Definition one_request (out : abOutcome) (st latency : Z) : abCounters :=
  match out with
  | abServed => mkCounters 1 (if decide (500 <= st) then 1 else 0) 0 0
                  (<[abHistBucket (milliseconds latency) := 1]> (replicate abHistBuckets 0))
  | abTransport => mkCounters 0 0 1 0 (replicate abHistBuckets 0)
  | abFailover => mkCounters 0 0 0 1 (replicate abHistBuckets 0)
  end.

Definition window_add (v : bool) (c : abCounters) (w : abWindow) : abWindow :=
  mkWindow (w_Index w) (upd v (fun d => c_plus d c) (w_V w)).

(** The slot of a window, cleared when it held another one. *)
Definition ring_add (idx : Z) (v : bool) (c : abCounters) (ring : list abWindow) : list abWindow :=
  alter (fun w => window_add v c (if decide (w_Index w = idx) then w else new_window idx))
    (Z.to_nat (Z.rem idx abRingSize)) ring.

(** A run without a configuration is a nil dereference. *)
Definition record (v : bool) (out : abOutcome) (st latency now : Z) (r : abRun) : go abRun :=
  match r_cfg r with
  | None => Panic
  | Some cfg =>
      Ret (if abFrozen (phase r cfg) then r
           else
             let c := one_request out st latency in
             let r := if decide (out = abFailover) then set_r_failover (upd v (fun n => u64 n 1) (r_failover r)) r else r in
             let idx := abWindowIndex cfg now in
             if decide (idx < 0) then set_r_warm (upd v (fun d => c_plus d c) (r_warm r)) r
             else set_r_cum (upd v (fun d => c_plus d c) (r_cum r)) (set_r_ring (ring_add idx v c (r_ring r)) r))
  end.

(** [t] is the Unix time. *)
Definition notePinned (v : bool) (nonce : string) (t : Z) (frozen : bool) (r : abRun) : abRun :=
  let r := set_r_pinnedLast (upd v (fun _ => t) (r_pinnedLast r)) r in
  let m := sel v (r_pinnedNonces r) in
  let r := if decide (is_Some (m !! nonce) \/ (size m < abPinnedCap)%nat)
           then set_r_pinnedNonces (upd v (fun _ => <[nonce := t]> m) (r_pinnedNonces r)) r else r in
  if frozen then set_r_draining (upd v (fun n => u64 n 1) (r_draining r)) r else r.

Definition addHopError (r : abRun) : abRun := set_r_hopErrors (u64 (r_hopErrors r) 1) r.
Definition addStaticFallback (r : abRun) : abRun := set_r_staticFallbacks (u64 (r_staticFallbacks r) 1) r.

Definition by_index (w w' : abWindow) : bool := bool_decide (w_Index w < w_Index w').
Definition summary (r : abRun) : abSummary :=
  mkSummary (r_cum r) (SliceStable by_index (filter (fun w => 0 <= w_Index w) (r_ring r))).

(** ** Merging summaries *)

Definition add_two (t u : two abCounters) : two abCounters := mkTwo (c_plus (vA t) (vA u)) (c_plus (vB t) (vB u)).

Definition merge_window (m : gmap Z (two abCounters)) (w : abWindow) : gmap Z (two abCounters) :=
  <[w_Index w := add_two (default (both no_counters) (m !! w_Index w)) (w_V w)]> m.

Definition abMergeSummaries (all : list abSummary) : abSummary :=
  let byIdx := fold_left (fun m s => fold_left merge_window (s_Windows s) m) all ∅ in
  mkSummary (fold_left (fun t s => add_two t (s_Cumulative s)) all (both no_counters))
    (SliceStable by_index ((fun kv => mkWindow (fst kv) (snd kv)) <$> map_to_list byIdx)).

(** ** The judge *)

Section judge.
Context `{FloatUnit}.

Definition abWindowBad (cfg : abConfig) (a b : abCounters) : option (string * ab_detail) :=
  let errA := errRate a in let errB := errRate b in
  if decide (errB > fadd errA (fdiv (ab_ErrDelta cfg) (of_int 100)) /\ errB >= fmul (ab_ErrRatio cfg) errA)
  then Some ("errors", ErrorRates (fmul errB (of_int 100)) (fmul errA (of_int 100)))
  else
    let p95A := percentile (fdiv (of_int 95) (of_int 100)) a in
    let p95B := percentile (fdiv (of_int 95) (of_int 100)) b in
    if decide (p95B > mul_add (ab_P95Ratio cfg) p95A (milliseconds (ab_P95Slack cfg)))
    then Some ("latency", Latencies p95B p95A)
    else None.

(** One closed window, in order. *)
Definition judge_window (cfg : abConfig) (st : abJudgeState) (w : abWindow) : abJudgeState :=
  let a := vA (w_V w) in let b := vB (w_V w) in
  let st := mkJudge true (w_Index w) (j_Streak st) (j_Reason st) (j_Detail st) in
  if decide (samples a < ab_WindowMinSamples cfg \/ samples b < ab_WindowMinSamples cfg) then st
  else match abWindowBad cfg a b with
       | None => mkJudge true (w_Index w) 0 (j_Reason st) (j_Detail st)
       | Some (r, d) => mkJudge true (w_Index w) (sint 64 (j_Streak st + 1)) r d
       end.

(** The windows not judged yet: closed, and newer than the last one judged. *)
Definition to_judge (st : abJudgeState) (cur : Z) (ws : list abWindow) : list abWindow :=
  filter (fun w => w_Index w < cur /\ (j_Seen st = true -> j_LastIdx st < w_Index w)) ws.

Definition judge (cfg : abConfig) (st : abJudgeState) (own : abSummary) (peers : list abSummary) (now : Z)
  : abJudgeState * abVerdict :=
  let merged := abMergeSummaries (own :: peers) in
  let cum := s_Cumulative merged in
  let cur := abWindowIndex cfg now in
  if decide (cur < 0) then (st, status "warmup")
  else
    let st := fold_left (judge_window cfg) (to_judge st cur (s_Windows merged)) st in
    if decide (samples (vA cum) < ab_MinSamples cfg \/ samples (vB cum) < ab_MinSamples cfg)
    then (st, status "insufficient_samples")
    else if time_before now (ab_Started cfg * Second + ab_MinRuntime cfg) then (st, status "min_runtime")
    else if decide (ab_Windows cfg <= j_Streak st) then (st, mkVerdict true (j_Reason st) (j_Detail st) "abort")
    else (st, status "ok").
End judge.

(** ** Peers *)

Definition abDefaultSyncInterval : Z := 5 * Second.
Definition syncEvery (r : abRun) : Z := if decide (r_syncInterval r > 0) then r_syncInterval r else abDefaultSyncInterval.

Definition snap_fresh (r : abRun) (now : Z) (s : abPeerSnap) : bool := bool_decide (time_sub now (ps_at s) <= 3 * syncEvery r).

Definition sorted_peers {A} (m : gmap string A) : list (string * A) :=
  SliceStable (fun x y => (fst x <? fst y)%string) (map_to_list m).
Definition freshPeers (r : abRun) (now : Z) : list (string * abPeerSnap) :=
  filter (fun ps => snap_fresh r now (snd ps) = true) (sorted_peers (r_peers r)).

Definition abAligned (c : abConfig) (e : abPeerFull) : bool :=
  let p := e_cfg (pf_exp e) in
  bool_decide (ab_Epoch p = ab_Epoch c) && bool_decide (ab_Warmup p = ab_Warmup c) && bool_decide (ab_Window p = ab_Window c).

Definition peerSummaries (r : abRun) (c : abConfig) (now : Z) : list abSummary :=
  (fun ps => pf_sum (ps_exp (snd ps))) <$> filter (fun ps => abAligned c (ps_exp (snd ps)) = true) (freshPeers r now).

(** Pins idle past the cutoff are forgotten. *)
Definition prune (cutoff : Z) (m : gmap string Z) : gmap string Z := filter (fun kt => cutoff <= snd kt) m.

Definition evaluate `{FloatUnit} (now : Z) (r : abRun) : go abRun :=
  match r_cfg r with
  | None => Panic
  | Some cfg =>
      let cutoff := (now - ab_SessionIdle cfg) / Second in
      let r := set_r_pinnedNonces (mkTwo (prune cutoff (vA (r_pinnedNonces r))) (prune cutoff (vB (r_pinnedNonces r)))) r in
      Ret (if negb (bool_decide (phase r cfg = "running")) || negb (ab_AutoAbort cfg) then r
           else
             let judgeNow := if decide (r_peers r = ∅) then now else now - 2 * syncEvery r in
             let '(st, v) := judge cfg (r_js r) (summary r) (peerSummaries r cfg now) judgeNow in
             let r := set_r_verdict v (set_r_js st r) in
             if v_Abort v
             then set_r_abort (mkAbort (v_Reason v) (v_Detail v) (now / Second) "auto") (set_r_latched true r)
             else r)
  end.

(** [applyPeerAB] on one run: [e] is what the peer reports for its service. *)
Definition applyPeer (peer : string) (e : option abPeerFull) (now : Z) (r : abRun) : abRun :=
  match e with
  | Some e =>
      if negb (bool_decide (e_id (pf_exp e) = r_id r)) then set_r_peers (delete peer (r_peers r)) r
      else
        let r := set_r_peers (<[peer := mkSnap e now]> (r_peers r)) r in
        match r_cfg r with
        | Some cfg =>
            if decide (ab_Phase cfg = "running" /\ e_phase (pf_exp e) = "aborted" /\ r_latched r = false) then
              let a := match pf_abort e with
                       | None => mkAbort "manual" NoDetail (e_phaseAt (pf_exp e)) "peer"
                       | Some x => mkAbort (if decide (a_Reason x = "") then "manual" else a_Reason x) (a_Detail x)
                                     (if decide (a_At x > 0) then a_At x else e_phaseAt (pf_exp e)) "peer"
                       end in
              set_r_latched true (set_r_abort a r)
            else r
        | None => r
        end
  | None => set_r_peers (delete peer (r_peers r)) r
  end.

(** ** Reconciliation: what [Router.Set] does to a run *)

Definition run_reattach (syncInterval : Z) (cfg : abConfig) (bLocal : Z) (r : abRun) : abRun :=
  let r := match r_cfg r with
           | Some c => if decide (ab_Epoch c <> ab_Epoch cfg) then set_r_warm (both no_counters) (resetRing r) else r
           | None => r
           end in
  set_r_syncInterval syncInterval (set_r_bLocal bLocal (set_r_attached true (set_r_cfg (Some cfg) r))).

(** The routing table's view of a run. *)
Definition abRuntime (syncInterval : Z) : ABRuntime abRun :=
  {| run_new := newABRun; run_id := r_id; run_firstSeen := r_firstSeen; run_cfg := r_cfg;
     run_detach := set_r_attached false; run_attach := run_reattach syncInterval |}.

(** ** The wire: what is sent to peers, and its validation *)

Definition abMaxPeerCount : Z := 2 ^ 40.
Definition abMaxPeerConfigEntries : nat := 64.
Definition abMaxPeerValueLen : Z := 8448.
Definition abMaxPeerServiceLen : Z := 128.
Definition abMaxPeerDetailLen : Z := 256.
Definition abMaxPeerBBackends : Z := 10000.
Definition abMaxPeerExperiments : nat := 64.

Record peerABInfo := mkABInfo {
  p_Service : string;
  p_ID : string;
  p_Config : gmap string string;
  p_Phase : string;
  p_PhaseAt : Z;
  p_Abort : option abAbortInfo;
  p_BBackends : Z;
  p_Pinned : two (Z * Z);               (* active sessions, last seen *)
  p_Cumulative : two abCounters;        (* the histogram may have any length *)
  p_Windows : list (Z * two abCounters);
}.

(** The abort to expose: the latch's, else an aborted label's. *)
Definition abort_shown (r : abRun) (cfg : abConfig) : option abAbortInfo * Z :=
  if r_latched r then
    (Some (r_abort r), if decide (ab_Phase cfg = "running") then a_At (r_abort r) else ab_PhaseAt cfg)
  else if decide (ab_Phase cfg = "aborted") then
    (Some (mkAbort (ab_AbortReason cfg) NoDetail (ab_PhaseAt cfg) "label"), ab_PhaseAt cfg)
  else (None, ab_PhaseAt cfg).

Definition pinned_of (r : abRun) (v : bool) : Z * Z :=
  (Z.of_nat (size (sel v (r_pinnedNonces r))), sel v (r_pinnedLast r)).

Section wire.
Context `{FloatText} `{MapRange}.

Definition peerInfo (r : abRun) : go peerABInfo :=
  match r_cfg r with
  | None => Panic
  | Some cfg =>
      let '(abort, phaseAt) := abort_shown r cfg in
      Ret (mkABInfo (r_service r) (r_id r) (ab_labels cfg) (phase r cfg) phaseAt abort (r_bLocal r)
             (mkTwo (pinned_of r false) (pinned_of r true)) (r_cum r)
             ((fun w => (w_Index w, w_V w)) <$> s_Windows (summary r)))
  end.

(** Every key [labels] can emit. *)
Definition abConfigLabelKeys : list string := (label_list (parseABConfig ∅ 0)).*1.

Definition abPrintable (s : string) (max : Z) : bool := bool_decide (len s <= max) && no_control s.

(** The printed forms of this proxy's own details are short and printable. *)
Definition detail_ok (d : ab_detail) : bool := match d with Said s => abPrintable s abMaxPeerDetailLen | _ => true end.

Definition abCountersFromWire (w : abCounters) : option abCounters :=
  if negb (bool_decide (length (c_Hist w) = abHistBuckets)) then None
  else if existsb (fun n => bool_decide (abMaxPeerCount < n)) [c_Requests w; c_Err5xx w; c_Transport w; c_Failover w] then None
  else if decide (c_Requests w < c_Err5xx w) then None
  else if existsb (fun n => bool_decide (abMaxPeerCount < n)) (c_Hist w) then None
  else if decide (c_Requests w < fold_left u64 (c_Hist w) 0) then None
  else Some w.

Definition two_from_wire (t : two abCounters) : option (two abCounters) :=
  a ← abCountersFromWire (vA t); b ← abCountersFromWire (vB t); Some (mkTwo a b).

Fixpoint windows_from_wire (ws : list (Z * two abCounters)) (seen : gset Z) : option (list abWindow) :=
  match ws with
  | [] => Some []
  | (i, v) :: ws =>
      if decide (i < 0 \/ abMaxPeerCount < i \/ i ∈ seen) then None
      else v ← two_from_wire v; l ← windows_from_wire ws ({[i]} ∪ seen); Some (mkWindow i v :: l)
  end.

Definition abort_ok (maxTS : Z) (a : abAbortInfo) : bool :=
  bool_decide (a_Reason a ∈ ["errors"; "latency"; "manual"; ""]) && bool_decide (a_Source a ∈ ["auto"; "peer"; "label"]) &&
  detail_ok (a_Detail a) && bool_decide (0 <= a_At a <= maxTS).

Definition pinned_ok (maxTS : Z) (p : Z * Z) : bool :=
  bool_decide (0 <= fst p <= Z.of_nat abPinnedCap) && bool_decide (0 <= snd p <= maxTS).

Definition phases : list string := ["running"; "aborted"; "promoting"; "discarding"].
Definition guard (b : bool) : option unit := if b then Some tt else None.

(** [now] in Unix seconds. [None] drops the experiment. *)
Definition abPeerExpFromWire (e : peerABInfo) (now : Z) : option abPeerFull :=
  _ ← guard (negb (bool_decide (p_Service e = "")) && abPrintable (p_Service e) abMaxPeerServiceLen);
  _ ← guard (abIDRe (p_ID e));
  _ ← guard (bool_decide (0 < size (p_Config e))%nat && bool_decide (size (p_Config e) <= abMaxPeerConfigEntries)%nat);
  _ ← guard (forallb (fun kv => bool_decide (fst kv ∈ abConfigLabelKeys) && bool_decide (len (snd kv) <= abMaxPeerValueLen))
               (map_to_list (p_Config e)));
  _ ← guard (bool_decide (p_Config e !! "proxy.ab.variant" = Some "B") &&
             bool_decide (default "" (p_Config e !! "proxy.ab.id") = p_ID e));
  let cfg := parseABConfig (p_Config e) now in
  _ ← guard (bool_decide (ab_warnings (p_Config e) now = []));
  let maxTS := now + day_s in
  _ ← guard (bool_decide (p_Phase e ∈ phases));
  _ ← guard (bool_decide (p_Phase e = ab_Phase cfg) ||
             (bool_decide (ab_Phase cfg = "running") && bool_decide (p_Phase e = "aborted")));
  _ ← guard (bool_decide (0 <= p_PhaseAt e <= maxTS));
  _ ← guard (match p_Abort e with Some a => abort_ok maxTS a | None => true end);
  _ ← guard (bool_decide (0 <= p_BBackends e <= abMaxPeerBBackends));
  _ ← guard (pinned_ok maxTS (vA (p_Pinned e)) && pinned_ok maxTS (vB (p_Pinned e)));
  cum ← two_from_wire (p_Cumulative e);
  _ ← guard (bool_decide (length (p_Windows e) <= Z.to_nat abRingSize)%nat);
  ws ← windows_from_wire (p_Windows e) ∅;
  Some (mkPeerFull
    (mkExp (p_Service e) (p_ID e) cfg (p_Phase e) (p_PhaseAt e)
       (match p_Abort e with Some a => bool_decide (a_Source a = "auto") || bool_decide (a_Source a = "peer") | None => false end)
       (p_BBackends e))
    (p_Abort e) (p_Pinned e) (mkSummary cum (SliceStable by_index ws))).

(** A duplicated service keeps the smallest id. *)
Definition validatePeerExperiments (l : list peerABInfo) (now : Z) : gmap string abPeerFull :=
  fold_left (fun out e =>
    match abPeerExpFromWire e now with
    | None => out
    | Some f =>
        match out !! e_service (pf_exp f) with
        | Some prev => if (e_id (pf_exp f) <? e_id (pf_exp prev))%string then <[e_service (pf_exp f) := f]> out else out
        | None => <[e_service (pf_exp f) := f]> out
        end
    end) l ∅.
End wire.

(** What [PeerRouteStore.merge] compares of an experiment: nothing a steady
    stream of requests changes. *)
Definition fingerprint `{FloatText} `{MapRange} (e : abPeerExp) : string :=
  let kvs := sorted_peers (ab_labels (e_cfg e)) in
  e_id e +:+ "|" +:+ e_phase e +:+ "|" +:+ FormatBool (e_latched e) +:+ " " +:+ FormatBool (bool_decide (0 < e_bBackends e)) +:+
  foldr (fun kv s => "|" +:+ fst kv +:+ "=" +:+ snd kv +:+ s) "" kvs.

(** * Properties *)

(** ** Counters *)

Definition sumZ (l : list Z) : Z := foldr Z.add 0 l.

(** Every request is in one class, 5xx answers are requests, and the histogram
    holds each request once; [n] bounds the total. *)
Record counters_ok (n : Z) (c : abCounters) : Prop := {
  co_len : length (c_Hist c) = abHistBuckets;
  co_err : 0 <= c_Err5xx c <= c_Requests c;
  co_pos : 0 <= c_Transport c /\ 0 <= c_Failover c /\ Forall (fun x => 0 <= x) (c_Hist c);
  co_hist : sumZ (c_Hist c) = c_Requests c;
  co_total : c_Requests c + c_Transport c + c_Failover c <= n;
}.

Lemma sumZ_zero k : sumZ (replicate k 0) = 0.
Proof. induction k; cbn; [done|]. done. Qed.

Lemma no_counters_ok n : 0 <= n -> counters_ok n no_counters.
Proof.
  intros Hn. split; cbn [no_counters c_Hist c_Err5xx c_Requests c_Transport c_Failover]; try lia.
  - apply length_replicate.
  - split_and!; [done|done|]. by apply Forall_replicate.
  - apply sumZ_zero.
Qed.

Lemma counters_ok_mono n m c : n <= m -> counters_ok n c -> counters_ok m c.
Proof. intros Hnm [? ? ? ? ?]. split; try done. lia. Qed.

Lemma abHistBucket_lt ms : (abHistBucket ms < abHistBuckets)%nat.
Proof. unfold abHistBucket, abHistBuckets. case_decide; lia. Qed.

Lemma sumZ_insert k i x : (i < k)%nat -> sumZ (<[i := x]> (replicate k 0)) = x.
Proof.
  revert i. induction k as [|k IH]; intros [|i] Hi; [lia|lia| |].
  - cbn. fold (sumZ (replicate k 0)). rewrite sumZ_zero. lia.
  - cbn. fold (sumZ (<[i:=x]> (replicate k 0))). rewrite IH; lia.
Qed.

Lemma one_request_ok out st latency : counters_ok 1 (one_request out st latency).
Proof.
  destruct out; split; cbn [one_request c_Hist c_Err5xx c_Requests c_Transport c_Failover]; try lia.
  - rewrite length_insert. apply length_replicate.
  - case_decide; lia.
  - split_and!; [done|done|]. apply Forall_insert; [by apply Forall_replicate|done].
  - apply sumZ_insert, abHistBucket_lt.
  - apply length_replicate.
  - split_and!; [done|done|]. by apply Forall_replicate.
  - apply sumZ_zero.
  - apply length_replicate.
  - split_and!; [done|done|]. by apply Forall_replicate.
  - apply sumZ_zero.
Qed.

Lemma sumZ_nonneg l : Forall (fun x => 0 <= x) l -> 0 <= sumZ l.
Proof. induction 1; cbn; [done|]. fold (sumZ l). lia. Qed.

Lemma zip_u64 l l' :
  length l = length l' -> Forall (fun x => 0 <= x) l -> Forall (fun x => 0 <= x) l' -> sumZ l + sumZ l' < 2 ^ 64 ->
  sumZ (zip_with u64 l l') = sumZ l + sumZ l' /\ Forall (fun x => 0 <= x) (zip_with u64 l l') /\ length (zip_with u64 l l') = length l.
Proof.
  revert l'. induction l as [|x l IH]; intros [|y l'] Hlen Hl Hl' Hs; [done..|]. cbn [zip_with].
  apply Forall_cons in Hl as [Hx Hl]. apply Forall_cons in Hl' as [Hy Hl']. cbn in Hs. fold (sumZ l) (sumZ l') in Hs.
  pose proof (sumZ_nonneg l Hl). pose proof (sumZ_nonneg l' Hl'). injection Hlen as Hlen.
  destruct (IH l' Hlen Hl Hl' ltac:(lia)) as (H1 & H2 & H3). unfold u64 at 1 3. rewrite !uint_id by lia.
  cbn. fold (sumZ (zip_with u64 l l')) (sumZ l) (sumZ l'). rewrite H1, H3. split_and!; [lia| |done]. constructor; [lia|done].
Qed.

Lemma c_plus_ok n m c o : counters_ok n c -> counters_ok m o -> n + m < 2 ^ 64 -> counters_ok (n + m) (c_plus c o).
Proof.
  intros [L1 E1 (T1 & F1 & P1) S1 N1] [L2 E2 (T2 & F2 & P2) S2 N2] Hnm.
  destruct (zip_u64 (c_Hist c) (c_Hist o)) as (Hs & Hp & Hl); [congruence|done|done|lia|].
  split; cbn [c_plus c_Hist c_Err5xx c_Requests c_Transport c_Failover].
  - congruence.
  - unfold u64. rewrite !uint_id by lia. lia.
  - unfold u64 at 1 2. rewrite !uint_id by lia. split_and!; [lia|lia|done].
  - rewrite Hs. unfold u64. rewrite uint_id by lia. lia.
  - unfold u64. rewrite !uint_id by lia. lia.
Qed.

Lemma samples_eq n c : counters_ok n c -> n < 2 ^ 64 -> samples c = c_Requests c + c_Transport c + c_Failover c.
Proof. intros [_ E (T & F & _) _ N] Hn. unfold samples, u64. rewrite !uint_id by (rewrite ?uint_id; lia). done. Qed.

(** ** The invariant of a run *)

Definition two_ok (n : Z) (t : two abCounters) : Prop := counters_ok n (vA t) /\ counters_ok n (vB t).

Lemma two_ok_sel n t v : two_ok n t -> counters_ok n (sel v t).
Proof. intros [? ?]. by destruct v. Qed.
Lemma two_ok_upd n t v f : two_ok n t -> counters_ok n (f (sel v t)) -> two_ok n (upd v f t).
Proof. intros [? ?]. by destruct v. Qed.
Lemma two_ok_mono n m t : n <= m -> two_ok n t -> two_ok m t.
Proof. intros ? [? ?]. split; by eapply counters_ok_mono. Qed.
Lemma two_ok_zero n : 0 <= n -> two_ok n (both no_counters).
Proof. intros. split; by apply no_counters_ok. Qed.
Lemma two_ok_add n t v o : two_ok n t -> counters_ok 1 o -> n + 1 < 2 ^ 64 -> two_ok (n + 1) (upd v (fun d => c_plus d o) t).
Proof.
  intros Ht Ho Hn. apply two_ok_upd; [eapply two_ok_mono; [|done]; lia|]. apply c_plus_ok; [by apply two_ok_sel|done|done].
Qed.

(** A slot is unused or holds a window of its residue. *)
Definition slot_ok (n : Z) (i : nat) (w : abWindow) : Prop :=
  two_ok n (w_V w) /\ (w_Index w = -1 \/ (0 <= w_Index w <= abMaxPeerCount /\ w_Index w mod abRingSize = Z.of_nat i)).

Definition reason_ok (s : string) : Prop := s = "errors" \/ s = "latency" \/ s = "manual".

Record run_ok (n : Z) (r : abRun) : Prop := {
  ro_cum : two_ok n (r_cum r);
  ro_warm : two_ok n (r_warm r);
  ro_ring : length (r_ring r) = Z.to_nat abRingSize /\ forall i w, r_ring r !! i = Some w -> slot_ok n i w;
  ro_pins : (size (vA (r_pinnedNonces r)) <= abPinnedCap)%nat /\ (size (vB (r_pinnedNonces r)) <= abPinnedCap)%nat;
  ro_judge : 0 < j_Streak (r_js r) -> (j_Reason (r_js r) = "errors" \/ j_Reason (r_js r) = "latency") /\ detail_ok (j_Detail (r_js r)) = true;
  ro_why : r_latched r = true -> reason_ok (a_Reason (r_abort r)) /\ detail_ok (a_Detail (r_abort r)) = true /\
    (a_Source (r_abort r) = "auto" \/ a_Source (r_abort r) = "peer");
  ro_cfg : match r_cfg r with Some c => 1 <= ab_Windows c | None => True end;
}.

Lemma empty_ring_ok n : 0 <= n -> length empty_ring = Z.to_nat abRingSize /\ forall i w, empty_ring !! i = Some w -> slot_ok n i w.
Proof.
  intros Hn. split; [apply length_replicate|]. intros i w [-> _]%lookup_replicate_1. split; [by apply two_ok_zero|by left].
Qed.

Lemma newABRun_ok s id now : run_ok 0 (newABRun s id now).
Proof.
  split; cbn; try done; try (by apply two_ok_zero).
  - by apply empty_ring_ok.
  - split; apply Nat.le_0_l.
Qed.

Lemma run_ok_mono n m r : n <= m -> run_ok n r -> run_ok m r.
Proof.
  intros Hnm [H1 H2 [H3 H3'] H4 H5 H6 H7]. split; try done; try by eapply two_ok_mono. split; [done|].
  intros i w Hw. destruct (H3' i w Hw) as [? ?]. split; [by eapply two_ok_mono|done].
Qed.

Lemma abWindowIndex_range cfg now :
  Minute <= ab_Window cfg -> 0 <= abWindowIndex cfg now <= abMaxPeerCount \/ abWindowIndex cfg now = -1.
Proof.
  intros Hw. unfold abWindowIndex, time_before. case_bool_decide; [by right|left]. unfold Minute, Second in Hw.
  assert (0 <= time_sub now (ab_Epoch cfg * Second + ab_Warmup cfg) <= maxInt64) as Ht by (unfold time_sub, minInt64, maxInt64; lia).
  split; [apply Z.quot_pos; lia|]. transitivity (Z.quot maxInt64 60000000000).
  - transitivity (Z.quot maxInt64 (ab_Window cfg)); [apply Z.quot_le_mono; lia|].
    unfold maxInt64 in *. rewrite !Z.quot_div_nonneg by lia. apply Z.div_le_compat_l; lia.
  - by vm_compute.
Qed.

Lemma ring_add_ok n idx v c ring :
  0 <= n -> 0 <= idx <= abMaxPeerCount -> counters_ok 1 c -> n + 1 < 2 ^ 64 ->
  length ring = Z.to_nat abRingSize -> (forall i w, ring !! i = Some w -> slot_ok n i w) ->
  length (ring_add idx v c ring) = Z.to_nat abRingSize /\ forall i w, ring_add idx v c ring !! i = Some w -> slot_ok (n + 1) i w.
Proof.
  intros H0 Hi Hc Hn Hl Hr. unfold ring_add. rewrite length_alter. split; [done|]. intros i w.
  rewrite list_lookup_alter. unfold abRingSize. rewrite Z.rem_mod_nonneg by lia. pose proof (Z.mod_pos_bound idx 3 ltac:(lia)) as Hm.
  case_decide as He.
  - subst i. destruct (ring !! _) as [w0|] eqn:Hw0; [|done]. cbn. intros [= <-]. destruct (Hr _ _ Hw0) as [Ht _].
    assert (two_ok n (w_V (if decide (w_Index w0 = idx) then w0 else new_window idx))) as Ht'
      by (case_decide; [done|by apply two_ok_zero]).
    split; [by apply two_ok_add|right]. cbn. unfold abRingSize. rewrite Z2Nat.id by lia. by case_decide; subst.
  - intros Hw. destruct (Hr _ _ Hw) as [? ?]. split; [|done]. eapply two_ok_mono; [|done]. lia.
Qed.

Lemma record_ok n v out st lat now r r' :
  0 <= n -> n + 1 < 2 ^ 64 -> (forall c, r_cfg r = Some c -> Minute <= ab_Window c) -> run_ok n r ->
  record v out st lat now r = Ret r' -> run_ok (n + 1) r'.
Proof.
  intros H0 Hn Hwin Hok. unfold record. destruct (r_cfg r) as [cfg|] eqn:Hcfg; [|done]. intros [= <-].
  destruct (abFrozen _); [eapply run_ok_mono; [|done]; lia|]. pose proof (one_request_ok out st lat) as Hc.
  assert (forall A (P : abRun -> A), (forall x r, P (set_r_failover x r) = P r) ->
    P (if decide (out = abFailover) then set_r_failover (upd v (fun n => u64 n 1) (r_failover r)) r else r) = P r) as Hf
    by (intros A P HP; case_decide; [apply HP|done]).
  pose proof (run_ok_mono n (n + 1) r ltac:(lia) Hok) as [M1 M2 M3 M4 M5 M6 M7]. destruct Hok as [K1 K2 [K3 K3'] _ _ _ _].
  destruct (abWindowIndex_range cfg now (Hwin _ eq_refl)) as [Hi|Hi].
  - rewrite decide_False by lia. split; cbn; rewrite ?(Hf _ r_cum), ?(Hf _ r_warm), ?(Hf _ r_ring), ?(Hf _ r_pinnedNonces), ?(Hf _ r_js),
      ?(Hf _ r_latched), ?(Hf _ r_abort), ?(Hf _ r_cfg) by done; try done.
    + by apply two_ok_add.
    + by apply ring_add_ok.
  - rewrite decide_True by lia. split; cbn; rewrite ?(Hf _ r_cum), ?(Hf _ r_warm), ?(Hf _ r_ring), ?(Hf _ r_pinnedNonces), ?(Hf _ r_js),
      ?(Hf _ r_latched), ?(Hf _ r_abort), ?(Hf _ r_cfg) by done; try done.
    by apply two_ok_add.
Qed.

(** ** The judge *)

Section judge_facts.
Context `{FloatUnit}.

(** A closed window is conclusive when both variants have enough samples. *)
Definition conclusive (cfg : abConfig) (w : abWindow) : bool :=
  negb (bool_decide (samples (vA (w_V w)) < ab_WindowMinSamples cfg \/ samples (vB (w_V w)) < ab_WindowMinSamples cfg)).
Definition bad_window (cfg : abConfig) (w : abWindow) : bool :=
  match abWindowBad cfg (vA (w_V w)) (vB (w_V w)) with Some _ => true | None => false end.

(** The bad verdicts at the end of a list of verdicts, after [s] already. *)
Definition streak_after (s : Z) (vs : list bool) : Z := fold_left (fun s (b : bool) => if b then s + 1 else 0) vs s.
Definition verdicts (cfg : abConfig) (ws : list abWindow) : list bool := bad_window cfg <$> filter (fun w => conclusive cfg w = true) ws.

Lemma abWindowBad_reason cfg a b r d : abWindowBad cfg a b = Some (r, d) -> (r = "errors" \/ r = "latency") /\ detail_ok d = true.
Proof. unfold abWindowBad. repeat case_decide; try done; intros [= <- <-]; auto. Qed.

Lemma streak_after_bounds s vs : 0 <= s -> 0 <= streak_after s vs <= s + Z.of_nat (length vs).
Proof.
  unfold streak_after. revert s. induction vs as [|b vs IH]; intros s Hs; cbn [fold_left length]; [lia|].
  destruct b; [specialize (IH (s + 1))|specialize (IH 0)]; lia.
Qed.

Definition streak_ok (st : abJudgeState) : Prop :=
  0 <= j_Streak st <= maxInt64 /\ (0 < j_Streak st -> j_Reason st = "errors" \/ j_Reason st = "latency").

Lemma judge_window_cases cfg st w :
  let st' := judge_window cfg st w in
  j_Seen st' = true /\ j_LastIdx st' = w_Index w /\
  if conclusive cfg w
  then if bad_window cfg w then j_Streak st' = sint 64 (j_Streak st + 1) /\ (j_Reason st' = "errors" \/ j_Reason st' = "latency") /\ detail_ok (j_Detail st') = true
       else j_Streak st' = 0
  else j_Streak st' = j_Streak st /\ j_Reason st' = j_Reason st /\ j_Detail st' = j_Detail st.
Proof.
  unfold judge_window, conclusive, bad_window. case_decide as Hc.
  - rewrite bool_decide_true by done. done.
  - rewrite bool_decide_false by done. cbn. destruct (abWindowBad _ _ _) as [[r d]|] eqn:Hb; [|done].
    apply abWindowBad_reason in Hb as [? ?]. done.
Qed.

Lemma judge_windows cfg ws st :
  streak_ok st -> j_Streak st + Z.of_nat (length ws) <= maxInt64 ->
  let st' := fold_left (judge_window cfg) ws st in
  streak_ok st' /\ j_Streak st' = streak_after (j_Streak st) (verdicts cfg ws).
Proof.
  revert st. induction ws as [|w ws IH]; intros st Hok Hmax; [done|]. cbn [fold_left length] in *.
  destruct (judge_window_cases cfg st w) as (_ & _ & Hj). destruct Hok as [Hs Hr].
  unfold verdicts. rewrite filter_cons. fold (verdicts cfg ws). destruct (conclusive cfg w) eqn:Hc.
  - rewrite decide_True by done. cbn [fmap list_fmap]. unfold streak_after. cbn [fold_left]. fold (verdicts cfg ws).
    destruct (bad_window cfg w) eqn:Hb.
    + destruct Hj as (Hj & Hjr & _). rewrite sint_id in Hj by (unfold maxInt64 in *; lia).
      destruct (IH (judge_window cfg st w)) as [Hok' Hst'].
      * split; [rewrite Hj; unfold maxInt64 in *; lia|done].
      * rewrite Hj. lia.
      * split; [done|]. by rewrite Hst', Hj.
    + destruct (IH (judge_window cfg st w)) as [Hok' Hst'].
      * split; rewrite Hj; [unfold maxInt64; lia|lia].
      * rewrite Hj. lia.
      * split; [done|]. by rewrite Hst', Hj.
  - rewrite decide_False by done. destruct Hj as (Hj1 & Hj2 & _). destruct (IH (judge_window cfg st w)) as [Hok' Hst'].
    + split; rewrite ?Hj1, ?Hj2; done.
    + rewrite Hj1. lia.
    + split; [done|]. by rewrite Hst', Hj1.
Qed.

(** B is aborted only for cause. When the judge aborts, warm-up is over,
    both variants have the configured number of samples over this proxy and its
    aligned peers, the minimum run time has passed, and the streak of bad
    windows reaches the configured length: counting from the streak before the
    call, the conclusive windows closed since end in that many bad verdicts,
    each for the error rate or the latency. Windows still open, already judged,
    or with too few samples of a variant play no part. *)
Theorem abort_needs_cause cfg st own peers now st' v :
  streak_ok st ->
  j_Streak st + Z.of_nat (length (s_Windows (abMergeSummaries (own :: peers)))) <= maxInt64 ->
  judge cfg st own peers now = (st', v) -> v_Abort v = true ->
  let merged := abMergeSummaries (own :: peers) in
  let cur := abWindowIndex cfg now in
  0 <= cur /\
  ab_MinSamples cfg <= samples (vA (s_Cumulative merged)) /\ ab_MinSamples cfg <= samples (vB (s_Cumulative merged)) /\
  ab_Started cfg * Second + ab_MinRuntime cfg <= now /\
  ab_Windows cfg <= streak_after (j_Streak st) (verdicts cfg (to_judge st cur (s_Windows merged))) /\
  (0 < ab_Windows cfg -> v_Reason v = "errors" \/ v_Reason v = "latency").
Proof.
  intros Hok Hmax Hj Hv merged cur. unfold judge in Hj. fold merged cur in Hj. case_decide as Hc; [by injection Hj as <- <-|].
  destruct (judge_windows cfg (to_judge st cur (s_Windows merged)) st Hok) as [[Hs Hr] Hst].
  { pose proof (length_filter (fun w => w_Index w < cur /\ (j_Seen st = true -> j_LastIdx st < w_Index w)) (s_Windows merged)) as Hl.
    fold merged in Hmax. unfold to_judge. lia. }
  case_decide as Hsm; [by injection Hj as <- <-|]. destruct (time_before now _) eqn:Ht; [by injection Hj as <- <-|].
  case_decide as Hw; [|by injection Hj as <- <-]. injection Hj as <- <-. unfold time_before in Ht. apply bool_decide_eq_false in Ht.
  split_and!; try lia. intros Hpos. cbn [v_Reason]. apply Hr. lia.
Qed.

End judge_facts.

(** ** Every reachable run *)

(** A window configuration a label can give. *)
Definition cfg_runs (c : abConfig) : Prop := Minute <= ab_Window c /\ 1 <= ab_Windows c.

Lemma prune_size cutoff m k : (size m <= k)%nat -> (size (prune cutoff m) <= k)%nat.
Proof. intros Hk. etrans; [|exact Hk]. apply map_size_filter. Qed.

Lemma notePinned_ok n v nonce t frozen r : run_ok n r -> run_ok n (notePinned v nonce t frozen r).
Proof.
  intros [H1 H2 H3 [Ha Hb] H5 H6 H7]. unfold notePinned. cbn zeta.
  assert (forall m : gmap string Z, (size m <= abPinnedCap)%nat -> is_Some (m !! nonce) \/ (size m < abPinnedCap)%nat ->
    (size (<[nonce := t]> m) <= abPinnedCap)%nat) as Hins.
  { intros m Hm [[x Hx]|Hlt]; rewrite map_size_insert; [by rewrite Hx|]. destruct (m !! nonce); cbn; lia. }
  destruct frozen; case_decide as Hd; destruct v; (split; [exact H1|exact H2|exact H3|cbn; split|exact H5|exact H6|exact H7]); try done;
    cbn in Hd; by apply Hins.
Qed.

Section steps.
Context `{FloatUnit}.

Definition reason_inv (st : abJudgeState) : Prop :=
  0 < j_Streak st -> (j_Reason st = "errors" \/ j_Reason st = "latency") /\ detail_ok (j_Detail st) = true.

Lemma judge_windows_reason cfg ws st : reason_inv st -> reason_inv (fold_left (judge_window cfg) ws st).
Proof.
  revert st. induction ws as [|w ws IH]; intros st Hst; [done|]. cbn [fold_left]. apply IH.
  destruct (judge_window_cases cfg st w) as (_ & _ & Hj). unfold reason_inv in *. destruct (conclusive cfg w).
  - destruct (bad_window cfg w); [by destruct Hj as (_ & ? & ?)|]. rewrite Hj. lia.
  - by destruct Hj as (-> & -> & ->).
Qed.

Lemma judge_reason cfg st own peers now st' v :
  reason_inv st -> judge cfg st own peers now = (st', v) ->
  reason_inv st' /\ (v_Abort v = true -> 1 <= ab_Windows cfg -> reason_ok (v_Reason v) /\ detail_ok (v_Detail v) = true).
Proof.
  intros Hst. unfold judge. case_decide; [by intros [= <- <-]|].
  pose proof (judge_windows_reason cfg (to_judge st (abWindowIndex cfg now) (s_Windows (abMergeSummaries (own :: peers)))) st Hst) as Hr.
  repeat case_match; intros [= <- <-]; (split; [done|]); try done. intros _ Hw. cbn [v_Reason]. 
  cbn [v_Detail]. destruct (Hr ltac:(lia)) as [[He|He] Hd]; (split; [|exact Hd]); [left; exact He|right; left; exact He].
Qed.

Lemma evaluate_ok n now r r' : run_ok n r -> evaluate now r = Ret r' -> run_ok n r'.
Proof.
  intros Hok. unfold evaluate. destruct (r_cfg r) as [cfg|] eqn:Hcfg; [|done].
  set (r1 := set_r_pinnedNonces _ r). intros [= <-].
  assert (run_ok n r1) as [M1 M2 M3 M4 M5 M6 M7].
  { destruct Hok as [H1 H2 H3 [Ha Hb] H5 H6 H7]. split; cbn; try done. split; by apply prune_size. }
  destruct (_ || _); [by split|]. destruct (judge cfg _ _ _ _) as [st v] eqn:Hj.
  destruct (judge_reason _ _ _ _ _ _ _ M5 Hj) as [Hst Hv]. cbn in M7. rewrite Hcfg in M7.
  destruct (v_Abort v); (split; [done|done|done|done|exact Hst| |cbn; by rewrite Hcfg]); cbn; [|done]. intros _. destruct (Hv eq_refl M7). split_and!; [done|done|by left].
Qed.

(** A validated experiment: its abort reason is one of the codes or empty. *)
Definition exp_ok (e : abPeerFull) : Prop :=
  match pf_abort e with Some a => (a_Reason a = "" \/ reason_ok (a_Reason a)) /\ detail_ok (a_Detail a) = true | None => True end.

Lemma applyPeer_ok n peer e now r : (forall e', e = Some e' -> exp_ok e') -> run_ok n r -> run_ok n (applyPeer peer e now r).
Proof.
  intros He Hok. destruct e as [e|]; cbn [applyPeer]; [specialize (He e eq_refl)|by destruct Hok].
  destruct (negb _); [by destruct Hok|]. cbn zeta. change (r_cfg (set_r_peers ?p r)) with (r_cfg r).
  destruct (r_cfg r) as [cfg|] eqn:Hcfg; [|destruct Hok as [? ? ? ? ? ? H7]; by split].
  case_decide; destruct Hok as [H1 H2 H3 H4 H5 H6 H7]; (split; cbn; try done). intros _.
  unfold exp_ok, reason_ok in *. destruct (pf_abort e) as [a|]; cbn; [|auto]. destruct He as [He Hd]. case_decide; [auto|].
  split_and!; [tauto|done|by right].
Qed.

Lemma run_reattach_ok n si cfg k r : 0 <= n -> 1 <= ab_Windows cfg -> run_ok n r -> run_ok n (run_reattach si cfg k r).
Proof.
  intros Hn Hw [H1 H2 H3 H4 H5 H6 H7]. unfold run_reattach. destruct (r_cfg r) as [c|] eqn:Hc; [case_decide|]; (split; cbn; try done).
  - by apply two_ok_zero.
  - by apply empty_ring_ok.
Qed.

(** What can happen to a run: requests, pins, ticks, peers' reports, refreshes. *)
Inductive run_step : abRun -> abRun -> Prop :=
| step_record v out st lat now r r' : record v out st lat now r = Ret r' -> run_step r r'
| step_pin v nonce t frozen r : run_step r (notePinned v nonce t frozen r)
| step_hop r : run_step r (addHopError r)
| step_static r : run_step r (addStaticFallback r)
| step_tick now r r' : evaluate now r = Ret r' -> run_step r r'
| step_peer peer e now r : (forall e', e = Some e' -> exp_ok e') -> run_step r (applyPeer peer e now r)
| step_detach r : run_step r (set_r_attached false r)
| step_attach si cfg k r : cfg_runs cfg -> run_step r (run_reattach si cfg k r).

(** A run always has a configuration whose windows make sense. *)
Definition cfg_inv (r : abRun) : Prop := forall c, r_cfg r = Some c -> cfg_runs c.

Lemma run_step_cfg r r' : run_step r r' -> cfg_inv r -> cfg_inv r'.
Proof.
  intros Hs Hc. assert (r_cfg r' = r_cfg r -> cfg_inv r') as Hsame by (intros He c; rewrite He; apply Hc).
  destruct Hs as [v out st lat now r r' Hr|v nonce t frozen r| | |now r r' Hr|peer e now r _| |si cfg k r Hcfg].
  - apply Hsame. unfold record in Hr. destruct (r_cfg r) as [c|] eqn:Hrc; [|done]. injection Hr as <-. rewrite <- Hrc.
    destruct (abFrozen _); [done|]. by repeat case_decide.
  - apply Hsame. unfold notePinned. by destruct frozen; case_decide.
  - by apply Hsame.
  - by apply Hsame.
  - apply Hsame. unfold evaluate in Hr. destruct (r_cfg r) as [c|] eqn:Hrc; [|done]. injection Hr as <-. rewrite <- Hrc.
    destruct (_ || _); [done|]. destruct (judge _ _ _ _ _) as [? v']. by destruct (v_Abort v').
  - apply Hsame. unfold applyPeer. destruct e; [|done]. destruct (negb _); [done|]. cbn zeta.
    change (r_cfg (set_r_peers ?p r)) with (r_cfg r). destruct (r_cfg r) as [c|] eqn:Hrc; [|done]. by case_decide.
  - by apply Hsame.
  - intros c. unfold run_reattach. cbn. by intros [= <-].
Qed.

Lemma reachable_run_ok s id t n r :
  nsteps run_step n (newABRun s id t) r -> Z.of_nat n < 2 ^ 63 -> run_ok (Z.of_nat n) r /\ cfg_inv r.
Proof.
  revert r. induction n as [|n IH]; intros r Hs Hn.
  - inversion Hs; subst. split; [apply newABRun_ok|done].
  - apply nsteps_inv_r in Hs as (r1 & Hs & Hstep). destruct (IH _ Hs ltac:(lia)) as [Hok Hc].
    split; [|by eapply run_step_cfg]. rewrite Nat2Z.inj_succ. unfold Z.succ.
    assert (forall r', run_ok (Z.of_nat n) r' -> run_ok (Z.of_nat n + 1) r') as Hmono by (intros r'; apply run_ok_mono; lia).
    destruct Hstep as [v out st lat now r r' Hr|v nonce t' frozen r|r|r|now r r' Hr|peer e now r He|r|si cfg k r Hcfg].
    + eapply record_ok; [| | |exact Hok|exact Hr]; [lia|lia|]. intros c Hcc. by apply Hc.
    + by apply Hmono, notePinned_ok.
    + apply Hmono. by destruct Hok.
    + apply Hmono. by destruct Hok.
    + apply Hmono. by eapply evaluate_ok.
    + apply Hmono. by apply applyPeer_ok.
    + apply Hmono. by destruct Hok.
    + apply Hmono, run_reattach_ok; [lia|by apply Hcfg|done].
Qed.

(** C36. The counters of a reachable run add up. After [n] steps from a new run,
    every set of counters (cumulative, warm-up, each window of the ring) counts
    at most [n] requests, its 5xx answers are among its requests and its
    histogram holds each of them once; the ring's windows are in the slots of
    their index, so no two share one; no more than 50,000 pins are remembered
    for a variant; and a run that is aborted says why. *)
Theorem run_invariant s id t n r :
  nsteps run_step n (newABRun s id t) r -> Z.of_nat n < 2 ^ 63 -> run_ok (Z.of_nat n) r.
Proof. intros Hs Hn. by apply (reachable_run_ok s id t). Qed.

(** C37. An abort is final for the test. Once a run's latch is set no request,
    pin, tick, peer report or refresh clears it or replaces its cause, and while it is set and the
    label says running, the phase is aborted and recording a request changes
    nothing. *)
Theorem latch_is_final r r' :
  rtc run_step r r' -> r_latched r = true ->
  r_latched r' = true /\ r_abort r' = r_abort r /\
  forall cfg, r_cfg r' = Some cfg -> ab_Phase cfg = "running" ->
    phase r' cfg = "aborted" /\ forall v out st lat now, record v out st lat now r' = Ret r'.
Proof.
  intros Hs Hl. assert (r_latched r' = true /\ r_abort r' = r_abort r) as [Hl' Ha].
  { induction Hs as [r|r r1 r2 Hstep _ IH]; [done|]. assert (r_latched r1 = true /\ r_abort r1 = r_abort r) as [Hl1 <-]; [|by apply IH]. clear IH r2.
    destruct Hstep as [v out st lat now r r' Hr|v nonce t frozen r| | |now r r' Hr|peer e now r _| |si cfg k r Hcfg]; try done.
    - unfold record in Hr. destruct (r_cfg r); [|done]. injection Hr as <-. destruct (abFrozen _); [done|]. by repeat case_decide.
    - unfold notePinned. by destruct frozen; case_decide.
    - unfold evaluate in Hr. destruct (r_cfg r) as [c|]; [|done]. injection Hr as <-. cbn zeta.
      change (phase (set_r_pinnedNonces ?p r) c) with (phase r c). replace (negb (bool_decide (phase r c = "running"))) with true; [done|].
      symmetry. apply negb_true_iff, bool_decide_eq_false. unfold phase. rewrite Hl. by case_decide; naive_solver.
    - unfold applyPeer. destruct e; [|done]. destruct (negb _); [done|]. cbn zeta.
      change (r_cfg (set_r_peers ?p r)) with (r_cfg r). change (r_latched (set_r_peers ?p r)) with (r_latched r). destruct (r_cfg r); [|done].
      case_decide as Hd; [|done]. destruct Hd as (_ & _ & Hd). congruence.
    - unfold run_reattach. destruct (r_cfg r); [|done]. by case_decide. }
  split; [done|]. split; [done|]. intros cfg Hcfg Hrun. assert (phase r' cfg = "aborted") as Hp by (unfold phase; by rewrite decide_True).
  split; [done|]. intros. unfold record. by rewrite Hcfg, Hp.
Qed.
End steps.

(** ** What is advertised is accepted *)

Lemma counters_from_wire n c : counters_ok n c -> n <= abMaxPeerCount -> abCountersFromWire c = Some c.
Proof.
  unfold abMaxPeerCount. intros [L E (T & F & P) S N] Hn. unfold abCountersFromWire. rewrite bool_decide_true by done. cbn [negb].
  assert (forall l, Forall (fun x => x <= 2 ^ 40) l -> existsb (fun x => bool_decide (2 ^ 40 < x)) l = false) as Hall.
  { induction 1 as [|x l Hx _ IH]; [done|]. cbn. rewrite IH. by rewrite bool_decide_false by lia. }
  assert (forall l, Forall (fun x => 0 <= x) l -> Forall (fun x => x <= sumZ l) l) as Hle.
  { intros l Hl. induction Hl as [|x l Hx Hl IH]; [constructor|]. cbn. fold (sumZ l). pose proof (sumZ_nonneg l Hl).
    constructor; [lia|]. eapply Forall_impl; [exact IH|]. intros y Hy. cbn in Hy. lia. }
  assert (forall l x, Forall (fun x => 0 <= x) l -> 0 <= x -> x + sumZ l < 2 ^ 64 -> fold_left u64 l x = x + sumZ l) as Hfold.
  { intros l. induction l as [|y l IH]; intros x Hl Hx Hb; cbn in *; [lia|]. fold (sumZ l) in *. apply Forall_cons in Hl as [Hy Hl].
    pose proof (sumZ_nonneg l Hl). unfold u64 at 2. rewrite uint_id by lia. rewrite IH by (try done; lia). lia. }
  unfold abMaxPeerCount. rewrite Hall by (repeat (constructor; [lia|]); constructor). rewrite decide_False by lia.
  rewrite Hall by (eapply Forall_impl; [by apply Hle|]; intros x Hx; cbn in Hx; lia).
  rewrite Hfold by (try done; lia). by rewrite decide_False by lia.
Qed.

Lemma two_from_wire_ok n t : two_ok n t -> n <= abMaxPeerCount -> two_from_wire t = Some t.
Proof.
  intros [Ha Hb] Hn. unfold two_from_wire. rewrite (counters_from_wire n), (counters_from_wire n) by done. by destruct t.
Qed.

Lemma windows_from_wire_ok n ws seen :
  n <= abMaxPeerCount -> Forall (fun w => two_ok n (w_V w) /\ 0 <= w_Index w <= abMaxPeerCount) ws -> NoDup (w_Index <$> ws) ->
  (forall w, w ∈ ws -> w_Index w ∉ seen) ->
  windows_from_wire ((fun w => (w_Index w, w_V w)) <$> ws) seen = Some ws.
Proof.
  intros Hn. revert seen. induction ws as [|w ws IH]; intros seen Hf Hnd Hs; [done|]. cbn [fmap list_fmap windows_from_wire].
  apply Forall_cons in Hf as [[Ht Hi] Hf]. cbn [fmap list_fmap] in Hnd. apply NoDup_cons in Hnd as [Hni Hnd].
  rewrite decide_False by (intros [?|[?|Hin]]; [lia|lia|by apply (Hs w); [left|]]).
  rewrite (two_from_wire_ok n) by done. cbn [mbind option_bind]. rewrite IH; [|done|done|].
  - cbn [mbind option_bind]. by destruct w.
  - intros x Hx. apply not_elem_of_union. split; [|apply Hs; by right]. intros He%elem_of_singleton. apply Hni. rewrite <- He. by apply list_elem_of_fmap_2.
Qed.

Lemma SliceStable_sorted_id {A} (less : A -> A -> bool) l : StronglySorted (not_before less) l -> SliceStable less l = l.
Proof.
  induction 1 as [|x l Hs IH Hx]; [done|]. cbn. fold (SliceStable less l). rewrite IH. destruct l as [|y l]; [done|].
  apply Forall_inv in Hx. unfold not_before in Hx. cbn. by rewrite Hx.
Qed.

Lemma by_index_sorted l : StronglySorted (not_before by_index) (SliceStable by_index l).
Proof.
  apply SliceStable_sorted.
  - unfold by_index. intros x y Hx%bool_decide_eq_true. apply bool_decide_eq_false. lia.
  - unfold not_before, by_index. intros x y z Hx%bool_decide_eq_false Hy%bool_decide_eq_false. apply bool_decide_eq_false. lia.
Qed.

Lemma summary_windows n r :
  run_ok n r ->
  let ws := s_Windows (summary r) in
  (length ws <= Z.to_nat abRingSize)%nat /\ NoDup (w_Index <$> ws) /\
  Forall (fun w => two_ok n (w_V w) /\ 0 <= w_Index w <= abMaxPeerCount) ws.
Proof.
  intros [_ _ [Hl Hr] _ _ _ _] ws. unfold ws, summary. cbn [s_Windows]. rewrite SliceStable_perm. split_and!.
  - rewrite <- Hl. apply length_filter.
  - enough (forall k l, (forall i w, l !! i = Some w -> slot_ok n (k + i) w) -> (k + length l <= 3)%nat ->
      NoDup (w_Index <$> filter (fun w => 0 <= w_Index w) l) /\
      Forall (fun w => Z.of_nat k <= w_Index w mod abRingSize) (filter (fun w => 0 <= w_Index w) l)) as Hk.
    { apply (Hk 0%nat (r_ring r)); [exact Hr|]. rewrite Hl. done. }
    intros k l. revert k. induction l as [|w l IH]; intros k Hw Hlen; [by split; constructor|]. cbn [length] in Hlen.
    destruct (IH (S k)) as [Hnd Hf]; [|lia|].
    { intros i w' Hi. replace (S k + i)%nat with (k + S i)%nat by lia. by apply Hw. }
    assert (Forall (fun w => Z.of_nat k <= w_Index w mod abRingSize) (filter (fun w => 0 <= w_Index w) l)) as Hf'
      by (eapply Forall_impl; [exact Hf|]; intros x Hx; cbn in Hx; lia).
    rewrite filter_cons. case_decide as Hi; [|done]. destruct (Hw 0%nat w eq_refl) as [_ [?|[_ Hm]]]; [lia|].
    rewrite Nat.add_0_r in Hm. split; [|constructor; [lia|done]]. cbn [fmap list_fmap]. apply NoDup_cons. split; [|done].
    intros (x & Hx & Hin)%list_elem_of_fmap. rewrite Forall_forall in Hf. specialize (Hf x Hin). cbn beta in Hf.
    rewrite <- Hx in Hf. lia.
  - apply Forall_forall. intros w [Hi Hin]%list_elem_of_filter. apply list_elem_of_lookup in Hin as [i Hw].
    destruct (Hr i w Hw) as [Ht [?|[? _]]]; [lia|done].
Qed.

Section accepted.
Context `{FloatText} `{MapRange}.

(** Finds an entry of [label_list]. *)
Ltac entry := repeat first [left; reflexivity | right].

Lemma label_keys c k : is_Some (ab_labels c !! k) -> k ∈ abConfigLabelKeys.
Proof.
  unfold ab_labels, abConfigLabelKeys. intros [v Hv].
  assert ((list_to_map (label_list c) : gmap string string) !! k = Some v) as Hm.
  { revert Hv. unfold drop_zero. repeat case_decide; rewrite ?lookup_delete_Some; tauto. }
  apply elem_of_list_to_map_2 in Hm. change ((label_list (parseABConfig ∅ 0)).*1) with ((label_list c).*1).
  by apply (list_elem_of_fmap_2 fst) in Hm.
Qed.

Lemma ab_labels_size c : (0 < size (ab_labels c) <= abMaxPeerConfigEntries)%nat.
Proof.
  split.
  - assert (is_Some (ab_labels c !! "proxy.ab.variant")) as [v Hv] by (exists "B"; apply ab_labels_lookup; [entry|reflexivity]).
    destruct (decide (size (ab_labels c) = 0%nat)) as [Hz|]; [|lia]. apply map_size_empty_iff in Hz. by rewrite Hz in Hv.
  - rewrite <- size_dom. etrans; [apply (subseteq_size _ (list_to_set abConfigLabelKeys : gset string))|].
    + intros k Hk%elem_of_dom. apply elem_of_list_to_set. by eapply label_keys.
    + vm_compute. lia.
Qed.

(** The facts about a run that do not follow from its own steps: the names in
    the labels are sane, and the clock's readings lie between the epoch and a
    day ahead. *)
Record advertisable_run (now : Z) (r : abRun) (cfg : abConfig) : Prop := {
  ad_service : r_service r <> "" /\ abPrintable (r_service r) abMaxPeerServiceLen = true;
  ad_id : abIDRe (r_id r) = true /\ ab_ID cfg = r_id r;
  ad_cfg : exists labels, cfg = parseABConfig labels now;
  ad_short : map_Forall (fun _ v => len v <= abMaxPeerValueLen) (ab_labels cfg);
  ad_phaseAt : 0 <= ab_PhaseAt cfg <= now + day_s;
  ad_abort : r_latched r = true -> 0 <= a_At (r_abort r) <= now + day_s;
  ad_bLocal : 0 <= r_bLocal r <= abMaxPeerBBackends;
  ad_pinned : forall v, 0 <= sel v (r_pinnedLast r) <= now + day_s;
}.

(** The abort shown is in order. *)
Lemma abort_shown_ok n now r cfg :
  run_ok n r -> advertisable_run now r cfg ->
  match fst (abort_shown r cfg) with Some a => abort_ok (now + day_s) a | None => true end = true /\
  0 <= snd (abort_shown r cfg) <= now + day_s /\
  match fst (abort_shown r cfg) with Some a => bool_decide (a_Source a = "auto") || bool_decide (a_Source a = "peer") | None => false end
    = r_latched r.
Proof.
  intros Hok [_ _ [labels Hcfg] _ Hpa Hab _ _]. unfold abort_shown. destruct (r_latched r) eqn:Hl.
  - cbn [fst snd]. destruct (ro_why _ _ Hok Hl) as (Hr & Hd & Hs). specialize (Hab eq_refl). split_and!; try (case_decide; lia).
    + unfold abort_ok. rewrite Hd. rewrite !bool_decide_true; [done|done|destruct Hs as [-> | ->]; set_solver|].
      destruct Hr as [-> |[-> | ->]]; set_solver.
    + destruct Hs as [-> | ->]; done.
  - case_decide; cbn [fst snd]; [|done]. split_and!; [|lia|lia|done]. unfold abort_ok. cbn.
    rewrite !bool_decide_true; [done|lia|set_solver|]. rewrite Hcfg.
    assert (ab_AbortReason (parseABConfig labels now) ∈ [""; "errors"; "latency"; "manual"]) as Hin.
    { apply (field_ind _ _ _ _ (fun p => p ∈ _)); [set_solver|]. intros ?? Hx%one_of_elem. set_solver. }
    set_solver.
Qed.

Lemma guard_true {B} b (k : unit -> option B) : b = true -> (guard b ≫= k) = k tt.
Proof. by intros ->. Qed.

Lemma and_true b c : b = true -> c = true -> b && c = true.
Proof. by intros -> ->. Qed.

(** The labels that describe a parsed configuration pass the receiver's checks
    and are read as the same configuration. *)
Lemma wire_config labels now cfg :
  cfg = parseABConfig labels now -> map_Forall (fun _ v => len v <= abMaxPeerValueLen) (ab_labels cfg) ->
  forallb (fun kv => bool_decide (fst kv ∈ abConfigLabelKeys) && bool_decide (len (snd kv) <= abMaxPeerValueLen))
    (map_to_list (ab_labels cfg)) = true /\
  (bool_decide (ab_labels cfg !! "proxy.ab.variant" = Some "B") &&
    bool_decide (default "" (ab_labels cfg !! "proxy.ab.id") = ab_ID cfg)) = true /\
  parseABConfig (ab_labels cfg) now = cfg /\ ab_warnings (ab_labels cfg) now = [].
Proof.
  intros Hl Hshort. split_and!.
  - apply forallb_forall. intros [k v] Hin%list_elem_of_In%elem_of_map_to_list. cbn [fst snd].
    apply and_true; apply bool_decide_true; [by eapply label_keys|by apply (Hshort k v)].
  - apply and_true; apply bool_decide_true; [apply ab_labels_lookup; [entry|reflexivity]|].
    by rewrite (ab_labels_lookup cfg "proxy.ab.id" (ab_ID cfg)) by (by entry).
  - rewrite Hl. apply labels_roundtrip.
  - rewrite Hl. apply labels_roundtrip.
Qed.

(** The phase it reports is the label's, or the latch's. *)
Lemma wire_phase r labels now cfg :
  cfg = parseABConfig labels now ->
  bool_decide (phase r cfg ∈ phases) = true /\
  (bool_decide (phase r cfg = ab_Phase cfg) || (bool_decide (ab_Phase cfg = "running") && bool_decide (phase r cfg = "aborted"))) = true.
Proof.
  intros Hl. assert (ab_Phase cfg ∈ phases) as Hph.
  { rewrite Hl. apply (field_ind _ _ _ _ (fun p => p ∈ phases)); [set_solver|]. intros ??. apply one_of_elem. }
  unfold phase. case_decide as Hd.
  - destruct Hd as [-> _]. split; [apply bool_decide_true; set_solver|done].
  - by rewrite !bool_decide_true by done.
Qed.

Lemma wire_pinned n now r cfg v : run_ok n r -> advertisable_run now r cfg -> pinned_ok (now + day_s) (pinned_of r v) = true.
Proof.
  intros Hok Had. apply and_true; apply bool_decide_true; cbn [pinned_of fst snd]; [|by apply Had].
  destruct (ro_pins _ _ Hok). destruct v; cbn [sel]; lia.
Qed.

(** The mesh understands itself. What a proxy sends its peers about a
    reachable run passes every check of the receiver, which ends up with the
    same configuration, effective phase and latch, and with exactly the
    sender's counters and windows. *)
Theorem experiment_accepted n now r cfg :
  run_ok n r -> n <= abMaxPeerCount -> r_cfg r = Some cfg -> advertisable_run now r cfg ->
  exists info f, peerInfo r = Ret info /\ abPeerExpFromWire info now = Some f /\
    e_cfg (pf_exp f) = cfg /\ e_id (pf_exp f) = r_id r /\ e_service (pf_exp f) = r_service r /\
    e_phase (pf_exp f) = phase r cfg /\ e_latched (pf_exp f) = r_latched r /\ pf_sum f = summary r.
Proof.
  intros Hok Hn Hcfg Had. destruct (abort_shown_ok n now r cfg Hok Had) as (Hab & Hpa & Hlt).
  destruct (summary_windows n r Hok) as (Hwl & Hwd & Hwf). pose proof (fun v => wire_pinned n now r cfg v Hok Had) as Hpin.
  destruct Hok as [Hcum _ _ _ _ _ _]. destruct Had as [[Hs1 Hs2] [Hid1 Hid2] [labels Hl] Hshort _ _ Hbl _].
  destruct (wire_config labels now cfg Hl Hshort) as (Hkeys & Hvar & Hrt & Hw). destruct (wire_phase r labels now cfg Hl) as [Hph1 Hph2].
  unfold peerInfo. rewrite Hcfg. destruct (abort_shown r cfg) as [ab pa]. cbn [fst snd] in *.
  do 2 eexists. split; [reflexivity|]. split.
  { unfold abPeerExpFromWire. cbn [p_Service p_ID p_Config p_Phase p_PhaseAt p_Abort p_BBackends p_Pinned p_Cumulative p_Windows vA vB].
    rewrite Hrt, Hw, <- Hid2.
    rewrite guard_true by (apply and_true; [by rewrite bool_decide_false|done]). rewrite guard_true by congruence.
    rewrite guard_true by (apply and_true; apply bool_decide_true; apply ab_labels_size). rewrite guard_true by done.
    rewrite guard_true by done. rewrite guard_true by (by apply bool_decide_true). rewrite !guard_true by done.
    rewrite guard_true by (by apply bool_decide_true). rewrite guard_true by done. rewrite guard_true by (by apply bool_decide_true).
    rewrite guard_true by (by apply and_true). rewrite (two_from_wire_ok n) by done. cbn [mbind option_bind].
    rewrite guard_true by (rewrite length_fmap; by apply bool_decide_true). rewrite (windows_from_wire_ok n) by (try done; set_solver).
    cbn [mbind option_bind]. reflexivity. }
  cbn [pf_exp pf_sum e_cfg e_id e_service e_phase e_latched]. split_and!; try done.
  unfold summary at 2. f_equal. apply SliceStable_sorted_id, by_index_sorted.
Qed.
End accepted.

(** ** Instances *)

(** A test with one-minute windows that is judged after one bad window. *)
Definition ex_run_labels : gmap string string :=
  list_to_map [("proxy.ab.id", "test1"); ("proxy.ab.started", "1000"); ("proxy.ab.epoch", "1000"); ("proxy.ab.warmup", "0s");
               ("proxy.ab.window", "1m"); ("proxy.ab.windows", "1"); ("proxy.ab.min_samples", "1");
               ("proxy.ab.window_min_samples", "1"); ("proxy.ab.min_runtime", "0s")].
Definition ex_run_cfg : abConfig := Eval vm_compute in parseABConfig ex_run_labels 1200.
Definition and_then (r : abRun) (x : go abRun) : abRun := match x with Ret r' => r' | Panic => r end.

(** A and B serve one request each in the first window, B with a 500; a tick in
    the next window latches the abort. *)
Definition ex_r0 : abRun := newABRun "svc" "test1" 0.
Definition ex_r1 : abRun := Eval vm_compute in run_reattach 0 ex_run_cfg 1 ex_r0.
Definition ex_r2 : abRun := Eval vm_compute in and_then ex_r1 (record false abServed 200 1000000 (1010 * Second) ex_r1).
Definition ex_r3 : abRun := Eval vm_compute in and_then ex_r2 (record true abServed 500 1000000 (1020 * Second) ex_r2).
Definition ex_r4 : abRun := Eval vm_compute in and_then ex_r3 (evaluate (1100 * Second) ex_r3).


Lemma ex_steps : nsteps run_step 4 ex_r0 ex_r4.
Proof.
  apply (nsteps_l _ _ _ ex_r1); [exact (step_attach 0 ex_run_cfg 1 ex_r0 ltac:(by vm_compute))|].
  apply (nsteps_l _ _ _ ex_r2); [apply (step_record false abServed 200 1000000 (1010 * Second)); vm_compute; reflexivity|].
  apply (nsteps_l _ _ _ ex_r3); [apply (step_record true abServed 500 1000000 (1020 * Second)); vm_compute; reflexivity|].
  apply (nsteps_l _ _ _ ex_r4); [apply (step_tick (1100 * Second)); vm_compute; reflexivity|constructor].
Qed.

Example ex_latched : r_latched ex_r4 = true /\ a_Reason (r_abort ex_r4) = "errors" /\ phase ex_r4 ex_run_cfg = "aborted".
Proof. by vm_compute. Qed.

Lemma run_invariant_witness : run_ok 4 ex_r4.
Proof. apply (run_invariant "svc" "test1" 0 4 ex_r4); [exact ex_steps|done]. Defined.

Lemma latch_is_final_witness :
  let r := notePinned true "n" 1200 true ex_r4 in
  r_latched r = true /\ r_abort r = r_abort ex_r4 /\
  forall cfg, r_cfg r = Some cfg -> ab_Phase cfg = "running" ->
    phase r cfg = "aborted" /\ forall v out st lat now, record v out st lat now r = Ret r.
Proof.
  apply (latch_is_final ex_r4); [|by vm_compute]. apply (rtc_once ex_r4), step_pin.
Defined.

Lemma abort_needs_cause_witness :
  let merged := abMergeSummaries [summary ex_r3] in
  let v := snd (judge ex_run_cfg (r_js ex_r3) (summary ex_r3) [] (1100 * Second)) in
  1 <= samples (vA (s_Cumulative merged)) /\ (v_Reason v = "errors" \/ v_Reason v = "latency").
Proof.
  destruct (abort_needs_cause ex_run_cfg (r_js ex_r3) (summary ex_r3) [] (1100 * Second)
    (fst (judge ex_run_cfg (r_js ex_r3) (summary ex_r3) [] (1100 * Second)))
    (snd (judge ex_run_cfg (r_js ex_r3) (summary ex_r3) [] (1100 * Second)))) as (_ & Ha & _ & _ & _ & Hr).
  - split; by vm_compute.
  - by vm_compute.
  - by destruct (judge _ _ _ _ _).
  - by vm_compute.
  - split; [exact Ha|apply Hr; by vm_compute].
Defined.

Lemma ex_run4_ok : run_ok 4 ex_r4.
Proof. by apply (reachable_run_ok "svc" "test1" 0 4 ex_r4 ex_steps). Qed.

Lemma ex_run4_advertisable : advertisable_run 1200 ex_r4 ex_run_cfg.
Proof.
  split.
  - split; by vm_compute.
  - split; by vm_compute.
  - by exists ex_run_labels.
  - apply (bool_decide_eq_true_1 _). by vm_compute.
  - by vm_compute.
  - intros _. by vm_compute.
  - by vm_compute.
  - intros []; by vm_compute.
Qed.

Lemma experiment_accepted_witness :
  exists info f, peerInfo ex_r4 = Ret info /\ abPeerExpFromWire info 1200 = Some f /\
    e_phase (pf_exp f) = "aborted" /\ e_latched (pf_exp f) = true /\ pf_sum f = summary ex_r4.
Proof.
  destruct (experiment_accepted 4 1200 ex_r4 ex_run_cfg ex_run4_ok) as (info & f & Hi & Hf & _ & _ & _ & Hp & Hl & Hs).
  - by vm_compute.
  - by vm_compute.
  - exact ex_run4_advertisable.
  - exists info, f. split; [exact Hi|split; [exact Hf|split; [|split; [|exact Hs]]]].
    + rewrite Hp. apply ex_latched.
    + rewrite Hl. apply ex_latched.
Defined.
