(* ===== verification/AbAssign.v ===== *)
(** * Assigning a request to a variant: cmd/proxy/abtest.go

    Pins (the session's cookie), the split of an id, the QA override in the
    query, and [abAssign], which decides the variant of each request to a route
    with a test. Random draws are arguments. *)
From S2P Require Import Prelude GoString Float64 Sha256 Duration Http Balancer PeerMerge AbConfig AbRun.
Open Scope string_scope.

Definition set_RawQuery (q : string) (r : request) : request :=
  mkRequest (req_Method r) (req_Host r) (req_Path r) q (req_Header r) (req_RemoteAddr r).

(** [http.SetCookie] for the A/B cookies: Path "/", Secure, SameSite=Lax. *)
Record abCookie := mkCookie { k_Name : string; k_Value : string; k_MaxAge : Z; k_HttpOnly : bool }.
Definition cookie_line (c : abCookie) : string :=
  k_Name c +:+ "=" +:+ k_Value c +:+ "; Path=/" +:+
  (if decide (0 < k_MaxAge c) then "; Max-Age=" +:+ FormatInt (k_MaxAge c) else "") +:+
  (if k_HttpOnly c then "; HttpOnly" else "") +:+ "; Secure; SameSite=Lax".

Definition setABCookie (w : header) (c : abCookie) : header :=
  let existing := default [] (w !! "Set-Cookie") in
  Add_ "Set-Cookie" (cookie_line c) (keep_others (k_Name c +:+ "=") existing (Del "Set-Cookie" w)).

(** ** Splitting *)

(** [binary.BigEndian.Uint64]. *)
Fixpoint be_uint (s : string) (acc : Z) : Z :=
  match s with EmptyString => acc | String c s => be_uint s (acc * 256 + byte_Z c) end.

Definition abHash (id value : string) : Z := be_uint (take_bytes 8 (Sum256 (id +:+ String (chr 0) value))) 0.

Definition abSplitVariant (cfg : abConfig) (value : string) : string :=
  if decide (abHash (ab_ID cfg) value mod 10000 < ab_Split cfg * 100) then "B" else "A".

(** [n] is what [rand.IntN(10000)] returns. *)
Definition abRandomVariant (n : Z) (cfg : abConfig) : string := if decide (n < ab_Split cfg * 100) then "B" else "A".

Definition abOther (v : string) : string := if decide (v = "B") then "A" else "B".

Definition abCookieSuffix (service : string) : string := take_bytes 8 (hex (Sum256 service)).
Definition abPinCookieName (service : string) : string := "ab_v_" +:+ abCookieSuffix service.
Definition abJSCookieName (service : string) : string := "ab_vjs_" +:+ abCookieSuffix service.

(** ** Pins *)

Record abPin := mkPin {
  p_id : string; p_variant : string; p_src : string; p_nonce : string; p_issued : Z; p_lastSeen : Z;
}.

Definition pin_String (p : abPin) : string :=
  p_id p +:+ "." +:+ p_variant p +:+ "." +:+ p_src p +:+ "." +:+ p_nonce p +:+ "." +:+
  FormatInt (p_issued p) +:+ "." +:+ FormatInt (p_lastSeen p).

Definition abPinMaxLen : Z := 96.
Definition abPinSkew : Z := 2 * Minute.

(** The groups of [abPinRe]. No class of the expression holds a dot, so the
    match is by the dots. *)
Definition stamp_re (s : string) : bool := bool_decide (1 <= len s <= 12) && all_bytes is_digit s.
Definition pin_fields (v : string) : option (string * string * string * string * string * string) :=
  match Split v "." with
  | [i; va; src; no; iss; last] =>
      if abIDRe i && variant_name va && bool_decide (src ∈ ["g"; "u"; "n"; "q"]) &&
         (bool_decide (len no = 8) && all_bytes lower_hex no) && stamp_re iss && stamp_re last
      then Some (i, va, src, no, iss, last) else None
  | _ => None
  end.

(** [n] is the Unix time. *)
Definition pin_current (p : abPin) (cfg : abConfig) (n : Z) : bool :=
  bool_decide (p_id p = ab_ID cfg) && bool_decide (p_issued p <= p_lastSeen p) &&
  bool_decide (p_lastSeen p <= n + Z.quot abPinSkew Second) &&
  bool_decide (n - p_lastSeen p < Z.quot (ab_SessionIdle cfg) Second) &&
  bool_decide (n - p_issued p < Z.quot (ab_MaxSession cfg) Second).

Definition parseABPin (v : string) (cfg : abConfig) (n : Z) : option abPin :=
  if decide (abPinMaxLen < len v) then None
  else
    '(i, va, src, no, iss, last) ← pin_fields v;
    issued ← ParseInt iss;
    seen ← ParseInt last;
    let p := mkPin i va src no issued seen in
    if pin_current p cfg n then Some p else None.

Definition setPin (service : string) (cfg : abConfig) (w : header) (p : abPin) : header :=
  let w := setABCookie w (mkCookie (abPinCookieName service) (pin_String p) 0 true) in
  if ab_CookieJS cfg then setABCookie w (mkCookie (abJSCookieName service) (p_variant p) 0 false) else w.

(** ** The request *)

Definition hasPrefixAny (path : string) (prefixes : list string) : bool := existsb (HasPrefix path) prefixes.

Definition abQueryOverride : string := "pm_variant".
(** A segment's key: up to its first "=". *)
Definition segment_key (s : string) : string := fst (default (s, "") (Cut s "=")).
Definition segment_val (s : string) : string := snd (default (s, "") (Cut s "=")).

(** The first override's value, if any, and the other segments. *)
Definition cutQueryOverride (raw : string) : option string * string :=
  if decide (raw = "") then (None, raw)
  else
    let segs := Split raw "&" in
    (segment_val <$> find_first (fun s => bool_decide (segment_key s = abQueryOverride)) segs,
     Join (filter (fun s => segment_key s <> abQueryOverride) segs) "&").

Definition abValidVariant (v : string) : option string := if variant_name v then Some v else None.

(** ** The decision *)

Record abDecision := mkDecision {
  d_variant : string;
  d_failover : string;
  d_failoverFrom : string;
  d_excluded : bool;
  d_static : bool;
  d_record : bool;
}.
Definition set_d_record (b : bool) (d : abDecision) : abDecision :=
  mkDecision (d_variant d) (d_failover d) (d_failoverFrom d) (d_excluded d) (d_static d) b.

(** What a request may draw: [rand.IntN(10000)], [randHex(4)], [randHex(8)]. *)
Record draws := mkDraws { dr_int : Z; dr_nonce : string; dr_anon : string }.

Definition abVariantHeader : string := "X-Variant".
Definition abFailoverHeader : string := "X-Pmgr-AB-Failover".
Definition abAnonCookie : string := "ab_anon".
Definition abAnonMaxAge : Z := 30 * 24 * Hour.

Section assign.
Context (dr : draws) (now : Z) (cfg : abConfig) (origPath : string) (hopped authHop failoverHop : bool).

Notation n := (now / Second).

(** [finish]: the decision for variant [v], and the Vary header. *)
Definition finish (ph : string) (d : abDecision) (w : header) (v : string) : abDecision * header :=
  (mkDecision v (if decide (v = "B") then "A" else if decide (ph = "promoting") then "B" else "") (d_failoverFrom d)
     (d_excluded d) (d_static d) (d_record d),
   if negb (d_static d) && negb (d_excluded d) then
     if decide (ab_Assign cfg = "cookie") then Add_ "Vary" "Cookie" w
     else if decide (ab_Assign cfg = "header") then Add_ "Vary" (ab_Header cfg) w else w
   else w).

(** [newPin]: the decision, and a new pin in cookie mode. *)
Definition newPin (service ph : string) (canSetCookie : bool) (d : abDecision) (w : header) (v src : string)
  : abDecision * header :=
  finish ph d
    (if bool_decide (ab_Assign cfg = "cookie") && canSetCookie
     then setPin service cfg w (mkPin (ab_ID cfg) v src (dr_nonce dr) n n) else w) v.

(** Steps 5 to 9: a new session of a running test. *)
Definition assign_new (service ph : string) (canSetCookie : bool) (d : abDecision) (w : header) (r : request)
  : abDecision * header :=
  if decide (ab_Assign cfg = "header") then
    let v := Get (req_Header r) (ab_Header cfg) in
    finish ph d w (if decide (v = "") then "A" else abSplitVariant cfg v)
  else if decide (ab_Assign cfg = "random") then finish ph d w (abRandomVariant (dr_int dr) cfg)
  else
    match (g ← Cookie r (ab_GroupCookie cfg); if abGroupNameRe g then ab_Groups cfg !! g else None) with
    | Some v => newPin service ph canSetCookie d w v "g"
    | None =>
        match (u ← Cookie r (ab_UIDCookie cfg); if abUIDRe u then Some u else None) with
        | Some u => newPin service ph canSetCookie d w (abSplitVariant cfg u) "u"
        | None =>
            if negb (ab_Anon cfg) then newPin service ph canSetCookie d w (abRandomVariant (dr_int dr) cfg) "n"
            else
              match (a ← Cookie r abAnonCookie; if abAnonRe a then Some a else None) with
              | Some a => newPin service ph canSetCookie d w (abSplitVariant cfg a) "n"
              | None =>
                  if canSetCookie then
                    let w := setABCookie w (mkCookie abAnonCookie (dr_anon dr) (Z.quot abAnonMaxAge Second) true) in
                    newPin service ph canSetCookie d w (abSplitVariant cfg (dr_anon dr)) "n"
                  else newPin service ph canSetCookie d w (abRandomVariant (dr_int dr) cfg) "n"
              end
        end
    end.

(** Steps 4 to 9: no valid pin. *)
Definition assign_unpinned (service ph : string) (canSetCookie : bool) (d : abDecision) (w : header) (r : request)
  : abDecision * header * request :=
  let '(val, r) := if ab_Override cfg
                   then match cutQueryOverride (req_RawQuery r) with
                        | (Some val, rest) => (Some val, set_RawQuery rest r)
                        | (None, _) => (None, r)
                        end
                   else (None, r) in
  match val ≫= abValidVariant with
  | Some v => (newPin service ph canSetCookie d w v "q", r)
  | None =>
      let d := set_d_record (negb (abFrozen ph) && negb hopped) d in
      if abFrozen ph then (newPin service ph canSetCookie d w "A" "n", r)
      else if decide (ph = "promoting") then (newPin service ph canSetCookie d w "B" "n", r)
      else (assign_new service ph canSetCookie d w r, r)
  end.

Definition abAssign (run : abRun) (w : header) (r : request) : abDecision * header * request * abRun :=
  let ph := phase run cfg in
  let frozen := abFrozen ph in
  let incoming := Get (req_Header r) abVariantHeader in
  let r := set_Header (Del abVariantHeader (req_Header r)) r in
  let d := mkDecision "" "" "" false (hasPrefixAny origPath (ab_Static cfg)) false in
  if hasPrefixAny origPath (ab_Exclude cfg) then
    (finish ph (mkDecision "" "" "" true (d_static d) false) w "A", r, run)
  else
    match (if authHop then abValidVariant incoming else None) with
    | Some v =>
        let d := set_d_record (negb frozen) d in
        if failoverHop then
          let '(d, w) := finish ph d w (abOther v) in
          (mkDecision (d_variant d) "" v (d_excluded d) (d_static d) (d_record d), w, r, run)
        else (finish ph d w v, r, run)
    | None =>
        let canSetCookie := negb hopped && negb (d_static d) in
        match (v ← Cookie r (abPinCookieName (r_service run)); parseABPin v cfg n) with
        | Some p =>
            let d := set_d_record (negb frozen && negb hopped && negb (bool_decide (p_src p = "q"))) d in
            let run := if hopped then run else notePinned (abIdx (p_variant p)) (p_nonce p) n frozen run in
            let w := if canSetCookie && bool_decide (Z.quot (ab_PinRefresh cfg) Second <= n - p_lastSeen p)
                     then setPin (r_service run) cfg w (mkPin (p_id p) (p_variant p) (p_src p) (p_nonce p) (p_issued p) n)
                     else w in
            (finish ph d w (p_variant p), r, run)
        | None => (assign_unpinned (r_service run) ph canSetCookie d w r, run)
        end
    end.
End assign.

(** * Properties *)

(** ** Pins round trip *)

(** A pin the proxy writes. *)
Record pin_ok (p : abPin) : Prop := {
  po_id : abIDRe (p_id p) = true;
  po_variant : variant_name (p_variant p) = true;
  po_src : p_src p ∈ ["g"; "u"; "n"; "q"];
  po_nonce : len (p_nonce p) = 8 /\ all_bytes lower_hex (p_nonce p) = true;
  po_issued : 0 <= p_issued p < 10 ^ 12;
  po_seen : 0 <= p_lastSeen p < 10 ^ 12;
}.

Lemma fmt_digits_shape fuel n acc k :
  0 <= n < 10 ^ Z.of_nat (S k) -> (k < fuel)%nat -> all_bytes is_digit acc = true ->
  all_bytes is_digit (fmt_digits fuel n acc) = true /\
  len acc + 1 <= len (fmt_digits fuel n acc) <= len acc + Z.of_nat (S k).
Proof.
  revert n acc k. induction fuel as [|fuel IH]; intros n acc k Hn Hk Ha; [lia|]. cbn [fmt_digits].
  destruct (is_digit_digit (n mod 10)) as [Hd _]; [by apply Z.mod_pos_bound|].
  assert (all_bytes is_digit (String (digit (n mod 10)) acc) = true) as Ha' by (cbn; by rewrite Hd, Ha).
  assert (len (String (digit (n mod 10)) acc) = len acc + 1) as Hl by (unfold len; cbn; lia).
  case_decide as Hz; [split; [done|lia]|]. destruct k as [|k]; [rewrite Z.div_small in Hz by (cbn in Hn; lia); done|].
  destruct (IH (n / 10) (String (digit (n mod 10)) acc) k) as [Hall Hlen]; [|lia|done|split; [done|lia]].
  split; [apply Z.div_pos; lia|]. apply Z.div_lt_upper_bound; [lia|]. rewrite <- Z.pow_succ_r by lia.
  rewrite <- Nat2Z.inj_succ. apply Hn.
Qed.

Lemma FormatInt_stamp n : 0 <= n < 10 ^ 12 -> stamp_re (FormatInt n) = true.
Proof.
  intros Hn. unfold FormatInt. rewrite decide_False by lia.
  destruct (fmt_digits_shape 20 n "" 11 Hn ltac:(lia) eq_refl) as [Ha Hl]. unfold stamp_re. rewrite Ha.
  rewrite bool_decide_true; [done|]. change (len "") with 0 in Hl. lia.
Qed.

Lemma parse_digits_bound s acc m : 0 <= acc -> parse_digits s acc = Some m -> 0 <= m < (acc + 1) * 10 ^ len s.
Proof.
  revert acc. induction s as [|c s IH]; intros acc Ha; cbn.
  - intros [= <-]. change (len "") with 0. lia.
  - destruct (is_digit c) eqn:Hc; [|done]. assert (0 <= digit_val c <= 9) as Hd.
    { revert Hc. generalize c. clear. intros c. enough (negb (is_digit c) || (Z.leb 0 (digit_val c) && Z.leb (digit_val c) 9) = true) as H.
      - intros Hc. rewrite Hc in H. cbn [negb orb] in H. lia.
      - apply (byte_check (fun c => negb (is_digit c) || (Z.leb 0 (digit_val c) && Z.leb (digit_val c) 9))). reflexivity. }
    intros Hp. apply IH in Hp; [|lia]. assert (len (String c s) = Z.succ (len s)) as -> by (unfold len; cbn; lia).
    rewrite Z.pow_succ_r by (unfold len; lia). assert (0 < 10 ^ len s) by (apply Z.pow_pos_nonneg; unfold len; lia). nia.
Qed.

Lemma stamp_bound s n : stamp_re s = true -> ParseInt s = Some n -> 0 <= n < 10 ^ 12.
Proof.
  intros [Hl Ha]%andb_true_iff. apply bool_decide_eq_true in Hl. unfold ParseInt. destruct s as [|c s]; [done|].
  assert (is_digit c = true) as Hc by (cbn in Ha; by destruct (is_digit c)).
  assert (Ascii.eqb c "-" = false) as -> by (destruct (Ascii.eqb_spec c "-") as [-> |]; [done|done]).
  assert (Ascii.eqb c "+" = false) as -> by (destruct (Ascii.eqb_spec c "+") as [-> |]; [done|done]).
  destruct (parse_digits (String c s) 0) as [m|] eqn:Hp; [|done]. unfold in_int64. cbn. case_decide; [|done]. intros [= <-].
  apply parse_digits_bound in Hp; [|done]. split; [lia|]. eapply Z.lt_le_trans; [apply Hp|]. rewrite Z.mul_1_l. apply Z.pow_le_mono_r; lia.
Qed.

(** The bytes of a pin. *)
Definition pin_byte (c : ascii) : bool := is_alpha c || is_digit c || Ascii.eqb c ".".

Lemma pin_parts p : pin_ok p ->
  Split (pin_String p) "." = [p_id p; p_variant p; p_src p; p_nonce p; FormatInt (p_issued p); FormatInt (p_lastSeen p)] /\
  all_bytes pin_byte (pin_String p) = true /\ len (pin_String p) <= abPinMaxLen.
Proof.
  intros [Hi Hv Hs [Hnl Hnb] His Hse]. unfold abIDRe in Hi. apply andb_true_iff in Hi as [Hil Hib]. apply bool_decide_eq_true in Hil.
  pose proof (FormatInt_stamp _ His) as [Hal Hab]%andb_true_iff. pose proof (FormatInt_stamp _ Hse) as [Hbl Hbb]%andb_true_iff.
  apply bool_decide_eq_true in Hal, Hbl.
  assert (p_variant p = "A" \/ p_variant p = "B") as Hv'.
  { unfold variant_name in Hv. apply orb_true_iff in Hv as [Hv|Hv]; apply bool_decide_eq_true in Hv; auto. }
  assert (has_byte "." (p_variant p) = false /\ all_bytes pin_byte (p_variant p) = true /\ len (p_variant p) = 1) as (Hv1 & Hv2 & Hv3)
    by (destruct Hv' as [-> | ->]; done).
  assert (has_byte "." (p_src p) = false /\ all_bytes pin_byte (p_src p) = true /\ len (p_src p) = 1) as (Hs1 & Hs2 & Hs3).
  { rewrite !elem_of_cons, elem_of_nil in Hs. destruct Hs as [-> |[-> |[-> |[-> |[]]]]]; done. }
  unfold pin_String. split_and!.
  - change ("." +:+ ?s)%string with (String "." s). cbn [String.append].
    rewrite Split_app_sep by (by eapply all_bytes_free). rewrite Split_app_sep by done. rewrite Split_app_sep by done.
    rewrite Split_app_sep by (by eapply all_bytes_free). rewrite Split_app_sep by (by eapply all_bytes_free).
    by rewrite Split_free by (by eapply all_bytes_free).
  - assert (forall c, all_bytes is_digit c = true -> all_bytes pin_byte c = true) as Hd by (intros c; apply all_bytes_mono; reflexivity).
    assert (all_bytes pin_byte (p_id p) = true) as Hip by (eapply all_bytes_mono; [|exact Hib]; reflexivity).
    assert (all_bytes pin_byte (p_nonce p) = true) as Hnp by (eapply all_bytes_mono; [|exact Hnb]; reflexivity).
    by rewrite !all_bytes_app, Hv2, Hs2, Hip, Hnp, (Hd _ Hab), (Hd _ Hbb).
  - unfold len in *. rewrite !length_append. cbn [String.length]. unfold abPinMaxLen. lia.
Qed.

Lemma pin_reads p cfg n : pin_ok p -> parseABPin (pin_String p) cfg n = if pin_current p cfg n then Some p else None.
Proof.
  intros Hp. destruct (pin_parts p Hp) as (Hs & _ & Hl). destruct Hp as [Hi Hv Hsrc [Hnl Hnb] His Hse].
  unfold parseABPin. rewrite decide_False by lia. unfold pin_fields. rewrite Hs, Hi, Hv, Hnb, !FormatInt_stamp by done.
  rewrite (bool_decide_true (p_src p ∈ _)) by done. rewrite (bool_decide_true (len (p_nonce p) = 8)) by done. cbn [andb mbind option_bind].
  rewrite !ParseInt_FormatInt by (unfold minInt64, maxInt64; lia). cbn [mbind option_bind]. by destruct p.
Qed.

Lemma parsed_pin v cfg n p : parseABPin v cfg n = Some p -> pin_ok p /\ pin_current p cfg n = true.
Proof.
  unfold parseABPin, pin_fields. case_decide; [done|].
  destruct (Split v ".") as [|i [|va [|src [|no [|iss [|last [|]]]]]]]; try done.
  destruct (abIDRe i && _ && _ && _ && _ && _) eqn:Hc; [|done]. cbn [mbind option_bind].
  apply andb_true_iff in Hc as [Hc H6]. apply andb_true_iff in Hc as [Hc H5]. apply andb_true_iff in Hc as [Hc H4].
  apply andb_true_iff in Hc as [Hc H3]. apply andb_true_iff in Hc as [H1 H2]. apply andb_true_iff in H4 as [H4 H4'].
  apply bool_decide_eq_true in H3, H4.
  destruct (ParseInt iss) as [a|] eqn:Ha; [|done]. destruct (ParseInt last) as [b|] eqn:Hb; [|done]. cbn [mbind option_bind].
  destruct (pin_current _ _ _) eqn:Hp; [|done]. intros [= <-]. split; [|done]. split; try done; cbn; [by apply (stamp_bound iss)|by apply (stamp_bound last)].
Qed.

(** ** Cookies *)

Lemma CutPrefix_byte c s : CutPrefix s (String c "") = match s with String d r => if Ascii.eqb c d then Some r else None | EmptyString => None end.
Proof. destruct s as [|d r]; [done|]. cbn. destruct (Ascii.ascii_dec c d) as [-> |Hn]; [by rewrite Ascii.eqb_refl|].
  by apply Ascii.eqb_neq in Hn as ->. Qed.

Lemma trim_left_blank_tchar s : all_bytes is_tchar s = true -> trim_left_blank s = s.
Proof.
  destruct s as [|c s]; [done|]. cbn. intros [Hc _]%andb_true_iff. destruct (is_blank c) eqn:Hb; [|done].
  assert (negb (is_tchar c) || negb (is_blank c) = true) as H
    by (apply (byte_check (fun c => negb (is_tchar c) || negb (is_blank c))); reflexivity).
  by rewrite Hc, Hb in H.
Qed.

Lemma trim_blank_ends a b : all_bytes is_tchar a = true -> a <> "" -> all_bytes is_tchar b = true -> b <> "" ->
  forall m, trim_blank (a +:+ m +:+ b) = a +:+ m +:+ b.
Proof.
  intros Ha Hna Hb Hnb m. unfold trim_blank. assert (forall s t, all_bytes is_tchar s = true -> s <> "" -> trim_left_blank (s +:+ t) = s +:+ t) as Ht.
  { intros [|c s] t Hs Hns; [done|]. cbn in Hs. apply andb_true_iff in Hs as [Hc _].
    pose proof (trim_left_blank_tchar (String c "")) as Hx. cbn in Hx |- *. rewrite Hc in Hx. specialize (Hx eq_refl).
    destruct (is_blank c); [done|done]. }
  rewrite Ht by done. rewrite <- append_assoc, rev_string_app. rewrite Ht; [|by rewrite all_bytes_rev|].
  - rewrite <- rev_string_app. apply rev_string_rev.
  - intros He. apply Hnb. by rewrite <- (rev_string_rev b), He.
Qed.

Lemma trim_blank_tchar s : all_bytes is_tchar s = true -> trim_blank s = s.
Proof.
  intros Hs. unfold trim_blank. rewrite (trim_left_blank_tchar s) by done. rewrite trim_left_blank_tchar by (by rewrite all_bytes_rev).
  apply rev_string_rev.
Qed.

(** A cookie whose name and value are token characters reads back. *)
Lemma parse_cookie_plain name v :
  all_bytes is_tchar name = true -> name <> "" -> all_bytes is_tchar v = true -> v <> "" -> has_byte "=" name = false ->
  parse_cookie (name +:+ "=" +:+ v) = Some (name, v).
Proof.
  intros Hn Hnn Hv Hvn He. unfold parse_cookie. rewrite (trim_blank_ends name v Hn Hnn Hv Hvn "=").
  assert (Cut (name +:+ "=" +:+ v) "=" = Some (name, v)) as -> by (by apply Cut_Some). cbn [default from_option id].
  rewrite trim_blank_tchar by done. unfold is_token. rewrite bool_decide_false, Hn by done. cbn [negb andb].
  assert (unquote v = v) as ->.
  { unfold unquote. rewrite CutPrefix_byte. destruct v as [|c v]; [done|]. cbn in Hv. apply andb_true_iff in Hv as [Hc _].
    destruct (Ascii.eqb_spec dquote c) as [<-|_]; done. }
  by rewrite (all_bytes_mono is_tchar cookie_byte v eq_refl Hv).
Qed.

Lemma setABCookie_eq (w : header) c :
  setABCookie w c = <["Set-Cookie" := (filter (fun v => HasPrefix v (k_Name c +:+ "=") = false) (Values w "Set-Cookie") ++ [cookie_line c])%list]> w.
Proof.
  unfold setABCookie. rewrite keep_others_spec. unfold Del, Add_, Values. change (CanonicalHeaderKey "Set-Cookie") with "Set-Cookie".
  rewrite lookup_delete_eq. cbn [default app]. destruct (filter _ (default [] (w !! "Set-Cookie"))) as [|x l]; cbn [default].
  - rewrite lookup_delete_eq. cbn. by rewrite insert_delete_eq.
  - rewrite lookup_insert_eq. cbn. by rewrite insert_insert_eq, insert_delete_eq.
Qed.

(** The queued cookies of one name. *)
Definition queued (name : string) (w : header) : list string := filter (fun v => HasPrefix v (name +:+ "=") = true) (Values w "Set-Cookie").

Lemma cookie_line_name c : HasPrefix (cookie_line c) (k_Name c +:+ "=") = true.
Proof. unfold cookie_line. rewrite <- append_assoc. apply HasPrefix_app. Qed.

(** Two prefixes of one string are comparable. *)
Lemma HasPrefix_name s a b : HasPrefix s (a +:+ "=") = true -> HasPrefix s (b +:+ "=") = true ->
  has_byte "=" a = false -> has_byte "=" b = false -> a = b.
Proof.
  intros [r ->]%HasPrefix_Cut [r' Hr]%HasPrefix_Cut Ha Hb. rewrite !append_assoc in Hr.
  assert (Cut (a +:+ "=" +:+ r) "=" = Some (a, r)) as H1 by (by apply Cut_Some).
  rewrite Hr in H1. assert (Cut (b +:+ "=" +:+ r') "=" = Some (b, r')) as H2 by (by apply Cut_Some). congruence.
Qed.

Lemma queued_same w c : queued (k_Name c) (setABCookie w c) = [cookie_line c].
Proof.
  unfold queued. rewrite setABCookie_eq. unfold Values. change (CanonicalHeaderKey "Set-Cookie") with "Set-Cookie".
  rewrite lookup_insert_eq. cbn [default from_option Datatypes.id]. rewrite filter_app, filter_cons_True, filter_nil by apply cookie_line_name.
  rewrite list_filter_filter. induction (default [] (w !! "Set-Cookie")) as [|x l IH]; [done|].
  rewrite filter_cons_False; [exact IH|]. intros [? ?]. congruence.
Qed.

Lemma queued_other w c name :
  name <> k_Name c -> has_byte "=" name = false -> has_byte "=" (k_Name c) = false -> queued name (setABCookie w c) = queued name w.
Proof.
  intros Hn Ha Hb. unfold queued. rewrite setABCookie_eq. unfold Values. change (CanonicalHeaderKey "Set-Cookie") with "Set-Cookie".
  rewrite lookup_insert_eq. cbn [default from_option Datatypes.id]. rewrite filter_app, filter_cons_False, filter_nil, app_nil_r.
  - apply list_filter_filter_l. intros x Hx. destruct (HasPrefix x (k_Name c +:+ "=")) eqn:Hc; [|done].
    exfalso. apply Hn. by apply (HasPrefix_name x).
  - intros Hx. apply Hn. by apply (HasPrefix_name _ _ _ Hx (cookie_line_name c)).
Qed.

Lemma queued_vary name v w : queued name (Add_ "Vary" v w) = queued name w.
Proof. unfold queued, Add_, Values. change (CanonicalHeaderKey "Vary") with "Vary". by rewrite lookup_insert_ne by done. Qed.

Lemma hex_lower s : all_bytes lower_hex (hex s) = true.
Proof.
  induction s as [|c s IH]; [done|]. cbn [hex all_bytes]. rewrite IH, andb_true_r.
  set (p := fun c => lower_hex (hex_digit (byte_Z c / 16)) && lower_hex (hex_digit (byte_Z c mod 16))).
  apply (byte_check p). by vm_compute.
Qed.

Lemma take_bytes_all p n s : all_bytes p s = true -> all_bytes p (take_bytes n s) = true.
Proof. revert n. induction s as [|c s IH]; intros [|n]; cbn; try done. intros [-> Hs]%andb_true_iff. by apply IH. Qed.

Lemma suffix_tchar s : all_bytes is_tchar (abCookieSuffix s) = true.
Proof. apply (all_bytes_mono lower_hex); [reflexivity|]. apply take_bytes_all, hex_lower. Qed.

Lemma suffix_free s : has_byte "=" (abCookieSuffix s) = false.
Proof. apply (all_bytes_free lower_hex); [apply take_bytes_all, hex_lower|done]. Qed.

Lemma pin_name_ok s : all_bytes is_tchar (abPinCookieName s) = true /\ abPinCookieName s <> "" /\ has_byte "=" (abPinCookieName s) = false.
Proof. unfold abPinCookieName. rewrite all_bytes_app, has_byte_app, suffix_tchar, suffix_free. split_and!; [done|by intros [=]|done]. Qed.

Lemma js_name_ok s t : abPinCookieName t <> abJSCookieName s /\ has_byte "=" (abJSCookieName s) = false.
Proof. unfold abJSCookieName. rewrite has_byte_app, suffix_free. split; [by intros [=]|done]. Qed.

Definition pin_line (service : string) (p : abPin) : string := cookie_line (mkCookie (abPinCookieName service) (pin_String p) 0 true).

Lemma queued_setPin s cfg w p : queued (abPinCookieName s) (setPin s cfg w p) = [pin_line s p].
Proof.
  unfold setPin. destruct (ab_CookieJS cfg).
  - destruct (js_name_ok s s) as [Hn Hf]. destruct (pin_name_ok s) as (_ & _ & Hp). rewrite queued_other by done.
    apply (queued_same w (mkCookie _ _ _ _)).
  - apply (queued_same w (mkCookie _ _ _ _)).
Qed.

(** What a browser makes of the pin's Set-Cookie line. *)
Lemma pin_line_cookie s p : pin_ok p -> parse_cookie (before_byte (pin_line s p) ";") = Some (abPinCookieName s, pin_String p).
Proof.
  intros Hp. destruct (pin_parts p Hp) as (_ & Hb & _). destruct (pin_name_ok s) as (Hn1 & Hn2 & Hn3).
  assert (all_bytes is_tchar (pin_String p) = true) as Hv by (by apply (all_bytes_mono pin_byte)).
  assert (forall a b, has_byte ";" a = false -> before_byte (a +:+ String ";" b) ";" = a) as Hbb.
  { intros a b. induction a as [|c a IH]; cbn; [done|]. rewrite has_byte_cons. intros [Hc Ha]%orb_false_iff. by rewrite Hc, IH. }
  unfold pin_line, cookie_line. cbn [k_Name k_Value k_MaxAge k_HttpOnly]. rewrite <- !append_assoc.
  rewrite (append_assoc _ (pin_String p)). rewrite !append_assoc. rewrite <- (append_assoc "=" (pin_String p)), <- append_assoc.
  change ("; Path=/" +:+ ?x)%string with (String ";" (" Path=/" +:+ x)). rewrite Hbb.
  - apply parse_cookie_plain; try done. unfold pin_String. destruct (p_id p) eqn:E; [|done]. destruct Hp as [Hi _ _ _ _ _]. by rewrite E in Hi.
  - rewrite !has_byte_app, (all_bytes_free is_tchar _ _ Hn1), (all_bytes_free is_tchar _ _ Hv) by done. done.
Qed.

(** A request sends back a cookie that was set, among others: no other before it
    has its name. *)
Definition sends_back (s line : string) (r : request) : Prop := exists pre part post,
  flat_map (fun l => Split l ";") (Values (req_Header r) "Cookie") = (pre ++ part :: post)%list /\
  trim_blank part = trim_blank (before_byte line ";") /\
  Forall (fun x => forall v, parse_cookie x <> Some (abPinCookieName s, v)) pre.

Lemma pin_sent s p r : pin_ok p -> sends_back s (pin_line s p) r -> Cookie r (abPinCookieName s) = Some (pin_String p).
Proof.
  intros Hp (pre & part & post & Hc & Ht & Hpre). unfold Cookie. rewrite Hc, omap_app. cbn [omap list_omap].
  assert (parse_cookie part = parse_cookie (before_byte (pin_line s p) ";")) as -> by (unfold parse_cookie; by rewrite Ht).
  rewrite pin_line_cookie by done. clear Hc. induction Hpre as [|x pre Hx Hpre IH]; cbn [omap list_omap app]; [cbn; by rewrite bool_decide_true|].
  destruct (parse_cookie x) as [[k v]|] eqn:Hk; [|done]. cbn [app find_first fst]. rewrite bool_decide_false; [done|]. intros ->. by destruct (Hx v).
Qed.

(** ** A session keeps its variant *)

(** The pin a request presents, when it is valid for the test. *)
Definition presented (cfg : abConfig) (now : Z) (run : abRun) (r : request) : option abPin :=
  v ← Cookie r (abPinCookieName (r_service run)); parseABPin v cfg (now / Second).

Section session.
Context (dr : draws) (now : Z) (cfg : abConfig) (origPath : string) (hopped authHop failoverHop : bool).
Notation n := (now / Second).

(** The pin queued for service [s], if any, is a pin of this test for the
    variant decided, last seen now. *)
Definition pins (old : Z -> Prop) (s : string) (w : header) (dw : abDecision * header) : Prop :=
  queued (abPinCookieName s) (snd dw) = queued (abPinCookieName s) w \/
  exists p, pin_ok p /\ queued (abPinCookieName s) (snd dw) = [pin_line s p] /\ p_variant p = d_variant (fst dw) /\
    p_id p = ab_ID cfg /\ p_lastSeen p = n /\ p_issued p <= n /\ (p_issued p = n \/ old (p_issued p)).

Lemma finish_queued name ph d w v : queued name (snd (finish cfg ph d w v)) = queued name w.
Proof. unfold finish. cbn [snd]. destruct (_ && _); [|done]. repeat case_decide; by rewrite ?queued_vary. Qed.

Lemma finish_pins old s ph d w w0 v :
  (queued (abPinCookieName s) w = queued (abPinCookieName s) w0 \/ exists p, pin_ok p /\ queued (abPinCookieName s) w = [pin_line s p] /\ p_variant p = v /\
    p_id p = ab_ID cfg /\ p_lastSeen p = n /\ p_issued p <= n /\ (p_issued p = n \/ old (p_issued p))) ->
  pins old s w0 (finish cfg ph d w v).
Proof. unfold pins. by rewrite finish_queued. Qed.

Hypothesis Hid : abIDRe (ab_ID cfg) = true.
Hypothesis Hnow : 0 <= n < 10 ^ 12.
Hypothesis Hnonce : len (dr_nonce dr) = 8 /\ all_bytes lower_hex (dr_nonce dr) = true.

Lemma newPin_pins old s ph c d w w0 v src :
  queued (abPinCookieName s) w = queued (abPinCookieName s) w0 -> variant_name v = true -> src ∈ ["g"; "u"; "n"; "q"] ->
  pins old s w0 (newPin dr now cfg s ph c d w v src).
Proof.
  intros Hq Hv Hs. apply finish_pins. destruct (_ && _); [right|by left]. eexists. split; [|split; [apply queued_setPin|cbn; auto 10 with lia]].
  by split.
Qed.

Lemma split_variant u : variant_name (abSplitVariant cfg u) = true.
Proof. unfold abSplitVariant. by case_decide. Qed.
Lemma random_variant k : variant_name (abRandomVariant k cfg) = true.
Proof. unfold abRandomVariant. by case_decide. Qed.

Hypothesis Hgroups : map_Forall (fun _ v => variant_name v = true) (ab_Groups cfg).

Lemma assign_new_pins old s ph c d w r : pins old s w (assign_new dr now cfg s ph c d w r).
Proof.
  unfold assign_new. pose proof split_variant. pose proof random_variant.
  case_decide; [apply finish_pins; by left|]. case_decide; [apply finish_pins; by left|].
  destruct (Cookie r (ab_GroupCookie cfg) ≫= _) as [v|] eqn:Hg.
  { destruct (Cookie r (ab_GroupCookie cfg)) as [g|]; [|done]. cbn in Hg. destruct (abGroupNameRe g); [|done].
    apply newPin_pins; [done|by apply (Hgroups g)|set_solver]. }
  destruct (Cookie r (ab_UIDCookie cfg) ≫= _); [apply newPin_pins; [done|done|set_solver]|].
  destruct (negb _); [apply newPin_pins; [done|done|set_solver]|].
  destruct (Cookie r abAnonCookie ≫= _); [apply newPin_pins; [done|done|set_solver]|].
  destruct c; (apply newPin_pins; [|done|set_solver]); [|done].
  apply queued_other; [by intros [=]|apply pin_name_ok|done].
Qed.

Lemma assign_unpinned_pins old s ph c d w r : pins old s w (fst (assign_unpinned dr now cfg hopped s ph c d w r)).
Proof.
  unfold assign_unpinned. destruct (if ab_Override cfg then _ else _) as [val r'].
  destruct (val ≫= abValidVariant) as [v|] eqn:Hv.
  - apply newPin_pins; [done| |set_solver]. destruct val as [x|]; [|done]. cbn in Hv. unfold abValidVariant in Hv.
    destruct (variant_name x) eqn:Hx; [|done]. by injection Hv as <-.
  - destruct (abFrozen ph); [apply newPin_pins; [done|done|set_solver]|].
    case_decide; [apply newPin_pins; [done|done|set_solver]|]. apply assign_new_pins.
Qed.

(** The issue times of a pin the request presents. *)
Definition old_issue (run : abRun) (r : request) (t : Z) : Prop :=
  exists p, presented cfg now run (set_Header (Del abVariantHeader (req_Header r)) r) = Some p /\ p_issued p = t.

Lemma abAssign_pins run w r : 0 <= Z.quot (ab_PinRefresh cfg) Second ->
  pins (old_issue run r) (r_service run) w (fst (fst (abAssign dr now cfg origPath hopped authHop failoverHop run w r))).
Proof.
  intros Href. unfold abAssign. destruct (hasPrefixAny _ (ab_Exclude cfg)); [apply finish_pins; by left|].
  destruct (if authHop then _ else None) as [v|].
  { destruct failoverHop; [|apply finish_pins; by left]. set (d := set_d_record _ _). set (ph := phase run cfg).
    left. pose proof (finish_queued (abPinCookieName (r_service run)) ph d w (abOther v)) as Hq.
    destruct (finish cfg ph d w (abOther v)) as [d' w']. exact Hq. }
  destruct (Cookie _ (abPinCookieName _) ≫= _) as [p|] eqn:Hp; [|apply assign_unpinned_pins].
  assert (old_issue run r (p_issued p)) as Hold by (by exists p).
  destruct (Cookie _ _) as [v|]; [|done]. cbn in Hp. apply parsed_pin in Hp as [Hok Hcur]. cbn [fst].
  assert (r_service (if hopped then run else notePinned (abIdx (p_variant p)) (p_nonce p) n (abFrozen (phase run cfg)) run) = r_service run) as ->.
  { destruct hopped; [done|]. unfold notePinned. cbn zeta. by destruct (abFrozen _); case_decide. }
  apply finish_pins. destruct (_ && bool_decide _) eqn:Hset; [right|by left]. apply andb_true_iff in Hset as [_ Hset]. apply bool_decide_eq_true in Hset.
  unfold pin_current in Hcur. apply andb_true_iff in Hcur as [Hcur _]. apply andb_true_iff in Hcur as [Hcur _]. apply andb_true_iff in Hcur as [Hcur _].
  apply andb_true_iff in Hcur as [Hpid Hle]. apply bool_decide_eq_true in Hpid, Hle. destruct Hok as [? ? ? ? ? ?].
  eexists. split; [|split; [apply queued_setPin|]]; [by split|]. cbn. split_and!; [done|done|done|lia|by right].
Qed.
End session.

(** C40. A session keeps its variant. If assigning a request queues a pin for the
    client, then any later request that sends the pin back, among whatever other
    cookies and queries, to any route of the same service and test, is given the
    variant the first request got: whatever the split, the groups, the users and
    the phase are by then, even when the test is frozen or promoting, as long as
    the pin has neither idled out nor outlived the session maximum since the
    session was issued (now, unless the request came with a valid pin), and the
    path is not excluded. Only a request over an authenticated hop that names a
    variant is not decided by the pin, but by the proxy that sent it. *)
Theorem session_keeps_variant dr dr' now now' cfg cfg' path path' hop auth fo hop' auth' fo' run run' w w' r r' line :
  config_wf cfg -> abIDRe (ab_ID cfg) = true -> 0 <= now / Second < 10 ^ 12 ->
  len (dr_nonce dr) = 8 -> all_bytes lower_hex (dr_nonce dr) = true ->
  let s := r_service run in
  let '(d, w1, _, _) := abAssign dr now cfg path hop auth fo run w r in
  queued (abPinCookieName s) w = [] -> line ∈ queued (abPinCookieName s) w1 ->
  exists issued, issued <= now / Second /\ (issued = now / Second \/ old_issue now cfg run r issued) /\
  (r_service run' = s -> ab_ID cfg' = ab_ID cfg -> hasPrefixAny path' (ab_Exclude cfg') = false ->
   sends_back s line r' -> (auth' = true -> abValidVariant (Get (req_Header r') abVariantHeader) = None) ->
   now / Second <= now' / Second + 120 -> now' / Second - now / Second < Z.quot (ab_SessionIdle cfg') Second ->
   now' / Second - issued < Z.quot (ab_MaxSession cfg') Second ->
   d_variant (fst (fst (fst (abAssign dr' now' cfg' path' hop' auth' fo' run' w' r')))) = d_variant d).
Proof.
  intros Hwf Hid Hnow Hn1 Hn2 s. assert (0 <= Z.quot (ab_PinRefresh cfg) Second) as Href.
  { apply Z.quot_pos; [|done]. destruct (cw_refresh _ Hwf). unfold Minute, Second in *. lia. }
  assert (map_Forall (fun _ v => variant_name v = true) (ab_Groups cfg)) as Hg.
  { eapply map_Forall_impl; [exact (cw_groups _ Hwf)|]. by intros ? ? [_ ?]. }
  pose proof (abAssign_pins dr now cfg path hop auth fo Hid Hnow (conj Hn1 Hn2) Hg run w r Href) as Hp.
  destruct (abAssign dr now cfg path hop auth fo run w r) as [[[d w1] r1] run1]. intros Hw Hline. fold s in Hp. unfold pins in Hp. cbn [fst snd] in Hp.
  destruct Hp as [Hq|(p & Hok & Hq & Hv & Hpid & Hls & His & Hnew)]; [rewrite Hq, Hw in Hline; by apply not_elem_of_nil in Hline|].
  rewrite Hq in Hline. apply list_elem_of_singleton in Hline as ->. exists (p_issued p). split; [done|]. split; [done|].
  intros Hs' Hid' Hex Hc Hauth Hsk Hidle Hmax. unfold abAssign. rewrite Hex. cbn zeta.
  assert ((if auth' then abValidVariant (Get (req_Header r') abVariantHeader) else None) = None) as -> by (destruct auth'; auto).
  cbn [mbind option_bind]. rewrite Hs'.
  rewrite (pin_sent s p (set_Header (Del abVariantHeader (req_Header r')) r')); [|done|].
  - cbn [mbind option_bind]. rewrite pin_reads by done. unfold pin_current. rewrite !bool_decide_true; [done|lia|rewrite Hls; lia| |lia|congruence].
    rewrite Hls. change (Z.quot abPinSkew Second) with 120. lia.
  - unfold sends_back in *. unfold set_Header, Del, Values in *. cbn [req_Header]. by rewrite lookup_delete_ne.
Qed.

(** ** What clients cannot do *)

(** The variant a request asks for in its query, when the route allows it. *)
Definition asked (cfg : abConfig) (r : request) : option string :=
  if ab_Override cfg then v ← fst (cutQueryOverride (req_RawQuery r)); abValidVariant v else None.

(** The X-Variant header counts for nothing unless an authenticated peer
    sent it: any other request is decided, answered and rewritten as if it had
    no such header, and no request keeps the header it came with. *)
Theorem variant_header_ignored dr now cfg path hop auth fo run w r :
  let strip := set_Header (Del abVariantHeader (req_Header r)) r in
  (auth = false -> abAssign dr now cfg path hop auth fo run w r = abAssign dr now cfg path hop auth fo run w strip) /\
  Values (req_Header (snd (fst (abAssign dr now cfg path hop auth fo run w r)))) abVariantHeader = [].
Proof.
  cbn zeta. assert (forall k (h : header), Del k (Del k h) = Del k h) as Hdd.
  { intros k h. unfold Del. by rewrite delete_delete_eq. }
  split.
  - intros ->. unfold abAssign. cbn [req_Header set_Header]. rewrite Hdd. done.
  - assert (forall r', req_Header r' = Del abVariantHeader (req_Header r) -> Values (req_Header r') abVariantHeader = []) as Hd.
    { intros r' ->. unfold Values, Del. by rewrite lookup_delete_eq. }
    apply Hd. unfold abAssign. destruct (hasPrefixAny _ _); [done|].
    destruct (if auth then _ else None); [destruct fo; [by destruct (finish _ _ _ _ _)|done]|].
    destruct (Cookie _ (abPinCookieName _) ≫= _); [done|]. cbn [fst snd]. unfold assign_unpinned.
    destruct (ab_Override cfg); [destruct (cutQueryOverride _) as [[v|] rest]|]; cbn [mbind option_bind]; repeat case_match; done.
Qed.

Lemma assign_new_record dr now cfg svc ph c d w r : d_record (fst (assign_new dr now cfg svc ph c d w r)) = d_record d.
Proof. unfold assign_new, newPin. by repeat case_match. Qed.

(** Without a valid pin, the decision is recorded unless it is the override's. *)
Lemma assign_unpinned_record dr now cfg hop svc ph c d w r :
  d_record d = false -> d_record (fst (fst (assign_unpinned dr now cfg hop svc ph c d w r))) = true ->
  abFrozen ph = false /\ hop = false /\ asked cfg r = None.
Proof.
  intros Hd. unfold assign_unpinned, asked.
  destruct (if ab_Override cfg then match cutQueryOverride (req_RawQuery r) with _ => _ end else (None, r)) as [val r'] eqn:Hval.
  assert ((if ab_Override cfg then v ← fst (cutQueryOverride (req_RawQuery r)); abValidVariant v else None) = val ≫= abValidVariant) as ->.
  { destruct (ab_Override cfg); [destruct (cutQueryOverride _) as [[q|] rest]|]; by injection Hval as <- <-. }
  destruct (val ≫= abValidVariant) as [v|]; [cbn; by rewrite Hd|]. destruct (abFrozen ph); [done|].
  case_decide; cbn [fst]; rewrite ?assign_new_record; cbn; by intros ->%negb_true_iff.
Qed.

(** Only genuine sessions are counted. A request is recorded only while the
    test is neither aborted nor discarding and its path not excluded, and then
    it either came over an authenticated hop with its session's variant, or
    straight from a client that did not choose its variant: neither its pin
    nor its query is a QA override. *)
Theorem counted_requests dr now cfg path hop auth fo run w r :
  d_record (fst (fst (fst (abAssign dr now cfg path hop auth fo run w r)))) = true ->
  abFrozen (phase run cfg) = false /\ hasPrefixAny path (ab_Exclude cfg) = false /\
  ((auth = true /\ variant_name (Get (req_Header r) abVariantHeader) = true) \/
   (hop = false /\
    match presented cfg now run (set_Header (Del abVariantHeader (req_Header r)) r) with
    | Some p => p_src p <> "q"
    | None => asked cfg r = None
    end)).
Proof.
  unfold abAssign. destruct (hasPrefixAny path (ab_Exclude cfg)); [done|].
  destruct (if auth then _ else None) as [v|] eqn:Ha.
  { intros Hr. assert (abFrozen (phase run cfg) = false) as ->.
    { destruct fo; [destruct (finish _ _ _ _ _) as [d w'] eqn:Hf; unfold finish in Hf; injection Hf as <- <-|]; cbn in Hr; by apply negb_true_iff in Hr. }
    split_and!; [done|done|left]. destruct auth; [|done]. unfold abValidVariant in Ha. by destruct (variant_name _). }
  unfold presented. set (strip := set_Header _ r). destruct (Cookie strip _ ≫= _) as [p|] eqn:Hp; cbn [mbind option_bind] in *.
  - cbn. intros [[Hf%negb_true_iff Hh%negb_true_iff]%andb_true_iff Hs%negb_true_iff]%andb_true_iff.
    apply bool_decide_eq_false in Hs. split_and!; [done|done|by right].
  - cbn [fst]. intros (Hf & Hh & Ho)%assign_unpinned_record; [|done]. split_and!; [done|done|by right].
Qed.

(** ** Instances *)

(** All new sessions go to B; later the test is being discarded. *)
Definition ex_all_b : abConfig := parseABConfig (<["proxy.ab.split" := "100"]> ex_run_labels) 1200.
Definition ex_discarding : abConfig := parseABConfig (<["proxy.ab.phase" := "discarding"]> ex_run_labels) 1200.
Definition ex_draws : draws := mkDraws 17 "0123abcd" "00112233aabbccdd".
Definition ex_visit (h : header) : request := mkRequest "GET" "shop.example.com" "/" "" h "198.51.100.7:4000".
Definition ex_first : abDecision * header * request * abRun :=
  abAssign ex_draws (1200 * Second) ex_all_b "/" false false false ex_r1 ∅ (ex_visit ∅).
Definition ex_line : string := List.last (queued (abPinCookieName "svc") (snd (fst (fst ex_first)))) "".
Definition ex_return : request := ex_visit {["Cookie" := ["ab_group=vip; " +:+ before_byte ex_line ";" +:+ "; theme=dark"]]}.
Lemma ex_sends_back : sends_back "svc" ex_line ex_return.
Proof.
  exists ["ab_group=vip"], (" " +:+ before_byte ex_line ";"), [" theme=dark"]. split_and!; [vm_compute; reflexivity|vm_compute; reflexivity|].
  repeat constructor. intros v. vm_compute. discriminate.
Qed.

Example ex_pin : before_byte ex_line ";" = abPinCookieName "svc" +:+ "=test1.B.n.0123abcd.1200.1200".
Proof. vm_compute. reflexivity. Qed.

Lemma session_keeps_variant_witness :
  d_variant (fst (fst (fst (abAssign ex_draws (1500 * Second) ex_discarding "/x" false false false ex_r1 ∅ ex_return)))) = "B".
Proof.
  pose proof (session_keeps_variant ex_draws ex_draws (1200 * Second) (1500 * Second) ex_all_b ex_discarding "/" "/x" false false false false false false
    ex_r1 ex_r1 ∅ ∅ (ex_visit ∅) ex_return ex_line) as H.
  assert (config_wf ex_all_b) as Hwf by apply config_is_wf.
  specialize (H Hwf eq_refl ltac:(by vm_compute) eq_refl eq_refl). cbv zeta in H. fold ex_first in H.
  assert (d_variant (fst (fst (fst ex_first))) = "B") as Hb by (vm_compute; reflexivity).
  assert (ex_line ∈ queued (abPinCookieName (r_service ex_r1)) (snd (fst (fst ex_first)))) as Hl by (apply (bool_decide_eq_true_1 _); vm_compute; reflexivity).
  assert (presented ex_all_b (1200 * Second) ex_r1 (ex_visit ∅) = None) as Hnone by (vm_compute; reflexivity).
  destruct ex_first as [[[d w1] r1] run1]. cbn [fst snd] in *.
  destruct H as (issued & _ & [-> |(p & Hp & _)] & H); [vm_compute; reflexivity|exact Hl| |].
  - refine (eq_trans (H eq_refl _ _ ex_sends_back _ _ _ _) Hb); [vm_compute; reflexivity|vm_compute; reflexivity|done|by vm_compute|vm_compute; reflexivity|vm_compute; reflexivity].
  - change (set_Header _ (ex_visit ∅)) with (ex_visit ∅) in Hp. congruence.
Defined.

Lemma counted_requests_witness :
  presented ex_all_b (1200 * Second) ex_r1 (ex_visit ∅) = None /\ asked ex_all_b (ex_visit ∅) = None.
Proof.
  destruct (counted_requests ex_draws (1200 * Second) ex_all_b "/" false false false ex_r1 ∅ (ex_visit ∅)) as (_ & _ & H);
    [vm_compute; reflexivity|].
  destruct H as [[H _]|[_ H]]; [discriminate H|].
  assert (presented ex_all_b (1200 * Second) ex_r1 (ex_visit ∅) = None) as Hn by (vm_compute; reflexivity).
  change (set_Header _ (ex_visit ∅)) with (ex_visit ∅) in H. rewrite Hn in H. by split.
Defined.

(** The override strips its own segments only. *)
Example ex_cut : cutQueryOverride "q=1&pm_variant=B&x&pm_variant=A&y=pm_variant=" = (Some "B", "q=1&x&y=pm_variant=").
Proof. vm_compute. reflexivity. Qed.
