(* ===== verification/Assemble.v ===== *)
(** * Assembling the routing table: cmd/proxy/router.go, cmd/proxy/docker.go

    [assembleGroupsWithOverlay] reads routes.json and the labels of all
    containers into route groups and backends. The groups of a key are one
    object, and a backend is shared by its label-managed group and every static
    group its service backfills, so the backends live on a heap. *)
From S2P Require Import Prelude GoString Float64 Http RateLimit Cache Balancer Router Labels LabelOverlay PeerMerge AbConfig.
Open Scope string_scope.

(** ** Inputs *)

Record staticRoute := mkStatic {
  sr_Host : string;
  sr_Path : string;
  sr_Strip : bool;
  sr_Name : string;
  sr_Backends : list string;
  sr_Service : string;
  sr_Health : string;
  sr_Auth : bool;
  sr_AuthUsers : list string;
  sr_AuthMode : string;
  sr_RateLimit : bool;
  sr_RateRPM : Z;
  sr_DropHeaders : list string;
  sr_Sticky : bool;
  sr_Cache : string;
  sr_CachePaths : list string;
}.

Definition normalizeAuthUsers (l : list string) : list string :=
  filter (fun u => u <> "") ((fun u => ToLower (TrimSpace u)) <$> l).

Definition dockerUnhealthy (status : string) : bool := StrContains status "(unhealthy)".

Definition managedNetwork : string := "edge".

(** ** Static routes *)

Definition static_group (sr : staticRoute) : RouteGroup :=
  {| g_Host := sr_Host sr; g_PathPrefix := sr_Path sr; g_StripPrefix := sr_Strip sr; g_Name := sr_Name sr;
     g_Service := sr_Service sr; g_Backends := []; g_DropHeaders := sr_DropHeaders sr; g_Sticky := sr_Sticky sr;
     g_CacheTTL := default 0 (ParseCacheTTL (sr_Cache sr)); g_CachePaths := unionStrings [] (sr_CachePaths sr);
     g_cache := None; g_AuthRequired := sr_Auth sr; g_AuthUsers := normalizeAuthUsers (sr_AuthUsers sr);
     g_AuthMode := sr_AuthMode sr; g_RateLimit := sr_RateLimit sr; g_RateRPM := sr_RateRPM sr; g_limiter := None;
     g_Spread := false; g_SpreadLocal := false; g_cursor := 0; g_panicLogAt := 0; g_static := true;
     g_abCfg := None; g_ab := None; g_abLocal := None |}.

(** The state of the function: groupsByKey, backendsByService and the heap. *)
Record asm := mkAsm {
  a_groups : gmap string RouteGroup;
  a_bySvc : gmap string (list loc);
  a_heap : gmap loc Backend;
  a_next : loc;
}.
Definition set_groups (m : gmap string RouteGroup) (a : asm) : asm := mkAsm m (a_bySvc a) (a_heap a) (a_next a).
Definition set_bySvc (m : gmap string (list loc)) (a : asm) : asm := mkAsm (a_groups a) m (a_heap a) (a_next a).

(** [&Backend{...}]. *)
Definition new_backend (b : Backend) (a : asm) : loc * asm :=
  (a_next a, mkAsm (a_groups a) (a_bySvc a) (<[a_next a := b]> (a_heap a)) (Pos.succ (a_next a))).
Definition new_backends (bs : list Backend) (a : asm) : list loc * asm :=
  let '(ls, h, n) := alloc_all bs (a_heap a) (a_next a) in (ls, mkAsm (a_groups a) (a_bySvc a) h n).

Definition append_backends (ls : list loc) (g : RouteGroup) : RouteGroup := set_g_Backends (g_Backends g ++ ls)%list g.

Section assemble.
Context `{MapRange} `{FloatText}.
(** Which URLs [url.Parse] accepts. *)
Context (parses : string -> bool).

Definition static_backends (sr : staticRoute) : list Backend :=
  (fun raw => makeBackend raw 1 "static" (sr_Health sr)) <$> filter (fun raw => parses raw = true) (sr_Backends sr).

Definition add_static (a : asm) (sr : staticRoute) : asm :=
  let key := routeKey (sr_Host sr) (sr_Path sr) in
  let g := default (static_group sr) (a_groups a !! key) in
  let '(ls, a) := new_backends (static_backends sr) a in
  set_groups (<[key := append_backends ls g]> (a_groups a)) a.

(** ** Containers *)

(** The address on the edge network, or the first non-empty one. *)
Definition container_ip (c : dockerContainer) : string :=
  match c_Networks c !! managedNetwork with
  | Some ip => if decide (ip = "") then default "" (find_first (fun ip => negb (bool_decide (ip = ""))) (range_list (c_Networks c)).*2)
               else ip
  | None => default "" (find_first (fun ip => negb (bool_decide (ip = ""))) (range_list (c_Networks c)).*2)
  end.

Definition container_weight (c : dockerContainer) : Z :=
  match Atoi (label c "proxy.weight") with Some w => if decide (w > 0) then w else 1 | None => 1 end.

(** The host and port labels; a container without both is skipped. *)
Definition endpoint (c : dockerContainer) : option (string * Z) :=
  let host := label c "proxy.host" in
  let portStr := label c "proxy.port" in
  if decide (host = "" \/ portStr = "") then None else port ← Atoi portStr; Some (host, port).

Definition set_Docker (id : string) (unhealthy : bool) (variant : string) (b : Backend) : Backend :=
  mkBackend (b_URL b) (b_Weight b) (b_Container b) (b_HealthPath b) (b_proxy b) (b_healthyFlag b) (b_stickyID b)
    (b_consecFails b) unhealthy (b_Learned b) (b_PeerID b) variant (b_peerTestID b) id (b_draining b) (b_transport b).

(** The container's own backend: it runs, has an address, and the A/B scan did
    not exclude it. *)
Definition container_backend (abs : abScanResult) (c : dockerContainer) (port : Z) : option Backend :=
  let name := c_name c in
  if negb (bool_decide (c_State c = "running")) then None
  else let ip := container_ip c in
    if decide (ip = "") then None
    else if decide (name ∈ sc_excluded abs) then None
    else
      let url := ("http://" +:+ ip +:+ ":" +:+ FormatInt port)%string in
      Some (set_Docker (c_ID c) (dockerUnhealthy (c_Status c)) (if decide (name ∈ sc_bNames abs) then "B" else "")
              (makeBackend url (container_weight c) name (label c "proxy.health"))).

Definition label_group (c : dockerContainer) (host : string) : RouteGroup :=
  let display := label c "proxy.name" in
  {| g_Host := host; g_PathPrefix := label c "proxy.path"; g_StripPrefix := bool_decide (label c "proxy.strip" = "true");
     g_Name := if decide (display = "") then host else display; g_Service := label c "proxy.service";
     g_Backends := []; g_DropHeaders := splitTrimmed (label c "proxy.drop_headers"); g_Sticky := false;
     g_CacheTTL := 0; g_CachePaths := []; g_cache := None; g_AuthRequired := false; g_AuthUsers := []; g_AuthMode := "";
     g_RateLimit := false; g_RateRPM := 0; g_limiter := None; g_Spread := false; g_SpreadLocal := false;
     g_cursor := 0; g_panicLogAt := 0; g_static := false; g_abCfg := None; g_ab := None; g_abLocal := None |}.

Definition flag (c : dockerContainer) (key : string) : bool := bool_decide (label c key = "true").

(** A valid rpm label. *)
Definition label_rpm (c : dockerContainer) : option Z :=
  let s := label c "proxy.ratelimit.rpm" in
  if decide (s = "") then None else rpm ← Atoi s; if decide (rpm <= 0) then None else Some rpm.

(** The merge of a replica's labels into its group, a field at a time. *)
Definition merge_auth (c : dockerContainer) (g : RouteGroup) : RouteGroup :=
  if flag c "proxy.auth" then set_g_AuthRequired true g else g.
Definition merge_mode (c : dockerContainer) (g : RouteGroup) : RouteGroup :=
  if decide (label c "proxy.auth.mode" = "oauth") then set_g_AuthMode "oauth" g else g.
Definition merge_users (c : dockerContainer) (g : RouteGroup) : RouteGroup :=
  if decide (g_AuthUsers g = [])
  then set_g_AuthUsers (normalizeAuthUsers (Split (label c "proxy.auth.users") ",")) g else g.
Definition merge_limit (c : dockerContainer) (g : RouteGroup) : RouteGroup :=
  if flag c "proxy.ratelimit" then set_g_RateLimit true g else g.
Definition merge_spread (c : dockerContainer) (g : RouteGroup) : RouteGroup :=
  if flag c "proxy.spread" then set_g_Spread true (set_g_SpreadLocal true g) else g.
Definition merge_sticky (c : dockerContainer) (g : RouteGroup) : RouteGroup :=
  if flag c "proxy.sticky" then set_g_Sticky true g else g.
Definition merge_cache (c : dockerContainer) (g : RouteGroup) : RouteGroup :=
  let v := label c "proxy.cache" in
  if decide (v = "") then g
  else match ParseCacheTTL v with
       | Some d => if decide (d > g_CacheTTL g) then set_g_CacheTTL d g else g
       | None => g
       end.
Definition merge_paths (c : dockerContainer) (g : RouteGroup) : RouteGroup :=
  set_g_CachePaths (unionStrings (g_CachePaths g) (splitTrimmed (label c "proxy.cache.paths"))) g.
Definition merge_rpm (c : dockerContainer) (g : RouteGroup) : RouteGroup :=
  if decide (g_RateRPM g = 0) then match label_rpm c with Some rpm => set_g_RateRPM rpm g | None => g end else g.
(** All of them, in the code's order. *)
Definition merge_labels (c : dockerContainer) (g : RouteGroup) : RouteGroup :=
  merge_rpm c (merge_paths c (merge_cache c (merge_sticky c (merge_spread c (merge_limit c
    (merge_users c (merge_mode c (merge_auth c g)))))))).

(** Whether the container backs static routes naming its service. *)
Definition feeds (c : dockerContainer) : option string :=
  let svc := label c "proxy.service" in
  if decide (svc = "") then None else if flag c "proxy.canary" then None else Some svc.

Definition container_key (c : dockerContainer) : string := routeKey (label c "proxy.host") (label c "proxy.path").

Definition add_container (abs : abScanResult) (a : asm) (c : dockerContainer) : asm :=
  match endpoint c with
  | None => a
  | Some (host, port) =>
      let '(ls, a) := new_backends (option_list (container_backend abs c port)) a in
      let a := match feeds c, ls with
               | Some svc, _ :: _ => set_bySvc (<[svc := (default [] (a_bySvc a !! svc) ++ ls)%list]> (a_bySvc a)) a
               | _, _ => a
               end in
      let key := routeKey host (label c "proxy.path") in
      let g := default (label_group c host) (a_groups a !! key) in
      if g_static g then a
      else set_groups (<[key := append_backends ls (merge_labels c g)]> (a_groups a)) a
  end.

(** ** The final pass over the groups *)

Definition url_before (h : gmap loc Backend) (l l' : loc) : bool :=
  match h !! l, h !! l' with Some b, Some b' => (b_URL b <? b_URL b')%string | _, _ => false end.

Definition finish_group (abs : abScanResult) (bySvc : gmap string (list loc)) (h : gmap loc Backend) (g : RouteGroup)
  : RouteGroup :=
  let g := if g_static g && negb (bool_decide (g_Service g = ""))
           then append_backends (default [] (bySvc !! g_Service g)) g else g in
  let g := if g_RateLimit g && bool_decide (g_RateRPM g <= 0) then set_g_RateRPM RateLimiter.defaultRateRPM g else g in
  let g := set_g_Backends (SliceStable (url_before h) (g_Backends g)) g in
  match sc_configs abs !! g_Service g with
  | Some cfg => if g_static g then g
                else let g := set_g_abLocal (Some cfg) g in
                     if hasBBackend h g then set_g_abCfg (Some cfg) g else g
  | None => g
  end.

(** routes.json as read: absent or unreadable, not JSON, or its routes. *)
Inductive config_file := NoConfig | BadConfig | Routes (l : list staticRoute).
Inductive asm_error := ParseError | DockerError.

Definition assembleGroupsWithOverlay (cfg : config_file) (containers : option (list dockerContainer))
    (ov : option labelOverlay) (now : Z) (h : gmap loc Backend) (next : loc)
  : (list RouteGroup * gmap string (list loc) * gmap loc Backend * loc) + asm_error :=
  match cfg, containers with
  | BadConfig, _ => inr ParseError
  | _, None => inr DockerError
  | _, Some cs =>
      let routes := match cfg with Routes l => l | _ => [] end in
      let a := fold_left add_static routes (mkAsm ∅ ∅ h next) in
      let cs := applyLabelOverlay cs ov in
      let abs := abScan cs now in
      let a := fold_left (add_container abs) cs a in
      inl ((fun kg => finish_group abs (a_bySvc a) (a_heap a) (snd kg)) <$> range_list (a_groups a),
           a_bySvc a, a_heap a, a_next a)
  end.
End assemble.

(** * Lemmas *)

(** ** The merge of one replica, field by field *)

Definition ttl_with (c : dockerContainer) (ttl : Z) : Z :=
  let v := label c "proxy.cache" in
  if decide (v = "") then ttl else match ParseCacheTTL v with Some d => Z.max ttl d | None => ttl end.
Definition users_with (c : dockerContainer) (us : list string) : list string :=
  if decide (us = []) then normalizeAuthUsers (Split (label c "proxy.auth.users") ",") else us.
Definition rpm_with (c : dockerContainer) (rpm : Z) : Z := if decide (rpm = 0) then default 0 (label_rpm c) else rpm.
Definition mode_with (c : dockerContainer) (m : string) : string :=
  if decide (label c "proxy.auth.mode" = "oauth") then "oauth" else m.

Lemma merge_auth_eq c g : merge_auth c g = set_g_AuthRequired (flag c "proxy.auth" || g_AuthRequired g) g.
Proof. unfold merge_auth. destruct g. by destruct (flag _ _). Qed.
Lemma merge_mode_eq c g : merge_mode c g = set_g_AuthMode (mode_with c (g_AuthMode g)) g.
Proof. unfold merge_mode, mode_with. destruct g. by case_decide. Qed.
Lemma merge_users_eq c g : merge_users c g = set_g_AuthUsers (users_with c (g_AuthUsers g)) g.
Proof. unfold merge_users, users_with. destruct g. by case_decide. Qed.
Lemma merge_limit_eq c g : merge_limit c g = set_g_RateLimit (flag c "proxy.ratelimit" || g_RateLimit g) g.
Proof. unfold merge_limit. destruct g. by destruct (flag _ _). Qed.
Lemma merge_spread_eq c g : merge_spread c g =
  set_g_Spread (flag c "proxy.spread" || g_Spread g) (set_g_SpreadLocal (flag c "proxy.spread" || g_SpreadLocal g) g).
Proof. unfold merge_spread. destruct g. by destruct (flag _ _). Qed.
Lemma merge_sticky_eq c g : merge_sticky c g = set_g_Sticky (flag c "proxy.sticky" || g_Sticky g) g.
Proof. unfold merge_sticky. destruct g. by destruct (flag _ _). Qed.
Lemma merge_cache_eq c g : merge_cache c g = set_g_CacheTTL (ttl_with c (g_CacheTTL g)) g.
Proof.
  unfold merge_cache, ttl_with. destruct g. case_decide; [done|]. destruct (ParseCacheTTL _); [|done].
  case_decide; cbn in *; [by rewrite Z.max_r by lia|by rewrite Z.max_l by lia].
Qed.
Lemma merge_rpm_eq c g : merge_rpm c g = set_g_RateRPM (rpm_with c (g_RateRPM g)) g.
Proof. unfold merge_rpm, rpm_with. destruct g. case_decide; [|done]. cbn in *. subst. by destruct (label_rpm c). Qed.

Lemma merge_labels_eq c g :
  merge_labels c g =
  mkRouteGroup (g_Host g) (g_PathPrefix g) (g_StripPrefix g) (g_Name g) (g_Service g) (g_Backends g) (g_DropHeaders g)
    (flag c "proxy.sticky" || g_Sticky g) (ttl_with c (g_CacheTTL g))
    (unionStrings (g_CachePaths g) (splitTrimmed (label c "proxy.cache.paths"))) (g_cache g)
    (flag c "proxy.auth" || g_AuthRequired g) (users_with c (g_AuthUsers g)) (mode_with c (g_AuthMode g))
    (flag c "proxy.ratelimit" || g_RateLimit g) (rpm_with c (g_RateRPM g)) (g_limiter g)
    (flag c "proxy.spread" || g_Spread g) (flag c "proxy.spread" || g_SpreadLocal g) (g_cursor g) (g_panicLogAt g)
    (g_static g) (g_abCfg g) (g_ab g) (g_abLocal g).
Proof.
  unfold merge_labels. rewrite merge_rpm_eq, merge_cache_eq, merge_sticky_eq, merge_spread_eq, merge_limit_eq,
    merge_users_eq, merge_mode_eq, merge_auth_eq. by destruct g.
Qed.

Lemma merge_labels_Backends c bs g : set_g_Backends bs (merge_labels c g) = merge_labels c (set_g_Backends bs g).
Proof. by rewrite !merge_labels_eq. Qed.

(** ** What a list of replicas makes of a group *)

(** The configuration of a key's group after its replicas, none for no replica. *)
Definition merged (cs : list dockerContainer) : option RouteGroup :=
  fold_left (fun o c => Some (merge_labels c (default (label_group c (label c "proxy.host")) o))) cs None.

Lemma merged_snoc cs c :
  merged (cs ++ [c]) = Some (merge_labels c (default (label_group c (label c "proxy.host")) (merged cs))).
Proof. unfold merged. by rewrite fold_left_app. Qed.

(** A boolean any replica turns on. *)
Lemma merged_any (P : RouteGroup -> bool) (key : string) cs :
  (forall c g, P (merge_labels c g) = flag c key || P g) ->
  (forall c h, P (label_group c h) = false) ->
  default false (P <$> merged cs) = existsb (fun c => flag c key) cs.
Proof.
  intros Hm Hi. induction cs as [|c cs IH] using rev_ind; [done|].
  rewrite merged_snoc, existsb_app. cbn. rewrite Hm, orb_false_r, orb_comm, <- IH. f_equal. clear IH.
  destruct (merged cs); [done|apply Hi].
Qed.

(** A field no replica changes is the first's. *)
Lemma merged_first {A} (P : RouteGroup -> A) c cs :
  (forall c g, P (merge_labels c g) = P g) ->
  P <$> merged (c :: cs) = Some (P (label_group c (label c "proxy.host"))).
Proof.
  intros Hm. induction cs as [|d cs IH] using rev_ind.
  - cbn. by rewrite Hm.
  - rewrite app_comm_cons, merged_snoc. cbn [fmap option_fmap option_map]. rewrite Hm.
    destruct (merged (c :: cs)) as [g|]; [|done]. cbn in *. done.
Qed.

(** The oauth mode is any replica's, the users and the rpm are the first
    replica's that gives one, the cache lifetime is the longest. *)
Definition any_mode (cs : list dockerContainer) : string :=
  if existsb (fun c => bool_decide (label c "proxy.auth.mode" = "oauth")) cs then "oauth" else "".
Definition label_users (c : dockerContainer) : list string := normalizeAuthUsers (Split (label c "proxy.auth.users") ",").
Definition first_users (cs : list dockerContainer) : list string :=
  default [] (head (filter (fun us => us <> []) (label_users <$> cs))).
Definition first_rpm (cs : list dockerContainer) : Z := default 0 (head (omap label_rpm cs)).
Definition label_ttl (c : dockerContainer) : option Z :=
  if decide (label c "proxy.cache" = "") then None else ParseCacheTTL (label c "proxy.cache").
Definition longest_ttl (cs : list dockerContainer) : Z := foldr Z.max 0 (omap label_ttl cs).

Lemma head_snoc {A} (l : list A) x : head (l ++ [x])%list = Some (default x (head l)).
Proof. by destruct l. Qed.

Lemma merged_mode cs : default "" (g_AuthMode <$> merged cs) = any_mode cs.
Proof.
  unfold any_mode. induction cs as [|c cs IH] using rev_ind; [done|]. rewrite merged_snoc, existsb_app. cbn.
  rewrite merge_labels_eq. cbn. unfold mode_with. rewrite orb_false_r. case_decide as Hc.
  - by rewrite (bool_decide_eq_true_2 _ Hc), orb_true_r.
  - rewrite (bool_decide_eq_false_2 _ Hc), orb_false_r, <- IH. by destruct (merged cs).
Qed.

Lemma merged_users cs : default [] (g_AuthUsers <$> merged cs) = first_users cs.
Proof.
  unfold first_users. induction cs as [|c cs IH] using rev_ind; [done|].
  rewrite merged_snoc, fmap_app, filter_app. cbn [fmap option_fmap option_map default from_option id list_fmap].
  rewrite merge_labels_eq. cbn [g_AuthUsers]. unfold users_with.
  assert (g_AuthUsers (default (label_group c (label c "proxy.host")) (merged cs)) = default [] (g_AuthUsers <$> merged cs)) as ->
    by by destruct (merged cs).
  rewrite IH. fold (label_users c). rewrite filter_cons, filter_nil.
  assert (Forall (fun us => us <> []) (filter (fun us => us <> []) (label_users <$> cs))) as Hf
    by (apply Forall_forall; by intros us [? _]%list_elem_of_filter).
  destruct (filter _ (label_users <$> cs)) as [|us l]; cbn; [destruct (label_users c) eqn:Hu; by case_decide|].
  apply Forall_inv in Hf. by destruct us.
Qed.

Lemma label_rpm_pos c rpm : label_rpm c = Some rpm -> 0 < rpm.
Proof. unfold label_rpm. case_decide; [done|]. destruct (Atoi _); cbn; [|done]. case_decide; [done|]. intros [= ->]. lia. Qed.

Lemma merged_rpm cs : default 0 (g_RateRPM <$> merged cs) = first_rpm cs.
Proof.
  unfold first_rpm. induction cs as [|c cs IH] using rev_ind; [done|].
  rewrite merged_snoc, omap_app. cbn [fmap option_fmap option_map default from_option id].
  rewrite merge_labels_eq. cbn [g_RateRPM]. unfold rpm_with.
  assert (g_RateRPM (default (label_group c (label c "proxy.host")) (merged cs)) = default 0 (g_RateRPM <$> merged cs)) as ->
    by by destruct (merged cs).
  rewrite IH. destruct (omap label_rpm cs) as [|rpm l] eqn:Ho; cbn.
  - by destruct (label_rpm c).
  - assert (rpm ∈ omap label_rpm cs) as (d & _ & Hd)%list_elem_of_omap by (rewrite Ho; left).
    apply label_rpm_pos in Hd. by rewrite decide_False by lia.
Qed.

Lemma merged_ttl cs : default 0 (g_CacheTTL <$> merged cs) = longest_ttl cs.
Proof.
  unfold longest_ttl. induction cs as [|c cs IH] using rev_ind; [done|].
  rewrite merged_snoc, omap_app, foldr_app. cbn [fmap option_fmap option_map default from_option id].
  rewrite merge_labels_eq. cbn [g_CacheTTL].
  assert (g_CacheTTL (default (label_group c (label c "proxy.host")) (merged cs)) = default 0 (g_CacheTTL <$> merged cs)) as ->
    by by destruct (merged cs).
  rewrite IH. cbn [omap list_omap].
  assert (forall l z, 0 <= z -> foldr Z.max z l = Z.max (foldr Z.max 0 l) z) as Hfold.
  { induction l as [|x l IHl]; intros z Hz; cbn; [lia|]. rewrite IHl by done. lia. }
  assert (forall l, 0 <= foldr Z.max 0 l) as Hpos by (induction l; cbn; lia).
  unfold ttl_with. generalize (omap label_ttl cs). intros l. unfold label_ttl. cbn zeta. case_decide; [done|].
  destruct (ParseCacheTTL _) as [d|]; [|done]. cbn [foldr]. rewrite (Hfold _ (Z.max d 0)) by lia.
  specialize (Hpos l). lia.
Qed.

(** ** Backends on the heap *)

Definition holds (h : gmap loc Backend) (ls : list loc) (bs : list Backend) : Prop :=
  Forall2 (fun l b => h !! l = Some b) ls bs.

Lemma holds_mono h h' ls bs : h ⊆ h' -> holds h ls bs -> holds h' ls bs.
Proof. intros Hs Hh. eapply Forall2_impl; [exact Hh|]. intros l b Hl. exact (lookup_weaken _ _ _ _ Hl Hs). Qed.

Lemma holds_sort h ls bs :
  holds h ls bs ->
  holds h (SliceStable (url_before h) ls) (SliceStable (fun b b' => (b_URL b <? b_URL b')%string) bs).
Proof.
  induction 1 as [|l b ls bs Hl Hls IH]; [constructor|].
  change (holds h (insert_stable (url_before h) l (SliceStable (url_before h) ls))
    (insert_stable (fun b b' => (b_URL b <? b_URL b')%string) b (SliceStable (fun b b' => (b_URL b <? b_URL b')%string) bs))).
  induction IH as [|l' b' ls' bs' Hl' Hls' IH]; cbn [insert_stable]; [by repeat constructor|].
  unfold url_before at 1. rewrite Hl, Hl'. destruct (_ <? _)%string; [by constructor|by repeat constructor].
Qed.

(** A group's cell in groupsByKey: its configuration, and the values of its backends. *)
Definition cell (h : gmap loc Backend) (o conf : option RouteGroup) (bs : list Backend) : Prop :=
  match o, conf with
  | Some g, Some g0 => set_g_Backends [] g = g0 /\ holds h (g_Backends g) bs
  | None, None => bs = []
  | _, _ => False
  end.

Lemma cell_mono h h' o conf bs : h ⊆ h' -> cell h o conf bs -> cell h' o conf bs.
Proof. intros Hs. destruct o, conf; cbn; try done. intros [? ?]. split; [done|by eapply holds_mono]. Qed.

Lemma cell_append h h' o conf bs ls bs' (merge : RouteGroup -> RouteGroup) init :
  cell h o conf bs -> h ⊆ h' -> holds h' ls bs' -> g_Backends init = [] ->
  (forall b g, set_g_Backends b (merge g) = merge (set_g_Backends b g)) ->
  (forall g, g_Backends (merge g) = g_Backends g) ->
  cell h' (Some (append_backends ls (merge (default init o)))) (Some (merge (default init conf))) (bs ++ bs')%list.
Proof.
  intros Hc Hs Hls Hi Hm1 Hm2. unfold append_backends. destruct o as [g|], conf as [g0|]; cbn [cell default from_option id] in *; try done.
  - destruct Hc as [<- Hb]. split; [by rewrite <- Hm1|]. cbn. rewrite Hm2.
    apply Forall2_app; [by eapply holds_mono|done].
  - subst bs. split; [|by cbn; rewrite Hm2, Hi].
    change (set_g_Backends [] (merge init) = merge init). rewrite Hm1. f_equal. by destruct init; cbn in *; subst.
Qed.

Lemma new_backends_spec bs a ls a' :
  new_backends bs a = (ls, a') -> heap_fresh (a_heap a) (a_next a) ->
  heap_fresh (a_heap a') (a_next a') /\ a_heap a ⊆ a_heap a' /\ holds (a_heap a') ls bs /\
  a_groups a' = a_groups a /\ a_bySvc a' = a_bySvc a.
Proof.
  unfold new_backends. destruct (alloc_all bs _ _) as [[l h] n] eqn:Ha. intros [= <- <-] Hf.
  destruct (alloc_all_spec _ _ _ _ _ _ Ha Hf) as (? & ? & ?). by split_and!.
Qed.

(** ** The loop over routes.json *)

Definition static_key (sr : staticRoute) : string := routeKey (sr_Host sr) (sr_Path sr).
(** The entries of a key; the first configures the group, all add backends. *)
Definition entries (k : string) (rs : list staticRoute) : list staticRoute := filter (fun sr => static_key sr = k) rs.

Section loops.
Context `{MapRange} `{FloatText} (parses : string -> bool).

Record static_inv (h0 : gmap loc Backend) (rs : list staticRoute) (a : asm) : Prop := {
  si_fresh : heap_fresh (a_heap a) (a_next a);
  si_heap : h0 ⊆ a_heap a;
  si_bySvc : a_bySvc a = ∅;
  si_cell k : cell (a_heap a) (a_groups a !! k) (static_group <$> head (entries k rs))
                (flat_map (static_backends parses) (entries k rs));
}.

Lemma static_inv_step h0 rs a sr : static_inv h0 rs a -> static_inv h0 (rs ++ [sr]) (add_static parses a sr).
Proof.
  intros [Hf Hh Hsvc Hc]. unfold add_static. destruct (new_backends _ a) as [ls a1] eqn:Hn.
  destruct (new_backends_spec _ _ _ _ Hn Hf) as (Hf1 & Hh1 & Hls & Hg1 & Hs1).
  split; cbn [set_groups a_heap a_next a_groups a_bySvc]; [done|by etrans|by rewrite Hs1|]. intros k. rewrite Hg1.
  unfold entries. rewrite filter_app, flat_map_app. fold (entries k rs). destruct (decide (static_key sr = k)) as [<-|Hne].
  - rewrite filter_cons_True, filter_nil by done. unfold static_key at 1. rewrite lookup_insert_eq.
    cbn [flat_map]. rewrite app_nil_r.
    pose proof (cell_append _ _ _ _ _ ls _ (fun g => g) (static_group sr) (Hc (static_key sr)) Hh1 Hls eq_refl
      (fun _ _ => eq_refl) (fun _ => eq_refl)) as Hcell. cbn beta in Hcell.
    replace (static_group <$> head (entries (static_key sr) rs ++ [sr])) with
      (Some (default (static_group sr) (static_group <$> head (entries (static_key sr) rs)))); [done|].
    by destruct (entries (static_key sr) rs).
  - rewrite filter_cons_False, filter_nil, app_nil_r by done. cbn [flat_map]. rewrite app_nil_r.
    rewrite lookup_insert_ne by done. by eapply cell_mono.
Qed.

Lemma static_inv_all h0 n rs :
  heap_fresh h0 n -> static_inv h0 rs (fold_left (add_static parses) rs (mkAsm ∅ ∅ h0 n)).
Proof.
  intros Hf. induction rs as [|sr rs IH] using rev_ind.
  - by split.
  - rewrite fold_left_app. by apply static_inv_step.
Qed.

(** ** The loop over the containers *)

Context (abs : abScanResult).

(** The replicas of a key, and the backend of one. *)
Definition members (k : string) (cs : list dockerContainer) : list dockerContainer :=
  filter (fun c => is_Some (endpoint c) /\ container_key c = k) cs.
Definition own_backend (c : dockerContainer) : option Backend :=
  '(_, port) ← endpoint c; container_backend abs c port.
Definition fed_backend (svc : string) (c : dockerContainer) : option Backend :=
  if decide (feeds c = Some svc) then own_backend c else None.

Record loop_inv (a0 : asm) (cs : list dockerContainer) (a : asm) : Prop := {
  li_fresh : heap_fresh (a_heap a) (a_next a);
  li_heap : a_heap a0 ⊆ a_heap a;
  li_bySvc svc : holds (a_heap a) (default [] (a_bySvc a !! svc)) (omap (fed_backend svc) cs);
  li_static k g : a_groups a0 !! k = Some g -> a_groups a !! k = Some g;
  li_cell k : a_groups a0 !! k = None ->
    cell (a_heap a) (a_groups a !! k) (merged (members k cs)) (omap own_backend (members k cs));
}.

Lemma endpoint_host c host port : endpoint c = Some (host, port) -> host = label c "proxy.host".
Proof. unfold endpoint. case_decide; [done|]. destruct (Atoi _); cbn; [|done]. by intros [= <- _]. Qed.

Lemma members_snoc k cs c :
  members k (cs ++ [c]) =
  (members k cs ++ if decide (is_Some (endpoint c) /\ container_key c = k) then [c] else [])%list.
Proof. unfold members. rewrite filter_app. cbn. by case_decide. Qed.

Lemma merged_static cs g : merged cs = Some g -> g_static g = false.
Proof.
  destruct cs as [|c cs]; [done|]. intros Hm. pose proof (merged_first g_static c cs ltac:(intros; by rewrite merge_labels_eq)) as Hs.
  rewrite Hm in Hs. by injection Hs.
Qed.

Lemma cell_static h o conf bs g : cell h o conf bs -> o = Some g -> exists g0, conf = Some g0 /\ g_static g = g_static g0.
Proof. intros Hc ->. destruct conf as [g0|]; [|done]. exists g0. destruct Hc as [<- _]. done. Qed.

Lemma option_list_holds (o : option Backend) : option_list o = match o with Some b => [b] | None => [] end.
Proof. by destruct o. Qed.

Lemma bySvc_step h h' (m : gmap string (list loc)) svc c (cs : list dockerContainer) ls :
  holds h (default [] (m !! svc)) (omap (fed_backend svc) cs) -> h ⊆ h' -> holds h' ls (option_list (own_backend c)) ->
  holds h' (default [] (match feeds c, ls with
                        | Some s, _ :: _ => <[s := (default [] (m !! s) ++ ls)%list]> m
                        | _, _ => m
                        end !! svc)) (omap (fed_backend svc) (cs ++ [c])%list).
Proof.
  intros Hc Hs Hls. rewrite omap_app. apply (holds_mono _ _ _ _ Hs) in Hc. cbn [omap list_omap].
  assert (forall o : option Backend, match o with Some y => [y] | None => [] end = option_list o) as Hol by (by intros []).
  rewrite Hol. unfold fed_backend at 2. destruct (feeds c) as [s|] eqn:Hf.
  - destruct ls as [|l ls].
    + apply Forall2_nil_inv_l in Hls. destruct (own_backend c); [done|]. by case_decide; cbn; rewrite app_nil_r.
    + destruct (decide (s = svc)) as [->|Hne].
      * rewrite lookup_insert_eq, decide_True by done. by apply Forall2_app.
      * rewrite lookup_insert_ne by done. rewrite decide_False by congruence. cbn. by rewrite app_nil_r.
  - rewrite decide_False by done. cbn. by rewrite app_nil_r.
Qed.

Lemma loop_inv_step a0 cs a c :
  (forall k g, a_groups a0 !! k = Some g -> g_static g = true) ->
  loop_inv a0 cs a -> loop_inv a0 (cs ++ [c]) (add_container abs a c).
Proof.
  intros Hst [Hf Hh Hsvc Hs Hc]. unfold add_container. destruct (endpoint c) as [[host port]|] eqn:He.
  2: { split; [done|done| |done|]; intros k.
       - rewrite omap_app. cbn. unfold fed_backend at 2, own_backend. rewrite He. cbn. case_decide; by rewrite app_nil_r.
       - rewrite members_snoc, decide_False by (rewrite He; by intros [[? ?] _]). rewrite app_nil_r. apply Hc. }
  destruct (new_backends _ a) as [ls a1] eqn:Hn.
  destruct (new_backends_spec _ _ _ _ Hn Hf) as (Hf1 & Hh1 & Hls & Hg1 & Hs1).
  assert (container_backend abs c port = own_backend c) as Hown by (unfold own_backend; by rewrite He).
  rewrite Hown in Hls. pose proof (endpoint_host _ _ _ He) as ->.
  set (a2 := match feeds c, ls with Some _, _ :: _ => _ | _, _ => a1 end).
  assert (a_heap a2 = a_heap a1 /\ a_next a2 = a_next a1 /\ a_groups a2 = a_groups a1 /\
    forall svc, holds (a_heap a1) (default [] (a_bySvc a2 !! svc)) (omap (fed_backend svc) (cs ++ [c])%list)) as (E1 & E2 & E3 & Hsvc2).
  { split_and!; try (unfold a2; destruct (feeds c), ls; done). intros svc.
    pose proof (bySvc_step _ _ _ svc c cs ls (Hsvc svc) Hh1 Hls) as Hb. rewrite <- Hs1 in Hb.
    unfold a2. destruct (feeds c), ls; exact Hb. }
  clearbody a2. change (routeKey (label c "proxy.host") (label c "proxy.path")) with (container_key c).
  rewrite E3, Hg1. destruct (g_static (default _ _)) eqn:Hgs.
  - (* the key belongs to routes.json *)
    destruct (a_groups a !! container_key c) as [g|] eqn:Hg; [|done]. cbn in Hgs.
    split; rewrite ?E1, ?E2, ?E3, ?Hg1; [done|by etrans|done|done|]. intros k Hk. rewrite members_snoc.
    destruct (decide (_ /\ _)) as [[_ <-]|]; [exfalso|rewrite app_nil_r; by eapply cell_mono; [|apply Hc]].
    destruct (cell_static _ _ _ _ _ (Hc _ Hk) Hg) as (g0 & Hm & Heq). apply merged_static in Hm. congruence.
  - split; cbn [set_groups a_heap a_next a_groups a_bySvc]; rewrite ?E1, ?E2; [done|by etrans|done| |].
    + intros k g Hk. specialize (Hs _ _ Hk). rewrite lookup_insert_ne; [done|]. intros <-. rewrite Hs in Hgs. cbn in Hgs.
      by rewrite (Hst _ _ Hk) in Hgs.
    + intros k Hk. rewrite members_snoc. destruct (decide (container_key c = k)) as [<-|Hne].
      * rewrite decide_True by (split; [by rewrite He|done]). rewrite lookup_insert_eq, merged_snoc, omap_app. cbn [omap list_omap].
        rewrite <- (option_list_holds (own_backend c)).
        apply (cell_append _ _ _ _ _ ls _ (merge_labels c) (label_group c (label c "proxy.host")) (Hc _ Hk) Hh1 Hls eq_refl).
        -- apply merge_labels_Backends.
        -- intros g. by rewrite merge_labels_eq.
      * rewrite decide_False by naive_solver. rewrite app_nil_r, lookup_insert_ne by done. by eapply cell_mono; [|apply Hc].
Qed.

Lemma loop_inv_all a0 cs :
  heap_fresh (a_heap a0) (a_next a0) -> a_bySvc a0 = ∅ ->
  (forall k g, a_groups a0 !! k = Some g -> g_static g = true) ->
  loop_inv a0 cs (fold_left (add_container abs) cs a0).
Proof.
  intros Hf Hb Hst. induction cs as [|c cs IH] using rev_ind.
  - split; [done|done| |done|]; cbn; [intros svc; rewrite Hb; constructor|]. intros k ->. done.
  - rewrite fold_left_app. by apply loop_inv_step.
Qed.
End loops.

(** ** The final pass *)

Lemma filter_key_unique {A B} (key : B -> string) (f : string * A -> B) (l : list (string * A)) k x :
  NoDup l.*1 -> (k, x) ∈ l -> (forall kx, kx ∈ l -> key (f kx) = fst kx) ->
  filter (fun y => key y = k) (f <$> l) = [f (k, x)].
Proof.
  induction l as [|[k' x'] l IH]; [intros _ Hin; by inversion Hin|]. rewrite !fmap_cons. cbn [fst].
  intros [Hk' Hnd]%NoDup_cons Hin Hkey. rewrite filter_cons. rewrite (Hkey (k', x')) by left. cbn [fst].
  assert (forall kx, kx ∈ l -> key (f kx) = kx.1) as Hkeyl by (intros; apply Hkey; by right).
  apply elem_of_cons in Hin as [[= <- <-]|Hin].
  - rewrite decide_True by done. f_equal. clear IH. induction l as [|[j y] l IHl]; [done|]. rewrite fmap_cons, filter_cons.
    apply not_elem_of_cons in Hk' as [Hne Hk']. rewrite (Hkeyl (j, y)) by left. cbn [fst] in *. rewrite decide_False by done.
    apply IHl; [done|by apply NoDup_cons in Hnd as [_ ?]| |]; intros; [apply Hkey|apply Hkeyl]; set_solver.
  - rewrite decide_False; [by apply IH|]. intros ->. apply Hk'. rewrite list_elem_of_fmap. by exists (k, x).
Qed.

Definition by_url (b b' : Backend) : bool := (b_URL b <? b_URL b')%string.

Section final.
Context `{MapRange} `{FloatText} (parses : string -> bool).

Definition routes_of (cfg : config_file) : list staticRoute := match cfg with Routes l => l | _ => [] end.
(** The rpm a limiter runs at. *)
Definition floor_rpm (limited : bool) (rpm : Z) : Z :=
  if limited && bool_decide (rpm <= 0) then RateLimiter.defaultRateRPM else rpm.

Lemma finish_group_fields abs bySvc h g :
  let g' := finish_group abs bySvc h g in
  g_Host g' = g_Host g /\ g_PathPrefix g' = g_PathPrefix g /\ g_static g' = g_static g /\
  g_AuthRequired g' = g_AuthRequired g /\ g_AuthUsers g' = g_AuthUsers g /\ g_AuthMode g' = g_AuthMode g /\
  g_DropHeaders g' = g_DropHeaders g /\ g_RateLimit g' = g_RateLimit g /\
  g_RateRPM g' = floor_rpm (g_RateLimit g) (g_RateRPM g) /\
  g_Spread g' = g_Spread g /\ g_Sticky g' = g_Sticky g /\ g_CacheTTL g' = g_CacheTTL g /\
  g_Backends g' = SliceStable (url_before h)
    (g_Backends g ++ if g_static g && negb (bool_decide (g_Service g = "")) then default [] (bySvc !! g_Service g) else [])%list.
Proof.
  unfold finish_group, floor_rpm. destruct g; cbn -[hasBBackend SliceStable].
  destruct (g_static && _); cbn -[hasBBackend SliceStable]; rewrite ?app_nil_r;
  destruct (g_RateLimit && _); cbn -[hasBBackend SliceStable];
  (destruct (_ !! g_Service); [destruct g_static; [|destruct (hasBBackend _ _)]|]); done.
Qed.

Lemma finish_group_key abs bySvc h g : group_key (finish_group abs bySvc h g) = group_key g.
Proof. unfold group_key. by destruct (finish_group_fields abs bySvc h g) as (-> & -> & _). Qed.

(** The state after both loops. *)
Definition loaded (cfg : config_file) (cs : list dockerContainer) (ov : option labelOverlay) (now : Z)
    (h : gmap loc Backend) (next : loc) : asm :=
  let cs := applyLabelOverlay cs ov in
  fold_left (add_container (abScan cs now)) cs (fold_left (add_static parses) (routes_of cfg) (mkAsm ∅ ∅ h next)).

Lemma loaded_inv cfg cs ov now h next :
  heap_fresh h next ->
  let cs' := applyLabelOverlay cs ov in
  exists a0, static_inv parses h (routes_of cfg) a0 /\ loop_inv (abScan cs' now) a0 cs' (loaded cfg cs ov now h next).
Proof.
  intros Hf cs'. pose proof (static_inv_all parses h next (routes_of cfg) Hf) as Hi. eexists. split; [exact Hi|].
  destruct Hi as [Hf' Hh Hb Hc]. apply loop_inv_all; [done|done|]. intros k g Hg.
  destruct (cell_static _ _ _ _ _ (Hc k) Hg) as (g0 & Hg0 & ->). destruct (head _); [|done]. by injection Hg0 as <-.
Qed.

Lemma merged_Some c cs : is_Some (merged (c :: cs)).
Proof.
  pose proof (merged_first g_static c cs ltac:(intros; by rewrite merge_labels_eq)) as Hm.
  destruct (merged (c :: cs)); [by eexists|done].
Qed.

Lemma merged_key c cs g : merged (c :: cs) = Some g -> group_key g = container_key c.
Proof.
  intros Hm. pose proof (merged_first group_key c cs ltac:(intros; by rewrite merge_labels_eq)) as Hk.
  rewrite Hm in Hk. by injection Hk.
Qed.

Lemma cell_key h o conf bs g : cell h o conf bs -> o = Some g -> exists g0, conf = Some g0 /\ group_key g = group_key g0.
Proof. intros Hc ->. destruct conf as [g0|]; [|done]. exists g0. by destruct Hc as [<- _]. Qed.

Lemma loaded_key cfg cs ov now h next k g :
  heap_fresh h next -> a_groups (loaded cfg cs ov now h next) !! k = Some g -> group_key g = k.
Proof.
  intros Hf Hg. destruct (loaded_inv cfg cs ov now h next Hf) as (a0 & Hi & Hl).
  destruct (a_groups a0 !! k) as [g1|] eqn:Hg1.
  - rewrite (li_static _ _ _ _ Hl _ _ Hg1) in Hg. injection Hg as <-.
    destruct (cell_key _ _ _ _ _ (si_cell _ _ _ _ Hi k) Hg1) as (g0 & Hg0 & ->).
    unfold entries in Hg0. destruct (filter _ _) as [|sr l] eqn:Hfl; [done|]. injection Hg0 as <-.
    assert (sr ∈ filter (fun sr => static_key sr = k) (routes_of cfg)) as Hin by (rewrite Hfl; left).
    by apply list_elem_of_filter in Hin as [<- _].
  - destruct (cell_key _ _ _ _ _ (li_cell _ _ _ _ Hl k Hg1) Hg) as (g0 & Hg0 & ->).
    destruct (members k _) as [|c l] eqn:Hms; [done|]. rewrite (merged_key _ _ _ Hg0).
    assert (c ∈ members k (applyLabelOverlay cs ov)) as Hin by (rewrite Hms; left).
    by apply list_elem_of_filter in Hin as [[_ <-] _].
Qed.

Lemma assemble_inl cfg cs ov now h next gs bySvc h' n' :
  assembleGroupsWithOverlay parses cfg (Some cs) ov now h next = inl (gs, bySvc, h', n') ->
  let a := loaded cfg cs ov now h next in
  let abs := abScan (applyLabelOverlay cs ov) now in
  bySvc = a_bySvc a /\ h' = a_heap a /\ gs = (fun kg => finish_group abs bySvc h' (snd kg)) <$> range_list (a_groups a).
Proof. unfold assembleGroupsWithOverlay, loaded. destruct cfg; [|done|]; by intros [= <- <- <- <-]. Qed.

(** The one group of a key in the table. *)
Lemma assemble_group cfg cs ov now h next gs bySvc h' n' k g :
  heap_fresh h next ->
  assembleGroupsWithOverlay parses cfg (Some cs) ov now h next = inl (gs, bySvc, h', n') ->
  a_groups (loaded cfg cs ov now h next) !! k = Some g ->
  filter (fun g => group_key g = k) gs = [finish_group (abScan (applyLabelOverlay cs ov) now) bySvc h' g].
Proof.
  intros Hf Ha Hg. apply assemble_inl in Ha as (-> & -> & ->).
  rewrite (filter_key_unique group_key (fun kg => finish_group _ _ _ (snd kg)) _ k g); [done|apply range_NoDup|by apply elem_of_range|].
  intros [k' g'] Hin%elem_of_range. cbn [snd fst]. rewrite finish_group_key. by eapply loaded_key.
Qed.
End final.

(** * Properties *)

Section properties.
Context `{MapRange} `{FloatText} (parses : string -> bool).

(** *** The backend of a replica, in its own words *)

(** The containers of a route: those with a host label and a port that parses,
    on the route's host and path. *)
Definition replicas (k : string) (cs : list dockerContainer) : list dockerContainer :=
  filter (fun c => label c "proxy.host" <> "" /\ is_Some (Atoi (label c "proxy.port")) /\
                   routeKey (label c "proxy.host") (label c "proxy.path") = k) cs.

(** It can serve: it runs, has an address on some network, and the A/B scan does
    not leave it out. *)
Definition serves (abs : abScanResult) (c : dockerContainer) : Prop :=
  c_State c = "running" /\ map_Exists (fun _ ip => ip <> "") (c_Networks c) /\ c_name c ∉ sc_excluded abs.
#[local] Instance serves_dec abs c : Decision (serves abs c) := _.

(** Its address: the one on the edge network if it has one there, else one on
    any network. *)
Definition address (c : dockerContainer) (ip : string) : Prop :=
  ip <> "" /\ (exists n, c_Networks c !! n = Some ip) /\
  forall e, c_Networks c !! "edge" = Some e -> e <> "" -> ip = e.

Definition backs (abs : abScanResult) (c : dockerContainer) (b : Backend) : Prop :=
  (exists ip port, address c ip /\ Atoi (label c "proxy.port") = Some port /\ b_URL b = "http://" +:+ ip +:+ ":" +:+ FormatInt port) /\
  b_Container b = c_name c /\ b_ContainerID b = c_ID c /\ b_HealthPath b = label c "proxy.health" /\
  b_Weight b = match Atoi (label c "proxy.weight") with Some w => if decide (0 < w) then w else 1 | None => 1 end /\
  b_DockerUnhealthy b = StrContains (c_Status c) "(unhealthy)" /\
  (b_Variant b = "B" <-> c_name c ∈ sc_bNames abs) /\ b_Learned b = false /\ b_draining b = false /\ b_healthyFlag b = false.

Lemma members_replicas k cs : members k cs = replicas k cs.
Proof.
  unfold members, replicas. apply list_filter_iff. intros c. unfold endpoint, container_key. case_decide as Hd.
  - split; [by intros [[? ?] _]|]. intros (Hh & [p Hp] & _). destruct Hd as [?|Hd]; [done|]. rewrite Hd in Hp. by vm_compute in Hp.
  - apply Decidable.not_or in Hd as [Hh _]. destruct (Atoi _) as [p|]; cbn.
    + split; [intros [_ ?]; by split_and!|intros (_ & _ & ?); by split].
    + split; [by intros [[? ?] _]|by intros (_ & [? ?] & _)].
Qed.

(** The address the code finds, and that it finds one. *)
Lemma container_ip_spec c :
  (container_ip c = "" <-> ~ map_Exists (fun _ ip => ip <> "") (c_Networks c)) /\
  (container_ip c <> "" -> address c (container_ip c)).
Proof.
  set (other := default "" (find_first (fun ip => negb (bool_decide (ip = ""))) (range_list (c_Networks c)).*2)).
  assert ((other = "" <-> ~ map_Exists (fun _ ip => ip <> "") (c_Networks c)) /\
          (other <> "" -> exists n, c_Networks c !! n = Some other)) as [Ho1 Ho2].
  { subst other. destruct (find_first _ _) as [ip|] eqn:Hf; cbn [default from_option id].
    - apply find_first_elem in Hf as [([n ip'] & -> & Hin%elem_of_range)%list_elem_of_fmap Hip]. cbn [snd] in *.
      apply negb_true_iff, bool_decide_eq_false in Hip. split; [|by intros _; exists n]. split; [done|]. intros Hn. exfalso.
      apply Hn. by exists n, ip'.
    - apply find_first_None in Hf. split; [|done]. split; [|done]. intros _ (n & ip & Hn & Hip). rewrite Forall_fmap, Forall_forall in Hf.
      specialize (Hf (n, ip) ltac:(by apply elem_of_range)). cbn in Hf. by apply negb_false_iff, bool_decide_eq_true in Hf. }
  unfold container_ip, address, managedNetwork. fold other. destruct (c_Networks c !! "edge") as [e|] eqn:He; [case_decide as Hee|].
  - subst e. split; [exact Ho1|]. intros Hne. split; [exact Hne|]. split; [exact (Ho2 Hne)|]. by intros e [= <-] ?.
  - split; [|by intros _; split; [done|]; split; [by exists "edge"|intros ? [= <-]]]. split; [done|]. intros Hn. exfalso. apply Hn.
    by exists "edge", e.
  - split; [exact Ho1|]. intros Hne. split; [exact Hne|]. split; [exact (Ho2 Hne)|]. by intros e [=].
Qed.

Lemma own_backend_spec abs c :
  is_Some (Atoi (label c "proxy.port")) -> label c "proxy.host" <> "" ->
  match own_backend abs c with Some b => serves abs c /\ backs abs c b | None => ~ serves abs c end.
Proof.
  intros [port Hp] Hh. unfold own_backend, endpoint.
  rewrite decide_False by (intros [?|Hq]; [done|]; rewrite Hq in Hp; by vm_compute in Hp). rewrite Hp. cbn [mbind option_bind].
  destruct (container_ip_spec c) as [Hip Haddr]. unfold container_backend, serves. case_bool_decide as Hrun; cbn [negb]; [|tauto].
  case_decide as Hno; [tauto|]. case_decide as Hex; [tauto|]. split.
  { split_and!; [done| |done]. destruct (decide (map_Exists (fun _ ip => ip <> "") (c_Networks c))); tauto. }
  unfold backs, set_Docker, makeBackend, container_weight, dockerUnhealthy. cbn. split_and!; try done.
  - eexists _, _. split; [by apply Haddr|done].
  - destruct (Atoi (label c "proxy.weight")) as [w|]; [|done]. destruct (decide (w > 0)), (decide (0 < w)); done || lia.
  - case_decide; split; done || (intros; tauto).
Qed.

Lemma SliceStable_fmap {A B} (f : A -> B) (less : B -> B -> bool) (l : list A) :
  SliceStable less (f <$> l) = f <$> SliceStable (fun x y => less (f x) (f y)) l.
Proof.
  unfold SliceStable. induction l as [|x l IH]; [done|]. rewrite fmap_cons. cbn [foldr]. rewrite IH.
  generalize (foldr (insert_stable (fun x y => less (f x) (f y))) [] l). clear. intros l.
  induction l as [|y l IH]; [done|]. rewrite fmap_cons. cbn [insert_stable]. destruct (less (f y) (f x)); [|done].
  by rewrite fmap_cons, IH.
Qed.

Lemma by_url_sorted bs : StronglySorted (not_before by_url) (SliceStable by_url bs).
Proof.
  apply SliceStable_sorted; [intros b b'; apply ltb_asym|]. intros x y z.
  exact (not_before_trans String.ltb ltb_trans ltb_total (b_URL x) (b_URL y) (b_URL z)).
Qed.

(** The rows of a list of replicas: each that serves, with its backend. *)
Lemma replica_rows abs cs :
  Forall (fun c => label c "proxy.host" <> "" /\ is_Some (Atoi (label c "proxy.port"))) cs ->
  exists rows, omap (own_backend abs) cs = rows.*2 /\ rows.*1 = filter (serves abs) cs /\ Forall (fun cb => backs abs (fst cb) (snd cb)) rows.
Proof.
  induction 1 as [|c cs [Hh Hp] _ (rows & H1 & H2 & H3)]; [by exists []|]. pose proof (own_backend_spec abs c Hp Hh) as Ho.
  cbn [omap list_omap]. rewrite H1, filter_cons. destruct (own_backend abs c) as [b|].
  - destruct Ho as [Hs Hb]. rewrite decide_True by done. exists ((c, b) :: rows). rewrite !fmap_cons, H2.
    split; [done|]. split; [done|]. by apply Forall_cons.
  - rewrite decide_False by done. by exists rows.
Qed.

(** C24. Replicas of a route protect it together. The containers of a host and
    path that routes.json does not own make exactly one group, even when none of
    them runs. It requires login, limits the rate, spreads, or pins sessions as
    soon as one replica says so; its allowed users and its rpm are the first a
    replica gives (an enabled limiter never has a capacity below one); its cache
    lifetime is the longest. Its backends, in order of URL, are one for each
    replica that runs, has an address on some network, and is not left out by
    the A/B scan: with the address on the edge network if it has one, the port,
    weight and health path of its labels, and marked B exactly if the scan says
    so. A container counts as a replica when it has a host label and a port that
    is a number. *)
Theorem replicas_protect_their_route cfg cs ov now h next gs bySvc h' n' k :
  heap_fresh h next ->
  assembleGroupsWithOverlay parses cfg (Some cs) ov now h next = inl (gs, bySvc, h', n') ->
  entries k (routes_of cfg) = [] ->
  let abs := abScan (applyLabelOverlay cs ov) now in
  let ms := replicas k (applyLabelOverlay cs ov) in
  match ms with
  | [] => filter (fun g => group_key g = k) gs = []
  | _ => exists g, filter (fun g => group_key g = k) gs = [g] /\
      g_AuthRequired g = existsb (fun c => flag c "proxy.auth") ms /\
      g_AuthMode g = any_mode ms /\ g_AuthUsers g = first_users ms /\
      g_RateLimit g = existsb (fun c => flag c "proxy.ratelimit") ms /\
      g_RateRPM g = floor_rpm (g_RateLimit g) (first_rpm ms) /\ (g_RateLimit g = true -> 0 < g_RateRPM g) /\
      g_Spread g = existsb (fun c => flag c "proxy.spread") ms /\
      g_Sticky g = existsb (fun c => flag c "proxy.sticky") ms /\
      g_CacheTTL g = longest_ttl ms /\
      exists rows, holds h' (g_Backends g) rows.*2 /\ StronglySorted (fun b b' => b_URL b' <? b_URL b = false)%string rows.*2 /\
        rows.*1 ≡ₚ filter (serves abs) ms /\ Forall (fun cb => backs abs (fst cb) (snd cb)) rows
  end.
Proof.
  intros Hf Ha Hk abs ms. assert (Forall (fun c => label c "proxy.host" <> "" /\ is_Some (Atoi (label c "proxy.port"))) ms) as Hends.
  { apply Forall_forall. intros c [(? & ? & _) _]%list_elem_of_filter. done. }
  destruct (replica_rows abs ms Hends) as (rows & Hrows & Hfst & Hbacks). revert Hrows Hfst. unfold ms. clear Hends.
  rewrite <- members_replicas. clear ms. set (ms := members k _). intros Hrows Hfst. destruct (loaded_inv parses cfg cs ov now h next Hf) as (a0 & Hi & Hl).
  assert (a_groups a0 !! k = None) as Hk0.
  { pose proof (si_cell _ _ _ _ Hi k) as Hc. rewrite Hk in Hc. by destruct (a_groups a0 !! k). }
  pose proof (li_cell _ _ _ _ Hl k Hk0) as Hc. fold ms abs in Hc.
  destruct ms as [|c l] eqn:Hms.
  - clear rows Hbacks Hrows Hfst. destruct (a_groups (loaded _ _ _ _ _ _ _) !! k) as [g|] eqn:Hg; [done|]. apply assemble_inl in Ha as (-> & -> & ->).
    destruct (filter _ _) as [|g gs] eqn:Hfl; [done|]. exfalso.
    assert (g ∈ g :: gs) as Hin by left. rewrite <- Hfl in Hin.
    apply list_elem_of_filter in Hin as [Hgk ([k' g'] & -> & Hin%elem_of_range)%list_elem_of_fmap].
    cbn [snd] in Hgk. rewrite finish_group_key, (loaded_key _ _ _ _ _ _ _ _ _ Hf Hin) in Hgk. congruence.
  - destruct (merged_Some c l) as [g0 Hm]. rewrite Hm in Hc.
    destruct (a_groups (loaded _ _ _ _ _ _ _) !! k) as [g|] eqn:Hg; [|done]. destruct Hc as [Hg0 Hb].
    exists (finish_group abs bySvc h' g). split; [by eapply assemble_group|].
    destruct (finish_group_fields abs bySvc h' g) as (_ & _ & _ & -> & -> & -> & _ & -> & -> & -> & -> & -> & ->).
    assert (forall A (P : RouteGroup -> A) d, (forall b g, P (set_g_Backends b g) = P g) ->
      P g = default d (P <$> merged (c :: l))) as Hfield by (intros A P d HP; rewrite Hm; cbn; by rewrite <- Hg0, HP).
    assert (g_static g = false) as Hst by (apply merged_static in Hm; by rewrite <- Hg0 in Hm).
    rewrite Hst. cbn [andb]. rewrite app_nil_r.
    rewrite (Hfield _ g_AuthRequired false), (Hfield _ g_AuthMode ""), (Hfield _ g_AuthUsers []), (Hfield _ g_RateLimit false),
      (Hfield _ g_RateRPM 0), (Hfield _ g_Spread false), (Hfield _ g_Sticky false), (Hfield _ g_CacheTTL 0) by done.
    rewrite merged_mode, merged_users, merged_rpm, merged_ttl.
    rewrite (merged_any g_AuthRequired "proxy.auth"), (merged_any g_RateLimit "proxy.ratelimit"),
      (merged_any g_Spread "proxy.spread"), (merged_any g_Sticky "proxy.sticky") by (intros; by rewrite ?merge_labels_eq).
    apply assemble_inl in Ha as (_ & -> & _). split_and!; try done.
    + intros Hlim. rewrite Hlim. unfold floor_rpm. cbn. case_bool_decide; [done|lia].
    + set (less := fun x y : dockerContainer * Backend => by_url (snd x) (snd y)).
      exists (SliceStable less rows). assert ((SliceStable less rows).*2 = SliceStable by_url rows.*2) as Hsort by (by rewrite SliceStable_fmap).
      rewrite Hsort, <- Hrows. split_and!; [by apply holds_sort|apply by_url_sorted|by rewrite SliceStable_perm, Hfst|].
      apply Forall_forall. intros x Hx%elem_of_SliceStable. rewrite Forall_forall in Hbacks. by apply Hbacks.
Qed.

(** routes.json owns its keys. A route it lists makes exactly one group,
    whose protection, limit and headers are those of its first entry whatever
    the labels of containers with the same host and path say; its backends are
    the URLs of its entries that parse and, when it names a service, the
    running, addressed, non-canary replicas of that service. *)
Theorem routes_json_owns_its_key cfg cs ov now h next gs bySvc h' n' k sr rest :
  heap_fresh h next ->
  assembleGroupsWithOverlay parses cfg (Some cs) ov now h next = inl (gs, bySvc, h', n') ->
  entries k (routes_of cfg) = sr :: rest ->
  let abs := abScan (applyLabelOverlay cs ov) now in
  exists g, filter (fun g => group_key g = k) gs = [g] /\
    g_AuthRequired g = sr_Auth sr /\ g_AuthMode g = sr_AuthMode sr /\
    g_AuthUsers g = normalizeAuthUsers (sr_AuthUsers sr) /\ g_DropHeaders g = sr_DropHeaders sr /\
    g_RateLimit g = sr_RateLimit sr /\ g_RateRPM g = floor_rpm (sr_RateLimit sr) (sr_RateRPM sr) /\
    g_abCfg g = None /\
    holds h' (g_Backends g) (SliceStable by_url (flat_map (static_backends parses) (sr :: rest) ++
      if decide (sr_Service sr = "") then []
      else omap (fed_backend abs (sr_Service sr)) (applyLabelOverlay cs ov)))%list.
Proof.
  intros Hf Ha Hk abs. destruct (loaded_inv parses cfg cs ov now h next Hf) as (a0 & Hi & Hl).
  pose proof (si_cell _ _ _ _ Hi k) as Hc. rewrite Hk in Hc. cbn [head fmap option_fmap option_map] in Hc.
  destruct (a_groups a0 !! k) as [g|] eqn:Hg; [|done]. destruct Hc as [Hg0 Hb].
  pose proof (li_static _ _ _ _ Hl _ _ Hg) as Hlg. exists (finish_group abs bySvc h' g). split; [by eapply assemble_group|].
  assert (g = set_g_Backends (g_Backends g) (static_group sr)) as Hge by (rewrite <- Hg0; by destruct g).
  assert (g_abCfg (finish_group abs bySvc h' g) = None) as ->.
  { rewrite Hge. unfold finish_group. cbn -[hasBBackend SliceStable]. repeat case_match; try done. }
  destruct (finish_group_fields abs bySvc h' g) as (_ & _ & _ & -> & -> & -> & -> & -> & -> & _ & _ & _ & ->).
  assert (forall A (P : RouteGroup -> A), (forall b x, P (set_g_Backends b x) = P x) -> P g = P (static_group sr)) as Hfield
    by (intros A P HP; by rewrite <- Hg0, HP).
  rewrite (Hfield _ g_AuthRequired), (Hfield _ g_AuthMode), (Hfield _ g_AuthUsers), (Hfield _ g_DropHeaders),
    (Hfield _ g_RateLimit), (Hfield _ g_RateRPM), (Hfield _ g_static), (Hfield _ g_Service) by done.
  cbn [static_group g_AuthRequired g_AuthMode g_AuthUsers g_DropHeaders g_RateLimit g_RateRPM g_static g_Service andb].
  apply assemble_inl in Ha as (-> & -> & _). split_and!; try done. apply holds_sort, Forall2_app.
  - eapply holds_mono; [apply Hl|done].
  - case_bool_decide; [rewrite decide_True by done; constructor|]. rewrite decide_False by done. apply Hl.
Qed.
End properties.

(** ** A concrete table *)

Definition ex_replica (name ip : string) (extra : list (string * string)) : dockerContainer :=
  mkContainer name ["/" +:+ name] "running" "Up 2 minutes"
    (list_to_map (extra ++ [("proxy.host", "shop.test"); ("proxy.port", "8080"); ("proxy.service", "shop")])%list)
    {["edge" := ip]}.
Definition ex_replicas : list dockerContainer :=
  [ex_replica "shop-2" "10.0.0.2" [("proxy.ratelimit", "true")];
   ex_replica "shop-1" "10.0.0.1" [("proxy.auth", "true"); ("proxy.auth.users", "Ann, bob")];
   ex_replica "shop-c" "10.0.0.3" [("proxy.canary", "true")]].
Definition ex_routes : config_file :=
  Routes [mkStatic "shop.test" "/login" false "login" ["http://10.9.9.9:80"] "shop" "" false [] "" true 0 [] false "" []].

Definition ex_table := assembleGroupsWithOverlay (fun _ => true) ex_routes (Some ex_replicas) None 0 ∅ 1%positive.

Example ex_table_ok :
  match ex_table with
  | inl (gs, _, h, _) => (fun g => (group_key g, g_AuthRequired g, g_AuthUsers g, g_RateRPM g, omap (fun l => b_URL <$> h !! l) (g_Backends g))) <$> gs
  | inr _ => []
  end =
  [("shop.test|/login", false, [], 60, ["http://10.0.0.1:8080"; "http://10.0.0.2:8080"; "http://10.9.9.9:80"]);
   ("shop.test|", true, ["ann"; "bob"], 60, ["http://10.0.0.1:8080"; "http://10.0.0.2:8080"; "http://10.0.0.3:8080"])].
Proof. vm_compute. reflexivity. Qed.

Lemma replicas_protect_their_route_witness :
  exists gs bySvc h n g, ex_table = inl (gs, bySvc, h, n) /\
    filter (fun g => group_key g = "shop.test|") gs = [g] /\ g_AuthRequired g = true /\ g_RateRPM g = 60.
Proof.
  destruct ex_table as [[[[gs bySvc] h] n]|] eqn:He; [|by vm_compute in He]. exists gs, bySvc, h, n.
  destruct (replicas_protect_their_route (fun _ => true) ex_routes ex_replicas None 0 ∅ 1%positive gs bySvc h n "shop.test|")
    as (g & Hg & Hauth & _ & _ & Hlim & Hrpm & _).
  - intros l _. apply lookup_empty.
  - exact He.
  - by vm_compute.
  - exists g. rewrite Hlim in Hrpm. split_and!; [done|done|by rewrite Hauth|by rewrite Hrpm].
Defined.

Lemma routes_json_owns_its_key_witness :
  exists gs bySvc h n g, ex_table = inl (gs, bySvc, h, n) /\
    filter (fun g => group_key g = "shop.test|/login") gs = [g] /\ g_AuthRequired g = false /\ length (g_Backends g) = 3%nat.
Proof.
  destruct ex_table as [[[[gs bySvc] h] n]|] eqn:He; [|by vm_compute in He]. exists gs, bySvc, h, n.
  destruct (routes_json_owns_its_key (fun _ => true) ex_routes ex_replicas None 0 ∅ 1%positive gs bySvc h n "shop.test|/login"
    (mkStatic "shop.test" "/login" false "login" ["http://10.9.9.9:80"] "shop" "" false [] "" true 0 [] false "" []) [])
    as (g & Hg & Hauth & _ & _ & _ & _ & _ & _ & Hb).
  - intros l _. apply lookup_empty.
  - exact He.
  - by vm_compute.
  - exists g. split_and!; [done|done|by rewrite Hauth|]. apply Forall2_length in Hb. rewrite Hb. by vm_compute.
Defined.
