(* ===== verification/Serve.v ===== *)
(** * Proxying one request: the backend loop of cmd/proxy/router.go

    The response writers, the request body and its replay, what the reverse
    proxy sends to a backend and does with its answer, and [proxyToGroup]: pick,
    attribute, attempt, retry, and finally 503. What a backend answers, and what
    other requests change meanwhile, are arguments. *)
From S2P Require Import Prelude GoString Sha256 RateLimit Router Balancer Cache Net AuthGate Http.
Open Scope string_scope.

(** ** Response writers

    [http.ResponseWriter] as the wrappers see it. The header map is shared: a
    handler edits it in place, so a writer gives it and takes it back. *)
Class ResponseWriter (W : Type) := {
  w_Header : W -> header;
  w_SetHeader : header -> W -> W;
  w_WriteHeader : Z -> W -> W;
  w_Write : string -> W -> W;
  w_SetBackend : string -> W -> W;
  w_Hijack : header -> W -> W;       (* the connection is taken over, after a 101 with these headers *)
}.

(** The server's own writer: what reaches the client, and the upstream the
    access log notes. A second final status is ignored; an informational one is
    sent at once, with the headers of the moment. *)
Record client := mkClient {
  cl_header : header;
  cl_early : list (Z * header);
  cl_final : option (Z * header);
  cl_body : string;
  cl_backend : string;
  cl_upgrade : option header;
}.
Definition new_client : client := mkClient ∅ [] None "" "" None.

Definition client_WriteHeader (code : Z) (c : client) : client :=
  match cl_final c with
  | Some _ => c
  | None =>
      if decide (100 <= code < 200 /\ code <> 101)
      then mkClient (cl_header c) (cl_early c ++ [(code, cl_header c)])%list None (cl_body c) (cl_backend c) (cl_upgrade c)
      else mkClient (cl_header c) (cl_early c) (Some (code, cl_header c)) (cl_body c) (cl_backend c) (cl_upgrade c)
  end.

#[export] Instance client_writer : ResponseWriter client := {|
  w_Header := cl_header;
  w_SetHeader h c := mkClient h (cl_early c) (cl_final c) (cl_body c) (cl_backend c) (cl_upgrade c);
  w_WriteHeader := client_WriteHeader;
  w_Write p c :=
    let c := client_WriteHeader 200 c in
    mkClient (cl_header c) (cl_early c) (cl_final c) (cl_body c +:+ p) (cl_backend c) (cl_upgrade c);
  w_SetBackend s c := mkClient (cl_header c) (cl_early c) (cl_final c) (cl_body c) s (cl_upgrade c);
  w_Hijack h c := mkClient (cl_header c) (cl_early c) (cl_final c) (cl_body c) (cl_backend c) (Some h);
|}.

(** What the client has got once the handler returns: an answer nobody started
    is an empty 200. *)
Definition answered (c : client) : Z * header := default (200, cl_header c) (cl_final c).

(** [cacheRecorder] around a writer. *)
#[export] Instance recorder_writer {W} `{ResponseWriter W} : ResponseWriter (cacheRecorder * W) := {|
  w_Header w := w_Header (snd w);
  w_SetHeader h w := (fst w, w_SetHeader h (snd w));
  w_WriteHeader code w :=
    let '(h, r) := WriteHeader code (w_Header (snd w)) (fst w) in (r, w_WriteHeader code (w_SetHeader h (snd w)));
  w_Write p w :=
    let w := if cr_wroteHeader (fst w) then w
             else let '(h, r) := WriteHeader 200 (w_Header (snd w)) (fst w) in (r, w_WriteHeader 200 (w_SetHeader h (snd w))) in
    let '(_, r) := Write p (w_Header (snd w)) (fst w) in (r, w_Write p (snd w));
  w_SetBackend s w := (fst w, w_SetBackend s (snd w));
  w_Hijack h w := (fst w, w_Hijack h (snd w));
|}.

(** [errCatchingWriter]: whether anything was written. *)
#[export] Instance errCatchingWriter {W} `{ResponseWriter W} : ResponseWriter (bool * W) := {|
  w_Header w := w_Header (snd w);
  w_SetHeader h w := (fst w, w_SetHeader h (snd w));
  w_WriteHeader code w := (true, w_WriteHeader code (snd w));
  w_Write p w := (true, w_Write p (snd w));
  w_SetBackend s w := w;
  w_Hijack h w := (fst w, w_Hijack h (snd w));
|}.

(** ** The unavailable page *)

Definition quoted (s : string) : string := String dquote s +:+ String dquote "".
Definition StatusText (code : Z) : string :=
  if decide (code = 302) then "Found" else if decide (code = 404) then "Not Found"
  else if decide (code = 502) then "Bad Gateway" else if decide (code = 503) then "Service Unavailable" else "".

Definition page (retryAfter status : Z) (host reason : string) : string :=
  let title := if decide (status = 404) then "Not found" else "Service unavailable" in
  let nl := newline in
  "<!doctype html><html lang=en><meta charset=utf-8>" +:+ nl +:+
  "<meta name=viewport content=" +:+ quoted "width=device-width,initial-scale=1" +:+ ">" +:+ nl +:+
  "<meta http-equiv=refresh content=" +:+ quoted (FormatInt retryAfter) +:+ ">" +:+ nl +:+
  "<title>" +:+ FormatInt status +:+ " " +:+ title +:+ " · " +:+ host +:+ "</title>" +:+ nl +:+
  "<style>" +:+ nl +:+
  "  :root{color-scheme:dark}" +:+ nl +:+
  "  html,body{height:100%;margin:0}" +:+ nl +:+
  "  body{background:#0a0a0a;color:#e6e6e6;font:15px/1.55 -apple-system,BlinkMacSystemFont," +:+ quoted "Inter" +:+
  ",system-ui,sans-serif;display:flex;align-items:center;justify-content:center;padding:24px}" +:+ nl +:+
  "  .box{max-width:420px;text-align:center}" +:+ nl +:+
  "  .code{font:600 12px/1 ui-monospace,SFMono-Regular,Menlo,monospace;letter-spacing:.12em;color:#6a6a6a;margin-bottom:14px;text-transform:uppercase}" +:+ nl +:+
  "  h1{margin:0 0 10px;font-size:20px;font-weight:600;letter-spacing:-.015em;color:#fafafa}" +:+ nl +:+
  "  p{margin:0;color:#8a8a8a;font-size:14px}" +:+ nl +:+
  "</style>" +:+ nl +:+
  "<div class=box>" +:+ nl +:+
  "  <div class=code>" +:+ FormatInt status +:+ " · " +:+ StatusText status +:+ "</div>" +:+ nl +:+
  "  <h1>" +:+ title +:+ "</h1>" +:+ nl +:+
  "  <p>" +:+ reason +:+ "</p>" +:+ nl +:+
  "</div>" +:+ nl.

(** net/http's [htmlEscape]. *)
Fixpoint htmlEscape (s : string) : string :=
  match s with
  | EmptyString => ""
  | String c s =>
      (if Ascii.eqb c "&" then "&amp;" else if Ascii.eqb c "<" then "&lt;" else if Ascii.eqb c ">" then "&gt;"
       else if Ascii.eqb c dquote then "&#34;" else if Ascii.eqb c "'" then "&#39;" else String c "") +:+ htmlEscape s
  end.

(** Sending a response of [AuthGate]. *)
Definition body_text (b : body) : string :=
  match b with
  | Text s => s
  | Page retryAfter status host reason => page retryAfter status host reason
  | Link url => "<a href=" +:+ quoted (htmlEscape url) +:+ ">" +:+ StatusText 302 +:+ "</a>." +:+ newline +:+ newline
  end.

Definition send {W} `{ResponseWriter W} (r : response) (w : W) : W :=
  w_Write (body_text (rs_Body r)) (w_WriteHeader (rs_Status r) (w_SetHeader (rs_Header r) w)).

(** ** Request bodies *)

(** A body being read: what is left of it, whether reading it ends in an error,
    and whether it was closed. *)
Record reader := mkReader { rd_data : string; rd_err : bool; rd_closed : bool }.

(** [None] for no body, or [http.NoBody]. *)
Record reqBody := mkBody {
  rb_ContentLength : Z;
  rb_Body : option reader;
  rb_GetBody : option string;
}.
Definition maxReplayBody : Z := Z.shiftl 64 10.

Definition prepareRetryBody (b : reqBody) : bool * reqBody :=
  match rb_Body b, rb_GetBody b with
  | None, _ | _, Some _ => (true, b)
  | Some rd, None =>
      if decide (maxReplayBody < rb_ContentLength b) then (false, b)
      else
        let buf := take_bytes (Z.to_nat (maxReplayBody + 1)) (rd_data rd) in
        if rd_closed rd || (rd_err rd && bool_decide (len (rd_data rd) <= maxReplayBody)) || bool_decide (maxReplayBody < len buf)
        then (false, b)      (* what was read goes back in front of the rest *)
        else (true, mkBody (rb_ContentLength b) (Some (mkReader buf false false)) (Some buf))
  end.

Definition rewindBody (b : reqBody) : reqBody :=
  match rb_GetBody b with
  | None => b
  | Some buf => mkBody (rb_ContentLength b) (Some (mkReader buf false false)) (Some buf)
  end.

(** The transport reads and closes the body of the attempt it makes. *)
Definition consumed (b : reqBody) : reqBody :=
  mkBody (rb_ContentLength b) ((fun _ => mkReader "" true true) <$> rb_Body b) (rb_GetBody b).

(** ** What is sent to a backend: [httputil.ReverseProxy] and the Directors *)

(** The tokens of a comma-separated header. *)
Definition tokens (vs : list string) : list string := flat_map (fun v => trim_blank <$> Split v ",") vs.

Definition hopHeaders : list string :=
  ["Connection"; "Proxy-Connection"; "Keep-Alive"; "Proxy-Authenticate"; "Proxy-Authorization"; "Te"; "Trailer";
   "Transfer-Encoding"; "Upgrade"].
(** The headers named by Connection, then the fixed ones. *)
Definition removeHopByHopHeaders (h : header) : header :=
  Del_all hopHeaders (Del_all (filter (fun t => t <> "") (tokens (Values h "Connection"))) h).

(** [httpguts.HeaderValuesContainsToken]. *)
Definition has_token (vs : list string) (t : string) : bool := existsb (fun x => EqualFold x t) (tokens vs).

Definition upgradeType (h : header) : string := if has_token (Values h "Connection") "Upgrade" then Get h "Upgrade" else "".
Definition printable (s : string) : bool := all_bytes (fun c => in_range c " " "~") s.

Definition PeerHopHeader : string := "X-Pmgr-Peer-Hop".
Definition PeerAuthHeader : string := "X-Pmgr-Peer-Auth".

(** The variables a backend's Director closes over: the Host it sends, and for a
    peer the prefix it restores and the hop token. *)
Record captured := mkCaptured { k_host : string; k_pathPrefix : string; k_stripPrefix : bool; k_hopAuth : string }.

Record outreq := mkOut {
  o_to : string;          (* the backend's URL *)
  o_Method : string;
  o_Host : string;
  o_Path : string;        (* relative to the path of the backend's URL *)
  o_RawQuery : string;
  o_Header : header;
  o_Body : string;
}.

(** [makeBackend]'s Director, and [makePeerBackendAuth]'s: the host, the path
    and the headers it leaves. [stamped] is [abStamped]. *)
Definition Director (k : captured) (b : Backend) (stamped : bool) (r : request) : string * string * header :=
  if b_Learned b then
    (k_host k,
     if k_stripPrefix k && negb (bool_decide (k_pathPrefix k = "")) then k_pathPrefix k +:+ req_Path r else req_Path r,
     let h := Set_ PeerHopHeader "1" (req_Header r) in
     if negb (bool_decide (k_hopAuth k = "")) && stamped then Set_ PeerAuthHeader (k_hopAuth k) h else h)
  else (k_host k, req_Path r, req_Header r).

(** The rest of the headers' way through the reverse proxy. *)
Definition forwarded_headers (r : request) (h : header) : header :=
  let up := upgradeType h in
  let h := removeHopByHopHeaders h in
  let h := if has_token (default [] (req_Header r !! "Te")) "trailers" then Set_ "Te" "trailers" h else h in
  let h := if decide (up = "") then h else Set_ "Upgrade" up (Set_ "Connection" "Upgrade" h) in
  let h := match SplitHostPort (req_RemoteAddr r) with
           | Some ip => Set_ "X-Forwarded-For" (Join (default [] (h !! "X-Forwarded-For") ++ [ip]) ", ") h
           | None => h
           end in
  match h !! "User-Agent" with Some _ => h | None => Set_ "User-Agent" "" h end.

Definition sent_body (b : reqBody) : string :=
  match rb_Body b with Some rd => if decide (rb_ContentLength b = 0) then "" else rd_data rd | None => "" end.

(** [None]: the client asks for an upgrade to an unprintable protocol, and
    nothing is sent. *)
Definition outbound (k : captured) (b : Backend) (stamped : bool) (r : request) (body : reqBody) : option outreq :=
  let '(host, path, h) := Director k b stamped r in
  if printable (upgradeType h)
  then Some (mkOut (b_URL b) (req_Method r) host path (req_RawQuery r) (forwarded_headers r h) (sent_body body))
  else None.

(** ** One attempt *)

(** What comes of sending a request: informational responses first, then no
    answer (and whether that is the client's own doing), an answer whose body
    arrives in chunks and may break off, or a switch of protocols. *)
Inductive exchange :=
| NoAnswer (early : list (Z * header)) (canceled : bool)
| Answer (early : list (Z * header)) (status : Z) (h : header) (chunks : list string) (complete : bool)
| Upgraded (early : list (Z * header)) (h : header).

Definition early_of (x : exchange) : list (Z * header) :=
  match x with NoAnswer e _ => e | Answer e _ _ _ _ => e | Upgraded e _ => e end.

Definition copyHeader (dst src : header) : header := union_with (fun a b => Some (a ++ b)%list) dst src.

Section writer.
Context {W : Type} `{ResponseWriter W}.

(** The trace hook for an informational response; it clears the header map. *)
Definition forward_early (w : W) (e : Z * header) : W :=
  w_SetHeader ∅ (w_WriteHeader (fst e) (w_SetHeader (copyHeader (w_Header w) (snd e)) w)).

(** How [ReverseProxy.ServeHTTP] ends: it returns, it calls the ErrorHandler
    (with the client gone or not), or it panics with ErrAbortHandler. *)
Inductive passage := Returned | Errored (canceled : bool) | Broken.

Definition relay (x : exchange) (w : W) : W * passage :=
  let w := fold_left forward_early (early_of x) w in
  match x with
  | NoAnswer _ canceled => (w, Errored canceled)
  | Answer _ status h chunks complete =>
      let w := w_SetHeader (copyHeader (w_Header w) (removeHopByHopHeaders h)) w in
      (fold_left (fun w p => w_Write p w) chunks (w_WriteHeader status w), if complete : bool then Returned else Broken)
  | Upgraded _ h => (w_Hijack (copyHeader (w_Header w) h) w, Returned)
  end.
End writer.

Inductive attempt := Done | Retry | Abort_.
#[export] Instance attempt_eq_dec : EqDecision attempt.
Proof. solve_decision. Defined.

(** What other requests and the health checks do to the backends before a pick
    and during the attempt, the time, and what the backend does. *)
Record world := mkWorld {
  wd_before : gmap loc Backend -> gmap loc Backend;
  wd_during : gmap loc Backend -> gmap loc Backend;
  wd_now : Z;
  wd_exchange : loc -> outreq -> exchange;
}.

(** The backends and the group a request works with, the transports told to
    close their idle connections, and what was sent to whom. *)
Record serving := mkServing {
  sv_store : gmap loc Backend;
  sv_group : RouteGroup;
  sv_closed : list loc;
  sv_sent : list (loc * outreq * exchange);
}.

Definition set_sv_store (s : gmap loc Backend) (sv : serving) : serving := mkServing s (sv_group sv) (sv_closed sv) (sv_sent sv).
Definition set_sv_group (g : RouteGroup) (sv : serving) : serving := mkServing (sv_store sv) g (sv_closed sv) (sv_sent sv).

Section serve.
Context {W : Type} `{ResponseWriter W}.
Context (closure : loc -> captured).       (* what each backend's Director captured *)
Context (worlds : nat -> world).           (* by attempt *)
Context (reqHost : string) (hopped : bool).

(** [tryProxy], with the ErrorHandler's effect on the backend: it is marked
    down unless the client went away. A request that is not sent at all fails
    the same way. *)
Definition tryProxy (wd : world) (l : loc) (b : Backend) (out : option outreq) (w : W) (sv : serving) : attempt * W * serving :=
  let x := match out with Some o => wd_exchange wd l o | None => NoAnswer [] false end in
  let sent := match out with Some o => (sv_sent sv ++ [(l, o, x)])%list | None => sv_sent sv end in
  let '((wrote, w), p) := relay x (false, w) in
  let s := wd_during wd (sv_store sv) in
  let s := match p with Errored false => alter (markHealthy false) l s | _ => s end in
  let closed := match p with
                | Broken => sv_closed sv
                | _ => match s !! l with
                       | Some b => match b_draining b, b_transport b with
                                   | true, Some t => (sv_closed sv ++ [t])%list
                                   | _, _ => sv_closed sv
                                   end
                       | None => sv_closed sv
                       end
                end in
  (match p with
   | Broken => Abort_
   | Errored true => Done
   | Errored false => if wrote : bool then Done else Retry
   | Returned => Done
   end, w, mkServing s (sv_group sv) closed sent).

(** ** The loop of [proxyToGroup] *)

Inductive ending := Served | Exhausted | NotReplayable | Aborted.

Definition maxRetries : nat := 3.

(** The pin, honored once. *)
Definition pinned_pick (s : gmap loc Backend) (g : RouteGroup) (pin : string) : go (option loc) :=
  if decide (pin = "") then Ret None
  else
    l ← backendByStickyID s g pin;
    match l with
    | None => Ret None
    | Some l => b ← deref s l; Ret (if healthy b && (negb (b_Learned b) || g_Spread g) then Some l else None)
    end.

(** A pin, else a healthy backend, else any: the pick and the group after it. *)
Definition pick (now : Z) (s : gmap loc Backend) (g : RouteGroup) (tried : gset loc) (pin : string) : go (option loc * RouteGroup) :=
  p ← pinned_pick s g pin;
  match p with
  | Some l => Ret (Some l, g)
  | None =>
      '(b, g) ← pickHealthy s g tried (negb hopped) "";
      match b with
      | Some _ => Ret (b, g)
      | None =>
          '(b, g) ← pickAny s g tried (negb hopped) "";
          Ret (b, match b with Some _ => snd (logPanicOnce now g) | None => g end)
      end
  end.

Definition serve503 (w : W) : W := send (serveUnavailableRetry (w_Header w) 503 reqHost unavailable_reason transientRetryAfter) w.
Definition serveBodyNotReplayable (w : W) : W := send (serveUnavailable (w_Header w) 502 reqHost unavailable_reason) w.

(** SetBackend, and the affinity cookie of a sticky route. *)
Definition attribute (g : RouteGroup) (b : Backend) (w : W) : W :=
  let w := w_SetBackend (b_URL b) w in
  if g_Sticky g && negb hopped then w_SetHeader (setStickyCookie (w_Header w) g (b_stickyID b)) w else w.

(** A nil reverse proxy is a nil dereference. *)
Fixpoint attempts (k i : nat) (tried : gset loc) (pin : string) (retryable : bool) (r : request) (body : reqBody)
    (sv : serving) (w : W) : go (ending * serving * W) :=
  match k with
  | O => Ret (Exhausted, sv, serve503 w)
  | S k =>
      let wd := worlds i in
      let s := wd_before wd (sv_store sv) in
      '(p, g) ← pick (wd_now wd) s (sv_group sv) tried pin;
      let sv := set_sv_group g (set_sv_store s sv) in
      match p with
      | None => Ret (Exhausted, sv, serve503 w)
      | Some l =>
          b ← deref s l;
          match b_proxy b with
          | None => Panic
          | Some _ =>
              let w := attribute g b w in
              let body := if decide (0 < i)%nat then rewindBody body else body in
              let '(a, w, sv) := tryProxy wd l b (outbound (closure l) b false r body) w sv in
              match a with
              | Done => Ret (Served, sv, w)
              | Abort_ => Ret (Aborted, sv, w)
              | Retry =>
                  if retryable : bool then attempts k (S i) ({[l]} ∪ tried) "" retryable r (consumed body) sv w
                  else Ret (NotReplayable, sv, serveBodyNotReplayable w)
              end
          end
      end
  end.

Definition proxyToGroup (pin : string) (r : request) (body : reqBody) (sv : serving) (w : W) : go (ending * serving * W) :=
  let '(retryable, body) := prepareRetryBody body in
  attempts maxRetries 0 ∅ pin retryable r body sv w.
End serve.

(** * Properties *)

(** ** Picking *)

(** A group apart from its cursor and the time of its last panic line. *)
Definition still (g : RouteGroup) : RouteGroup := set_g_panicLogAt 0 (set_g_cursor 0 g).

Lemma find_sticky_spec s id bs : valid s bs ->
  exists r, find_sticky s id bs = Ret r /\ match r with
    | Some l => l ∈ bs /\ exists b, s !! l = Some b /\ b_stickyID b = id
    | None => forall l b, l ∈ bs -> s !! l = Some b -> b_stickyID b <> id end.
Proof.
  intros Hv. induction Hv as [|l bs [b Hb] Hv (r & IH & Hr)]; cbn [find_sticky].
  { exists None. split; [done|]. intros l b Hl. by apply not_elem_of_nil in Hl. }
  unfold deref. rewrite Hb. cbn [mbind go_bind]. case_decide as Hid.
  - exists (Some l). split; [done|]. split; [by left|by exists b].
  - exists r. split; [exact IH|]. destruct r as [l'|].
    + destruct Hr as [? ?]. split; [by right|done].
    + intros l' b' [-> |Hl]%elem_of_cons Hb'; [congruence|by apply (Hr l')].
Qed.

(** What a pick may be, whatever was believed about health. *)
Definition allowed (s : gmap loc Backend) (g : RouteGroup) (hopped : bool) (tried : gset loc) (l : loc) : Prop :=
  l ∈ g_Backends g /\ l ∉ tried /\ exists b, s !! l = Some b /\ b_DockerUnhealthy b = false /\ b_draining b = false /\
    (b_Learned b = true -> hopped = false).

Lemma eligible_allowed s g tried hopped ih l : eligible s g tried (negb hopped) ih "" l -> allowed s g hopped tried l.
Proof.
  intros (Hl & Ht & b & Hb & _ & He & Hp). split_and!; [done|done|]. exists b. unfold excludedFrom in He.
  destruct (b_DockerUnhealthy b), (b_draining b); try done. split_and!; [done..|]. intros Hle. apply Hp in Hle. by destruct hopped.
Qed.

Lemma allowed_eligible s g tried hopped l : allowed s g hopped tried l -> eligible s g tried (negb hopped) true "" l.
Proof.
  intros (Hl & Ht & b & Hb & Hd & Hdr & Hp). split_and!; [done|done|]. exists b. unfold excludedFrom, inVariant. rewrite Hd, Hdr.
  split_and!; [done|done|done|]. intros Hle. by rewrite Hp.
Qed.

Lemma pick_correct hopped now s g tried pin :
  valid s (g_Backends g) -> cursor_ok g 1 -> (pin <> "" -> hopped = false /\ tried = ∅) ->
  exists r g', pick hopped now s g tried pin = Ret (r, g') /\ still g' = still g /\ g_cursor g <= g_cursor g' <= g_cursor g + 1 /\
    match r with Some l => allowed s g hopped tried l | None => forall l, ~ allowed s g hopped tried l end.
Proof.
  intros Hv Hc Hpin. unfold pick.
  assert (exists p, pinned_pick s g pin = Ret p /\ forall l, p = Some l -> allowed s g hopped tried l) as (p & -> & Hp).
  { unfold pinned_pick. case_decide as Hd; [by exists None|]. unfold backendByStickyID.
    destruct (find_sticky_spec s pin (g_Backends g) Hv) as (r & -> & Hr). cbn [mbind go_bind].
    destruct r as [l|]; [|by exists None]. destruct Hr as (Hl & b & Hb & _). unfold deref. rewrite Hb. cbn [mbind go_bind].
    eexists. split; [reflexivity|]. intros l' Hl'. destruct (healthy b && _) eqn:Hh; [|done]. injection Hl' as <-.
    apply andb_true_iff in Hh as [Hh _]. unfold healthy in Hh. destruct (Hpin Hd) as [-> ->].
    split_and!; [done|set_solver|]. exists b. destruct (b_DockerUnhealthy b), (b_draining b); done. }
  cbn [mbind go_bind]. destruct p as [l|]; [exists (Some l), g; split_and!; [done|done|lia|lia|by apply Hp]|].
  destruct (pick_spec s g tried (negb hopped) false "" Hv Hc) as (r & Heq & Hr). cbn beta iota in Heq. rewrite Heq. cbn [mbind go_bind].
  destruct r as [l|].
  { eexists _, _. split; [reflexivity|]. split; [done|]. cbn. split; [lia|]. eapply eligible_allowed, Hr. }
  destruct (pick_spec s g tried (negb hopped) true "" Hv Hc) as (r & Heq' & Hr'). cbn beta iota in Heq'. rewrite Heq'. cbn [mbind go_bind].
  eexists _, _. split; [reflexivity|]. destruct r as [l|].
  - unfold logPanicOnce. split; [case_decide; done|]. split; [case_decide; cbn; lia|]. eapply eligible_allowed, Hr'.
  - split; [done|]. split; [lia|]. intros l Hl. by apply (Hr' l), allowed_eligible.
Qed.

(** ** One attempt *)

(** The part of a backend that is fixed when it is built. *)
Definition ident (b : Backend) : string * bool * string * string * string * bool :=
  (b_URL b, b_Learned b, b_Variant b, b_stickyID b, b_peerTestID b, bool_decide (is_Some (b_proxy b))).
Definition same_cast (s s' : gmap loc Backend) : Prop := forall l, ident <$> s !! l = ident <$> s' !! l.
#[export] Instance same_cast_equiv : Equivalence same_cast.
Proof. split; [done|by intros ?? H l; rewrite H|by intros ??? H1 H2 l; rewrite H1, H2]. Qed.

Lemma same_cast_lookup s s' l b : same_cast s s' -> s !! l = Some b -> exists b', s' !! l = Some b' /\ ident b = ident b'.
Proof. intros Hs Hb. specialize (Hs l). rewrite Hb in Hs. destruct (s' !! l) as [b'|]; [|done]. injection Hs as Hs. exists b'. unfold ident. split; [done|congruence]. Qed.

Lemma same_cast_valid s s' bs : same_cast s s' -> valid s bs -> valid s' bs.
Proof. intros Hs Hv. eapply Forall_impl; [exact Hv|]. intros l [b Hb]. destruct (same_cast_lookup _ _ _ _ Hs Hb) as (b' & -> & _). by eexists. Qed.

(** Others may change a backend's health and draining, never what it is. *)
Definition polite (w : world) : Prop := forall s, same_cast (wd_before w s) s /\ same_cast (wd_during w s) s.

(** An attempt that ends with nothing written. *)
Definition failed (x : exchange) : bool := match x with NoAnswer [] false => true | _ => false end.

Section attempts.
Context {W : Type} `{ResponseWriter W}.

Lemma forward_early_wrote l (w : bool * W) : fst w = true -> fst (fold_left forward_early l w) = true.
Proof. revert w. induction l as [|e l IH]; intros w Hw; [done|]. by apply IH. Qed.

Lemma early_wrote l (w : W) : l <> [] -> fst (fold_left forward_early l (false, w)) = true.
Proof. destruct l as [|e l]; [done|]. intros _. exact (forward_early_wrote l (forward_early (false, w) e) eq_refl). Qed.

Lemma markHealthy_cast ok l s : same_cast (alter (markHealthy ok) l s) s.
Proof. intros l'. destruct (decide (l = l')) as [-> |]; [rewrite lookup_alter_eq|by rewrite lookup_alter_ne]. by destruct (s !! l') as [[]|]. Qed.

(** What an attempt does, by what the backend does. *)
Lemma tryProxy_spec wd l b o (w : W) sv :
  polite wd ->
  let x := wd_exchange wd l o in
  let '(a, w', sv') := tryProxy wd l b (Some o) w sv in
  sv_group sv' = sv_group sv /\ same_cast (sv_store sv') (sv_store sv) /\ sv_sent sv' = (sv_sent sv ++ [(l, o, x)])%list /\
  (failed x = true -> w' = w) /\ w' = snd (fst (relay x (false, w))) /\
  a = match x with
      | Answer _ _ _ _ false => Abort_
      | NoAnswer [] false => Retry
      | _ => Done
      end.
Proof.
  intros Hp x. unfold tryProxy. fold x. destruct (relay x (false, w)) as [[wrote w'] p] eqn:Hr. cbn [fst snd sv_group sv_store sv_sent].
  split_and!; [done| |done| |done|].
  - destruct p as [|[]|]; try apply Hp. etrans; [apply markHealthy_cast|apply Hp].
  - destruct x as [[|]  []| |]; try done. cbn in Hr. by injection Hr as <- <- <-.
  - destruct x as [e c|e st h ch ok|e h]; cbn in Hr.
    + injection Hr as Hw <-. destruct c; [by destruct e|]. destruct e as [|e l']; [by injection Hw as <- <-|].
      pose proof (early_wrote (e :: l') w ltac:(done)) as Ht. cbn [fold_left early_of] in Hw, Ht. rewrite Hw in Ht. cbn [fst] in Ht. by rewrite Ht.
    + injection Hr as _ <-. by destruct ok.
    + by injection Hr as ? ? <-.
Qed.
End attempts.

(** ** Bodies *)

(** [whole] is the body the client sent. *)
Definition fresh_body (whole : string) (b : reqBody) : Prop :=
  rb_GetBody b = None /\
  match rb_Body b with
  | None => whole = ""
  | Some rd => rd_data rd = whole /\ rd_closed rd = false
  end /\ (rb_ContentLength b = 0 -> whole = "").

(** Ready for the attempt now, and for later ones when [again]. *)
Definition ready (whole : string) (again : bool) (b : reqBody) : Prop :=
  sent_body b = whole /\ (again = true -> sent_body (rewindBody (consumed b)) = whole /\ sent_body (rewindBody b) = whole).

Lemma take_bytes_short n s : len s <= Z.of_nat n -> take_bytes n s = s.
Proof.
  revert n. induction s as [|c s IH]; intros [|n] Hl; [done|done|unfold len in Hl; cbn in Hl; lia|].
  cbn. rewrite IH; [done|]. unfold len in *. cbn in Hl. lia.
Qed.
Lemma take_bytes_len n s : len (take_bytes n s) = Z.min (Z.of_nat n) (len s).
Proof. revert n. unfold len. induction s as [|c s IH]; intros [|n]; cbn [take_bytes String.length]; try lia. specialize (IH n). lia. Qed.

Lemma prepare_ready whole b : fresh_body whole b ->
  let '(retryable, b') := prepareRetryBody b in ready whole retryable b'.
Proof.
  intros (Hg & Hb & Hcl). unfold prepareRetryBody, ready, sent_body. rewrite Hg. destruct (rb_Body b) as [rd|] eqn:Hbd.
  - destruct Hb as [Hd Hclosed].
    assert ((if decide (rb_ContentLength b = 0) then "" else rd_data rd) = whole) as Hsent by (case_decide as Hc; [by rewrite Hcl|done]).
    destruct (decide (maxReplayBody < rb_ContentLength b)); [by rewrite Hbd|]. destruct (_ || _) eqn:Hov; [by rewrite Hbd|].
    apply orb_false_iff in Hov as [_ Hov]. apply bool_decide_eq_false in Hov. rewrite take_bytes_len in Hov.
    assert (take_bytes (Z.to_nat (maxReplayBody + 1)) (rd_data rd) = rd_data rd) as Ht by (apply take_bytes_short; lia).
    cbn [rb_Body rb_GetBody rb_ContentLength rd_data]. rewrite Ht. split; [exact Hsent|]. intros _. by split.
  - subst whole. rewrite Hbd. split; [done|]. intros _. unfold rewindBody, consumed. cbn [rb_GetBody]. rewrite Hg. cbn [rb_Body]. by rewrite Hbd.
Qed.

Lemma ready_again whole b : ready whole true b -> ready whole true (rewindBody (consumed b)).
Proof.
  intros [Hs Ha]. destruct (Ha eq_refl) as [H1 H2]. split; [done|]. intros _. revert H1.
  unfold rewindBody, consumed. cbn. destruct (rb_GetBody b) as [buf|]; cbn; [done|]. by destruct (rb_Body b).
Qed.

(** ** The loop *)

Lemma still_Backends g g' : still g = still g' -> g_Backends g = g_Backends g'.
Proof. intros H. change (g_Backends (still g) = g_Backends (still g')). by rewrite H. Qed.

Lemma allowed_still s g g' hopped tried l : still g = still g' -> allowed s g hopped tried l -> allowed s g' hopped tried l.
Proof. intros Hg. unfold allowed. by rewrite (still_Backends g g'). Qed.

Lemma upgrade_director k b st r : upgradeType (snd (Director k b st r)) = upgradeType (req_Header r).
Proof.
  unfold Director. assert (forall n v (h : header), CanonicalHeaderKey n <> "Connection" -> CanonicalHeaderKey n <> "Upgrade" ->
    upgradeType (Set_ n v h) = upgradeType h) as Hset.
  { intros n v h H1 H2. unfold upgradeType, Get, Values, Set_. change (CanonicalHeaderKey "Connection") with "Connection".
    change (CanonicalHeaderKey "Upgrade") with "Upgrade". by rewrite !lookup_insert_ne. }
  destruct (b_Learned b); [|done]. cbn [snd]. case_match; rewrite !Hset by done; done.
Qed.

(** The request sent for a backend. *)
Definition the_request (k : captured) (b : Backend) (stamped : bool) (r : request) (whole : string) : outreq :=
  let '(host, path, h) := Director k b stamped r in
  mkOut (b_URL b) (req_Method r) host path (req_RawQuery r) (forwarded_headers r h) whole.

Lemma outbound_request k b st r body whole :
  printable (upgradeType (req_Header r)) = true -> sent_body body = whole -> outbound k b st r body = Some (the_request k b st r whole).
Proof.
  intros Hp <-. unfold outbound, the_request. pose proof (upgrade_director k b st r) as Hu.
  destruct (Director k b st r) as [[host path] h]. cbn [snd] in Hu. by rewrite Hu, Hp.
Qed.

Lemma the_request_ident k b b' st r whole : ident b = ident b' -> the_request k b st r whole = the_request k b' st r whole.
Proof. unfold ident, the_request, Director. intros [= -> -> _ _ _ _]. done. Qed.

Section loop.
Context {W : Type} `{ResponseWriter W}.
Context (closure : loc -> captured) (worlds : nat -> world) (reqHost : string) (hopped : bool).
Context (g0 : RouteGroup) (s0 : gmap loc Backend) (r : request) (whole : string).

Lemma attribute_still g b b' (w : W) : still g = still g0 -> ident b = ident b' -> attribute hopped g b w = attribute hopped g0 b' w.
Proof.
  intros Hg Hb. unfold attribute, ident in *. injection Hb as -> _ _ -> _ _.
  assert (g_Sticky g = g_Sticky g0 /\ forall h id, setStickyCookie h g id = setStickyCookie h g0 id) as [-> Hs].
  { split; [change (g_Sticky (still g) = g_Sticky (still g0)); by rewrite Hg|]. intros h id.
    change (setStickyCookie h (still g) id = setStickyCookie h (still g0) id). by rewrite Hg. }
  by rewrite Hs.
Qed.

(** What a backend is, whatever its health. *)
Definition cast (l : loc) : Backend := default (makeBackend "" 0 "" "") (s0 !! l).
Definition attributed (ls : list loc) (w : W) : W := fold_left (fun w l => attribute hopped g0 (cast l) w) ls w.

Definition at_loc (en : loc * outreq * exchange) : loc := fst (fst en).
(** One request sent: to a backend of the group that may be used, complete. *)
Definition entry_ok (en : loc * outreq * exchange) : Prop :=
  at_loc en ∈ g_Backends g0 /\ (b_Learned (cast (at_loc en)) = true -> hopped = false) /\
  snd (fst en) = the_request (closure (at_loc en)) (cast (at_loc en)) false r whole.

(** How the loop may end after [new] requests of [k], and the writer then. *)
Definition story (k : nat) (tried : gset loc) (e : ending) (new : list (loc * outreq * exchange)) (w w' : W) : Prop :=
  let wa := attributed (at_loc <$> new) w in
  match e with
  | Exhausted =>
      Forall (fun en => failed (snd en) = true) new /\ w' = serve503 reqHost wa /\
      (length new = k \/ exists s, same_cast s s0 /\ forall l, ~ allowed s g0 hopped (list_to_set (at_loc <$> new) ∪ tried) l)
  | NotReplayable => Forall (fun en => failed (snd en) = true) new /\ w' = serveBodyNotReplayable reqHost wa
  | Served | Aborted =>
      exists pre en, new = (pre ++ [en])%list /\ Forall (fun en => failed (snd en) = true) pre /\ failed (snd en) = false /\
        w' = snd (fst (relay (snd en) (false, wa))) /\
        (e = Aborted <-> exists early st h chunks, snd en = Answer early st h chunks false)
  end.

Hypothesis polite_worlds : forall j, polite (worlds j).
Hypothesis all_valid : Forall (fun l => exists b, s0 !! l = Some b /\ is_Some (b_proxy b)) (g_Backends g0).
Hypothesis good_upgrade : printable (upgradeType (req_Header r)) = true.

Lemma cast_valid s : same_cast s s0 -> valid s (g_Backends g0).
Proof.
  intros Hs. apply (same_cast_valid s0); [by symmetry|]. eapply Forall_impl; [exact all_valid|]. intros l (b & Hb & _). by exists b.
Qed.

Lemma landed s l b : same_cast s s0 -> l ∈ g_Backends g0 -> s !! l = Some b -> is_Some (b_proxy b) /\ ident b = ident (cast l).
Proof.
  intros Hs Hin Hb. destruct (same_cast_lookup _ _ _ _ Hs Hb) as (b0 & Hb0 & Hid). unfold cast. rewrite Hb0. split; [|done].
  destruct (proj1 (Forall_forall _ _) all_valid l Hin) as (b0' & Hb0' & Hpx). rewrite Hb0 in Hb0'. injection Hb0' as <-.
  apply (f_equal snd) in Hid. cbn [snd ident] in Hid. rewrite (bool_decide_true (is_Some (b_proxy b0))) in Hid by done. by apply bool_decide_eq_true in Hid.
Qed.

Lemma story_cons k tried l o x e new w w' :
  failed x = true -> l ∉ tried ->
  story k ({[l]} ∪ tried) e new (attribute hopped g0 (cast l) w) w' -> story (S k) tried e ((l, o, x) :: new) w w'.
Proof.
  intros Hx Hl. unfold story. cbn [fmap list_fmap at_loc fst attributed fold_left]. fold (attributed (at_loc <$> new) (attribute hopped g0 (cast l) w)).
  destruct e.
  - intros (pre & en & -> & Hpre & Hen & Hw & Ha). exists ((l, o, x) :: pre), en. split_and!; try done. by constructor.
  - intros (Hf & Hw & Hend). split_and!; [by constructor|done|]. destruct Hend as [Hlen|(s & Hs & Hn)]; [left; cbn; lia|right].
    exists s. split; [done|]. intros l' Hl'. apply (Hn l'). cbn [list_to_set] in Hl'.
    by replace (list_to_set (at_loc <$> new) ∪ ({[l]} ∪ tried)) with ({[l]} ∪ list_to_set (at_loc <$> new) ∪ tried) by set_solver.
  - intros [Hf Hw]. split; [by constructor|done].
  - intros (pre & en & -> & Hpre & Hen & Hw & Ha). exists ((l, o, x) :: pre), en. split_and!; try done. by constructor.
Qed.

Lemma attempts_spec k : forall i tried pin again body sv w,
  same_cast (sv_store sv) s0 -> still (sv_group sv) = still g0 -> cursor_ok (sv_group sv) (Z.of_nat k) ->
  (pin <> "" -> hopped = false /\ tried = ∅) ->
  ready whole again (if decide (0 < i)%nat then rewindBody body else body) ->
  exists e sv' w' new, attempts closure worlds reqHost hopped k i tried pin again r body sv w = Ret (e, sv', w') /\
    same_cast (sv_store sv') s0 /\ sv_sent sv' = (sv_sent sv ++ new)%list /\ NoDup (at_loc <$> new) /\
    (forall l, l ∈ at_loc <$> new -> l ∉ tried) /\ Forall entry_ok new /\ (length new <= k)%nat /\ story k tried e new w w'.
Proof.
  induction k as [|k IH]; intros i tried pin again body sv w Hs Hg Hc Hpin Hready.
  { eexists _, _, _, []. rewrite app_nil_r. split_and!; try done; [constructor|by intros ? ?%not_elem_of_nil|]. split_and!; [done|done|by left]. }
  cbn [attempts]. set (s := wd_before (worlds i) (sv_store sv)).
  assert (same_cast s s0) as Hcast by (etrans; [apply polite_worlds|done]).
  destruct (pick_correct hopped (wd_now (worlds i)) s (sv_group sv) tried pin) as (p & g' & -> & Hg' & Hcur & Hp);
    [rewrite (still_Backends _ g0) by done; by apply cast_valid|destruct Hc; split; lia|done|]. cbn [mbind go_bind].
  assert (still g' = still g0) as Hg0 by congruence. destruct p as [l|].
  2: { eexists _, _, _, []. split; [reflexivity|]. rewrite app_nil_r. cbn [sv_store sv_sent set_sv_group set_sv_store].
       split_and!; try done; [constructor|by intros ? ?%not_elem_of_nil|cbn; lia|]. split_and!; [done|done|right]. exists s. split; [done|].
       intros l Hl. apply (Hp l). eapply allowed_still; [symmetry; exact Hg|]. by replace (list_to_set (at_loc <$> []) ∪ tried) with tried in Hl by set_solver. }
  destruct Hp as (Hin & Hnt & b & Hb & _ & _ & Hlearn). unfold deref. rewrite Hb. cbn [mbind go_bind].
  rewrite (still_Backends _ g0) in Hin by done. destruct (landed s l b Hcast Hin Hb) as [[px ->] Hid].
  rewrite (outbound_request _ b false r _ whole good_upgrade) by (destruct Hready; done).
  rewrite (attribute_still g' b (cast l) w Hg0 Hid). rewrite (the_request_ident _ b (cast l)) by done.
  pose proof (tryProxy_spec (worlds i) l b (the_request (closure l) (cast l) false r whole) (attribute hopped g0 (cast l) w)
    (set_sv_group g' (set_sv_store s sv)) (polite_worlds i)) as Ht.
  destruct (tryProxy _ _ _ _ _ _) as [[a w'] sv']. cbn [sv_group sv_store sv_sent set_sv_group set_sv_store] in Ht.
  set (x := wd_exchange (worlds i) l (the_request (closure l) (cast l) false r whole)) in *. set (o := the_request (closure l) (cast l) false r whole) in *.
  destruct Ht as (Hsg & Hss & Hsent & Hw & Hrel & Ha). set (en := (l, o, x)) in *.
  assert (entry_ok en) as Hen.
  { unfold entry_ok. cbn [at_loc fst snd en]. split_and!; [done| |done]. injection Hid as _ <- _ _ _ _. done. }
  destruct (failed x) eqn:Hf.
  - destruct x as [[|] []| |]; try done. subst a. rewrite (Hw eq_refl) in *. clear Hw Hrel. destruct again.
    + destruct (IH (S i) ({[l]} ∪ tried) "" true (consumed (if decide (0 < i)%nat then rewindBody body else body)) sv' (attribute hopped g0 (cast l) w))
        as (e & sv2 & w2 & new & -> & Hs2 & Hn2 & Hnd & Hfr & Hok & Hlen & Hst).
      * by etrans.
      * by rewrite Hsg.
      * rewrite Hsg. destruct Hc. split; lia.
      * done.
      * rewrite decide_True by lia. by apply ready_again.
      * exists e, sv2, w2, (en :: new). rewrite Hn2, Hsent, <- app_assoc. cbn [fmap list_fmap at_loc fst en]. split_and!; try done.
        -- constructor; [|done]. intros Hl. apply (Hfr l Hl). set_solver.
        -- intros l' [-> |Hl']%elem_of_cons; [done|]. specialize (Hfr l' Hl'). set_solver.
        -- by constructor.
        -- cbn. lia.
        -- by apply story_cons.
    + eexists NotReplayable, sv', _, [en]. split; [reflexivity|]. rewrite Hsent. cbn [fmap list_fmap at_loc fst en length]. split_and!; try done.
      * by etrans.
      * apply NoDup_singleton.
      * by intros l' ->%list_elem_of_singleton.
      * by constructor.
      * lia.
      * by split; [constructor|].
  - exists (if decide (a = Abort_) then Aborted else Served), sv', w', [en]. rewrite Hsent. cbn [fmap list_fmap at_loc fst en length].
    assert (a <> Retry) as Hnr by (clear - Hf Ha; destruct x as [[|] []|? ? ? ? []|]; cbn in Hf; congruence).
    split_and!; [| |done| | | |lia|].
    + destruct a; [by rewrite decide_False|done|by rewrite decide_True].
    + by etrans.
    + apply NoDup_singleton.
    + by intros l' ->%list_elem_of_singleton.
    + by constructor.
    + unfold story. cbn [fmap list_fmap at_loc fst en snd attributed fold_left].
      destruct (decide (a = Abort_)) as [Hd|Hd]; exists [], en; (split_and!; [done|constructor|done|done|]); split; try done.
      * intros _. clear - Ha Hd. destruct x as [[|] []|e' st h ch []|]; try congruence. by exists e', st, h, ch.
      * intros (e' & st & h & ch & Hx). cbn [snd en] in Hx. by rewrite Hx in Ha.
Qed.
End loop.

Lemma attempts_replayable {W} `{ResponseWriter W} closure worlds reqHost hopped k i tried pin r body sv (w : W) sv' w' :
  attempts closure worlds reqHost hopped k i tried pin true r body sv w <> Ret (NotReplayable, sv', w').
Proof.
  revert i tried pin body sv w. induction k as [|k IH]; intros i tried pin body sv w; cbn [attempts]; [done|].
  destruct (pick _ _ _ _ _ _) as [[p g']|]; [|done]. cbn [mbind go_bind]. destruct p as [l|]; [|done].
  destruct (deref _ l) as [b|]; [|done]. cbn [mbind go_bind]. destruct (b_proxy b); [|done].
  destruct (tryProxy _ _ _ _ _ _) as [[[] ?] ?]; [done|apply IH|done].
Qed.

(** What the loop needs of its surroundings: others only touch health and
    draining, the group's pointers are not nil, the cursor does not overflow. *)
Record sane (worlds : nat -> world) (hopped : bool) (pin whole : string) (r : request) (body : reqBody) (sv : serving) : Prop := {
  sn_polite : forall j, polite (worlds j);
  sn_valid : Forall (fun l => exists b, sv_store sv !! l = Some b /\ is_Some (b_proxy b)) (g_Backends (sv_group sv));
  sn_cursor : cursor_ok (sv_group sv) 3;
  sn_pin : pin <> "" -> hopped = false;
  sn_body : fresh_body whole body;
  sn_upgrade : printable (upgradeType (req_Header r)) = true;
}.

Section claims.
Context {W : Type} `{ResponseWriter W}.
Context (closure : loc -> captured) (worlds : nat -> world) (reqHost : string) (hopped : bool).

Lemma proxyToGroup_loop pin whole r body sv (w : W) :
  sane worlds hopped pin whole r body sv ->
  exists e sv' w' new, proxyToGroup closure worlds reqHost hopped pin r body sv w = Ret (e, sv', w') /\
    same_cast (sv_store sv') (sv_store sv) /\
    sv_sent sv' = (sv_sent sv ++ new)%list /\ (length new <= 3)%nat /\ NoDup (at_loc <$> new) /\
    Forall (entry_ok closure hopped (sv_group sv) (sv_store sv) r whole) new /\
    story reqHost hopped (sv_group sv) (sv_store sv) 3 ∅ e new w w'.
Proof.
  intros [Hp Hv Hc Hpin Hb Hu]. unfold proxyToGroup. pose proof (prepare_ready whole body Hb) as Hready.
  destruct (prepareRetryBody body) as [again body'].
  destruct (attempts_spec closure worlds reqHost hopped (sv_group sv) (sv_store sv) r whole Hp Hv Hu 3 0 ∅ pin again body' sv w)
    as (e & sv' & w' & new & Heq & Hcast & Hs & Hnd & _ & Hok & Hlen & Hst); [done|done|done|by intros ?%Hpin|done|].
  by exists e, sv', w', new.
Qed.

Lemma proxyToGroup_story pin whole r body sv (w : W) :
  sane worlds hopped pin whole r body sv ->
  exists e sv' w' new, proxyToGroup closure worlds reqHost hopped pin r body sv w = Ret (e, sv', w') /\
    sv_sent sv' = (sv_sent sv ++ new)%list /\ story reqHost hopped (sv_group sv) (sv_store sv) 3 ∅ e new w w'.
Proof. intros Hs. destruct (proxyToGroup_loop pin whole r body sv w Hs) as (e & sv' & w' & new & ? & ? & ? & ? & ? & ? & ?). by exists e, sv', w', new. Qed.

End claims.

(** ** What the client gets *)

Lemma attribute_client hopped g b (c : client) :
  let c' := attribute hopped g b c in
  cl_final c' = cl_final c /\ cl_body c' = cl_body c /\ cl_early c' = cl_early c /\ cl_backend c' = b_URL b /\ cl_upgrade c' = cl_upgrade c.
Proof. unfold attribute. by destruct (g_Sticky g && negb hopped). Qed.

Lemma attributed_client hopped g s ls (c : client) :
  let c' := attributed hopped g s ls c in
  cl_final c' = cl_final c /\ cl_body c' = cl_body c /\ cl_upgrade c' = cl_upgrade c /\ cl_early c' = cl_early c.
Proof.
  unfold attributed. revert c. induction ls as [|l ls IH]; intros c; [done|]. cbn [fold_left].
  destruct (IH (attribute hopped g (cast s l) c)) as (-> & -> & -> & ->).
  by destruct (attribute_client hopped g (cast s l) c) as (-> & -> & -> & _ & ->).
Qed.

(** The statuses a transport reports: informational ones early, then another. *)
Definition early_code (e : Z * header) : Prop := 100 <= fst e < 200 /\ fst e <> 101.
Definition proper (x : exchange) : Prop :=
  Forall early_code (early_of x) /\ match x with Answer _ st _ _ _ => 200 <= st | _ => True end.

(** Informational responses as they leave: the first with the queued headers,
    which are gone afterwards. *)
Definition relayed_early (queued : header) (l : list (Z * header)) : list (Z * header) :=
  match l with
  | [] => []
  | e :: l => (fst e, copyHeader queued (snd e)) :: ((fun e => (fst e, copyHeader ∅ (snd e))) <$> l)
  end.
Definition left_over {A} (queued : header) (l : list A) : header := match l with [] => queued | _ => ∅ end.

Lemma relayed_early_cons queued e l : relayed_early queued (e :: l) = (fst e, copyHeader queued (snd e)) :: relayed_early ∅ l.
Proof. by destruct l. Qed.

Lemma early_client l b (c : client) : Forall early_code l -> cl_final c = None ->
  let c' := snd (fold_left forward_early l (b, c)) in
  cl_final c' = None /\ cl_body c' = cl_body c /\ cl_upgrade c' = cl_upgrade c /\ cl_header c' = left_over (cl_header c) l /\
  cl_early c' = (cl_early c ++ relayed_early (cl_header c) l)%list.
Proof.
  intros Hl. revert b c. induction Hl as [|e l He Hl IH]; intros b c Hc; [by cbn; rewrite app_nil_r|]. cbn [fold_left].
  assert (forward_early (b, c) e = (true, mkClient ∅ (cl_early c ++ [(fst e, copyHeader (cl_header c) (snd e))])%list None (cl_body c) (cl_backend c) (cl_upgrade c))) as ->.
  { unfold forward_early. cbn. unfold client_WriteHeader. cbn. rewrite Hc, decide_True by done. done. }
  edestruct IH as (H1 & H2 & H3 & H4 & H5); [|split_and!; [exact H1|exact H2|exact H3|..]]; [done|by rewrite H4; destruct l|].
  rewrite H5, relayed_early_cons. cbn [cl_early cl_header]. by rewrite <- app_assoc.
Qed.

Lemma final_client code (c : client) : cl_final c = None -> 200 <= code ->
  client_WriteHeader code c = mkClient (cl_header c) (cl_early c) (Some (code, cl_header c)) (cl_body c) (cl_backend c) (cl_upgrade c).
Proof. intros Hc Hs. unfold client_WriteHeader. by rewrite Hc, decide_False by lia. Qed.

Lemma write_client chunks b (c : client) f : cl_final c = Some f ->
  let c' := snd (fold_left (fun w p => w_Write p w) chunks (b, c)) in
  cl_final c' = Some f /\ cl_body c' = cl_body c +:+ concat_bytes chunks /\ cl_early c' = cl_early c /\ cl_upgrade c' = cl_upgrade c.
Proof.
  revert b c. induction chunks as [|p ps IH]; intros b c Hc; cbn [fold_left]; [by rewrite append_nil_r|].
  assert (w_Write p (b, c) = (true, mkClient (cl_header c) (cl_early c) (cl_final c) (cl_body c +:+ p) (cl_backend c) (cl_upgrade c))) as ->.
  { cbn. unfold client_WriteHeader. rewrite Hc. cbn. by rewrite ?Hc. }
  edestruct IH as (-> & -> & -> & ->); [exact Hc|]. cbn [cl_body]. by rewrite append_assoc.
Qed.

(** What the last exchange leaves the client with, given its state before. *)
Definition client_view (x : exchange) (c c' : client) : Prop :=
  cl_early c' = (cl_early c ++ relayed_early (cl_header c) (early_of x))%list /\
  match x with
  | Answer early st h chunks _ =>
      cl_final c' = Some (st, copyHeader (left_over (cl_header c) early) (removeHopByHopHeaders h)) /\
      cl_body c' = cl_body c +:+ concat_bytes chunks /\ cl_upgrade c' = cl_upgrade c
  | Upgraded early h =>
      cl_final c' = None /\ cl_body c' = cl_body c /\ cl_upgrade c' = Some (copyHeader (left_over (cl_header c) early) h)
  | NoAnswer early _ =>
      cl_final c' = None /\ cl_body c' = cl_body c /\ cl_upgrade c' = cl_upgrade c /\ cl_header c' = left_over (cl_header c) early
  end.

Lemma relay_client x (c : client) : proper x -> cl_final c = None -> client_view x c (snd (fst (relay x (false, c)))).
Proof.
  intros [He Hst] Hc. destruct (early_client (early_of x) false c He Hc) as (H1 & H2 & H3 & H4 & H5). unfold client_view, relay.
  destruct (fold_left forward_early (early_of x) (false, c)) as [b1 c1]. cbn [snd] in *. destruct x as [e cancel|e st h chunks ok|e h]; cbn [fst snd].
  - done.
  - cbn [w_SetHeader w_WriteHeader w_Header errCatchingWriter client_writer snd fst early_of] in *. rewrite final_client by done.
    rewrite H4. cbn [cl_header cl_early cl_body cl_backend cl_upgrade]. edestruct write_client as (-> & -> & -> & ->); [reflexivity|].
    cbn [cl_body cl_early cl_upgrade]. by rewrite H2, H3, H5.
  - cbn [w_Hijack w_Header errCatchingWriter client_writer snd fst cl_final cl_upgrade cl_body cl_early]. by rewrite H4.
Qed.

Lemma send_client r (c : client) : cl_final c = None -> 200 <= rs_Status r ->
  cl_final (send r c) = Some (rs_Status r, rs_Header r) /\ cl_body (send r c) = cl_body c +:+ body_text (rs_Body r) /\
  cl_early (send r c) = cl_early c /\ cl_upgrade (send r c) = cl_upgrade c.
Proof.
  intros Hc Hs. unfold send. cbn [w_SetHeader w_WriteHeader w_Write client_writer].
  rewrite (final_client (rs_Status r)) by done. by unfold client_WriteHeader.
Qed.

(** What the last exchange leaves the client with, [c] being the client with the
    headers queued so far. *)
Definition last_answer (e : ending) (x : exchange) (c c' : client) : Prop :=
  cl_early c' = relayed_early (cl_header c) (early_of x) /\
  match x with
  | Answer early st h chunks complete =>
      cl_final c' = Some (st, copyHeader (left_over (cl_header c) early) (removeHopByHopHeaders h)) /\
      cl_body c' = concat_bytes chunks /\ cl_upgrade c' = None /\ (e = Aborted <-> complete = false)
  | Upgraded early h =>
      cl_final c' = None /\ cl_body c' = "" /\ cl_upgrade c' = Some (copyHeader (left_over (cl_header c) early) h) /\ e = Served
  | NoAnswer early canceled =>
      answered c' = (200, left_over (cl_header c) early) /\ cl_body c' = "" /\ cl_upgrade c' = None /\
      (canceled = true \/ early <> []) /\ e = Served
  end.

(** And the whole loop: a page of its own, or the last exchange; the ones before
    it failed with nothing received. *)
Definition one_answer (reqHost : string) (e : ending) (new : list (loc * outreq * exchange)) (c c' : client) : Prop :=
  let own_page status retryAfter :=
    Forall (fun en => snd en = NoAnswer [] false) new /\
    (exists h, cl_final c' = Some (status, h) /\ Get h "Retry-After" = FormatInt retryAfter) /\
    cl_body c' = page retryAfter status reqHost unavailable_reason /\ cl_early c' = [] /\ cl_upgrade c' = None in
  match e with
  | Exhausted => own_page 503 5
  | NotReplayable => own_page 502 300
  | Served | Aborted =>
      exists pre l o x, new = (pre ++ [(l, o, x)])%list /\ Forall (fun en => snd en = NoAnswer [] false) pre /\ last_answer e x c c'
  end.

(** A writer nothing was sent to. *)
Definition untouched (c : client) : Prop := cl_final c = None /\ cl_body c = "" /\ cl_early c = [] /\ cl_upgrade c = None.

Lemma relay_last e x (c : client) :
  e = Served \/ e = Aborted -> failed x = false -> proper x -> untouched c ->
  (e = Aborted <-> exists early st h chunks, x = Answer early st h chunks false) ->
  last_answer e x c (snd (fst (relay x (false, c)))).
Proof.
  intros He Hf Hp (Hc & Hb & Hea & Hu) Ha. destruct (relay_client x c Hp Hc) as [Hearly Hv]. unfold last_answer.
  rewrite Hearly, Hea. split; [done|]. rewrite Hb, Hu in Hv. destruct x as [early canceled|early st h chunks complete|early h].
  - destruct Hv as (H1 & H2 & H3 & H4). unfold answered. rewrite H1, H4. split_and!; try done.
    + destruct early, canceled; try done; [by left|by left|by right].
    + destruct He as [?| ->]; [done|]. by destruct (proj1 Ha eq_refl) as (? & ? & ? & ? & ?).
  - destruct Hv as (H1 & H2 & H3). split_and!; [done..|]. split.
    + intros (? & ? & ? & ? & Hx)%Ha. by injection Hx.
    + intros ->. apply Ha. by eexists _, _, _, _.
  - destruct Hv as (H1 & H2 & H3). split_and!; try done. destruct He as [?| ->]; [done|]. by destruct (proj1 Ha eq_refl) as (? & ? & ? & ? & ?).
Qed.

Lemma failed_exchanges (new : list (loc * outreq * exchange)) :
  Forall (fun en => failed (snd en) = true) new -> Forall (fun en => snd en = NoAnswer [] false) new.
Proof. intros Hf. eapply Forall_impl; [exact Hf|]. by intros [? [[] []| |]]. Qed.

Lemma attributed_untouched hopped g s ls (c : client) : untouched c -> untouched (attributed hopped g s ls c).
Proof. unfold untouched. by destruct (attributed_client hopped g s ls c) as (-> & -> & -> & ->). Qed.

(** C20. The client gets one answer, and it is that of the last backend the
    request was sent to: its informational responses, its status, its headers
    (less the hop-by-hop ones) added to those queued before, its body; the
    connection is aborted exactly when the backend's body broke off. Nothing of
    an earlier, failed attempt reaches the client. When the loop gives up, the
    client gets the unavailable page: a 503 that asks to retry after five
    seconds, or a 502 when the body could not be sent again. No status of a
    backend or page is given in three cases: the backend switches protocols, when
    its 101 and the connection are handed over; the client itself went away; or
    the backend failed after an informational response, which leaves the client
    an empty 200. All this for a request that does not ask for an upgrade to a
    protocol with unprintable characters, and backends that report informational
    statuses first and then one of at least 200. *)
Theorem client_gets_one_answer closure worlds reqHost hopped pin whole r body sv (c : client) :
  sane worlds hopped pin whole r body sv -> untouched c ->
  exists e sv' c' new, proxyToGroup closure worlds reqHost hopped pin r body sv c = Ret (e, sv', c') /\
    sv_sent sv' = (sv_sent sv ++ new)%list /\
    (Forall (fun en => proper (snd en)) new ->
     one_answer reqHost e new (attributed hopped (sv_group sv) (sv_store sv) (at_loc <$> new) c) c').
Proof.
  intros Hs Hc. destruct (proxyToGroup_story closure worlds reqHost hopped pin whole r body sv c Hs) as (e & sv' & c' & new & Heq & Hsent & Hst).
  exists e, sv', c', new. split; [done|]. split; [done|]. intros Hp.
  pose proof (attributed_untouched hopped (sv_group sv) (sv_store sv) (at_loc <$> new) c Hc) as Ha.
  assert (e = Served \/ e = Aborted -> one_answer reqHost e new (attributed hopped (sv_group sv) (sv_store sv) (at_loc <$> new) c) c') as Hserved.
  { intros He. unfold story in Hst. cbv zeta in Hst. set (wa := attributed hopped (sv_group sv) (sv_store sv) (at_loc <$> new) c) in *.
    assert (exists pre en, new = (pre ++ [en])%list /\ Forall (fun en => failed (snd en) = true) pre /\ failed (snd en) = false /\
      c' = snd (fst (relay (snd en) (false, wa))) /\ (e = Aborted <-> exists early st h chunks, snd en = Answer early st h chunks false))
      as (pre & [[l o] x] & Hn & Hpre & Hf & -> & Hab) by (destruct He as [-> | ->]; exact Hst).
    assert (last_answer e x wa (snd (fst (relay x (false, wa))))) as Hlast.
    { apply relay_last; try done. rewrite Forall_forall in Hp. apply (Hp (l, o, x)). rewrite Hn. apply elem_of_app. right. by left. }
    destruct He as [-> | ->]; cbn [one_answer snd]; exists pre, l, o, x; split_and!; try done; by apply failed_exchanges. }
  destruct e; [by apply Hserved; left| | |by apply Hserved; right]; cbn [story one_answer] in *; destruct Ha as (Hf & Hb & He & Hu).
  - destruct Hst as (Hfail & -> & _). split; [by apply failed_exchanges|]. unfold serve503.
    match goal with |- context [send ?p ?w] => destruct (send_client p w Hf ltac:(done)) as (-> & -> & -> & ->) end.
    rewrite Hb, He, Hu. split_and!; try done. eexists. split; [reflexivity|].
    cbn [rs_Header serveUnavailableRetry]. unfold Get, Values, Set_. change (CanonicalHeaderKey "Retry-After") with "Retry-After". by rewrite lookup_insert_eq.
  - destruct Hst as (Hfail & ->). split; [by apply failed_exchanges|]. unfold serveBodyNotReplayable.
    match goal with |- context [send ?p ?w] => destruct (send_client p w Hf ltac:(done)) as (-> & -> & -> & ->) end.
    rewrite Hb, He, Hu. split_and!; try done. eexists. split; [reflexivity|].
    cbn [rs_Header serveUnavailable serveUnavailableRetry]. unfold Get, Values, Set_. change (CanonicalHeaderKey "Retry-After") with "Retry-After". by rewrite lookup_insert_eq.
Qed.

(** ** The failures that are not retried, and the backends that are blamed *)

(** A backend that sends an informational response (103 Early Hints, say) and
    then fails is not retried, and the client gets an empty 200: the catching
    writer takes the informational status for the answer. *)
Lemma early_hint_hides_failure wd l b o (c : client) sv e es :
  wd_exchange wd l o = NoAnswer (e :: es) false -> Forall early_code (e :: es) -> cl_final c = None ->
  exists c' sv', tryProxy wd l b (Some o) c sv = (Done, c', sv') /\ answered c' = (200, ∅) /\ cl_body c' = cl_body c.
Proof.
  intros Hx He Hc. unfold tryProxy. rewrite Hx. cbn [relay early_of].
  pose proof (early_client (e :: es) false c He Hc) as (H1 & H2 & _ & H4 & _). pose proof (early_wrote (e :: es) c ltac:(done)) as Hw.
  destruct (fold_left forward_early (e :: es) (false, c)) as [wrote c']. cbn [fst snd] in *. subst wrote. eexists _, _. split; [reflexivity|].
  unfold answered. by rewrite H1, H4.
Qed.

(** A request for an upgrade to an unprintable protocol, which any client can
    send, never reaches the backend, yet marks it down. *)
Lemma bad_upgrade_blames_backend wd l b bk r body k st {W} `{ResponseWriter W} (w : W) sv :
  printable (upgradeType (req_Header r)) = false -> wd_during wd (sv_store sv) !! l = Some bk ->
  exists sv', tryProxy wd l b (outbound k b st r body) w sv = (Retry, w, sv') /\ sv_sent sv' = sv_sent sv /\
    sv_store sv' !! l = Some (markHealthy false bk).
Proof.
  intros Hp Hb. unfold outbound. pose proof (upgrade_director k b st r) as Hu. destruct (Director k b st r) as [[host path] h].
  cbn [snd] in Hu. rewrite Hu, Hp. unfold tryProxy. cbn. eexists. split; [reflexivity|]. split; [done|]. cbn. by rewrite lookup_alter_eq, Hb.
Qed.

(** ** Headers on the way to a backend *)

Lemma Del_all_lookup ks (h : header) k : Del_all ks h !! k = h !! k \/ Del_all ks h !! k = None.
Proof.
  destruct (decide (k ∈ CanonicalHeaderKey <$> ks)); [right; by apply Del_all_elem|left; by apply Del_all_ne].
Qed.

(** Whether the Connection header of a message names a header. *)
Definition dropped (h : header) (k : string) : bool :=
  bool_decide (k ∈ CanonicalHeaderKey <$> filter (fun t => t <> "") (tokens (Values h "Connection"))).

Lemma forwarded_removes r h k :
  k ∉ ["Te"; "Connection"; "Upgrade"; "X-Forwarded-For"; "User-Agent"] -> forwarded_headers r h !! k = removeHopByHopHeaders h !! k.
Proof.
  intros Hk. rewrite !not_elem_of_cons in Hk. destruct Hk as (H1 & H2 & H3 & H4 & H5 & _).
  unfold forwarded_headers. cbv zeta. unfold Set_.
  change (CanonicalHeaderKey "User-Agent") with "User-Agent". change (CanonicalHeaderKey "X-Forwarded-For") with "X-Forwarded-For".
  change (CanonicalHeaderKey "Upgrade") with "Upgrade". change (CanonicalHeaderKey "Connection") with "Connection". change (CanonicalHeaderKey "Te") with "Te".
  destruct (_ !! "User-Agent"); rewrite ?lookup_insert_ne by done; destruct (SplitHostPort _); rewrite ?lookup_insert_ne by done;
    case_decide; rewrite ?lookup_insert_ne by done; destruct (has_token _ "trailers"); by rewrite ?lookup_insert_ne by done.
Qed.

(** A header the reverse proxy does not write itself arrives as the Director
    left it, but not at all when the client's Connection header names it. *)
Lemma forwarded_exact r h k :
  k ∉ ["Te"; "Connection"; "Upgrade"; "X-Forwarded-For"; "User-Agent"] -> k ∉ CanonicalHeaderKey <$> hopHeaders ->
  forwarded_headers r h !! k = if dropped h k then None else h !! k.
Proof.
  intros Hk Hhop. rewrite forwarded_removes by done.
  unfold removeHopByHopHeaders, dropped. rewrite Del_all_ne by done. case_bool_decide; [by apply Del_all_elem|by apply Del_all_ne].
Qed.
Lemma forwarded_lookup r h k :
  k ∉ ["Te"; "Connection"; "Upgrade"; "X-Forwarded-For"; "User-Agent"] ->
  forwarded_headers r h !! k = h !! k \/ forwarded_headers r h !! k = None.
Proof.
  intros Hk. rewrite forwarded_removes by done.
  unfold removeHopByHopHeaders. destruct (Del_all_lookup hopHeaders (Del_all (filter (fun t => t <> "") (tokens (Values h "Connection"))) h) k) as [-> | ->]; [|by right].
  apply Del_all_lookup.
Qed.

(** The headers by which proxies trust each other, on a request that came
    without them: no local backend ever gets one, a peer gets the token only on
    a hop stamped with a variant. *)
Lemma hop_headers k b st r whole :
  req_Header r !! PeerHopHeader = None -> req_Header r !! PeerAuthHeader = None ->
  let h := o_Header (the_request k b st r whole) in
  (b_Learned b = false -> h !! PeerHopHeader = None /\ h !! PeerAuthHeader = None) /\
  (h !! PeerAuthHeader = None \/ (st = true /\ k_hopAuth k <> "" /\ h !! PeerAuthHeader = Some [k_hopAuth k])).
Proof.
  intros Hh Ha. unfold the_request, Director. destruct (b_Learned b); cbn [o_Header].
  - split; [done|]. destruct (negb (bool_decide (k_hopAuth k = "")) && st) eqn:Hs.
    + apply andb_true_iff in Hs as [Hs ->]. apply negb_true_iff, bool_decide_eq_false in Hs.
      destruct (forwarded_lookup r (Set_ PeerAuthHeader (k_hopAuth k) (Set_ PeerHopHeader "1" (req_Header r))) PeerAuthHeader) as [-> | ->]; [set_solver| |by left].
      right. split_and!; [done|done|]. apply lookup_insert_eq.
    + destruct (forwarded_lookup r (Set_ PeerHopHeader "1" (req_Header r)) PeerAuthHeader) as [-> | ->]; [set_solver| |by left].
      left. unfold Set_. by rewrite lookup_insert_ne.
  - assert (forall n, n = PeerHopHeader \/ n = PeerAuthHeader -> req_Header r !! n = None -> forwarded_headers r (req_Header r) !! n = None) as Hf.
    { intros n Hn Hr. destruct (forwarded_lookup r (req_Header r) n) as [-> | ->]; [destruct Hn as [-> | ->]; set_solver|done|done]. }
    rewrite !Hf by auto. split; [done|by left].
Qed.

(** ** Instances *)

(** The first backend of the group fails, the second answers. *)
Definition ex_world (k : nat) : world :=
  mkWorld id id 0 (fun _ _ => match k with O => NoAnswer [] false | _ => Answer [] 200 {["Content-Type" := ["text/plain"]]} ["hel"; "lo"] true end).
Definition ex_closure (l : loc) : captured := mkCaptured "h" "/a" false "".
Definition ex_req : request := mkRequest "POST" "h" "/a/x" "q=1" {["Connection" := ["close, X-Secret"]; "X-Secret" := ["s"]]} "198.51.100.7:4000".
Definition ex_body : reqBody := mkBody 4 (Some (mkReader "body" false false)) None.
Definition ex_serving : serving := mkServing ex_store ex_group [] [].

Lemma ex_sane : sane ex_world false "" "body" ex_req ex_body ex_serving.
Proof.
  split; [done| |by split|done|by split_and!|by vm_compute].
  repeat constructor; eexists; (split; [reflexivity|by eexists]).
Qed.

(** What reaches the second backend. *)
Example ex_sent :
  match proxyToGroup ex_closure ex_world "h" false "" ex_req ex_body ex_serving new_client with
  | Ret (e, sv, c) =>
      e = Served /\ at_loc <$> sv_sent sv = [1; 2]%positive /\ (fun en => o_Body (snd (fst en))) <$> sv_sent sv = ["body"; "body"] /\
      (b_healthyFlag <$> sv_store sv !! 1%positive) = Some false /\ fst (answered c) = 200 /\ cl_body c = "hello" /\ cl_backend c = "http://10.0.0.2:80"
  | Panic => False
  end.
Proof. vm_compute. done. Qed.


Lemma client_gets_one_answer_witness :
  exists sv' c', proxyToGroup ex_closure ex_world "h" false "" ex_req ex_body ex_serving new_client = Ret (Served, sv', c') /\
    one_answer "h" Served (sv_sent sv') (attributed false ex_group ex_store (at_loc <$> sv_sent sv') new_client) c'.
Proof.
  destruct (client_gets_one_answer ex_closure ex_world "h" false "" "body" ex_req ex_body ex_serving new_client ex_sane ltac:(by split))
    as (e & sv' & c' & new & Heq & Hsent & Hview).
  assert (e = Served) as -> by (pose proof Heq as H; vm_compute in H; by injection H).
  exists sv', c'. split; [exact Heq|]. cbn [sv_sent ex_serving app] in Hsent. rewrite Hsent. apply Hview.
  rewrite <- Hsent. pose proof Heq as H. vm_compute in H. injection H as <- _. repeat constructor; done.
Defined.
