(* ===== verification/AbServe.v ===== *)
(** * Proxying a request of an A/B test: cmd/proxy/abtest.go

    [abProxyToGroup] is the backend loop with a decision: it picks within the
    session's variant and its failover, tells the backend the variant, retries a
    static 404 on the other variant, and counts the request. *)
From S2P Require Import Prelude GoString Sha256 RateLimit Router Balancer Cache Net AuthGate AbConfig AbRun AbAssign Http Serve.
Open Scope string_scope.

(** ** Writers *)

Record statusWriter (W : Type) := mkStatus { sw_status : Z; sw_w : W }.
Arguments mkStatus {W}. Arguments sw_status {W}. Arguments sw_w {W}.

(** [abStatusWriter]: the first final status. *)
#[export] Instance abStatusWriter {W} `{ResponseWriter W} : ResponseWriter (statusWriter W) := {|
  w_Header w := w_Header (sw_w w);
  w_SetHeader h w := mkStatus (sw_status w) (w_SetHeader h (sw_w w));
  w_WriteHeader code w :=
    mkStatus (if decide (200 <= code /\ sw_status w = 0) then code else sw_status w) (w_WriteHeader code (sw_w w));
  w_Write p w := mkStatus (if decide (sw_status w = 0) then 200 else sw_status w) (w_Write p (sw_w w));
  w_SetBackend s w := mkStatus (sw_status w) (w_SetBackend s (sw_w w));
  w_Hijack h w := mkStatus (sw_status w) (w_Hijack h (sw_w w));
|}.

Record staticWriter (W : Type) := mkStatic { st_h : header; st_forwarded : bool; st_swallowed : bool; st_w : W }.
Arguments mkStatic {W}. Arguments st_h {W}. Arguments st_forwarded {W}. Arguments st_swallowed {W}. Arguments st_w {W}.

(** [abStaticWriter]: its own header map; a 404 is swallowed. *)
Definition static_WriteHeader {W} `{ResponseWriter W} (code : Z) (w : staticWriter W) : staticWriter W :=
  if st_forwarded w || st_swallowed w then w
  else if decide (code < 200) then mkStatic (st_h w) false false (w_WriteHeader code (st_w w))
  else if decide (code = 404) then mkStatic (st_h w) false true (st_w w)
  else mkStatic (st_h w) true false (w_WriteHeader code (w_SetHeader (copyHeader (w_Header (st_w w)) (st_h w)) (st_w w))).

#[export] Instance abStaticWriter {W} `{ResponseWriter W} : ResponseWriter (staticWriter W) := {|
  w_Header := st_h;
  w_SetHeader h w := mkStatic h (st_forwarded w) (st_swallowed w) (st_w w);
  w_WriteHeader := static_WriteHeader;
  w_Write p w :=
    let w := if negb (st_forwarded w) && negb (st_swallowed w) then static_WriteHeader 200 w else w in
    if st_swallowed w then w else mkStatic (st_h w) (st_forwarded w) (st_swallowed w) (w_Write p (st_w w));
  w_SetBackend s w := mkStatic (st_h w) (st_forwarded w) (st_swallowed w) (w_SetBackend s (st_w w));
  w_Hijack h w := mkStatic (st_h w) (st_forwarded w) (st_swallowed w) (w_Hijack h (st_w w));
|}.

(** ** Picking *)

(** A pickable backend of a variant, whatever its probes say. *)
Definition hasVariant (s : gmap loc Backend) (g : RouteGroup) (v : string) : go bool :=
  foldr (fun l rest => b ← deref s l;
           if inVariant b v && negb (b_DockerUnhealthy b) && negb (b_draining b) then Ret true else rest)
    (Ret false) (g_Backends g).

(** The next choice when the last one is nil. *)
Definition or_else (c : go (option loc * RouteGroup)) (k : RouteGroup -> go (option loc * RouteGroup)) : go (option loc * RouteGroup) :=
  '(b, g) ← c; match b with Some _ => Ret (b, g) | None => k g end.

Definition panicked (now : Z) (c : go (option loc * RouteGroup)) : go (option loc * RouteGroup) :=
  '(b, g) ← c; Ret (b, match b with Some _ => snd (logPanicOnce now g) | None => g end).

Definition abPick (now : Z) (s : gmap loc Backend) (g : RouteGroup) (tried : gset loc) (allowPeer : bool) (own failover : string)
  : go (option loc * RouteGroup) :=
  or_else (pickHealthy s g tried allowPeer own) (fun g =>
  or_else (if decide (failover = "") then Ret (None, g) else pickHealthy s g tried allowPeer failover) (fun g =>
  or_else (panicked now (pickAny s g tried allowPeer own)) (fun g =>
  if decide (failover = "") then Ret (None, g) else panicked now (pickAny s g tried allowPeer failover)))).

(** ** Recording *)

Definition recordVariant (d : abDecision) : string := if decide (d_failoverFrom d = "") then d_variant d else d_failoverFrom d.

Section ab.
Context {W : Type} `{ResponseWriter W}.
Context (closure : loc -> captured) (worlds : nat -> world) (reqHost : string) (hopped : bool).
Context (now latency : nat -> Z).      (* [r.clock()] and the latency measured, by attempt *)
Context (d : abDecision).

Definition peerRuns (run : abRun) (b : Backend) : bool := b_Learned b && bool_decide (b_peerTestID b = r_id run).

Definition abRecordServed (i : nat) (b : Backend) (status : Z) (run : abRun) : go abRun :=
  let run := if b_Learned b && bool_decide (500 <= status) then addHopError run else run in
  if peerRuns run b || negb (d_record d) || bool_decide (status = 0) then Ret run
  else if decide (d_failoverFrom d <> "" \/ variantName b <> d_variant d)
  then record (abIdx (recordVariant d)) abFailover status (latency i) (now i) run
  else if b_Learned b then Ret run
  else record (abIdx (d_variant d)) abServed status (latency i) (now i) run.

(** No backend could be reached: a transport error, unless the last was a peer. *)
Definition record_transport (i : nat) (last : option Backend) (run : abRun) : go abRun :=
  match last with
  | Some b => if d_record d && negb (b_Learned b) then record (abIdx (recordVariant d)) abTransport 0 0 (now i) run else Ret run
  | None => Ret run
  end.

(** ** The loop *)

(** The variant headers of one attempt, set on the request itself. *)
Definition stamp_variant (run : abRun) (b : Backend) (r : request) : request :=
  let h := Del abFailoverHeader (Set_ abVariantHeader (variantName b) (req_Header r)) in
  let h := if peerRuns run b && negb (bool_decide (variantName b = d_variant d))
           then Set_ abFailoverHeader "1" (Set_ abVariantHeader (d_variant d) h) else h in
  set_Header h r.

(** A pin counts only within the variant. *)
Definition ab_pinned (s : gmap loc Backend) (g : RouteGroup) (pin : string) : go (option loc) :=
  if decide (pin = "") then Ret None
  else
    l ← backendByStickyID s g pin;
    match l with
    | None => Ret None
    | Some l =>
        b ← deref s l;
        Ret (if healthy b && (negb (b_Learned b) || g_Spread g) && bool_decide (variantName b = d_variant d) then Some l else None)
    end.

Definition ab_pick (t : Z) (s : gmap loc Backend) (g : RouteGroup) (tried : gset loc) (pin : string) : go (option loc * RouteGroup) :=
  p ← ab_pinned s g pin;
  match p with
  | Some l => Ret (Some l, g)
  | None => abPick t s g tried (negb hopped) (d_variant d) (d_failover d)
  end.

(** What a swallowed 404 leaves in the header map. *)
Definition restore404 (h404 dst : header) : header := filter (fun kv => fst kv <> "Content-Length") h404 ∪ dst.

(** One retry on the other variant, never recorded; else the 404 itself. *)
Definition abStaticFallback (i : nat) (tried : gset loc) (r : request) (body : reqBody) (run : abRun) (sv : serving) (h404 : header)
    (w : statusWriter W) : go (ending * serving * abRun * statusWriter W) :=
  let wd := worlds i in
  let s := wd_before wd (sv_store sv) in
  let other := abOther (d_variant d) in
  '(p, g) ← or_else (pickHealthy s (sv_group sv) tried (negb hopped) other) (fun g => pickAny s g tried (negb hopped) other);
  let sv := set_sv_group g (set_sv_store s sv) in
  let replay404 (sv : serving) (w : statusWriter W) := w_WriteHeader 404 (w_SetHeader (restore404 h404 (w_Header w)) w) in
  match p with
  | None => Ret (Served, sv, run, replay404 sv w)
  | Some l =>
      b ← deref s l;
      match b_proxy b with
      | None => Panic
      | Some _ =>
          let run := addStaticFallback run in
          let w := w_SetBackend (b_URL b) w in
          let r := set_Header (Del abFailoverHeader (Set_ abVariantHeader (variantName b) (req_Header r))) r in
          let '(a, w, sv) := tryProxy wd l b (outbound (closure l) b true r (rewindBody body)) w sv in
          match a with
          | Done => Ret (Served, sv, run, w)
          | Abort_ => Ret (Aborted, sv, run, w)
          | Retry => Ret (Served, sv, run, replay404 sv w)
          end
      end
  end.

(** One attempt, behind an [abStaticWriter] when a 404 may be retried: what came
    of it, and the headers of a swallowed 404. *)
Definition ab_try (staticRetry : bool) (wd : world) (l : loc) (b : Backend) (out : option outreq) (w : statusWriter W) (sv : serving)
    : attempt * option header * statusWriter W * serving :=
  if staticRetry
  then let '(a, stw, sv) := tryProxy wd l b out (mkStatic ∅ false false w) sv in
       (a, if st_swallowed stw then Some (st_h stw) else None, st_w stw, sv)
  else let '(a, w, sv) := tryProxy wd l b out w sv in (a, None, w, sv).

Fixpoint ab_attempts (k i : nat) (tried : gset loc) (pin : string) (retryable staticRetry : bool) (last : option Backend)
    (r : request) (body : reqBody) (run : abRun) (sv : serving) (w : statusWriter W)
    : go (ending * serving * abRun * statusWriter W) :=
  match k with
  | O => run ← record_transport i last run; Ret (Exhausted, sv, run, serve503 reqHost w)
  | S k =>
      let wd := worlds i in
      let s := wd_before wd (sv_store sv) in
      '(p, g) ← ab_pick (wd_now wd) s (sv_group sv) tried pin;
      let sv := set_sv_group g (set_sv_store s sv) in
      match p with
      | None => run ← record_transport i last run; Ret (Exhausted, sv, run, serve503 reqHost w)
      | Some l =>
          b ← deref s l;
          match b_proxy b with
          | None => Panic
          | Some _ =>
              let w := attribute hopped g b w in
              let r := stamp_variant run b r in
              let body := if decide (0 < i)%nat then rewindBody body else body in
              let '(a, h404, w, sv) := ab_try staticRetry wd l b (outbound (closure l) b true r body) w sv in
              match a with
              | Abort_ => Ret (Aborted, sv, run, w)
              | Retry =>
                  let run := if b_Learned b then addHopError run else run in
                  if staticRetry || retryable
                  then ab_attempts k (S i) ({[l]} ∪ tried) "" retryable staticRetry (Some b) r (consumed body) run sv w
                  else run ← record_transport i (Some b) run; Ret (NotReplayable, sv, run, serveBodyNotReplayable reqHost w)
              | Done =>
                  match h404 with
                  | Some h => abStaticFallback (S i) ({[l]} ∪ tried) r (consumed body) run sv h w
                  | None => run ← abRecordServed i b (sw_status w) run; Ret (Served, sv, run, w)
                  end
              end
          end
      end
  end.

Definition abProxyToGroup (pin : string) (r : request) (body : reqBody) (run : abRun) (sv : serving) (w : W)
    : go (ending * serving * abRun * W) :=
  let '(retryable, body) := prepareRetryBody body in
  let isGetHead := bool_decide (req_Method r = "GET") || bool_decide (req_Method r = "HEAD") in
  staticRetry ← if retryable && d_static d && isGetHead then hasVariant (sv_store sv) (sv_group sv) (abOther (d_variant d)) else Ret false;
  '(e, sv, run, w) ← ab_attempts maxRetries 0 ∅ pin retryable staticRetry None r body run sv (mkStatus 0 w);
  Ret (e, sv, run, sw_w w).
End ab.

(** * Properties *)

(** ** Picking within the variant *)

Lemma eligible_any s g tried ap v l : eligible s g tried ap false v l -> eligible s g tried ap true v l.
Proof.
  intros (H1 & H2 & b & Hb & Hv & He & Hp). split_and!; [done|done|]. exists b. split_and!; [done|done| |done].
  unfold excludedFrom in *. destruct (b_DockerUnhealthy b || b_draining b); done.
Qed.

(** What an A/B pick may be: of the session's variant; or of the failover's,
    when no backend of the session's variant is healthy. *)
Definition ab_choice (s : gmap loc Backend) (g : RouteGroup) (tried : gset loc) (ap : bool) (own fo : string) (l : loc) : Prop :=
  eligible s g tried ap true own l \/
  (fo <> "" /\ eligible s g tried ap true fo l /\ forall l', ~ eligible s g tried ap false own l').

Definition nobody (s : gmap loc Backend) (g : RouteGroup) (tried : gset loc) (ap : bool) (own fo : string) : Prop :=
  forall l, ~ eligible s g tried ap true own l /\ (fo <> "" -> ~ eligible s g tried ap true fo l).

Lemma panicked_still now r g : exists g', panicked now (Ret (r, g)) = Ret (r, g') /\ still g' = still g /\ g_cursor g' = g_cursor g.
Proof. cbn. eexists. split; [reflexivity|]. destruct r; [|by split]. unfold logPanicOnce. case_decide; by split. Qed.

Lemma abPick_correct now s g tried ap own fo :
  valid s (g_Backends g) -> cursor_ok g 1 ->
  exists r g', abPick now s g tried ap own fo = Ret (r, g') /\ still g' = still g /\ g_cursor g <= g_cursor g' <= g_cursor g + 1 /\
    match r with Some l => ab_choice s g tried ap own fo l | None => nobody s g tried ap own fo end.
Proof.
  intros Hv Hc. unfold abPick. pose proof (pick_spec s g tried ap) as Hpick.
  destruct (Hpick false own Hv Hc) as (r1 & -> & Hr1). cbn [or_else mbind go_bind]. destruct r1 as [l|].
  { eexists _, _. split; [reflexivity|]. split; [done|]. cbn. split; [lia|]. left. apply eligible_any, Hr1. }
  cbn [pick_result] in Hr1.
  assert (forall v l, v = own \/ (fo <> "" /\ v = fo) -> eligible s g tried ap true v l -> ab_choice s g tried ap own fo l) as Hch.
  { intros v l [-> |[Hf ->]] He; [by left|right]. by split_and!. }
  assert (exists r2 g2, (if decide (fo = "") then Ret (None, g) else pickHealthy s g tried ap fo) = Ret (r2, g2) /\
    match r2 with Some l => g2 = set_g_cursor (g_cursor g + 1) g /\ ab_choice s g tried ap own fo l | None => g2 = g end) as (r2 & g2 & -> & Hr2).
  { case_decide as Hf; [by eexists _, _|]. destruct (Hpick false fo Hv Hc) as (r2 & -> & Hr2). eexists _, _. split; [reflexivity|].
    destruct r2 as [l|]; [|done]. split; [done|]. apply (Hch fo); [by right|]. apply eligible_any, Hr2. }
  cbn [or_else mbind go_bind]. destruct r2 as [l|]; [destruct Hr2 as [-> Hr2]; eexists _, _; split; [reflexivity|]; split; [done|]; cbn; split; [lia|done]|].
  subst g2. destruct (Hpick true own Hv Hc) as (r3 & Heq3 & Hr3). cbn beta iota in Heq3. rewrite Heq3.
  destruct (panicked_still now r3 (match r3 with Some _ => set_g_cursor (g_cursor g + 1) g | None => g end)) as (g3 & -> & Hg3 & Hc3).
  cbn [or_else mbind go_bind]. destruct r3 as [l|].
  { eexists _, _. split; [reflexivity|]. rewrite Hg3, Hc3. split; [done|]. cbn. split; [lia|]. apply (Hch own); [by left|]. apply Hr3. }
  cbn [pick_result] in Hr3. assert (cursor_ok g3 1) as Hok by (destruct Hc; split; lia).
  assert (g_Backends g3 = g_Backends g) as Hb3 by (by apply still_Backends).
  assert (forall l ih v, eligible s g3 tried ap ih v l <-> eligible s g tried ap ih v l) as Hel by (intros; unfold eligible; by rewrite Hb3).
  case_decide as Hf.
  { eexists _, _. split; [reflexivity|]. split; [done|]. split; [lia|]. intros l. by split; [apply Hr3|]. }
  destruct (pick_spec s g3 tried ap true fo) as (r4 & Heq4 & Hr4); [by rewrite Hb3|done|]. cbn beta iota in Heq4. rewrite Heq4.
  destruct (panicked_still now r4 (match r4 with Some _ => set_g_cursor (g_cursor g3 + 1) g3 | None => g3 end)) as (g4 & -> & Hg4 & Hc4).
  eexists _, _. split; [reflexivity|]. rewrite Hg4, Hc4. destruct r4 as [l|].
  - split; [by rewrite <- Hg3|]. cbn. split; [lia|]. apply (Hch fo); [by right|]. apply Hel, Hr4.
  - split; [done|]. split; [lia|]. intros l. split; [apply Hr3|]. intros _ He. apply (Hr4 l). by apply Hel.
Qed.

Lemma ab_pick_correct hopped d now s g tried pin :
  valid s (g_Backends g) -> cursor_ok g 1 -> (pin <> "" -> hopped = false /\ tried = ∅) ->
  exists r g', ab_pick hopped d now s g tried pin = Ret (r, g') /\ still g' = still g /\ g_cursor g <= g_cursor g' <= g_cursor g + 1 /\
    match r with
    | Some l => ab_choice s g tried (negb hopped) (d_variant d) (d_failover d) l
    | None => nobody s g tried (negb hopped) (d_variant d) (d_failover d)
    end.
Proof.
  intros Hv Hc Hpin. unfold ab_pick.
  assert (exists p, ab_pinned d s g pin = Ret p /\ forall l, p = Some l -> eligible s g tried (negb hopped) true (d_variant d) l) as (p & -> & Hp).
  { unfold ab_pinned. case_decide as Hd; [by exists None|]. unfold backendByStickyID.
    destruct (find_sticky_spec s pin (g_Backends g) Hv) as (r & -> & Hr). cbn [mbind go_bind].
    destruct r as [l|]; [|by exists None]. destruct Hr as (Hl & b & Hb & _). unfold deref. rewrite Hb. cbn [mbind go_bind].
    eexists. split; [reflexivity|]. intros l' Hl'. destruct (healthy b && _ && _) eqn:Hh; [|done]. injection Hl' as <-.
    apply andb_true_iff in Hh as [Hh Hvn]. apply andb_true_iff in Hh as [Hh _]. apply bool_decide_eq_true in Hvn.
    unfold healthy in Hh. destruct (Hpin Hd) as [-> ->]. split_and!; [done|set_solver|]. exists b. unfold excludedFrom, inVariant.
    rewrite (bool_decide_true (variantName b = d_variant d)) by done. rewrite orb_true_r. by destruct (b_DockerUnhealthy b), (b_draining b). }
  cbn [mbind go_bind]. destruct p as [l|]; [exists (Some l), g; split_and!; [done|done|lia|lia|left; by apply Hp]|].
  by apply abPick_correct.
Qed.

(** ** Statuses *)

(** The final status an exchange ends with, 0 when it has none. *)
Definition status_of (x : exchange) : Z := match x with Answer _ st _ _ _ => st | _ => 0 end.

Section statuses.
Context {W : Type} `{ResponseWriter W}.

Lemma early_status es b (w : statusWriter W) : Forall early_code es ->
  sw_status (snd (fold_left forward_early es (b, w))) = sw_status w.
Proof.
  intros Hes. revert b w. induction Hes as [|e es [He _] Hes IH]; intros b w; [done|]. cbn [fold_left].
  transitivity (sw_status (snd (forward_early (b, w) e))); [apply (IH true)|]. cbn. by rewrite decide_False by lia.
Qed.

Lemma write_status ps b (w : statusWriter W) : sw_status w <> 0 ->
  sw_status (snd (fold_left (fun w p => w_Write p w) ps (b, w))) = sw_status w.
Proof.
  revert b w. induction ps as [|p ps IH]; intros b w Hw; [done|]. cbn [fold_left].
  transitivity (sw_status (w_Write p w)); [apply (IH true); cbn; by rewrite decide_False|]. cbn. by rewrite decide_False.
Qed.

Lemma status_relay x (w : statusWriter W) : proper x -> sw_status w = 0 -> sw_status (snd (fst (relay x (false, w)))) = status_of x.
Proof.
  intros [He Hst] Hw. unfold relay. pose proof (early_status (early_of x) false w He) as Hs. rewrite Hw in Hs.
  destruct (fold_left forward_early (early_of x) (false, w)) as [b1 w1]. cbn [snd] in Hs. destruct x as [e c|e st h ps ok|e h]; [done| |done].
  cbn [fst status_of]. transitivity (sw_status (w_WriteHeader st (w_SetHeader (copyHeader (w_Header w1) (removeHopByHopHeaders h)) w1))).
  - apply (write_status ps true). cbn. rewrite decide_True by done. lia.
  - cbn. by rewrite decide_True.
Qed.

(** Behind an [abStaticWriter]. *)
Definition st_idle (w : staticWriter (statusWriter W)) : Prop := st_forwarded w = false /\ st_swallowed w = false /\ sw_status (st_w w) = 0.

Lemma early_static es b (w : staticWriter (statusWriter W)) : Forall early_code es -> st_idle w ->
  st_idle (snd (fold_left forward_early es (b, w))).
Proof.
  intros Hes. revert b w. induction Hes as [|e es [He _] Hes IH]; intros b w Hw; [done|]. cbn [fold_left].
  apply (IH true). destruct Hw as (H1 & H2 & H3). unfold st_idle. cbn. unfold static_WriteHeader. cbn. rewrite H1, H2. cbn.
  rewrite decide_True by lia. cbn. split_and!; [done|done|]. by rewrite decide_False by lia.
Qed.

Lemma write_static ps b (w : staticWriter (statusWriter W)) :
  st_swallowed w = true \/ (st_forwarded w = true /\ st_swallowed w = false /\ sw_status (st_w w) <> 0) ->
  let w' := snd (fold_left (fun w p => w_Write p w) ps (b, w)) in st_swallowed w' = st_swallowed w /\ sw_status (st_w w') = sw_status (st_w w).
Proof.
  revert b w. induction ps as [|p ps IH]; intros b w Hw; [done|]. cbn [fold_left].
  assert (exists w1, w_Write p (b, w) = (true, w1) /\ st_forwarded w1 = st_forwarded w /\ st_swallowed w1 = st_swallowed w /\ sw_status (st_w w1) = sw_status (st_w w))
    as (w1 & -> & H0 & H1 & H2).
  { eexists. split; [reflexivity|]. destruct Hw as [Hs|(Hf & Hs & Hn)]; cbn; rewrite Hs.
    - by rewrite andb_false_r, Hs.
    - rewrite Hf. cbn. rewrite Hs. cbn. rewrite decide_False by done. done. }
  destruct (IH true w1) as [-> ->]; [|by split]. destruct Hw as [Hs|(Hf & Hs & Hn)]; [left; congruence|right]. split_and!; congruence.
Qed.

Lemma static_relay x h (w : statusWriter W) : proper x -> sw_status w = 0 ->
  let w' := snd (fst (relay x (false, mkStatic h false false w))) in
  st_swallowed w' = bool_decide (status_of x = 404) /\ (status_of x <> 404 -> sw_status (st_w w') = status_of x).
Proof.
  intros [He Hst] Hw. unfold relay. pose proof (early_static (early_of x) false (mkStatic h false false w) He ltac:(done)) as (H1 & H2 & H3).
  destruct (fold_left forward_early (early_of x) (false, mkStatic h false false w)) as [b1 w1]. cbn [snd] in *.
  destruct x as [e c|e st hx ps ok|e hx]; [done| |done]. cbn [fst status_of].
  set (w2 := w_WriteHeader st (w_SetHeader (copyHeader (w_Header (b1, w1)) (removeHopByHopHeaders hx)) (b1, w1))).
  assert (fst w2 = true /\ (st = 404 -> st_swallowed (snd w2) = true) /\
    (st <> 404 -> st_forwarded (snd w2) = true /\ st_swallowed (snd w2) = false /\ sw_status (st_w (snd w2)) = st)) as (Hb & Hy & Hn).
  { split; [done|]. cbn. unfold static_WriteHeader. cbn. rewrite H1, H2. cbn. rewrite (decide_False (P := st < 200)) by lia.
    case_decide; cbn; [by split|]. split; [done|]. intros _. split_and!; [done|done|]. rewrite decide_True by done. done. }
  destruct w2 as [b2 w2]. cbn [fst snd] in *. destruct (decide (st = 404)) as [Hd|Hd].
  - rewrite bool_decide_true by done. destruct (write_static ps b2 w2) as [-> _]; [left; by apply Hy|]. by rewrite Hy.
  - rewrite bool_decide_false by done. destruct (Hn Hd) as (Hf & Hs & Hss). destruct (write_static ps b2 w2) as [-> ->]; [|done].
    right. split_and!; [done|done|lia].
Qed.

Lemma attribute_status hopped g b (w : statusWriter W) : sw_status (attribute hopped g b w) = sw_status w.
Proof. unfold attribute. by destruct (_ && _). Qed.

(** One attempt of the A/B loop. *)
Lemma ab_try_spec sr wd l b o (w : statusWriter W) sv :
  polite wd ->
  let x := wd_exchange wd l o in
  let '(a, h404, w', sv') := ab_try sr wd l b (Some o) w sv in
  sv_group sv' = sv_group sv /\ same_cast (sv_store sv') (sv_store sv) /\ sv_sent sv' = (sv_sent sv ++ [(l, o, x)])%list /\
  (failed x = true -> w' = w) /\
  a = match x with Answer _ _ _ _ false => Abort_ | NoAnswer [] false => Retry | _ => Done end /\
  (is_Some h404 -> sr = true) /\
  (sw_status w = 0 -> proper x ->
   if decide (sr = true /\ status_of x = 404) then is_Some h404 else h404 = None /\ sw_status w' = status_of x).
Proof.
  intros Hp x. unfold ab_try. destruct sr.
  - pose proof (tryProxy_spec wd l b o (mkStatic ∅ false false w) sv Hp) as Ht. destruct (tryProxy _ _ _ _ _ _) as [[a stw] sv'].
    destruct Ht as (H1 & H2 & H3 & H4 & H5 & H6). fold x in H3, H4, H5, H6. split_and!; [done|done|done| |done|done|].
    + intros Hf. by rewrite (H4 Hf).
    + intros Hw Hx. destruct (static_relay x ∅ w Hx Hw) as [Hsw Hst]. rewrite <- H5 in Hsw, Hst.
      destruct (decide _) as [[_ Hd]|Hd]; rewrite Hsw; [by rewrite bool_decide_true by done|].
      rewrite bool_decide_false by naive_solver. split; [done|]. apply Hst. naive_solver.
  - pose proof (tryProxy_spec wd l b o w sv Hp) as Ht. destruct (tryProxy _ _ _ _ _ _) as [[a w'] sv'].
    destruct Ht as (H1 & H2 & H3 & H4 & H5 & H6). fold x in H3, H4, H5, H6. split_and!; [done|done|done|done|done|by intros []|].
    intros Hw Hx. rewrite decide_False by naive_solver. split; [done|]. rewrite H5. by apply status_relay.
Qed.
End statuses.

(** ** Counting *)

(** A run apart from the two counters kept beside the experiment's. *)
Definition calm (run : abRun) : abRun := set_r_staticFallbacks 0 (set_r_hopErrors 0 run).
Definition aside (run run' : abRun) : Prop := calm run = calm run'.

Lemma aside_id run run' : aside run run' -> r_id run = r_id run' /\ r_cfg run = r_cfg run'.
Proof. intros Ha. split; [change (r_id (calm run) = r_id (calm run'))|change (r_cfg (calm run) = r_cfg (calm run'))]; by rewrite Ha. Qed.

Section counting.
Context (now latency : nat -> Z) (d : abDecision).

(** What a final answer counts as, when it is counted here. *)
Definition served_as (run : abRun) (b : Backend) (st : Z) : option abOutcome :=
  if peerRuns run b || negb (d_record d) || bool_decide (st = 0) then None
  else if decide (d_failoverFrom d <> "" \/ variantName b <> d_variant d) then Some abFailover
  else if b_Learned b then None else Some abServed.

(** The count of the outcome, if any, on top of what is kept beside. *)
Definition counts (o : option (abOutcome * Z)) (run run' : abRun) : Prop :=
  exists run1, aside run run1 /\
    match o with
    | None => run' = run1
    | Some (out, st) => exists lat t, record (abIdx (recordVariant d)) out st lat t run1 = Ret run'
    end.

Lemma record_total v out st lat t run : is_Some (r_cfg run) -> exists run', record v out st lat t run = Ret run'.
Proof. intros [c Hc]. unfold record. rewrite Hc. by eexists. Qed.

Lemma abRecordServed_spec i b st run : is_Some (r_cfg run) ->
  exists run', abRecordServed now latency d i b st run = Ret run' /\ counts ((fun o => (o, st)) <$> served_as run b st) run run'.
Proof.
  intros Hc. unfold abRecordServed. set (run1 := if b_Learned b && bool_decide (500 <= st) then addHopError run else run).
  assert (aside run run1) as Ha by (unfold run1; by destruct (_ && _)). destruct (aside_id _ _ Ha) as [Hid Hcfg]. rewrite Hcfg in Hc.
  assert (peerRuns run1 b = peerRuns run b) as Hp by (unfold peerRuns; by rewrite Hid). unfold served_as. rewrite Hp.
  destruct (peerRuns run b || negb (d_record d) || bool_decide (st = 0)); [by exists run1; split; [|exists run1]|]. case_decide as Hd.
  - destruct (record_total (abIdx (recordVariant d)) abFailover st (latency i) (now i) run1 Hc) as [run' Hr].
    exists run'. split; [done|]. exists run1. split; [done|]. by exists (latency i), (now i).
  - destruct (b_Learned b); [by exists run1; split; [|exists run1]|].
    destruct (record_total (abIdx (recordVariant d)) abServed st (latency i) (now i) run1 Hc) as [run' Hr].
    assert (recordVariant d = d_variant d) as Hrv by (unfold recordVariant; rewrite decide_True; [done|]; destruct (decide (d_failoverFrom d = "")); naive_solver).
    rewrite Hrv in Hr. exists run'. split; [done|]. exists run1. split; [done|]. exists (latency i), (now i). by rewrite Hrv.
Qed.

(** What a request that reached no backend counts as, by the last one tried. *)
Definition unreached (last : option Backend) : option (abOutcome * Z) :=
  match last with Some b => if d_record d && negb (b_Learned b) then Some (abTransport, 0) else None | None => None end.

Lemma record_transport_spec i last run : is_Some (r_cfg run) ->
  exists run', record_transport now d i last run = Ret run' /\ counts (unreached last) run run'.
Proof.
  intros Hc. unfold record_transport, unreached. destruct last as [b|]; [|by exists run; split; [|exists run]].
  destruct (_ && _); [|by exists run; split; [|exists run]].
  destruct (record_total (abIdx (recordVariant d)) abTransport 0 0 (now i) run Hc) as [run' Hr].
  exists run'. split; [done|]. exists run. split; [done|]. by exists 0, (now i).
Qed.

Lemma counts_aside o run run1 run' : aside run run1 -> counts o run1 run' -> counts o run run'.
Proof. intros Ha (run2 & Ha2 & Ho). exists run2. split; [by unfold aside in *; rewrite Ha|done]. Qed.
End counting.

(** ** The loop *)

(** The variant a request tells its backend. *)
Definition stamp_fallback (b : Backend) (r : request) : request :=
  set_Header (Del abFailoverHeader (Set_ abVariantHeader (variantName b) (req_Header r))) r.

Definition variant_key : string := "X-Variant".
Definition failover_key : string := "X-Pmgr-Ab-Failover".

(** A request apart from the variant headers. *)
Definition unstamped (r r' : request) : Prop :=
  set_Header ∅ r = set_Header ∅ r' /\
  forall k, k <> variant_key -> k <> failover_key -> req_Header r !! k = req_Header r' !! k.

(** Setting the variant headers, whatever they were. *)
Lemma stamp_headers (h h' : header) (v : string) :
  (forall k, k <> variant_key -> k <> failover_key -> h !! k = h' !! k) ->
  Del abFailoverHeader (Set_ abVariantHeader v h) = Del abFailoverHeader (Set_ abVariantHeader v h').
Proof.
  intros Hk. unfold Del, Set_. apply map_eq. intros k. change (CanonicalHeaderKey abFailoverHeader) with failover_key.
  change (CanonicalHeaderKey abVariantHeader) with variant_key.
  destruct (decide (k = failover_key)) as [-> |Hf]; [by rewrite !lookup_delete_eq|]. rewrite !lookup_delete_ne by done.
  destruct (decide (k = variant_key)) as [-> |Hv]; [by rewrite !lookup_insert_eq|]. rewrite !lookup_insert_ne by done. by apply Hk.
Qed.

Lemma unstamped_refl r : unstamped r r.
Proof. by split. Qed.
Lemma unstamped_set r r' h : unstamped r r' -> set_Header h r = set_Header h r'.
Proof. intros [He _]. change (set_Header h (set_Header ∅ r) = set_Header h (set_Header ∅ r')). by rewrite He. Qed.

Lemma stamp_eq d run run' b r r' : unstamped r r' -> r_id run = r_id run' -> stamp_variant d run b r = stamp_variant d run' b r'.
Proof.
  intros Hu Hid. unfold stamp_variant, peerRuns. rewrite Hid. rewrite (stamp_headers (req_Header r) (req_Header r')) by apply Hu.
  by apply unstamped_set.
Qed.

Lemma stamp_fallback_eq b r r' : unstamped r r' -> stamp_fallback b r = stamp_fallback b r'.
Proof. intros Hu. unfold stamp_fallback. rewrite (stamp_headers (req_Header r) (req_Header r')) by apply Hu. by apply unstamped_set. Qed.

Lemma stamp_ident d run b b' r : ident b = ident b' -> stamp_variant d run b r = stamp_variant d run b' r.
Proof. unfold ident. intros [= Hu Hl Hv Hs Ht _]. unfold stamp_variant, peerRuns, variantName. by rewrite Hl, Hv, Ht. Qed.

Lemma stamp_unstamped d run b r r' : unstamped r r' -> unstamped (stamp_variant d run b r) r'.
Proof.
  intros [He Hk]. split; [done|]. intros k Hv Hf. rewrite <- Hk by done. unfold stamp_variant. cbn [req_Header set_Header].
  unfold Set_, Del. change (CanonicalHeaderKey abVariantHeader) with variant_key. change (CanonicalHeaderKey abFailoverHeader) with failover_key.
  destruct (_ && _); rewrite ?lookup_insert_ne by done; rewrite lookup_delete_ne, lookup_insert_ne by done; done.
Qed.

Lemma fallback_unstamped b r r' : unstamped r r' -> unstamped (stamp_fallback b r) r'.
Proof.
  intros [He Hk]. split; [done|]. intros k Hv Hf. rewrite <- Hk by done. unfold stamp_fallback. cbn [req_Header set_Header].
  unfold Set_, Del. change (CanonicalHeaderKey abVariantHeader) with variant_key. change (CanonicalHeaderKey abFailoverHeader) with failover_key.
  by rewrite lookup_delete_ne, lookup_insert_ne by done.
Qed.

Lemma unstamped_upgrade r r' : unstamped r r' -> upgradeType (req_Header r) = upgradeType (req_Header r').
Proof.
  intros [_ Hk]. unfold upgradeType, Get, Values. change (CanonicalHeaderKey "Connection") with "Connection".
  change (CanonicalHeaderKey "Upgrade") with "Upgrade". by rewrite !Hk by done.
Qed.

(** The failover header of a stamped request. *)
Lemma stamp_failover d run b r :
  req_Header (stamp_variant d run b r) !! failover_key = None \/
  (req_Header (stamp_variant d run b r) !! failover_key = Some ["1"] /\ b_Learned b = true /\ b_peerTestID b = r_id run).
Proof.
  unfold stamp_variant. cbn [req_Header set_Header]. unfold Set_, Del. change (CanonicalHeaderKey abVariantHeader) with variant_key.
  change (CanonicalHeaderKey abFailoverHeader) with failover_key. destruct (peerRuns run b) eqn:Hp; cbn [andb].
  - unfold peerRuns in Hp. apply andb_true_iff in Hp as [Hl Ht%bool_decide_eq_true].
    destruct (negb _); [right; by rewrite lookup_insert_eq|left; by rewrite lookup_delete_eq].
  - left. by rewrite lookup_delete_eq.
Qed.
Lemma stamp_fallback_failover b r : req_Header (stamp_fallback b r) !! failover_key = None.
Proof.
  unfold stamp_fallback. cbn [req_Header set_Header]. unfold Del. change (CanonicalHeaderKey abFailoverHeader) with failover_key. apply lookup_delete_eq.
Qed.

Section loop.
Context {W : Type} `{ResponseWriter W}.
Context (closure : loc -> captured) (worlds : nat -> world) (reqHost : string) (hopped : bool).
Context (now latency : nat -> Z) (d : abDecision).
Context (g0 : RouteGroup) (s0 : gmap loc Backend) (r0 : request) (run0 : abRun) (whole : string) (sr : bool).

Notation cast := (cast s0).

(** One request sent: to a backend of the session's variant or its failover's,
    stamped, complete. *)
Definition ab_entry (en : loc * outreq * exchange) : Prop :=
  let b := cast (at_loc en) in
  at_loc en ∈ g_Backends g0 /\ (b_Learned b = true -> hopped = false) /\
  (inVariant b (d_variant d) = true \/ (d_failover d <> "" /\ inVariant b (d_failover d) = true)) /\
  snd (fst en) = the_request (closure (at_loc en)) b true (stamp_variant d run0 b r0) whole.

(** The retry of a static 404, on the other variant. *)
Definition fallback_entry (en : loc * outreq * exchange) : Prop :=
  let b := cast (at_loc en) in
  at_loc en ∈ g_Backends g0 /\ (b_Learned b = true -> hopped = false) /\ inVariant b (abOther (d_variant d)) = true /\
  snd (fst en) = the_request (closure (at_loc en)) b true (stamp_fallback b r0) whole.

Definition swallowed (x : exchange) : Prop := sr = true /\ exists early h ps, x = Answer early 404 h ps true.
#[export] Instance swallowed_dec x : Decision (swallowed x).
Proof.
  unfold swallowed. destruct (decide (sr = true)) as [Hs|Hs]; [|right; naive_solver].
  destruct x as [e c|e st h ps [] |e h]; try (right; naive_solver). destruct (decide (st = 404)) as [-> |Hst]; [left; eauto|right; naive_solver].
Defined.

(** What the requests sent count as: only the last matters. *)
Definition tally (prev : option loc) (main : list (loc * outreq * exchange)) : option (abOutcome * Z) :=
  match last main with
  | None => unreached d (cast <$> prev)
  | Some en =>
      let b := cast (at_loc en) in
      if failed (snd en) then unreached d (Some b)
      else match snd en with
           | Answer _ _ _ _ false => None
           | x => if decide (swallowed x) then None else (fun o => (o, status_of x)) <$> served_as d run0 b (status_of x)
           end
  end.

Hypothesis polite_worlds : forall j, polite (worlds j).
Hypothesis all_valid : Forall (fun l => exists b, s0 !! l = Some b /\ is_Some (b_proxy b)) (g_Backends g0).
Hypothesis good_upgrade : printable (upgradeType (req_Header r0)) = true.

Lemma abStaticFallback_spec i tried r body run sv h (w : statusWriter W) :
  same_cast (sv_store sv) s0 -> still (sv_group sv) = still g0 -> cursor_ok (sv_group sv) 1 ->
  unstamped r r0 -> sent_body (rewindBody body) = whole ->
  exists e sv' run' w' fb, abStaticFallback closure worlds hopped d i tried r body run sv h w = Ret (e, sv', run', w') /\
    (e = Served \/ e = Aborted) /\ same_cast (sv_store sv') s0 /\ sv_sent sv' = (sv_sent sv ++ fb)%list /\ aside run run' /\
    (length fb <= 1)%nat /\ Forall fallback_entry fb /\ (forall l, l ∈ at_loc <$> fb -> l ∉ tried).
Proof.
  intros Hs Hg Hc Hu Hb. unfold abStaticFallback. set (s := wd_before (worlds i) (sv_store sv)).
  assert (same_cast s s0) as Hcast by (etrans; [apply polite_worlds|done]).
  assert (valid s (g_Backends (sv_group sv))) as Hv by (rewrite (still_Backends _ g0) by done; eapply cast_valid; [exact all_valid|done]).
  set (other := abOther (d_variant d)).
  assert (exists p g', or_else (pickHealthy s (sv_group sv) tried (negb hopped) other) (fun g => pickAny s g tried (negb hopped) other) = Ret (p, g') /\
    match p with Some l => eligible s (sv_group sv) tried (negb hopped) true other l | None => True end) as (p & g' & -> & Hp).
  { destruct (pick_spec s (sv_group sv) tried (negb hopped) false other Hv Hc) as (p & -> & Hp). cbn [or_else mbind go_bind].
    destruct p as [l|]; [eexists _, _; split; [reflexivity|]; apply eligible_any, Hp|].
    destruct (pick_spec s (sv_group sv) tried (negb hopped) true other Hv Hc) as (p & Heq & Hp'). cbn beta iota in Heq. rewrite Heq.
    eexists _, _. split; [reflexivity|]. destruct p; [apply Hp'|done]. }
  cbn [mbind go_bind]. destruct p as [l|].
  2: { eexists _, _, _, _, []. split; [reflexivity|]. cbn [sv_store sv_sent set_sv_group set_sv_store]. rewrite app_nil_r.
       split_and!; try done; [by left|cbn; lia|by intros ? ?%not_elem_of_nil]. }
  destruct Hp as (Hin & Hnt & b & Hbk & Hvar & _ & Hlearn). unfold deref. rewrite Hbk. cbn [mbind go_bind].
  rewrite (still_Backends _ g0) in Hin by done. destruct (landed g0 s0 all_valid s l b Hcast Hin Hbk) as [[px ->] Hid].
  fold (stamp_fallback b r). set (r1 := stamp_fallback b r).
  assert (r1 = stamp_fallback (cast l) r0) as Hr1.
  { rewrite <- (stamp_fallback_eq (cast l) r r0) by done. unfold r1, stamp_fallback. assert (variantName b = variantName (cast l)) as ->; [|done].
    unfold ident in Hid. injection Hid as _ _ Hv' _ _ _. unfold variantName. by rewrite Hv'. }
  assert (printable (upgradeType (req_Header r1)) = true) as Hup.
  { rewrite <- good_upgrade. f_equal. by apply unstamped_upgrade, fallback_unstamped. }
  rewrite (outbound_request _ b true r1 _ whole Hup Hb), (the_request_ident _ b (cast l)) by done.
  match goal with |- context [tryProxy ?wd ?l ?b (Some ?o) ?w ?sv] => pose proof (tryProxy_spec wd l b o w sv (polite_worlds i)) as Ht end.
  destruct (tryProxy _ _ _ _ _ _) as [[a w'] sv']. cbn [sv_group sv_store sv_sent set_sv_group set_sv_store] in Ht.
  destruct Ht as (_ & Hss & Hsent & _). eexists (match a with Abort_ => Aborted | _ => Served end), sv', (addStaticFallback run),
    (match a with Retry => w_WriteHeader 404 (w_SetHeader (restore404 h (w_Header w')) w') | _ => w' end), [_].
  split; [by destruct a|]. split; [destruct a; auto|]. split; [by etrans|]. split; [exact Hsent|]. split; [done|]. split; [cbn; lia|].
  split; [|by intros l' ->%list_elem_of_singleton]. apply Forall_singleton. unfold fallback_entry. cbn [at_loc fst snd]. rewrite Hr1.
  unfold ident in Hid. injection Hid as _ Hl Hv' _ _ _. split_and!; [done| | |done].
  - rewrite <- Hl. intros Hle. specialize (Hlearn Hle). by destruct hopped.
  - unfold inVariant, variantName in *. by rewrite <- Hv'.
Qed.

(** What the loop sends and counts: at most [k] attempts, then perhaps one retry
    of a static 404. *)
Definition ab_story (tried : gset loc) (prev : option loc) (main fb : list (loc * outreq * exchange)) (run run' : abRun) : Prop :=
  NoDup (at_loc <$> (main ++ fb)%list) /\ (forall l, l ∈ at_loc <$> (main ++ fb)%list -> l ∉ tried) /\
  Forall ab_entry main /\ Forall fallback_entry fb /\ (length fb <= 1)%nat /\
  (fb <> [] -> sr = true) /\
  (Forall (fun en => proper (snd en)) main ->
   counts d (tally prev main) run run' /\ (fb <> [] -> exists pre en, main = (pre ++ [en])%list /\ swallowed (snd en))).

Lemma ab_story_cons tried prev l o x main fb run run1 run' :
  failed x = true -> l ∉ tried -> ab_entry (l, o, x) -> aside run run1 ->
  ab_story ({[l]} ∪ tried) (Some l) main fb run1 run' -> ab_story tried prev ((l, o, x) :: main) fb run run'.
Proof.
  intros Hx Hl Hen Ha (Hnd & Hnt & Hok & Hfb & Hlen & Hsr & Hct). unfold ab_story. cbn [app fmap list_fmap at_loc fst]. split_and!; try done.
  - constructor; [|done]. intros Hin. specialize (Hnt l Hin). set_solver.
  - intros l' [-> |Hl']%elem_of_cons; [done|]. specialize (Hnt l' Hl'). set_solver.
  - by constructor.
  - intros [_ Hp]%Forall_cons. destruct (Hct Hp) as [Hc Hf]. split.
    + apply (counts_aside d _ run run1); [done|]. enough (tally prev ((l, o, x) :: main) = tally (Some l) main) as -> by done.
      unfold tally. destruct main as [|en main]; [cbn [last snd]; by rewrite Hx|]. change (last (_ :: en :: main)) with (last (en :: main)).
      destruct (last (en :: main)) eqn:He; [done|]. by apply last_None in He.
    + intros Hne. destruct (Hf Hne) as (pre & en & -> & Hs). by exists ((l, o, x) :: pre), en.
Qed.

Lemma ab_story_last tried prev en fb run run' :
  at_loc en ∉ tried -> ab_entry en -> Forall fallback_entry fb -> (length fb <= 1)%nat -> (fb <> [] -> sr = true) ->
  (forall l, l ∈ at_loc <$> fb -> l ∉ ({[at_loc en]} ∪ tried : gset loc)) ->
  (proper (snd en) -> counts d (tally prev [en]) run run' /\ (fb <> [] -> swallowed (snd en))) ->
  ab_story tried prev [en] fb run run'.
Proof.
  intros Hl Hen Hfb Hlen Hsr Hfr Hct. unfold ab_story. cbn [app fmap list_fmap]. split_and!; try done.
  - constructor; [intros Hin; specialize (Hfr _ Hin); set_solver|]. destruct fb as [|f [|]]; [constructor|apply NoDup_singleton|cbn in Hlen; lia].
  - intros l' [-> |Hl']%elem_of_cons; [done|]. specialize (Hfr l' Hl'). set_solver.
  - by constructor.
  - intros [Hp _]%Forall_cons. destruct (Hct Hp) as [Hc Hf]. split; [done|]. intros Hne. exists [], en. auto.
Qed.

Lemma ab_story_none tried prev run run' : counts d (unreached d (cast <$> prev)) run run' -> ab_story tried prev [] [] run run'.
Proof. intros Hc. unfold ab_story. cbn. split_and!; try done; [constructor|by intros ? ?%not_elem_of_nil|lia]. Qed.

(** The attempt's answer settles the count, unless it failed. *)
Lemma settled_counts x l run run' st :
  failed x = false -> ~ swallowed x -> (forall e st h ps, x <> Answer e st h ps false) -> status_of x = st -> aside run0 run \/ r_id run0 = r_id run ->
  counts d ((fun o => (o, st)) <$> served_as d run (cast l) st) run run' ->
  forall prev o, counts d (tally prev [(l, o, x)]) run run'.
Proof.
  intros Hf Hs Hb <- Hid Hct prev o. assert (served_as d run (cast l) (status_of x) = served_as d run0 (cast l) (status_of x)) as He.
  { assert (r_id run0 = r_id run) as Hi by (destruct Hid as [Ha|]; [by apply aside_id|done]). unfold served_as, peerRuns. by rewrite Hi. }
  rewrite He in Hct. unfold tally. cbn [last snd at_loc fst]. rewrite Hf.
  destruct x as [e c|e st h ps []|e h]; try (rewrite decide_False by done; exact Hct). by destruct (Hb e st h ps).
Qed.

Lemma served_as_ident run b b' st : ident b = ident b' -> served_as d run b st = served_as d run b' st.
Proof. unfold ident. intros [= Hu Hl Hv Hs Ht _]. unfold served_as, peerRuns, variantName. by rewrite Hl, Hv, Ht. Qed.

Lemma unreached_ident b b' : ident b = ident b' -> unreached d (Some b) = unreached d (Some b').
Proof. unfold ident. intros [= _ Hl _ _ _ _]. unfold unreached. by rewrite Hl. Qed.

(** After an answer: the retry of a swallowed 404, or the count. *)
Lemma ab_answered i tried prev l o x b again h404 body run sv (w : statusWriter W) :
  same_cast (sv_store sv) s0 -> still (sv_group sv) = still g0 -> cursor_ok (sv_group sv) 1 ->
  l ∉ tried -> ab_entry (l, o, x) -> ident b = ident (cast l) -> failed x = false -> (forall e st h ps, x <> Answer e st h ps false) ->
  (is_Some h404 -> sr = true) -> (sr = true -> again = true) -> ready whole again body ->
  r_id run = r_id run0 -> is_Some (r_cfg run) ->
  (proper x -> if decide (sr = true /\ status_of x = 404) then is_Some h404 else h404 = None /\ sw_status w = status_of x) ->
  exists e sv' run' w' fb,
    match h404 with
    | Some h => abStaticFallback closure worlds hopped d (S i) ({[l]} ∪ tried) (stamp_variant d run0 (cast l) r0) (consumed body) run sv h w
    | None => run ← abRecordServed now latency d i b (sw_status w) run; Ret (Served, sv, run, w)
    end = Ret (e, sv', run', w') /\
    same_cast (sv_store sv') s0 /\ sv_sent sv' = (sv_sent sv ++ fb)%list /\ ab_story tried prev [(l, o, x)] fb run run'.
Proof.
  intros Hs Hg Hc Hl Hen Hid Hf Hnb Hsr Hag Hready Hrid Hcfg Hst. destruct h404 as [h|].
  - destruct (abStaticFallback_spec (S i) ({[l]} ∪ tried) (stamp_variant d run0 (cast l) r0) (consumed body) run sv h w)
      as (e & sv' & run' & w' & fb & -> & _ & Hs' & Hsent & Ha & Hlen & Hfb & Hfr); [done|done|done|by apply stamp_unstamped| |].
    { destruct Hready as [_ Hr]. apply Hr, Hag, Hsr. by eexists. }
    exists e, sv', run', w', fb. split_and!; [done|done|done|]. apply ab_story_last; try done; [by intros _; apply Hsr; eexists|].
    intros Hp. specialize (Hst Hp). destruct (decide _) as [[Hsr' H404]|]; [|by destruct Hst].
    assert (swallowed x) as Hsw.
    { split; [done|]. destruct x as [e1 c1|e1 st1 h1 ps1 []|e1 h1]; cbn in H404; try done; [subst st1; eauto|by destruct (Hnb e1 st1 h1 ps1)]. }
    split; [|done]. exists run'. split; [done|]. unfold tally. cbn [last snd]. rewrite Hf. destruct x as [| ? ? ? ? []|]; try (by rewrite decide_True).
    by edestruct Hnb.
  - destruct (abRecordServed_spec now latency d i b (sw_status w) run Hcfg) as (run' & -> & Hct). cbn [mbind go_bind].
    eexists _, _, _, _, []. split; [reflexivity|]. rewrite app_nil_r. split_and!; [done|done|].
    apply ab_story_last; try done; [cbn; lia|by intros ? ?%not_elem_of_nil|]. intros Hp. split; [|done]. specialize (Hst Hp).
    destruct (decide _) as [|Hd]; [by destruct Hst|]. destruct Hst as [_ Hst]. rewrite Hst in Hct.
    apply (settled_counts x l run run' (status_of x)); try done; [|by right|by rewrite <- (served_as_ident run b)].
    intros (Hs1 & e1 & h1 & ps1 & ->). by apply Hd.
Qed.

Lemma ab_attempts_spec k : forall i tried pin again lastb (prev : option loc) r body run sv (w : statusWriter W),
  same_cast (sv_store sv) s0 -> still (sv_group sv) = still g0 -> cursor_ok (sv_group sv) (Z.of_nat k + 1) ->
  (pin <> "" -> hopped = false /\ tried = ∅) -> (sr = true -> again = true) ->
  ready whole again (if decide (0 < i)%nat then rewindBody body else body) ->
  unstamped r r0 -> r_id run = r_id run0 -> is_Some (r_cfg run) -> sw_status w = 0 ->
  unreached d lastb = unreached d (cast <$> prev) ->
  exists e sv' run' w' main fb,
    ab_attempts closure worlds reqHost hopped now latency d k i tried pin again sr lastb r body run sv w = Ret (e, sv', run', w') /\
    same_cast (sv_store sv') s0 /\ sv_sent sv' = (sv_sent sv ++ main ++ fb)%list /\ (length main <= k)%nat /\
    ab_story tried prev main fb run run'.
Proof.
  induction k as [|k IH]; intros i tried pin again lastb prev r body run sv w Hs Hg Hc Hpin Hsr Hready Hu Hid Hcfg Hw Hlast.
  { cbn [ab_attempts]. destruct (record_transport_spec now d i lastb run Hcfg) as (run' & -> & Hct). cbn [mbind go_bind].
    eexists _, _, _, _, [], []. split; [reflexivity|]. rewrite app_nil_r. split_and!; [done|done|done|]. apply ab_story_none. by rewrite <- Hlast. }
  cbn [ab_attempts]. set (s := wd_before (worlds i) (sv_store sv)).
  assert (same_cast s s0) as Hcast by (etrans; [apply polite_worlds|done]).
  destruct (ab_pick_correct hopped d (wd_now (worlds i)) s (sv_group sv) tried pin) as (p & g' & -> & Hg' & Hcur & Hp);
    [rewrite (still_Backends _ g0) by done; by apply (cast_valid g0 s0)|destruct Hc; split; lia|done|]. cbn [mbind go_bind].
  assert (still g' = still g0) as Hg0 by congruence. destruct p as [l|].
  2: { destruct (record_transport_spec now d i lastb run Hcfg) as (run' & -> & Hct). cbn [mbind go_bind].
       eexists _, _, _, _, [], []. split; [reflexivity|]. rewrite app_nil_r. split_and!; [done|done|cbn; lia|]. apply ab_story_none. by rewrite <- Hlast. }
  assert (l ∈ g_Backends g0 /\ l ∉ tried /\ exists b, s !! l = Some b /\ (inVariant b (d_variant d) = true \/ (d_failover d <> "" /\ inVariant b (d_failover d) = true)) /\
    (b_Learned b = true -> hopped = false)) as (Hin & Hnt & b & Hb & Hvar & Hlearn).
  { rewrite <- (still_Backends (sv_group sv) g0) by done. destruct Hp as [(H1 & H2 & b & H3 & H4 & _ & H5)|(Hf & (H1 & H2 & b & H3 & H4 & _ & H5) & _)];
      (split; [done|split; [done|]]; exists b; split; [done|split; [auto|intros Hle; specialize (H5 Hle); by destruct hopped]]). }
  unfold deref. rewrite Hb. cbn [mbind go_bind].
  destruct (landed g0 s0 all_valid s l b Hcast Hin Hb) as [[px ->] Hidb].
  rewrite (stamp_eq d run run0 b r r0) by done. rewrite (stamp_ident d run0 b (cast l) r0) by done.
  set (r1 := stamp_variant d run0 (cast l) r0). assert (unstamped r1 r0) as Hu1 by (by apply stamp_unstamped).
  rewrite (outbound_request _ b true r1 _ whole) by (destruct Hready; try done; by rewrite (unstamped_upgrade r1 r0)).
  rewrite (attribute_still hopped g0 g' b (cast l) w Hg0 Hidb). rewrite (the_request_ident _ b (cast l)) by done.
  set (o := the_request (closure l) (cast l) true r1 whole).
  pose proof (ab_try_spec sr (worlds i) l b o (attribute hopped g0 (cast l) w) (set_sv_group g' (set_sv_store s sv)) (polite_worlds i)) as Ht.
  destruct (ab_try _ _ _ _ _ _ _) as [[[a h404] w'] sv']. cbn [sv_group sv_store sv_sent set_sv_group set_sv_store] in Ht.
  set (x := wd_exchange (worlds i) l o) in *. destruct Ht as (Hsg & Hss & Hsent & Hwf & Ha & Hsome & Hst). rewrite attribute_status in Hst. specialize (Hst Hw).
  assert (ab_entry (l, o, x)) as Hen.
  { unfold ab_entry. cbn [at_loc fst snd]. pose proof Hidb as Hi. unfold ident in Hi. injection Hi as _ Hl Hv' _ _ _.
    split_and!; [done|by rewrite <- Hl| |done]. unfold inVariant, variantName in *. by rewrite <- Hv'. }
  assert (same_cast (sv_store sv') s0) as Hs' by (by etrans).
  destruct (failed x) eqn:Hf.
  - assert (a = Retry) as -> by (rewrite Ha; by destruct x as [[|] []| |]). specialize (Hwf eq_refl). subst w'.
    set (run1 := if b_Learned b then addHopError run else run).
    assert (aside run run1) as Har by (unfold run1; by destruct (b_Learned b)). destruct (aside_id _ _ Har) as [Hi1 Hc1].
    destruct (sr || again) eqn:Hag.
    + assert (again = true) as -> by (destruct sr; [by apply Hsr|done]).
      destruct (IH (S i) ({[l]} ∪ tried) "" true (Some b) (Some l) r1 (consumed (if decide (0 < i)%nat then rewindBody body else body)) run1 sv'
        (attribute hopped g0 (cast l) w)) as (e & sv2 & run2 & w2 & main & fb & -> & Hs2 & Hsent2 & Hlen & Hst2); try done.
      * by rewrite Hsg.
      * rewrite Hsg. destruct Hc. split; lia.
      * by apply ready_again.
      * congruence.
      * by rewrite <- Hc1.
      * by rewrite attribute_status.
      * by apply unreached_ident.
      * exists e, sv2, run2, w2, ((l, o, x) :: main), fb. rewrite Hsent2, Hsent, <- app_assoc. split_and!; [done|done|done|cbn; lia|].
        by apply (ab_story_cons tried prev l o x main fb run run1).
    + destruct (record_transport_spec now d i (Some b) run1) as (run2 & -> & Hct); [by rewrite <- Hc1|]. cbn [mbind go_bind].
      eexists _, _, _, _, [(l, o, x)], []. split; [reflexivity|]. split_and!; [done|by rewrite Hsent|cbn; lia|].
      apply (ab_story_cons tried prev l o x [] [] run run1); try done. apply ab_story_none. by rewrite (unreached_ident b (cast l)) in Hct.
  - assert ((exists e st h ps, x = Answer e st h ps false) \/ (forall e st h ps, x <> Answer e st h ps false)) as [(e1 & st1 & h1 & ps1 & Hx)|Hnb]
      by (clear; destruct x as [|? ? ? ? []|]; naive_solver).
    + rewrite Hx in Ha. subst a. eexists _, _, _, _, [(l, o, x)], []. split; [reflexivity|]. split_and!; [done|by rewrite Hsent|cbn; lia|].
      apply ab_story_last; try done; [cbn; lia|by intros ? ?%not_elem_of_nil|]. intros _. split; [|done]. exists run. split; [done|].
      unfold tally. cbn [last snd]. by rewrite Hf, Hx.
    + assert (a = Done) as -> by (rewrite Ha; destruct x as [[|] []|? ? ? ? []|]; try done; by edestruct Hnb).
      unfold r1 in *. destruct (ab_answered i tried prev l o x b again h404 (if decide (0 < i)%nat then rewindBody body else body) run sv' w')
        as (e & sv2 & run2 & w2 & fb & -> & Hs2 & Hsent2 & Hst2); try done.
      * by rewrite Hsg.
      * rewrite Hsg. destruct Hc. split; lia.
      * exists e, sv2, run2, w2, [(l, o, x)], fb. rewrite Hsent2, Hsent, <- app_assoc. split_and!; [done|done|done|cbn; lia|done].
Qed.
End loop.

Lemma hasVariant_total s g v : valid s (g_Backends g) -> exists b, hasVariant s g v = Ret b.
Proof.
  intros Hv. unfold hasVariant. induction Hv as [|l bs [b Hb] _ [r IH]]; [by exists false|]. cbn [foldr].
  assert (deref s l = Ret b) as -> by (unfold deref; by rewrite Hb). cbn [mbind go_bind]. destruct (_ && _); [by exists true|]. by exists r.
Qed.

(** *** What a backend is told *)

(** The variant header says [v] and the failover header is there if [flag]; a
    header that the client's Connection header names is dropped on the way. *)
Definition told (r : request) (o : outreq) (v : string) (flag : bool) : Prop :=
  o_Header o !! variant_key = (if dropped (req_Header r) variant_key then None else Some [v]) /\
  o_Header o !! failover_key = (if flag && negb (dropped (req_Header r) failover_key) then Some ["1"] else None).

Lemma unstamped_dropped r r' k : unstamped r r' -> dropped (req_Header r) k = dropped (req_Header r') k.
Proof.
  intros [_ Hk]. unfold dropped, Values. change (CanonicalHeaderKey "Connection") with "Connection". by rewrite Hk.
Qed.

Lemma the_request_header k b st r whole key :
  key = variant_key \/ key = failover_key ->
  o_Header (the_request k b st r whole) !! key = if dropped (req_Header r) key then None else req_Header r !! key.
Proof.
  intros Hkey. unfold the_request, Director. set (hs := if b_Learned b then _ else _).
  assert (snd hs !! key = req_Header r !! key /\ dropped (snd hs) key = dropped (req_Header r) key) as [Hl Hd].
  { unfold hs. destruct (b_Learned b); [|done]. cbn [snd].
    unfold dropped, Values, Set_. change (CanonicalHeaderKey PeerHopHeader) with PeerHopHeader. change (CanonicalHeaderKey PeerAuthHeader) with PeerAuthHeader.
    change (CanonicalHeaderKey "Connection") with "Connection".
    destruct (negb (bool_decide (k_hopAuth k = "")) && st); rewrite !lookup_insert_ne by (by destruct Hkey; subst); done. }
  clearbody hs. destruct hs as [[host path] h]. cbn [snd] in Hl, Hd.
  cbn [o_Header]. rewrite forwarded_exact, Hl, Hd; [done|..]; destruct Hkey as [-> | ->]; vm_compute; intros Hin; repeat (apply elem_of_cons in Hin as [?|Hin]; [done|]); by apply elem_of_nil in Hin.
Qed.

(** Sent to the other pool of a peer that runs the test. *)
Definition other_pool (d : abDecision) (run : abRun) (b : Backend) : bool :=
  b_Learned b && bool_decide (b_peerTestID b = r_id run) && negb (bool_decide (variantName b = d_variant d)).

Lemma stamped_told k b d run r whole :
  told r (the_request k b true (stamp_variant d run b r) whole) (if other_pool d run b then d_variant d else variantName b) (other_pool d run b).
Proof.
  unfold told. rewrite !the_request_header by auto. rewrite !(unstamped_dropped (stamp_variant d run b r) r) by by apply stamp_unstamped, unstamped_refl.
  unfold stamp_variant, peerRuns, other_pool. cbn [req_Header set_Header]. unfold Set_, Del. change (CanonicalHeaderKey abVariantHeader) with variant_key.
  change (CanonicalHeaderKey abFailoverHeader) with failover_key. destruct (_ && negb _); cbn [andb].
  - rewrite lookup_insert_ne, !lookup_insert_eq by done. by destruct (dropped _ variant_key), (dropped _ failover_key).
  - rewrite lookup_delete_ne, lookup_insert_eq, lookup_delete_eq by done. by destruct (dropped _ variant_key), (dropped _ failover_key).
Qed.
Lemma fallback_told k b r whole : told r (the_request k b true (stamp_fallback b r) whole) (variantName b) false.
Proof.
  unfold told. rewrite !the_request_header by auto. rewrite !(unstamped_dropped (stamp_fallback b r) r) by by apply fallback_unstamped, unstamped_refl.
  unfold stamp_fallback. cbn [req_Header set_Header]. unfold Set_, Del. change (CanonicalHeaderKey abVariantHeader) with variant_key.
  change (CanonicalHeaderKey abFailoverHeader) with failover_key. rewrite lookup_delete_ne, lookup_insert_eq, lookup_delete_eq by done.
  by destruct (dropped _ variant_key), (dropped _ failover_key).
Qed.

(** One attempt: to a backend of the group, of the session's variant or its
    failover's, told its variant, otherwise the request as it came; and the retry
    of a static file, of the other variant. *)
Definition attempted (closure : loc -> captured) (hopped : bool) (d : abDecision) (g : RouteGroup) (s : gmap loc Backend) (run : abRun)
    (r : request) (whole : string) (en : loc * outreq * exchange) : Prop :=
  let b := cast s (at_loc en) in let o := snd (fst en) in
  at_loc en ∈ g_Backends g /\ (b_Learned b = true -> hopped = false) /\
  (inVariant b (d_variant d) = true \/ (d_failover d <> "" /\ inVariant b (d_failover d) = true)) /\
  told r o (if other_pool d run b then d_variant d else variantName b) (other_pool d run b) /\
  exists r', unstamped r' r /\ o = the_request (closure (at_loc en)) b true r' whole.
Definition retried (closure : loc -> captured) (hopped : bool) (d : abDecision) (g : RouteGroup) (s : gmap loc Backend)
    (r : request) (whole : string) (en : loc * outreq * exchange) : Prop :=
  let b := cast s (at_loc en) in let o := snd (fst en) in
  at_loc en ∈ g_Backends g /\ (b_Learned b = true -> hopped = false) /\ inVariant b (abOther (d_variant d)) = true /\
  told r o (variantName b) false /\ exists r', unstamped r' r /\ o = the_request (closure (at_loc en)) b true r' whole.

Section claims.
Context {W : Type} `{ResponseWriter W}.
Context (closure : loc -> captured) (worlds : nat -> world) (reqHost : string) (hopped : bool).
Context (now latency : nat -> Z) (d : abDecision).

Lemma abProxyToGroup_loop pin whole r body run sv (w : W) :
  sane worlds hopped pin whole r body sv -> cursor_ok (sv_group sv) 4 -> is_Some (r_cfg run) ->
  exists e sv' run' w' main fb sr,
    abProxyToGroup closure worlds reqHost hopped now latency d pin r body run sv w = Ret (e, sv', run', w') /\
    sv_sent sv' = (sv_sent sv ++ main ++ fb)%list /\ (length main <= 3)%nat /\
    (sr = true -> d_static d = true /\ req_Method r ∈ ["GET"; "HEAD"] /\ fst (prepareRetryBody body) = true) /\
    ab_story closure hopped d (sv_group sv) (sv_store sv) r run whole sr ∅ None main fb run run'.
Proof.
  intros [Hp Hv Hc Hpin Hb Hu] Hc4 Hcfg. unfold abProxyToGroup. pose proof (prepare_ready whole body Hb) as Hready.
  destruct (prepareRetryBody body) as [again body'].
  assert (exists sr, (if again && d_static d && (bool_decide (req_Method r = "GET") || bool_decide (req_Method r = "HEAD"))
     then hasVariant (sv_store sv) (sv_group sv) (abOther (d_variant d)) else Ret false) = Ret sr /\
     (sr = true -> d_static d = true /\ req_Method r ∈ ["GET"; "HEAD"] /\ again = true)) as (sr & -> & Hsr).
  { destruct (_ && _) eqn:Hcond; [|by exists false].
    destruct (hasVariant_total (sv_store sv) (sv_group sv) (abOther (d_variant d))) as [sr ->]; [by apply (cast_valid (sv_group sv) (sv_store sv))|].
    exists sr. split; [done|]. intros _. apply andb_true_iff in Hcond as [[Ha Hd]%andb_true_iff Hm]. apply orb_true_iff in Hm.
    split_and!; [done| |done]. destruct Hm as [Hm%bool_decide_eq_true|Hm%bool_decide_eq_true]; rewrite Hm; set_solver. }
  cbn [mbind go_bind]. unfold maxRetries.
  destruct (ab_attempts_spec closure worlds reqHost hopped now latency d (sv_group sv) (sv_store sv) r run whole sr Hp Hv Hu 3 0 ∅ pin again None None r body'
    run sv (mkStatus 0 w)) as (e & sv' & run' & w' & main & fb & -> & _ & Hsent & Hlen & Hst); try done; [by intros ?%Hpin|intros Hx; by apply Hsr|].
  cbn [mbind go_bind]. exists e, sv', run', (sw_w w'), main, fb, sr. by split_and!.
Qed.


End claims.

(** ** Instances *)

Definition of_variant (v : string) (b : Backend) : Backend :=
  mkBackend (b_URL b) (b_Weight b) (b_Container b) (b_HealthPath b) (b_proxy b) (b_healthyFlag b) (b_stickyID b) (b_consecFails b)
    (b_DockerUnhealthy b) (b_Learned b) (b_PeerID b) v (b_peerTestID b) (b_ContainerID b) (b_draining b) (b_transport b).

(** A backend of each variant. For a session of B, B's has not got a static file
    that A's has. *)
Definition ex_ab_store : gmap loc Backend :=
  {[1%positive := up "http://10.0.0.1:80" 1; 2%positive := of_variant "B" (up "http://10.0.0.2:80" 1)]}.
Definition ex_ab_serving : serving :=
  mkServing ex_ab_store (set_g_Backends [1; 2]%positive (new_group "h" "" "h" "" false)) [] [].
Definition ex_asset : request := mkRequest "GET" "h" "/app.js" "" ∅ "198.51.100.7:4000".
Definition no_body : reqBody := mkBody 0 None None.
Definition ex_404 (k : nat) : world :=
  mkWorld id id 0 (fun l _ => if decide (l = 2%positive) then Answer [] 404 ∅ ["?"] true else Answer [] 200 ∅ ["js"] true).
Definition ex_dec : abDecision := mkDecision "B" "A" "" false true true.

Lemma ex_ab_sane (worlds : nat -> world) r : (forall j, polite (worlds j)) -> printable (upgradeType (req_Header r)) = true ->
  sane worlds false "" "" r no_body ex_ab_serving.
Proof. intros Hp Hu. split; [done| |by split|done|by split_and!|done]. repeat constructor; eexists; (split; [reflexivity|by eexists]). Qed.


(** B's backend is down; A's answer counts as a failover of B. *)
Definition ex_down (k : nat) : world :=
  mkWorld id id 0 (fun l _ => if decide (l = 2%positive) then NoAnswer [] false else Answer [] 200 ∅ ["ok"] true).
Definition ex_page : request := mkRequest "POST" "h" "/" "" ∅ "198.51.100.7:4000".

Definition ex_dec_page : abDecision := mkDecision "B" "A" "" false false true.

Definition plain (x : exchange) : bool :=
  match x with NoAnswer [] _ | Upgraded [] _ => true | Answer [] st _ _ _ => bool_decide (200 <= st) | _ => false end.
Lemma plain_proper l : forallb (fun en : loc * outreq * exchange => plain (snd en)) l = true -> Forall (fun en => proper (snd en)) l.
Proof.
  induction l as [|en l IH]; cbn [forallb]; [constructor|]. intros [Hen Hl]%andb_true_iff. constructor; [|by apply IH].
  destruct (snd en) as [[] ?|[] st ? ? ?|[] ?]; try done; (split; [by apply Forall_nil|]). by apply bool_decide_eq_true in Hen.
Qed.

Definition ex_counted : go (ending * serving * abRun * client) :=
  abProxyToGroup ex_closure ex_down "h" false (fun _ => 1010 * Second) (fun _ => 1000000) ex_dec_page "" ex_page no_body ex_r1 ex_ab_serving new_client.

Lemma ex_counted_as :
  match ex_counted with
  | Ret (e, sv, _, _) => e = Served /\ tally ex_dec_page ex_ab_store ex_r1 false None (sv_sent sv) = Some (abFailover, 200) /\
      forallb (fun en => plain (snd en)) (sv_sent sv) = true
  | Panic => False
  end.
Proof. vm_compute. by split_and!. Qed.

