(* ===== verification/Pipeline.v ===== *)
(** * The handler: Router.ServeHTTP and serveWithCache of cmd/proxy/router.go

    One request from its arrival to what the client gets: stripping the headers
    of trust, the OAuth metadata, matching, tombstones, rate limits, the gate,
    the path, stickiness, the A/B decision, the cache, and the backend loops of
    [Serve] and [AbServe]. *)
From S2P Require Import Prelude GoString Float64 Sha256 RateLimit Router Balancer Cache Net AuthGate AbConfig AbRun AbAssign Http Serve AbServe.
Open Scope string_scope.

(** ** The server and its surroundings *)

Record server (L : Type) := mkServer {
  s_mem : memory L abRun;
  s_router : Router;
  s_auth : option authGate;
  s_unrouted : option RateLimiter.rateLimiter;
  s_xffTrusted : list IPNet;
  s_peerHopAuth : string;
}.
Arguments mkServer {L}. Arguments s_mem {L}. Arguments s_router {L}. Arguments s_auth {L}. Arguments s_unrouted {L}.
Arguments s_xffTrusted {L}. Arguments s_peerHopAuth {L}.

Section setters.
Context {L : Type}.
Notation server := (server L).
Definition set_mem (m : memory L abRun) (s : server) : server :=
  mkServer m (s_router s) (s_auth s) (s_unrouted s) (s_xffTrusted s) (s_peerHopAuth s).
Definition set_auth (a : option authGate) (s : server) : server :=
  mkServer (s_mem s) (s_router s) a (s_unrouted s) (s_xffTrusted s) (s_peerHopAuth s).
Definition set_unrouted (u : option RateLimiter.rateLimiter) (s : server) : server :=
  mkServer (s_mem s) (s_router s) (s_auth s) u (s_xffTrusted s) (s_peerHopAuth s).
Definition set_groups (gs : list RouteGroup) (s : server) : server :=
  let r := s_router s in
  mkServer (s_mem s) (mkRouter gs (r_limiters r) (r_caches r) (r_drainSet r) (r_tombstones r) (r_transports r) (r_abRuns r))
    (s_auth s) (s_unrouted s) (s_xffTrusted s) (s_peerHopAuth s).
End setters.

(** What one request meets: the readings of the clock where the handler takes
    them, the shared limiter's answer, its draws, what other requests do to the
    cache while this one waits or is served, and whether the client is still
    there when the wait ends. *)
Record weather := mkWeather {
  en_tomb : Z;
  en_limit : Z;
  en_limit_later : Z;
  en_redis : reply;
  en_auth : Z;
  en_ab : Z;
  en_draws : draws;
  en_record : nat -> Z;
  en_latency : nat -> Z;
  en_lookup : Z;
  en_woken : option (responseCache -> responseCache);
  en_relookup : Z;
  en_meanwhile : responseCache -> responseCache;
  en_stored : Z;
  en_put : Z;
}.

(** How a request ends: answered by the proxy itself, from the cache, given up
    by a client that left while waiting, or by a backend loop. *)
Inductive outcome := Refused | Hit | Left | Proxied (e : ending).

Section handler.
Context {L : Type} `{Limiter L} `{FloatUnit} `{MapRange} {W : Type} `{ResponseWriter W}.
Context (post : string -> option (Z * string)).                     (* the dashboard's reply to a bearer token *)
Context (closure : loc -> captured) (worlds : nat -> world).
Context (en : weather) (uri : string).                              (* [req.URL.RequestURI()] *)

Notation server := (server L).
Notation memory := (memory L abRun).
Notation sent := (list (loc * outreq * exchange)).

(** ** Trust *)

Definition hopAuthOK (s : server) (v : string) : bool :=
  negb (bool_decide (s_peerHopAuth s = "")) && bool_decide (v = s_peerHopAuth s).

(** Whether a peer sent the request; whether it proved it; whether it asks for
    the failover pool. *)
Record hop := mkHop { h_hopped : bool; h_auth : bool; h_failover : bool }.
Definition read_hop (s : server) (h : header) : hop :=
  let hopped := negb (bool_decide (Get h PeerHopHeader = "")) in
  let authHop := hopped && hopAuthOK s (Get h PeerAuthHeader) in
  mkHop hopped authHop (authHop && bool_decide (Get h abFailoverHeader = "1")).

Definition strip_hop (h : header) : header := Del abFailoverHeader (Del PeerAuthHeader (Del PeerHopHeader h)).

(** ** Limits *)

Definition too_many (rpm : Z) (w : header) : response :=
  http_Error (Set_ "Retry-After" (FormatInt (RateLimiter.retryAfterSeconds rpm)) w) "rate limit exceeded" 429.

(** No route matched. *)
Definition unrouted (s : server) (r : request) (reqHost : string) (w : W) : server * W :=
  match s_unrouted s with
  | Some u =>
      let '(ok, u) := RateLimiter.Allow (rlKey r (s_xffTrusted s)) (en_limit en) u in
      (set_unrouted (Some u) s,
       send (if ok then serveUnavailable (w_Header w) 404 reqHost unavailable_reason
             else too_many RateLimiter.defaultRateRPM (w_Header w)) w)
  | None => (s, send (serveUnavailable (w_Header w) 404 reqHost unavailable_reason) w)
  end.

(** The charge of a matched route's limiter, if it has one. *)
Definition charge (g : RouteGroup) (key : string) (m : memory) : go (bool * memory) :=
  match g_limiter g with
  | None => Ret (true, m)
  | Some p =>
      match m_limiters m !! p with
      | None => Panic
      | Some l =>
          let '(ok, l) := lim_Allow key (en_limit en) (en_limit_later en) (en_redis en) l in
          Ret (ok, set_limiters (<[p := l]> (m_limiters m)) m)
      end
  end.

(** ** The gate *)

Definition gate (s : server) (r : request) (g : RouteGroup) (reqHost : string) (w : header) : verdict * server :=
  if g_AuthRequired g then
    match s_auth s with
    | None => (Refuse (serveUnavailable w 503 reqHost unavailable_reason), s)
    | Some a => let '(v, a) := authorize post a w r uri g (en_auth en) in (v, set_auth (Some a) s)
    end
  else (Pass (req_Header r), s).

(** ** The path and the pin *)

Definition strip_path (g : RouteGroup) (path : string) : string :=
  if g_StripPrefix g && negb (bool_decide (g_PathPrefix g = "")) then
    let p := TrimPrefix path (g_PathPrefix g) in
    if HasPrefix p "/" then p else "/" +:+ p
  else path.

Definition sticky_pin (g : RouteGroup) (hopped : bool) (r : request) : string :=
  if g_Sticky g && negb hopped then default "" (Cookie r (stickyCookieName g)) else "".

(** ** Dispatch *)

(** The memory after a backend loop. *)
Definition served (sv : serving) (m : memory) : memory := close_idle (sv_closed sv) (set_backends (sv_store sv) m).

End handler.

Section dispatch.
Context {L : Type} `{Limiter L} `{MapRange}.
Context (closure : loc -> captured) (worlds : nat -> world) (en : weather).
Notation memory := (memory L abRun).
Notation sent := (list (loc * outreq * exchange)).

(** The A/B decision, with the address of its run. *)
Definition dispatch {W} `{ResponseWriter W} (ab : option (abDecision * loc)) (reqHost : string) (hopped : bool) (pin : string)
    (r : request) (body : reqBody) (g : RouteGroup) (m : memory) (w : W) : go (ending * sent * memory * RouteGroup * W) :=
  let sv := mkServing (m_backends m) g [] [] in
  match ab with
  | Some (d, p) =>
      match m_runs m !! p with
      | None => Panic
      | Some run =>
          '(e, sv, run, w) ← abProxyToGroup closure worlds reqHost hopped (en_record en) (en_latency en) d pin r body run sv w;
          Ret (e, sv_sent sv, set_runs (<[p := run]> (m_runs m)) (served sv m), sv_group sv, w)
      end
  | None =>
      '(e, sv, w) ← proxyToGroup closure worlds reqHost hopped pin r body sv w;
      Ret (e, sv_sent sv, served sv m, sv_group sv, w)
  end.

(** ** The cache *)

Context {W : Type} `{ResponseWriter W}.

Definition serve_cached (r : request) (e : cacheEntry) (now : Z) (w : W) : W :=
  let '(status, h, b) := serveCached r e now (w_Header w) in
  let w := w_WriteHeader status (w_SetBackend "cache" (w_SetHeader h w)) in
  if decide (req_Method r = "HEAD") then w else w_Write b w.

Definition add_waiter (f : positive) (c : responseCache) : responseCache :=
  set_fills (inflight c) (alter (fun fl => mkCacheFill (fill_done fl) (fill_waiters fl + 1)) f (fills c)) c.

Definition with_stored (now : Z) (e : cacheEntry) : cacheEntry := mkCacheEntry (ce_status e) (ce_header e) (ce_body e) now.

Definition update_cache (c : loc) (ca : responseCache) (m : memory) : memory := set_caches (<[c := ca]> (m_caches m)) m.

Section cached.
Context (c : loc) (key : string) (ab : option (abDecision * loc)) (reqHost : string) (hopped : bool) (pin : string).
Context (r : request) (body : reqBody) (g : RouteGroup).

Definition bypass (m : memory) (w : W) : go (outcome * sent * memory * RouteGroup * W) :=
  '(e, sent, m, g, w) ← dispatch ab reqHost hopped pin r body g m (newRecorder "BYPASS" false, w);
  Ret (Proxied e, sent, m, g, snd w).

(** The backend's answer is recorded and, if it came whole and may be, stored;
    then an owner releases the waiters. [put] has fuel enough. *)
Definition fill (owner : option positive) (m : memory) (w : W) : go (outcome * sent * memory * RouteGroup * W) :=
  '(e, sent, m, g, w) ← dispatch ab reqHost hopped pin r body g m (newRecorder "MISS" true, w);
  match m_caches m !! c with
  | None => Panic
  | Some ca =>
      let ca := en_meanwhile en ca in
      ca ← match e, entry (fst w) with
           | Aborted, _ | _, None => Ret ca
           | _, Some e => default Panic (put key (with_stored (en_stored en) e) (en_put en) ca)
           end;
      ca ← match owner with Some f => endFill key f ca | None => Ret ca end;
      Ret (Proxied e, sent, update_cache c ca m, g, snd w)
  end.

Definition serveWithCache (cacheable : bool) (m : memory) (w : W) : go (outcome * sent * memory * RouteGroup * W) :=
  if negb cacheable then bypass m w
  else
    match m_caches m !! c with
    | None => Panic
    | Some ca =>
        match get key (en_lookup en) ca with
        | (Some e, ca) => Ret (Hit, [], update_cache c ca m, g, serve_cached r e (en_lookup en) w)
        | (None, ca) =>
            if decide (req_Method r = "HEAD") then bypass (update_cache c ca m) w
            else
              let '(f, owner, ca) := beginFill key ca in
              if owner : bool then fill (Some f) (update_cache c ca m) w
              else
                let ca := add_waiter f ca in
                match en_woken en with
                | None => Ret (Left, [], update_cache c ca m, g, w)
                | Some others =>
                    match get key (en_relookup en) (others ca) with
                    | (Some e, ca) => Ret (Hit, [], update_cache c ca m, g, serve_cached r e (en_relookup en) w)
                    | (None, ca) => fill None (update_cache c ca m) w
                    end
                end
        end
    end.
End cached.
End dispatch.

(** ** The handler *)

Section serve.
Context {L : Type} `{Limiter L} `{FloatUnit} `{MapRange} {W : Type} `{ResponseWriter W}.
Context (post : string -> option (Z * string)).
Context (closure : loc -> captured) (worlds : nat -> world) (en : weather) (uri : string).
Notation server := (server L).
Notation sent := (list (loc * outreq * exchange)).

(** Groups are shared by pointer: the matched one, with its cursor moved, stays
    in the table. *)
Fixpoint put_group (p : RouteGroup -> bool) (g' : RouteGroup) (gs : list RouteGroup) : list RouteGroup :=
  match gs with
  | [] => []
  | g :: gs => if p g then g' :: gs else g :: put_group p g' gs
  end.

(** The A/B decision of a group under test: the decision and its run's address,
    the response headers, the request without its variant header. *)
Definition assign_ab (s : server) (h : hop) (g : RouteGroup) (origPath : string) (w : W) (r : request)
    : go (option (abDecision * loc) * W * request * server) :=
  match g_ab g with
  | None => Ret (None, w, r, s)
  | Some p =>
      match g_abCfg g, m_runs (s_mem s) !! p with
      | Some cfg, Some run =>
          let '(d, hw, r, run) := abAssign (en_draws en) (en_ab en) cfg origPath (h_hopped h) (h_auth h) (h_failover h) run (w_Header w) r in
          Ret (Some (d, p), w_SetHeader hw w, r, set_mem (set_runs (<[p := run]> (m_runs (s_mem s))) (s_mem s)) s)
      | _, _ => Panic
      end
  end.

(** [ServeHTTP] once the request is let through: what follows the gate. *)
Definition serve_admitted (s : server) (h : hop) (g : RouteGroup) (reqHost : string) (r : request) (body : reqBody) (w : W)
    : go (outcome * sent * server * W) :=
  let origPath := req_Path r in
  let origQuery := req_RawQuery r in
  let r := set_Path (strip_path g (req_Path r)) r in
  let pin := sticky_pin g (h_hopped h) r in
  '(ab, w, r, s) ← assign_ab s h g origPath w r;
  let cacheable := cacheRequestEligible r (bool_decide (is_Some (g_cache g))) (g_CacheTTL g) (g_CachePaths g) origPath &&
                   match ab with Some (d, _) => d_static d | None => true end in
  let key := cacheKey (g_Host g) origPath origQuery (Get (req_Header r) "Accept-Encoding") in
  let r := set_Header (Del_all (g_DropHeaders g) (req_Header r)) r in
  '(o, sent, m, g', w) ←
    match g_cache g with
    | None => '(e, sent, m, g', w) ← dispatch closure worlds en ab reqHost (h_hopped h) pin r body g (s_mem s) w;
              Ret (Proxied e, sent, m, g', w)
    | Some c => serveWithCache closure worlds en c key ab reqHost (h_hopped h) pin r body g cacheable (s_mem s) w
    end;
  Ret (o, sent, set_groups (put_group (matches reqHost origPath) g' (r_groups (s_router s))) (set_mem m s), w).

Definition ServeHTTP (s : server) (r : request) (body : reqBody) (w : W) : go (outcome * sent * server * W) :=
  let r := set_Header (Del ActorHeader (req_Header r)) r in
  let h := read_hop s (req_Header r) in
  let r := set_Header (strip_hop (req_Header r)) r in
  let groups := r_groups (s_router s) in
  let reqHost := hostOnly (req_Host r) in
  match handleOAuthWellKnown (s_auth s) (w_Header w) r groups reqHost with
  | Some resp => Ret (Refused, [], s, send resp w)
  | None =>
      let group := route groups reqHost (req_Path r) in
      if tombstoned (r_tombstones (s_router s)) (en_tomb en) reqHost (req_Path r) group
      then Ret (Refused, [], s, serve503 reqHost w)
      else
        match group with
        | None => let '(s, w) := unrouted en s r reqHost w in Ret (Refused, [], s, w)
        | Some g =>
            '(ok, m) ← charge en g (rlKey r (s_xffTrusted s)) (s_mem s);
            let s := set_mem m s in
            if negb ok then Ret (Refused, [], s, send (too_many (g_RateRPM g) (w_Header w)) w)
            else
              let '(v, s) := gate post en uri s r g reqHost (w_Header w) in
              match v with
              | Refuse resp => Ret (Refused, [], s, send resp w)
              | Pass hd => serve_admitted s h g reqHost (set_Header hd r) body w
              end
        end
  end.
End serve.

(** * Properties *)

Section dispatched.
Context {L : Type} `{Limiter L} `{MapRange}.
Context (closure : loc -> captured) (worlds : nat -> world) (en : weather).

(** Sent as a failover of the group's test to a peer that runs it. *)
Definition flagged (m : memory L abRun) (g : RouteGroup) (b : Backend) (r : request) : Prop :=
  req_Header r !! failover_key = Some ["1"] /\ b_Learned b = true /\
  exists p run, g_ab g = Some p /\ m_runs m !! p = Some run /\ b_peerTestID b = r_id run.

(** What a backend loop needs of the group and the memory. *)
Record loop_ready (m : memory L abRun) (g : RouteGroup) (ab : option (abDecision * loc)) (hopped : bool) (pin whole : string)
    (r : request) (body : reqBody) : Prop := {
  lr_sane : sane worlds hopped pin whole r body (mkServing (m_backends m) g [] []);
  lr_cursor : cursor_ok g 4;
  lr_run : forall d p, ab = Some (d, p) -> g_ab g = Some p /\ exists run, m_runs m !! p = Some run /\ is_Some (r_cfg run);
}.

(** What goes out: to a backend of the group, a request that differs from the
    one dispatched in its variant headers only, the failover one set for a peer
    of the test. *)
Definition forwarded (m : memory L abRun) (g : RouteGroup) (hopped : bool) (whole : string) (r : request) (e : loc * outreq * exchange) : Prop :=
  exists st r', unstamped r' r /\
    (req_Header r' !! failover_key = req_Header r !! failover_key \/ req_Header r' !! failover_key = None \/
     flagged m g (cast (m_backends m) (at_loc e)) r') /\
    at_loc e ∈ g_Backends g /\
    (b_Learned (cast (m_backends m) (at_loc e)) = true -> hopped = false) /\
    snd (fst e) = the_request (closure (at_loc e)) (cast (m_backends m) (at_loc e)) st r' whole.

Lemma dispatch_spec {W} `{ResponseWriter W} ab reqHost hopped pin whole r body g m (w : W) :
  loop_ready m g ab hopped pin whole r body ->
  exists e sent m' g' w', dispatch closure worlds en ab reqHost hopped pin r body g m w = Ret (e, sent, m', g', w') /\
    Forall (forwarded m g hopped whole r) sent /\ m_caches m' = m_caches m /\ m_limiters m' = m_limiters m.
Proof.
  intros [Hs Hc Hr]. unfold dispatch. destruct ab as [[d p]|].
  - destruct (Hr d p eq_refl) as (Hab & run & Hrun & Hcfg). rewrite Hrun.
    destruct (abProxyToGroup_loop closure worlds reqHost hopped (en_record en) (en_latency en) d pin whole r body run _ w Hs Hc Hcfg)
      as (e & sv & run' & w' & main & fb & sr & -> & Hsent & _ & _ & Hst).
    cbn [mbind go_bind]. eexists _, _, _, _, _. split; [reflexivity|]. split; [|done]. rewrite Hsent. cbn [sv_sent app].
    destruct Hst as (_ & _ & Hok & Hfb & _). apply Forall_app. split; (eapply Forall_impl; [eassumption|]); intros x Hx.
    + destruct Hx as (H1' & H2' & _ & H3'). eexists true, _. split; [by apply stamp_unstamped, unstamped_refl|]. split_and!; [|done|done|exact H3'].
      right. destruct (stamp_failover d run (cast (m_backends m) (at_loc x)) r) as [?|(? & ? & ?)]; [by left|right]. split_and!; [done|done|eauto].
    + destruct Hx as (H1' & H2' & _ & H3'). eexists true, _. split; [by apply fallback_unstamped, unstamped_refl|]. split_and!; [|done|done|exact H3'].
      right. left. apply stamp_fallback_failover.
  - destruct (proxyToGroup_loop closure worlds reqHost hopped pin whole r body _ w Hs) as (e & sv & w' & new & -> & _ & Hsent & _ & _ & Hok & _).
    cbn [mbind go_bind]. eexists _, _, _, _, _. split; [reflexivity|]. split; [|done]. rewrite Hsent. cbn [sv_sent app].
    eapply Forall_impl; [exact Hok|]. intros x (H1' & H2' & H3'). eexists false, r. split; [apply unstamped_refl|]. split_and!; [by left|done|done|done].
Qed.

(** Other requests keep the cache's books, and end no fill but their own. *)
Record fair : Prop := {
  fr_woken f ca : en_woken en = Some f -> accounted ca -> accounted (f ca);
  fr_meanwhile ca : accounted ca -> accounted (en_meanwhile en ca);
  fr_fill ca p fl : fills ca !! p = Some fl -> fill_done fl = false ->
    exists fl', fills (en_meanwhile en ca) !! p = Some fl' /\ fill_done fl' = false;
}.

Section cached.
Context {W : Type} `{ResponseWriter W}.
Context (c : loc) (key : string) (ab : option (abDecision * loc)) (reqHost : string) (hopped : bool) (pin whole : string).
Context (r : request) (body : reqBody) (g : RouteGroup).
Hypothesis is_fair : fair.

Lemma ready_update m ca : loop_ready m g ab hopped pin whole r body -> loop_ready (update_cache c ca m) g ab hopped pin whole r body.
Proof. by intros []. Qed.

Lemma bypass_spec m (w : W) : loop_ready m g ab hopped pin whole r body ->
  exists e sent m' g' w', bypass closure worlds en ab reqHost hopped pin r body g m w = Ret (Proxied e, sent, m', g', w') /\
    Forall (forwarded m g hopped whole r) sent /\ m_caches m' = m_caches m /\ m_limiters m' = m_limiters m.
Proof.
  intros Hr. unfold bypass. destruct (dispatch_spec ab reqHost hopped pin whole r body g m (newRecorder "BYPASS" false, w) Hr)
    as (e & sent & m' & g' & w' & -> & Hs & Hc & Hl). cbn [mbind go_bind]. by eexists _, _, _, _, _.
Qed.

(** A fill this request owns has not ended. *)
Definition owns (owner : option positive) (ca : responseCache) : Prop :=
  forall f, owner = Some f -> exists fl, fills ca !! f = Some fl /\ fill_done fl = false.

Lemma endFill_open f fl ca : fills ca !! f = Some fl -> fill_done fl = false -> accounted ca ->
  exists ca', endFill key f ca = Ret ca' /\ accounted ca'.
Proof. intros Hf Hd Ha. unfold endFill. rewrite Hf, Hd. by eexists. Qed.

Lemma fill_spec owner m ca (w : W) :
  loop_ready m g ab hopped pin whole r body -> m_caches m !! c = Some ca -> accounted ca -> owns owner ca ->
  exists e sent m' g' w' ca', fill closure worlds en c key ab reqHost hopped pin r body g owner m w = Ret (Proxied e, sent, m', g', w') /\
    Forall (forwarded m g hopped whole r) sent /\ m_limiters m' = m_limiters m /\ m_caches m' = <[c := ca']> (m_caches m) /\ accounted ca'.
Proof.
  intros Hr Hc Ha Ho. unfold fill. destruct (dispatch_spec ab reqHost hopped pin whole r body g m (newRecorder "MISS" true, w) Hr)
    as (e & sent & m' & g' & w' & -> & Hs & Hm & Hl). cbn [mbind go_bind]. rewrite Hm, Hc.
  assert (forall x, exists ca1, (match x with None => Ret (en_meanwhile en ca) | Some e => default Panic (put key (with_stored (en_stored en) e) (en_put en) (en_meanwhile en ca)) end) = Ret ca1 /\
    accounted ca1 /\ fills ca1 = fills (en_meanwhile en ca)) as Hput.
  { intros [x|]; [|exists (en_meanwhile en ca); split; [done|split; [by apply fr_meanwhile|done]]].
    destruct (put_spec key (with_stored (en_stored en) x) (en_put en) (en_meanwhile en ca)) as (ca1 & -> & H1' & _ & _ & _ & H2' & _); [by apply fr_meanwhile|].
    by exists ca1. }
  assert (exists ca1, (match e, entry (fst w') with Aborted, _ | _, None => Ret (en_meanwhile en ca)
     | _, Some e => default Panic (put key (with_stored (en_stored en) e) (en_put en) (en_meanwhile en ca)) end) = Ret ca1 /\
    accounted ca1 /\ fills ca1 = fills (en_meanwhile en ca)) as (ca1 & -> & Ha1 & Hf1).
  { destruct e; [apply (Hput (entry (fst w')))..|apply (Hput None)]. }
  cbn [mbind go_bind].
  assert (exists ca2, match owner with Some f => endFill key f ca1 | None => Ret ca1 end = Ret ca2 /\ accounted ca2) as (ca2 & -> & Ha2).
  { destruct owner as [f|]; [|by exists ca1]. destruct (Ho f eq_refl) as (fl & Hfl & Hd). destruct (fr_fill is_fair ca f fl Hfl Hd) as (fl' & Hfl' & Hd').
    apply (endFill_open f fl'); [by rewrite Hf1|done|done]. }
  cbn [mbind go_bind]. eexists _, _, _, _, _, ca2. split; [reflexivity|]. split_and!; [done|done|cbn; by rewrite Hm|done].
Qed.

Lemma get_fills k t ca : fills (get k t ca).2 = fills ca.
Proof. unfold get. destruct (entries ca !! k); [|done]. by destruct (expired _ _ _). Qed.

Lemma beginFill_spec ca : accounted ca ->
  let '(f, owner, ca') := beginFill key ca in accounted ca' /\ (owner = true -> owns (Some f) ca').
Proof.
  intros Ha. unfold beginFill. destruct (inflight ca !! key); [done|]. split; [done|]. intros _ f [= <-].
  eexists. split; [apply lookup_insert_eq|done].
Qed.

Lemma serveWithCache_spec cacheable m ca (w : W) :
  loop_ready m g ab hopped pin whole r body -> m_caches m !! c = Some ca -> accounted ca ->
  exists o sent m' g' w' ca', serveWithCache closure worlds en c key ab reqHost hopped pin r body g cacheable m w = Ret (o, sent, m', g', w') /\
    Forall (forwarded m g hopped whole r) sent /\ m_limiters m' = m_limiters m /\ m_caches m' = <[c := ca']> (m_caches m) /\ accounted ca' /\
    (cacheable = false -> ca' = ca /\ exists e, o = Proxied e) /\ ((forall e, o <> Proxied e) -> sent = []) /\ o <> Refused.
Proof.
  intros Hr Hc Ha. unfold serveWithCache. destruct cacheable; cbn [negb].
  2: { destruct (bypass_spec m w Hr) as (e & sent & m' & g' & w' & -> & Hs & Hm & Hl). eexists _, _, _, _, _, ca. split; [reflexivity|].
       rewrite insert_id by done. split_and!; try done; [by intros _; split; [|eexists]|]. by intros He'; destruct (He' e). }
  rewrite Hc. pose proof (get_accounted key (en_lookup en) ca Ha) as Hg1. destruct (get key (en_lookup en) ca) as [[e|] ca1]; cbn [snd] in Hg1.
  { eexists _, _, _, _, _, ca1. split; [reflexivity|]. by split_and!. }
  case_decide as Hhead.
  { destruct (bypass_spec (update_cache c ca1 m) w (ready_update _ _ Hr)) as (e & sent & m' & g' & w' & -> & Hs & Hm & Hl).
    eexists _, _, _, _, _, ca1. split; [reflexivity|]. split_and!; try done. by intros He'; destruct (He' e). }
  pose proof (beginFill_spec ca1 Hg1) as Hb. destruct (beginFill key ca1) as [[f owner] ca2]. destruct Hb as [Ha2 Ho].
  assert (forall ow ca3, accounted ca3 -> owns ow ca3 -> exists o sent m' g' w' ca',
    fill closure worlds en c key ab reqHost hopped pin r body g ow (update_cache c ca3 m) w = Ret (o, sent, m', g', w') /\
    Forall (forwarded m g hopped whole r) sent /\ m_limiters m' = m_limiters m /\ m_caches m' = <[c := ca']> (m_caches m) /\ accounted ca' /\
    (true = false -> ca' = ca /\ exists e, o = Proxied e) /\ ((forall e, o <> Proxied e) -> sent = []) /\ o <> Refused) as Hfill.
  { intros ow ca3 Ha3 Ho3. destruct (fill_spec ow (update_cache c ca3 m) ca3 w (ready_update _ _ Hr)) as (e & sent & m' & g' & w' & ca' & -> & Hs & Hl & Hm & Ha'); [apply lookup_insert_eq|done|done|].
    eexists _, _, _, _, _, ca'. split; [reflexivity|]. cbn in Hm. rewrite insert_insert_eq in Hm. split_and!; try done. by intros He'; destruct (He' e). }
  destruct owner; [apply Hfill; auto|].
  assert (accounted (add_waiter f ca2)) as Ha3 by done. destruct (en_woken en) as [others|] eqn:Hw.
  2: { eexists _, _, _, _, _, _. split; [reflexivity|]. by split_and!. }
  pose proof (get_accounted key (en_relookup en) _ (fr_woken is_fair others _ Hw Ha3)) as Hg2.
  destruct (get key (en_relookup en) (others (add_waiter f ca2))) as [[e|] ca4]; cbn [snd] in Hg2.
  { eexists _, _, _, _, _, ca4. split; [reflexivity|]. by split_and!. }
  by apply Hfill.
Qed.
End cached.
End dispatched.

(** ** The A/B decision on the way *)

(** The same request but for its variant header and query. *)
Definition revariant (r r' : request) : Prop :=
  req_Method r = req_Method r' /\ req_Path r = req_Path r' /\ req_RemoteAddr r = req_RemoteAddr r' /\
  forall k, k <> variant_key -> req_Header r !! k = req_Header r' !! k.

Lemma Del_ne k n (h : header) : k <> CanonicalHeaderKey n -> Del n h !! k = h !! k.
Proof. intros Hk. unfold Del. by rewrite lookup_delete_ne. Qed.

Lemma notePinned_cfg v nonce t frozen run : r_cfg (notePinned v nonce t frozen run) = r_cfg run.
Proof. unfold notePinned. by destruct frozen; case_decide. Qed.

Lemma notePinned_id v nonce t frozen run : r_id (notePinned v nonce t frozen run) = r_id run.
Proof. unfold notePinned. by destruct frozen; case_decide. Qed.

Lemma abAssign_request dr now cfg path hopped authHop failoverHop run w r :
  let x := abAssign dr now cfg path hopped authHop failoverHop run w r in
  revariant (snd (fst x)) r /\ r_cfg (snd x) = r_cfg run /\ r_id (snd x) = r_id run.
Proof.
  unfold abAssign. set (r1 := set_Header (Del abVariantHeader (req_Header r)) r).
  assert (revariant r1 r) as Hr1 by (split_and!; [done..|]; intros k Hk; by apply Del_ne).
  destruct (hasPrefixAny path (ab_Exclude cfg)); [done|].
  destruct (if authHop then _ else None) as [v|]; [destruct failoverHop; [by destruct (finish _ _ _ _ _)|done]|].
  destruct (_ ≫= _) as [p|]; [split; [done|]; cbn [snd]; destruct hopped; [done|split; [apply notePinned_cfg|apply notePinned_id]]|].
  split; [|done]. cbn [fst snd]. unfold assign_unpinned.
  assert (forall q, revariant (set_RawQuery q r1) r) as Hq by (intros q; by destruct Hr1 as (? & ? & ? & ?)).
  destruct (ab_Override cfg); [destruct (cutQueryOverride (req_RawQuery r1)) as [[val|] rest]|]; cbn [mbind option_bind];
    [destruct (abValidVariant val); [done|]|..]; (destruct (abFrozen _); [done|]; case_decide; done).
Qed.

Lemma same_upgrade (h h' : header) : h !! "Connection" = h' !! "Connection" -> h !! "Upgrade" = h' !! "Upgrade" -> upgradeType h = upgradeType h'.
Proof.
  intros Hc Hu. unfold upgradeType, Get, Values. change (CanonicalHeaderKey "Connection") with "Connection".
  change (CanonicalHeaderKey "Upgrade") with "Upgrade". by rewrite Hc, Hu.
Qed.

(** Dropping headers can only take an upgrade away. *)
Lemma dropped_upgrade ks (h : header) : printable (upgradeType h) = true -> printable (upgradeType (Del_all ks h)) = true.
Proof.
  intros Hp. assert (upgradeType (Del_all ks h) = upgradeType h \/ upgradeType (Del_all ks h) = "") as [-> | ->]; [|done|done].
  unfold upgradeType, Get, Values. change (CanonicalHeaderKey "Connection") with "Connection". change (CanonicalHeaderKey "Upgrade") with "Upgrade".
  destruct (Del_all_lookup ks h "Connection") as [-> | ->]; [|by right]. destruct (Del_all_lookup ks h "Upgrade") as [-> | ->]; [by left|right].
  by destruct (has_token _ _).
Qed.

(** ** What follows the gate *)

Section admitted.
Context {L : Type} `{Limiter L} `{FloatUnit} `{MapRange} {W : Type} `{ResponseWriter W}.
Context (closure : loc -> captured) (worlds : nat -> world) (en : weather).
Implicit Types s : server L.

(** What serving a request of [g] relies on: its backends, limiter, cache and
    run are in memory, its cursor does not overflow, others play fair. *)
Record group_ready (s : server L) (g : RouteGroup) (whole : string) (r : request) (body : reqBody) : Prop := {
  gr_polite : forall j, polite (worlds j);
  gr_fair : fair en;
  gr_valid : Forall (fun l => exists b, m_backends (s_mem s) !! l = Some b /\ is_Some (b_proxy b)) (g_Backends g);
  gr_cursor : cursor_ok g 4;
  gr_body : fresh_body whole body;
  gr_upgrade : printable (upgradeType (req_Header r)) = true;
  gr_limiter : forall p, g_limiter g = Some p -> is_Some (m_limiters (s_mem s) !! p);
  gr_cache : forall p, g_cache g = Some p -> exists ca, m_caches (s_mem s) !! p = Some ca /\ accounted ca;
  gr_run : forall p, g_ab g = Some p -> exists cfg run, g_abCfg g = Some cfg /\ m_runs (s_mem s) !! p = Some run /\ is_Some (r_cfg run);
}.

Lemma assign_ab_spec s h g origPath (w : W) r :
  (forall p, g_ab g = Some p -> exists cfg run, g_abCfg g = Some cfg /\ m_runs (s_mem s) !! p = Some run /\ is_Some (r_cfg run)) ->
  exists ab w' r' m', assign_ab en s h g origPath w r = Ret (ab, w', r', set_mem m' s) /\ revariant r' r /\
    m_backends m' = m_backends (s_mem s) /\ m_caches m' = m_caches (s_mem s) /\ m_limiters m' = m_limiters (s_mem s) /\
    (forall d p, ab = Some (d, p) -> g_ab g = Some p /\ exists run, m_runs m' !! p = Some run /\ is_Some (r_cfg run)) /\
    (forall p run, m_runs m' !! p = Some run -> exists run0, m_runs (s_mem s) !! p = Some run0 /\ r_id run = r_id run0).
Proof.
  intros Hg. unfold assign_ab. destruct (g_ab g) as [p|].
  - destruct (Hg p eq_refl) as (cfg & run & -> & Hr0 & Hcfg). rewrite Hr0.
    pose proof (abAssign_request (en_draws en) (en_ab en) cfg origPath (h_hopped h) (h_auth h) (h_failover h) run (w_Header w) r) as Ha.
    destruct (abAssign _ _ _ _ _ _ _ _ _ _) as [[[d hw] r'] run']. cbn [fst snd] in Ha. destruct Ha as (Hr & Hrun & Hid).
    eexists _, _, r', _. split; [reflexivity|]. split_and!; try done.
    + intros d' p' [= <- <-]. split; [done|]. exists run'. cbn. rewrite lookup_insert_eq. split; [done|]. by rewrite Hrun.
    + intros p' run2. cbn. destruct (decide (p' = p)) as [->|Hne]; [rewrite lookup_insert_eq; intros [= <-]; eauto|rewrite lookup_insert_ne by done; eauto].
  - eexists None, w, r, (s_mem s). split; [by destruct s|]. split_and!; eauto; done.
Qed.

(** A request with credentials, or for a part. *)
Definition private (r : request) : bool :=
  negb (bool_decide (Get (req_Header r) "Authorization" = "")) || negb (bool_decide (default [] (req_Header r !! "Cookie") = [])) ||
  negb (bool_decide (Get (req_Header r) "Range" = "")).

Lemma private_not_eligible r hc ttl ps path : private r = true -> cacheRequestEligible r hc ttl ps path = false.
Proof.
  unfold private, cacheRequestEligible. intros ->. destruct (_ || _); [done|]. by destruct (_ && _).
Qed.

Lemma revariant_private r r' : revariant r r' -> private r = private r'.
Proof.
  intros (_ & _ & _ & Hk). unfold private, Get, Values. change (CanonicalHeaderKey "Authorization") with "Authorization".
  change (CanonicalHeaderKey "Range") with "Range". by rewrite !Hk by done.
Qed.

(** The request that goes to the backend loop: the path stripped, headers
    dropped, nothing added. *)
Definition trimmed (g : RouteGroup) (r r' : request) : Prop :=
  req_Method r' = req_Method r /\ req_Path r' = strip_path g (req_Path r) /\ req_RemoteAddr r' = req_RemoteAddr r /\
  forall k, k <> variant_key -> req_Header r' !! k = req_Header r !! k \/ req_Header r' !! k = None.

Lemma serve_admitted_spec s h g whole reqHost r body (w : W) :
  group_ready s g whole r body ->
  exists o sent s' w', serve_admitted closure worlds en s h g reqHost r body w = Ret (o, sent, s', w') /\
    (exists r', trimmed g r r' /\ Forall (forwarded closure (s_mem s) g (h_hopped h) whole r') sent) /\
    m_limiters (s_mem s') = m_limiters (s_mem s) /\ s_auth s' = s_auth s /\ o <> Refused /\ ((forall e, o <> Proxied e) -> sent = []) /\
    (private r = true -> m_caches (s_mem s') = m_caches (s_mem s) /\ exists e, o = Proxied e).
Proof.
  intros Hr. unfold serve_admitted. set (r1 := set_Path (strip_path g (req_Path r)) r).
  destruct (assign_ab_spec s h g (req_Path r) w r1 (gr_run _ _ _ _ _ Hr)) as (ab & w1 & r2 & m1 & -> & Hrv & Hb & Hc & Hl & Hrun & Hids).
  cbn [mbind go_bind]. set (r3 := set_Header (Del_all (g_DropHeaders g) (req_Header r2)) r2). set (pin := sticky_pin g (h_hopped h) r1).
  assert (trimmed g r r3) as Htr.
  { destruct Hrv as (Hm & Hp & Ha & Hk). split_and!; [done|done|done|]. intros k Hkv. cbn [r3 req_Header set_Header].
    destruct (Del_all_lookup (g_DropHeaders g) (req_Header r2) k) as [-> | ->]; [left; by rewrite Hk|by right]. }
  assert (loop_ready worlds m1 g ab (h_hopped h) pin whole r3 body) as Hlr.
  { split; [|by apply Hr|done]. split; [apply Hr| |destruct (gr_cursor _ _ _ _ _ Hr); split; cbn; lia| |apply Hr|].
    - cbn [sv_store sv_group]. rewrite Hb. apply Hr.
    - unfold pin, sticky_pin. destruct (h_hopped h); [by rewrite andb_false_r|done].
    - apply dropped_upgrade. rewrite <- (gr_upgrade _ _ _ _ _ Hr). f_equal. by apply same_upgrade; apply Hrv. }
  assert (forall e, forwarded closure m1 g (h_hopped h) whole r3 e -> forwarded closure (s_mem s) g (h_hopped h) whole r3 e) as Hfw.
  { intros e (st & r' & ? & Hfl & ? & ? & ?). exists st, r'. rewrite <- Hb. split_and!; try done. destruct Hfl as [?|[?|(? & ? & p & run & ? & Hp & Hpt)]]; [by left|by right; left|right; right].
    destruct (Hids p run Hp) as (run0 & ? & Hid). split_and!; [done|done|]. exists p, run0. by rewrite <- Hid. }
  assert (private r = true -> cacheRequestEligible r2 (bool_decide (is_Some (g_cache g))) (g_CacheTTL g) (g_CachePaths g) (req_Path r) = false) as Hel.
  { intros Hp. apply private_not_eligible. by rewrite (revariant_private r2 r1). }
  cbn [s_mem set_mem]. destruct (g_cache g) as [c|] eqn:Hgc.
  - destruct (gr_cache _ _ _ _ _ Hr c Hgc) as (ca & Hca & Hacc). rewrite <- Hc in Hca.
    match goal with |- context [serveWithCache _ _ _ c ?key _ _ _ _ _ _ _ ?el _ _] =>
      destruct (serveWithCache_spec (L := L) closure worlds en c key ab reqHost (h_hopped h) pin whole r3 body g (gr_fair _ _ _ _ _ Hr) el m1 ca w1 Hlr Hca Hacc)
        as (o & sent & m' & g' & w' & ca' & -> & Hs & Hl' & Hm & _ & Hnc & Hns & Hnr) end.
    cbn [mbind go_bind]. eexists _, _, _, _. split; [reflexivity|]. split; [exists r3; split; [done|]; by eapply Forall_impl|].
    cbn. rewrite Hl', Hm. split_and!; try done. intros Hp. rewrite (Hel Hp) in Hnc. destruct (Hnc eq_refl) as [-> Ho].
    by rewrite insert_id, Hc.
  - destruct (dispatch_spec closure worlds en ab reqHost (h_hopped h) pin whole r3 body g m1 w1 Hlr) as (e & sent & m' & g' & w' & -> & Hs & Hm & Hl').
    cbn [mbind go_bind]. eexists _, _, _, _. split; [reflexivity|]. split; [exists r3; split; [done|]; by eapply Forall_impl|].
    cbn. rewrite Hl', Hm. split_and!; try done; [by intros He; destruct (He e)|]. intros _. split; [done|by eexists].
Qed.
End admitted.

(** ** Through the handler *)

Definition actor_key : string := "X-Pmgr-Actor".

(** The request as the proxy trusts it. *)
Definition trusted (r : request) : request := set_Header (strip_hop (Del ActorHeader (req_Header r))) r.

Lemma trusted_lookup r k : k ∉ [actor_key; PeerHopHeader; PeerAuthHeader; failover_key] -> req_Header (trusted r) !! k = req_Header r !! k.
Proof.
  intros Hk. rewrite !not_elem_of_cons in Hk. destruct Hk as (H1 & H2 & H3 & H4 & _). cbn [trusted req_Header set_Header].
  unfold strip_hop. by rewrite !Del_ne by done.
Qed.

Lemma trusted_gone r k : k ∈ [actor_key; PeerHopHeader; PeerAuthHeader; failover_key] -> req_Header (trusted r) !! k = None.
Proof.
  intros Hk. cbn [trusted req_Header set_Header]. unfold strip_hop. rewrite !elem_of_cons in Hk.
  destruct Hk as [-> |[-> |[-> |[-> |Hk]]]]; [..|unfold Del; apply lookup_delete_eq|by apply not_elem_of_nil in Hk]; rewrite Del_ne by done; unfold Del.
  - rewrite !lookup_delete_ne by done. apply lookup_delete_eq.
  - rewrite lookup_delete_ne by done. apply lookup_delete_eq.
  - apply lookup_delete_eq.
Qed.

Lemma trusted_rlKey r nets : rlKey (trusted r) nets = rlKey r nets.
Proof.
  unfold rlKey, realClientIP. change (req_RemoteAddr (trusted r)) with (req_RemoteAddr r).
  assert (Get (req_Header (trusted r)) "X-Forwarded-For" = Get (req_Header r) "X-Forwarded-For") as ->; [|done].
  unfold Get, Values. change (CanonicalHeaderKey "X-Forwarded-For") with "X-Forwarded-For". rewrite trusted_lookup; [done|set_solver].
Qed.

Lemma trusted_private r : private (trusted r) = private r.
Proof.
  unfold private, Get, Values. change (CanonicalHeaderKey "Authorization") with "Authorization".
  change (CanonicalHeaderKey "Range") with "Range". by rewrite !trusted_lookup by set_solver.
Qed.

(** The header the gate leaves differs in the actor only. *)
Definition reactor (r : request) (h : header) : Prop := forall k, k <> actor_key -> h !! k = req_Header r !! k.

Lemma stampActor_reactor a r u now : reactor r (stampActor a r u now).
Proof. intros k Hk. unfold stampActor. case_decide; [done|]. unfold Set_. by rewrite lookup_insert_ne. Qed.

Lemma reactor_private r h : reactor r h -> private (set_Header h r) = private r.
Proof.
  intros Hk. unfold private, Get, Values. cbn [req_Header set_Header]. change (CanonicalHeaderKey "Authorization") with "Authorization".
  change (CanonicalHeaderKey "Range") with "Range". by rewrite !Hk by done.
Qed.

Lemma Cookie_private r name v : Cookie r name = Some v -> private r = true.
Proof.
  intros Hc. unfold private. destruct (req_Header r !! "Cookie") as [[|c cs]|] eqn:Hh.
  - unfold Cookie, Values in Hc. change (CanonicalHeaderKey "Cookie") with "Cookie" in Hc. by rewrite Hh in Hc.
  - cbn [default]. rewrite (bool_decide_false (c :: cs = [])) by done. by rewrite orb_true_r.
  - rewrite (Cookie_none _ _ Hh) in Hc. done.
Qed.

Lemma bearer_private r tok : bearer_token r tok -> private r = true.
Proof. unfold bearer_token, private. intros ->. by rewrite bool_decide_false. Qed.

Lemma grant_private post a r g now u : grant post a r g now (Some u) -> private r = true.
Proof.
  intros Hg. inversion Hg; subst; [by eapply Cookie_private|by eapply bearer_private|by eapply bearer_private].
Qed.

Section through.
Context {L : Type} `{Limiter L} `{FloatUnit} `{MapRange} {W : Type} `{ResponseWriter W}.
Context (post : string -> option (Z * string)).
Context (closure : loc -> captured) (worlds : nat -> world) (en : weather) (uri : string).
Implicit Types s : server L.

Notation ServeHTTP := (ServeHTTP post closure worlds en uri).

Definition matched (s : server L) (r : request) (g : RouteGroup) : Prop :=
  route (r_groups (s_router s)) (hostOnly (req_Host r)) (req_Path r) = Some g /\
  tombstoned (r_tombstones (s_router s)) (en_tomb en) (hostOnly (req_Host r)) (req_Path r) (Some g) = false.

Lemma gate_spec s r g reqHost w :
  let '(v, s1) := gate post en uri s r g reqHost w in
  s_mem s1 = s_mem s /\
  match v with
  | Refuse _ => True
  | Pass hd => reactor r hd /\
      if g_AuthRequired g
      then exists a who, s_auth s = Some a /\ grant post a r g (en_auth en) who /\
             hd = match who with Some u => stampActor a r u (en_auth en) | None => req_Header r end
      else hd = req_Header r
  end.
Proof.
  unfold gate. destruct (g_AuthRequired g); [|done]. destruct (s_auth s) as [a|]; [|done].
  destruct (authorize post a w r uri g (en_auth en)) as [v a'] eqn:Ha. split; [done|]. destruct v as [hd|]; [|done].
  apply authorize_granted in Ha as (who & Hg & ->). split; [destruct who; [apply stampActor_reactor|done]|]. by exists a, who.
Qed.

(** The handler refuses, or serves a matched request it let through. *)
Lemma ServeHTTP_cases s r body (w : W) :
  (forall g p, matched s r g -> g_limiter g = Some p -> is_Some (m_limiters (s_mem s) !! p)) ->
  (exists s' w', ServeHTTP s r body w = Ret (Refused, [], s', w')) \/
  exists g m hd s1, matched s r g /\ charge en g (rlKey r (s_xffTrusted s)) (s_mem s) = Ret (true, m) /\
    gate post en uri (set_mem m s) (trusted r) g (hostOnly (req_Host r)) (w_Header w) = (Pass hd, s1) /\
    ServeHTTP s r body w = serve_admitted closure worlds en s1 (read_hop s (Del ActorHeader (req_Header r))) g (hostOnly (req_Host r))
      (set_Header hd (trusted r)) body w.
Proof.
  intros Hl. unfold Pipeline.ServeHTTP. cbn [req_Header set_Header req_Host req_Path].
  change (set_Header (strip_hop (Del ActorHeader (req_Header r))) (set_Header (Del ActorHeader (req_Header r)) r)) with (trusted r).
  destruct (handleOAuthWellKnown _ _ _ _ _); [left; by eexists _, _|].
  change (req_Host (trusted r)) with (req_Host r). change (req_Path (trusted r)) with (req_Path r).
  destruct (route _ _ _) as [g|] eqn:Hr; (destruct (tombstoned _ _ _ _ _) eqn:Ht; [left; by eexists _, _|]).
  2: { destruct (unrouted _ _ _ _ _). left. by eexists _, _. }
  assert (matched s r g) as Hm by done. rewrite trusted_rlKey.
  assert (exists ok m, charge en g (rlKey r (s_xffTrusted s)) (s_mem s) = Ret (ok, m)) as (ok & m & Hc).
  { unfold charge. destruct (g_limiter g) as [p|] eqn:Hg; [|by eexists _, _]. destruct (Hl g p Hm Hg) as [l ->].
    destruct (lim_Allow _ _ _ _ _). by eexists _, _. }
  rewrite Hc. cbn [mbind go_bind]. destruct ok; cbn [negb]; [|left; by eexists _, _].
  destruct (gate _ _ _ _ _ _ _ _) as [[hd|resp] s1] eqn:Hgate; [|left; by eexists _, _]. right. by exists g, m, hd, s1.
Qed.

(** What a request that matches relies on; the gate and the charge keep it. *)
Definition servable (s : server L) (r : request) (whole : string) (body : reqBody) : Prop :=
  forall g, matched s r g -> group_ready worlds en s g whole r body.

Lemma servable_limiter s r whole body : servable s r whole body ->
  forall g p, matched s r g -> g_limiter g = Some p -> is_Some (m_limiters (s_mem s) !! p).
Proof. intros Hs g p Hm. by apply (gr_limiter _ _ _ _ _ _ _ (Hs g Hm)). Qed.

Lemma charge_spec g key m ok m' : charge en g key m = Ret (ok, m') ->
  m_backends m' = m_backends m /\ m_caches m' = m_caches m /\ m_runs m' = m_runs m /\
  match g_limiter g with
  | None => ok = true /\ m' = m
  | Some p => exists l, m_limiters m !! p = Some l /\
      let '(b, l') := lim_Allow key (en_limit en) (en_limit_later en) (en_redis en) l in ok = b /\ m_limiters m' = <[p := l']> (m_limiters m)
  end.
Proof.
  unfold charge. destruct (g_limiter g) as [p|]; [|by intros [= <- <-]]. destruct (m_limiters m !! p) as [l|]; [|done].
  destruct (lim_Allow _ _ _ _ _) as [b l'] eqn:Hal. intros [= <- <-]. split_and!; try done. exists l. split; [done|]. by rewrite Hal.
Qed.

Lemma ready_through s m s1 g whole r body hd ok :
  charge en g (rlKey r (s_xffTrusted s)) (s_mem s) = Ret (ok, m) -> s_mem s1 = m -> reactor (trusted r) hd ->
  group_ready worlds en s g whole r body -> group_ready worlds en s1 g whole (set_Header hd (trusted r)) body.
Proof.
  intros Hc Hs1 Hre [H1' H2' H3' H4' H5' H6' H7' H8' H9']. apply charge_spec in Hc as (Hb & Hca & Hr & Hl). subst m.
  split; try done; try (by rewrite ?Hb, ?Hca, ?Hr).
  - rewrite <- H6'. f_equal. apply same_upgrade; cbn [req_Header set_Header]; rewrite Hre by done; apply trusted_lookup; set_solver.
  - intros p Hp. rewrite Hp in Hl. destruct Hl as (l & Hl & Hal). destruct (lim_Allow _ _ _ _ _) as [b l']. destruct Hal as [_ ->].
    rewrite lookup_insert_eq. by eexists.
Qed.

(** What a request that was let through comes to. *)
Lemma ServeHTTP_spec s r whole body (w : W) :
  servable s r whole body ->
  exists o sent s' w', ServeHTTP s r body w = Ret (o, sent, s', w') /\
  ((o = Refused /\ sent = []) \/
   exists g m hd s1, matched s r g /\ charge en g (rlKey r (s_xffTrusted s)) (s_mem s) = Ret (true, m) /\
     gate post en uri (set_mem m s) (trusted r) g (hostOnly (req_Host r)) (w_Header w) = (Pass hd, s1) /\ reactor (trusted r) hd /\
     (exists r', trimmed g (set_Header hd (trusted r)) r' /\
        Forall (forwarded closure (s_mem s) g (h_hopped (read_hop s (Del ActorHeader (req_Header r)))) whole r') sent) /\
     m_limiters (s_mem s') = m_limiters m /\ o <> Refused /\ ((forall e, o <> Proxied e) -> sent = []) /\
     (private r = true -> m_caches (s_mem s') = m_caches (s_mem s) /\ exists e, o = Proxied e)).
Proof.
  intros Hs. destruct (ServeHTTP_cases s r body w (servable_limiter s r whole body Hs)) as [(s' & w' & ->)|(g & m & hd & s1 & Hm & Hc & Hg & ->)].
  { eexists _, _, _, _. split; [reflexivity|]. by left. }
  pose proof (gate_spec (set_mem m s) (trusted r) g (hostOnly (req_Host r)) (w_Header w)) as Hgs. rewrite Hg in Hgs. destruct Hgs as (Hs1 & Hre & _).
  cbn [s_mem set_mem] in Hs1.
  destruct (serve_admitted_spec closure worlds en s1 (read_hop s (Del ActorHeader (req_Header r))) g whole (hostOnly (req_Host r))
    (set_Header hd (trusted r)) body w) as (o & sent & s' & w' & -> & (r' & Ht & Hf) & Hl & Ha & Ho & Hn & Hp).
  { by eapply ready_through; [exact Hc|exact Hs1|exact Hre|apply Hs]. }
  eexists _, _, _, _. split; [reflexivity|]. right. exists g, m, hd, s1. destruct (charge_spec _ _ _ _ _ Hc) as (Hb & Hca & Hrn & _).
  rewrite Hs1 in Hl, Hp, Hf. split_and!; try done.
  - exists r'. split; [done|]. eapply Forall_impl; [exact Hf|]. intros e (st & r2 & ? & Hfl & ? & ? & ?). exists st, r2. rewrite <- Hb.
    split_and!; try done. unfold flagged. by rewrite <- Hrn.
  - rewrite <- Hca. intros Hpr. apply Hp. rewrite reactor_private by done. by rewrite trusted_private.
Qed.

(** C1. Nothing is behind the gate but what it let through. Every request ends
    (one that asks to upgrade to a protocol with unprintable characters apart,
    which reaches no backend); one that is refused (no route, a tombstone, a rate
    limit, the gate) sends nothing to any backend. Any other was matched, and
    when its route asks for authorization the gate is configured and granted the
    request as the proxy reads it, without the headers only proxies may set: a
    login host, a client in a trusted network, or a user the route allows, known
    by a cookie, a token of the dashboard or an access token for this resource.
    And what a user is let through with never comes out of, or goes into, the
    shared cache. *)
Theorem gate_guards_backends s r whole body (w : W) :
  servable s r whole body ->
  exists o sent s' w', ServeHTTP s r body w = Ret (o, sent, s', w') /\
  match o with
  | Refused => sent = []
  | _ => exists g, matched s r g /\
      (g_AuthRequired g = true -> exists a who, s_auth s = Some a /\ grant post a (trusted r) g (en_auth en) who /\
         (who <> None -> (exists e, o = Proxied e) /\ m_caches (s_mem s') = m_caches (s_mem s)))
  end.
Proof.
  intros Hs. destruct (ServeHTTP_spec s r whole body w Hs) as (o & sent & s' & w' & -> & Hcases). eexists _, _, _, _. split; [reflexivity|].
  destruct Hcases as [[-> ->]|(g & m & hd & s1 & Hm & Hc & Hg & Hre & _ & _ & Ho & _ & Hp)]; [done|].
  enough (exists g, matched s r g /\ (g_AuthRequired g = true -> exists a who, s_auth s = Some a /\ grant post a (trusted r) g (en_auth en) who /\
    (who <> None -> (exists e, o = Proxied e) /\ m_caches (s_mem s') = m_caches (s_mem s)))) as Hgoal by (by destruct o).
  exists g. split; [done|]. intros Hauth. pose proof (gate_spec (set_mem m s) (trusted r) g (hostOnly (req_Host r)) (w_Header w)) as Hgs.
  rewrite Hg, Hauth in Hgs. destruct Hgs as (_ & _ & a & who & Ha & Hgr & _). exists a, who. split_and!; [done|done|]. intros Hw.
  destruct who as [u|]; [|done]. destruct Hp as [? ?]; [|done]. apply grant_private in Hgr. by rewrite trusted_private in Hgr.
Qed.

(** What a backend may see of the headers proxies trust. *)
Definition trust_ok (s : server L) (r : request) (g : RouteGroup) (e : loc * outreq * exchange) : Prop :=
  let h := o_Header (snd (fst e)) in
  let b := cast (m_backends (s_mem s)) (at_loc e) in
  (h !! actor_key = None \/
   exists a u, g_AuthRequired g = true /\ s_auth s = Some a /\ grant post a (trusted r) g (en_auth en) (Some u) /\
     h !! actor_key = stampActor a (trusted r) u (en_auth en) !! actor_key) /\
  (b_Learned b = false -> h !! PeerHopHeader = None /\ h !! PeerAuthHeader = None) /\
  (h !! PeerAuthHeader = None \/ (k_hopAuth (closure (at_loc e)) <> "" /\ h !! PeerAuthHeader = Some [k_hopAuth (closure (at_loc e))])) /\
  (Get (req_Header r) PeerHopHeader <> "" -> b_Learned b = false) /\
  (h !! failover_key = None \/
   (h !! failover_key = Some ["1"] /\ b_Learned b = true /\
    exists p run, g_ab g = Some p /\ m_runs (s_mem s) !! p = Some run /\ b_peerTestID b = r_id run)).

(** A failover header is the sender's, or does not arrive. *)
Lemma the_request_failover k b st r whole :
  o_Header (the_request k b st r whole) !! failover_key = req_Header r !! failover_key \/ o_Header (the_request k b st r whole) !! failover_key = None.
Proof.
  unfold the_request, Director. destruct (b_Learned b); cbn [o_Header].
  - destruct (forwarded_lookup r (if negb (bool_decide (k_hopAuth k = "")) && st then Set_ PeerAuthHeader (k_hopAuth k) (Set_ PeerHopHeader "1" (req_Header r))
      else Set_ PeerHopHeader "1" (req_Header r)) failover_key) as [-> | ->]; [set_solver|left|by right].
    destruct (_ && _); unfold Set_; by rewrite !lookup_insert_ne by done.
  - apply forwarded_lookup. set_solver.
Qed.

(** An actor header arrives as the gate left it, or not at all. *)
Lemma the_request_actor k b st r whole :
  o_Header (the_request k b st r whole) !! actor_key = req_Header r !! actor_key \/ o_Header (the_request k b st r whole) !! actor_key = None.
Proof.
  unfold the_request, Director. destruct (b_Learned b); cbn [o_Header].
  - destruct (forwarded_lookup r (if negb (bool_decide (k_hopAuth k = "")) && st then Set_ PeerAuthHeader (k_hopAuth k) (Set_ PeerHopHeader "1" (req_Header r))
      else Set_ PeerHopHeader "1" (req_Header r)) actor_key) as [-> | ->]; [set_solver|left|by right].
    destruct (_ && _); unfold Set_; by rewrite !lookup_insert_ne by done.
  - apply forwarded_lookup. set_solver.
Qed.

Lemma read_hop_get s r : h_hopped (read_hop s (Del ActorHeader (req_Header r))) = negb (bool_decide (Get (req_Header r) PeerHopHeader = "")).
Proof. cbn [read_hop h_hopped]. unfold Get, Values. by rewrite Del_ne. Qed.

(** C2. The headers proxies trust never come from a client. Whatever a request
    carries (one that asks to upgrade to an unprintable protocol apart, which
    reaches no backend), no backend it is sent to sees an attribution header but
    the signed one of a user the gate granted it to; no backend of this host sees
    the headers of a hop, its announcement, its token or its failover mark; a peer
    sees the token of a hop only where it was configured with one, and the
    failover mark only of the route's own test, which that peer runs; and a
    request that says it comes from a peer goes to no other peer. *)
Theorem trust_headers_are_ours s r whole body (w : W) :
  servable s r whole body ->
  exists o sent s' w', ServeHTTP s r body w = Ret (o, sent, s', w') /\
    (sent <> [] -> exists g, matched s r g /\ Forall (trust_ok s r g) sent).
Proof.
  intros Hs. destruct (ServeHTTP_spec s r whole body w Hs) as (o & sent & s' & w' & -> & Hcases). eexists _, _, _, _. split; [reflexivity|].
  destruct Hcases as [[_ ->]|(g & m & hd & s1 & Hm & Hc & Hg & Hre & (r' & (_ & _ & _ & Ht) & Hf) & _)]; [done|]. intros _. exists g. split; [done|].
  eapply Forall_impl; [exact Hf|]. intros e (st & r2 & [_ Hu] & Hfl & Hin & Hl & Ho). rewrite read_hop_get in Hl.
  assert (forall k, k <> variant_key -> k <> failover_key -> req_Header r2 !! k = hd !! k \/ req_Header r2 !! k = None) as Hk
    by (intros k H1' H2'; rewrite Hu by done; by apply (Ht k)).
  assert (forall k, k ∈ [PeerHopHeader; PeerAuthHeader] -> req_Header r2 !! k = None) as Hgone.
  { intros k Hin'. rewrite !elem_of_cons in Hin'. destruct Hin' as [-> |[-> |Hin']]; [..|by apply not_elem_of_nil in Hin'];
      (match goal with |- _ !! ?k = _ => destruct (Hk k) as [-> |?]; [done|done| |done] end; rewrite Hre by done; apply trusted_gone; set_solver). }
  unfold trust_ok. rewrite Ho. destruct (hop_headers (closure (at_loc e)) (cast (m_backends (s_mem s)) (at_loc e)) st r2 whole) as [Hh1 Hh2];
    [apply Hgone; set_solver..|]. split_and!; [|exact Hh1|destruct Hh2 as [?|(_ & ? & ?)]; [by left|by right]| |].
  - destruct (the_request_actor (closure (at_loc e)) (cast (m_backends (s_mem s)) (at_loc e)) st r2 whole) as [-> | ->]; [|by left].
    destruct (Hk actor_key) as [-> | ->]; [done|done| |by left].
    pose proof (gate_spec (set_mem m s) (trusted r) g (hostOnly (req_Host r)) (w_Header w)) as Hgs. rewrite Hg in Hgs. destruct Hgs as (_ & _ & Hgs).
    destruct (g_AuthRequired g) eqn:Hauth; [|left; rewrite Hgs; apply trusted_gone; set_solver].
    destruct Hgs as (a & [u|] & Ha & Hgr & ->); [right; by exists a, u|left; apply trusted_gone; set_solver].
  - intros Hhop. destruct (b_Learned _); [|done]. specialize (Hl eq_refl). by rewrite bool_decide_false in Hl by done.
  - assert (req_Header r' !! failover_key = None) as Hgone'.
    { destruct (Ht failover_key) as [-> |?]; [done| |done]. cbn [req_Header set_Header]. rewrite Hre by done. apply trusted_gone. set_solver. }
    destruct (the_request_failover (closure (at_loc e)) (cast (m_backends (s_mem s)) (at_loc e)) st r2 whole) as [-> | ->]; [|by left].
    rewrite Hgone' in Hfl. destruct Hfl as [?|[?|(? & ? & ?)]]; [by left|by left|by right].
Qed.

(** Every request of a limited route is charged, whoever sends it. If the
    route was matched and neither OAuth metadata nor a tombstone answers, its
    limiter is asked exactly once, with a key made of the client's address alone:
    neither the header of a hop nor any other it may add changes that. Refused,
    the client gets a 429 that says when to come back, and nothing is sent. *)
Theorem every_match_is_charged s r whole body (w : W) g p l :
  servable s r whole body -> matched s r g -> g_limiter g = Some p -> m_limiters (s_mem s) !! p = Some l ->
  handleOAuthWellKnown (s_auth s) (w_Header w) (trusted r) (r_groups (s_router s)) (hostOnly (req_Host r)) = None ->
  let '(ok, l') := lim_Allow (rlKey r (s_xffTrusted s)) (en_limit en) (en_limit_later en) (en_redis en) l in
  exists o sent s' w', ServeHTTP s r body w = Ret (o, sent, s', w') /\ m_limiters (s_mem s') = <[p := l']> (m_limiters (s_mem s)) /\
    (ok = false -> o = Refused /\ sent = [] /\ w' = send (too_many (g_RateRPM g) (w_Header w)) w).
Proof.
  intros Hs [Hroute Htomb] Hlim Hl Hwk. destruct (lim_Allow _ _ _ _ _) as [ok l'] eqn:Hal.
  unfold Pipeline.ServeHTTP. cbn [req_Header set_Header req_Host req_Path].
  change (set_Header (strip_hop (Del ActorHeader (req_Header r))) (set_Header (Del ActorHeader (req_Header r)) r)) with (trusted r).
  rewrite Hwk. change (req_Host (trusted r)) with (req_Host r). change (req_Path (trusted r)) with (req_Path r).
  rewrite Hroute, Htomb, trusted_rlKey. set (m := set_limiters (<[p:=l']> (m_limiters (s_mem s))) (s_mem s)).
  assert (charge en g (rlKey r (s_xffTrusted s)) (s_mem s) = Ret (ok, m)) as Hc by (unfold charge; by rewrite Hlim, Hl, Hal).
  rewrite Hc. cbn [mbind go_bind]. destruct ok; cbn [negb]; [|by eexists _, _, _, _].
  pose proof (gate_spec (set_mem m s) (trusted r) g (hostOnly (req_Host r)) (w_Header w)) as Hgs.
  destruct (gate _ _ _ _ _ _ _ _) as [[hd|resp] s1]; cbn [s_mem set_mem] in Hgs; destruct Hgs as [Hs1 Hre].
  - destruct (serve_admitted_spec closure worlds en s1 (read_hop s (Del ActorHeader (req_Header r))) g whole (hostOnly (req_Host r))
      (set_Header hd (trusted r)) body w) as (o & sent & s' & w' & -> & _ & Hl' & _).
    { eapply ready_through; [exact Hc|exact Hs1|apply Hre|by apply Hs]. }
    eexists _, _, _, _. split; [reflexivity|]. split; [by rewrite Hl', Hs1|done].
  - eexists _, _, _, _. split; [reflexivity|]. split; [by rewrite Hs1|done].
Qed.
End through.

(** ** Instances *)

Section examples.
#[local] Existing Instance separate_unit.
#[local] Existing Instance HybridLimiter.rateLimiter_Limiter.

(** A protected, limited route with one backend, and a user with a cookie who
    also sends headers of trust. *)
Definition ex_route : RouteGroup :=
  set_g_limiter (Some 7%positive) (set_g_AuthRequired true (set_g_Backends [1%positive] ex_protected)).
Definition ex_mem (rpm : Z) : memory RateLimiter.rateLimiter abRun :=
  mkMemory {[1%positive := up "http://10.0.0.1:80" 1]} {[7%positive := RateLimiter.newRateLimiter rpm]} ∅ ∅ 10%positive [].
Definition ex_server (rpm : Z) : server RateLimiter.rateLimiter :=
  mkServer (ex_mem rpm) (mkRouter [ex_route] {["app.example.com|" := 7%positive]} ∅ ∅ [] ∅ ∅) (Some ex_gate) None [] "".
Definition ex_weather : weather :=
  mkWeather 0 (1000 * Second) (1000 * Second) None (1000 * Second) 0 ex_draws (fun _ => 0) (fun _ => 0) 0 None 0 id 0 0.
Definition ex_up (k : nat) : world := mkWorld id id 0 (fun _ _ => Answer [] 200 ∅ ["hi"] true).
Definition ex_hostile : request :=
  set_Header (Set_ ActorHeader "root" (Set_ PeerHopHeader "1" (Set_ PeerAuthHeader "guess" (req_Header ex_request)))) ex_request.

Notation ex_serve rpm := (ServeHTTP (fun _ => None) ex_closure ex_up ex_weather "/x" (ex_server rpm) ex_hostile no_body new_client).

Lemma ex_matched rpm : matched ex_weather (ex_server rpm) ex_hostile ex_route.
Proof. split; vm_compute; reflexivity. Qed.

Lemma ex_servable rpm : servable ex_up ex_weather (ex_server rpm) ex_hostile "" no_body.
Proof.
  intros g [Hg _]. destruct (ex_matched rpm) as [Hr _]. rewrite Hr in Hg. injection Hg as <-. split; try done.
  - split; try done. intros ca p fl Hp Hd. by exists fl.
  - repeat constructor. eexists. split; [reflexivity|by eexists].
  - intros p [= <-]. by eexists.
Qed.

Lemma ex_outcome :
  match ex_serve 60 with
  | Ret (o, sent, _, c) => o = Proxied Served /\ length sent = 1%nat /\ fst (answered c) = 200 /\ cl_body c = "hi"
  | Panic => False
  end.
Proof. vm_compute. done. Qed.

Lemma gate_guards_backends_witness :
  exists sent s' c', ex_serve 60 = Ret (Proxied Served, sent, s', c') /\ length sent = 1%nat /\
    exists who, grant (fun _ => None) ex_gate (trusted ex_hostile) ex_route (1000 * Second) who.
Proof.
  destruct (gate_guards_backends (fun _ => None) ex_closure ex_up ex_weather "/x" (ex_server 60) ex_hostile "" no_body new_client (ex_servable 60))
    as (o & sent & s' & c' & Heq & Ho).
  pose proof ex_outcome as Hex. rewrite Heq in Hex. destruct Hex as (-> & Hlen & _). exists sent, s', c'. split; [exact Heq|]. split; [exact Hlen|].
  destruct Ho as (g & [Hg _] & Hgr). destruct (ex_matched 60) as [Hr _]. rewrite Hr in Hg. injection Hg as <-.
  destruct (Hgr eq_refl) as (a & who & [= <-] & Hw & _). by exists who.
Defined.

Lemma trust_headers_are_ours_witness :
  exists sent s' c', ex_serve 60 = Ret (Proxied Served, sent, s', c') /\ sent <> [] /\
    Forall (trust_ok (fun _ => None) ex_closure ex_weather (ex_server 60) ex_hostile ex_route) sent.
Proof.
  destruct (trust_headers_are_ours (fun _ => None) ex_closure ex_up ex_weather "/x" (ex_server 60) ex_hostile "" no_body new_client (ex_servable 60))
    as (o & sent & s' & c' & Heq & Ho).
  pose proof ex_outcome as Hex. rewrite Heq in Hex. destruct Hex as (-> & Hlen & _). exists sent, s', c'. split; [exact Heq|].
  assert (sent <> []) as Hne by (by destruct sent). split; [exact Hne|].
  destruct (Ho Hne) as (g & [Hg _] & Hf). destruct (ex_matched 60) as [Hr _]. rewrite Hr in Hg. by injection Hg as <-.
Defined.

(** A rate of 0 refuses at once. *)
Lemma every_match_is_charged_witness :
  exists s', ex_serve 0 = Ret (Refused, [], s', send (too_many 0 ∅) new_client).
Proof.
  assert (lim_Allow (rlKey ex_hostile []) (1000 * Second) (1000 * Second) None (RateLimiter.newRateLimiter 0) =
    (false, snd (RateLimiter.Allow (rlKey ex_hostile []) (1000 * Second) (RateLimiter.newRateLimiter 0)))) as Hal by (vm_compute; reflexivity).
  pose proof (every_match_is_charged (fun _ => None) ex_closure ex_up ex_weather "/x" (ex_server 0) ex_hostile "" no_body new_client ex_route 7%positive
    (RateLimiter.newRateLimiter 0) (ex_servable 0) (ex_matched 0) eq_refl eq_refl eq_refl) as Hc.
  cbn [s_xffTrusted ex_server en_limit en_limit_later en_redis ex_weather] in Hc. rewrite Hal in Hc.
  destruct Hc as (o & sent & s' & w' & Heq & _ & Ho). destruct (Ho eq_refl) as (-> & -> & ->). by exists s'.
Defined.
End examples.
